(* ===== verification/_CoqProject ===== *)
-Q . S2P
Prelude.v
Misc.v
Ord.v
Badger.v
BgStore.v
BgDb.v
Base58.v
Cbor.v
Address.v
Transaction.v
Block.v
Ledger.v
Difficulty.v
Economics.v
World.v
Apply.v
Pledge.v
Chain.v
Frames.v
ChainFacts.v
Supply.v
Consensus.v
ConsensusFacts.v
ConsensusChain.v
Strconv.v
Queue.v
QueueFacts.v
Pool.v
PoolFacts.v
PoolChain.v
Merkle.v
MerkleFacts.v
Mining.v
MiningFacts.v
ClassGroup.v
ClassGroupFacts.v
PowHash.v
PowHashFacts.v
Script.v
ScriptFacts.v
Exec.v
ExecFacts.v
IndexFacts.v
Reorg.v
Peer.v
PeerFacts.v
Sync.v
SyncFacts.v
SyncChain.v
ConnPool.v
Boot.v
Gateway.v
GatewayFacts.v
Limiter.v
Web.v
Contract.v
Rpc.v
RpcFacts.v
Explorer.v
Gossip.v
GossipFacts.v
Workers.v
Control.v
ControlFacts.v
