(* ===== verification/Prelude.v ===== *)
(** * Korthochain: a model of the node and what makes it correct

    The repository is a proof-of-work blockchain node in Go.  A node keeps blocks, their
    indexes and the issuance counters in a key-value store (badger, through
    [src/pkg/storage/store/bg]), and the balances, nonces and frozen amounts of its
    accounts in go-ethereum's state database ([src/pkg/blockchain]).  Transactions enter
    a pool ([src/pkg/txpool]), from which a miner ([src/pkg/miner]) makes blocks; blocks
    from the miner and from other nodes go through the consensus component
    ([src/pkg/consensus]), which puts them on the main chain, on branches or among the
    orphans and reorganizes the chain.  A node asks its peers for their blocks and answers
    their questions ([src/pkg/miner/insideclient.go], [src/pkg/server/rpcserver]), and takes
    transactions from wallets ([src/pkg/server/grpcserver], and [src/pkg/server/contractServer]
    for the wallets of Ethereum).  New blocks and transactions spread by gossip ([src/pkg/p2p],
    [src/pkg/controller]), and explorers read the chain ([src/pkg/server/chainserver]).

    ** Parts, in the order of the files

    - [Prelude], [Strconv]: bytes, Go's machine integers (a [Z] with its width written out,
      [+₆₄] and the like), the error monad [res] with its panics and the state monad [M] over it,
      their rules and tactics; [strconv]'s decimal numbers.
    - [Misc]: [storage/miscellaneous] and [util/math], the byte codecs.
    - [Ord]: [storage/typeclass], the order and equality of dynamic values.
    - [Badger], [BgStore]: the interface of the badger engine (a class with laws, and finite maps
      as an instance), and every operation of [storage/store/bg] on it.
    - [BgDb]: the same store as go-ethereum's trie uses it, with batches and iterators.
    - [Base58], [Address]: [util/addrcodec] and [address], the two kinds of addresses.
    - [Cbor], [Transaction], [Block]: the codecs made with cbor-gen, [crypto],
      [transaction] and [block].
    - [Ledger]: [blockchain/state.go] and [freeze.go], over go-ethereum's [StateDB] as a class.
    - [Difficulty], [Economics]: [util/difficulty] with [math/big]'s rounding, and the
      issuance schedule of [blockchain/types.go].
    - [World], [Apply], [Chain]: the [Blockchain] structure of [blockchain/blockchain.go],
      the loop over a block's transactions, and [AddBlock], [DeleteBlock], [ReorganizeChain] and
      their variants of [addAndDel.go], [syncblock.go], [checkblock.go], [contract.go].
      [Frames], [ChainFacts] and [Supply] hold the theorems about them.
    - [Pledge]: [blockchain/pledge.go] and [distribute.go], which no code calls.
    - [Consensus], [ConsensusFacts], [ConsensusChain]: [consensus] over the interface
      [blockchain.Blockchains], its theorems, and the chain of [Chain] as an implementation
      of that interface.
    - [Queue], [Pool] with [QueueFacts], [PoolFacts]: [txpool] over its interface
      [IBlockchain]; [PoolChain] gives it the chain.
    - [Merkle], [MerkleFacts]: [storage/merkle], with the arrays that Go slices share.
    - [Mining], [MiningFacts]: [NewBlock] and the handlers of the loop of [miner/miner.go], on the
      state of chain, consensus and pool together.
    - [ClassGroup], [PowHash] with their [Facts]: [util/difficulty/hash] (of which [miner/hash] is a
      copy), binary quadratic forms and the hash made of them.
    - [Script], [ScriptFacts]: [contract/parser], the token scripts: characters, words, grammar,
      operations and binary form.
    - [Exec], [ExecFacts]: [contract/exec] and [blockchain/token.go], scripts carried out.
    - [IndexFacts]: the index by height as a list of hashes, over [Chain]; [Reorg]: what a
      reorganization does to it.
    - [Peer], [PeerFacts]: the handlers of [server/rpcserver], by which a node answers another.
    - [Sync], [SyncFacts], [SyncChain]: the calls of [miner/insideclient.go], over the interface
      of a remote node (the class [Greeter]) and of the local chain (the class [SyncChain]); then
      both sides together, with [Chain] as the chain and [Peer] as the remote node.
    - [ConnPool], [Boot]: [miner/pool.go], and the processes of [InitBlockChain] as a
      transition system.
    - [Gateway], [GatewayFacts]: the requests of wallets, [server/grpcserver].
    - [Limiter]: [server/limiter.go] and [interceptor.go], through which every request goes.
    - [Web]: JSON values and the hexadecimal texts of the two HTTP servers.
    - [Contract]: the calls of contracts that are taken back ([blockchain/contract.go]) and their
      results ([contract/evm]).
    - [Rpc], [RpcFacts]: [server/contractServer], the methods of Ethereum's JSON-RPC.
    - [Explorer]: [server/chainserver].
    - [Gossip], [GossipFacts]: [p2p], the Lamport clock and the messages seen lately; the threads
      that use the clock are a transition system.
    - [Workers]: the goroutines of [miner/miner.go] and their channels, a transition system.
    - [Control], [ControlFacts]: [controller], what is done with gossip and with announced blocks.

    A Go method is a function of the same name.  Its receiver is the state of the monad,
    or an argument where it is not changed; an error is [Err], a panic [Panic], and
    [or_return] and [log_err] are the two ways the code treats an error.  What a failing
    operation has already changed stays changed, as in the code, unless it is rolled back.

    ** What is shown

    - Storage: maps, lists, sets and sorted sets of [BgStore] behave as their abstract
      counterparts (lists, but for [lset] and [lrange]: [BgStore.lists_refine]); a batch carries
      out its writes in order, but for those that are refused, which it does not report
      ([BgDb.batch_writes]).
    - Codecs: decoding inverts encoding for blocks, transactions and addresses; the text of an
      address determines it ([Block.block_roundtrip], [Address.text_roundtrip]).
    - Ledger: a transfer moves exactly the amount and the gas ([Ledger.transfer_exact]); a
      block of transfers and coinbases changes the sum of the balances by the issuance only
      ([Supply.supply_conserved]); over blocks without contract calls the nonces of an account
      are consecutive ([Supply.nonces_sequential]).
    - Chain: an operation that fails leaves the database and the account state as they were
      ([ChainFacts.failure_atomic]); one that succeeds records the block
      ([ChainFacts.AddBlock_adds]).  The index by height refines an append-only list of
      hashes under every history of additions ([IndexFacts.index_refines]), which
      [DeleteBlock] truncates, as far as it gets ([IndexFacts.DeleteBlock_truncates]).
    - Targets: what one retarget does to a target, and its bounds
      ([Difficulty.retarget_spec]).
    - Consensus: the pool of orphans stays consistent and the loops over it end
      unless the chain has a cycle of blocks or as many in a row as the fuel
      ([ConsensusFacts.ProcessBlock_pool]), the branch point is the last common block, blocks that
      are not adopted leave the chain alone.
    - Pool: the queue refines a map from senders and nonces to transactions and orders one sender's
      by nonce; what is offered to a miner can be carried out in order
      ([PoolFacts.Pending_executable]).
    - Mining: a mined block passes the chain's own check, and a block of offered transfers applies
      completely ([MiningFacts.mined_block_regular], [MiningFacts.mined_block_applies]): this
      composes the pool, the miner, the targets and the ledger.
    - Synchronization: a node that follows an honest peer gets a prefix of the peer's chain
      ([SyncChain.sync_follows]), the two find where their chains part
      ([SyncChain.branch_point_found]), of a lower but heavier chain exactly the blocks above
      that point are handed to the reorganization ([SyncFacts.on_heigher_reorganizes]), which
      puts them in the place of the chain's own ([Reorg.ReorganizeChain_replaces]), and what a peer can do to the chain
      ([SyncChain.peer_truncates]).
    - Wallets: a request is accepted exactly when there are funds and the pool admits it
      ([GatewayFacts.requests_decided]), and the sender of an Ethereum transaction is not
      tied to its signature ([GatewayFacts.eth_sender_unchecked]); the signature
      that an account of this chain puts on an Ethereum transaction does not bind what that pays
      ([GatewayFacts.kto_signature_unbound]); what comes through the JSON-RPC without such an
      account is from who signed it ([RpcFacts.raw_sender_checked]).
    - Reading: every JSON-RPC method but the one that sends a transaction leaves the node as it
      was ([RpcFacts.requests_change_nothing]), and so does every request of an explorer
      ([Explorer.explorer_changes_nothing]).
    - Gossip: the ring of recent messages refines the set of all of them
      ([GossipFacts.ring_refines]), the clock only rises whatever the interleaving
      ([GossipFacts.Witness_concurrent]), and an announced block is fetched with what it needs
      ([ControlFacts.announced_delivered]).
    - Limits: a host's requests of one moment are let through up to its limiter's tokens
      ([Limiter.host_limited]), of which a race gives it twice as many ([Limiter.limiter_race]).
    - Pledges: what is pledged is kept, and never released ([Pledge.pledge_kept],
      [Pledge.never_released]).
    - Goroutines of the miner: a node on its own finishes every round and begins the next,
      unless all searchers of a round find their nonces too early ([Workers.miner_goes_on]);
      blocks of others can stop it for good ([Workers.network_stalls_mining]).
    - Merkle trees: the root binds the data up to a collision.
    - Proof of work: reduction of forms ends and is canonical, composition is total and obeys
      the laws of a group with a unit, the tables hold the primes, and the hash can neither fail
      nor take sequential work.
    - Scripts: the parser always ends and is the same as a parser on lists
      ([ScriptFacts.Parser_parses]), reads back what is printed and yields nothing but well formed
      scripts ([ScriptFacts.Parser_print]); the ledger of a token stays sound under every
      sequence of scripts with moderate amounts and names ([ExecFacts.token_ledger]).
    Where the code does not do what it means to, the theorem states what it does, and the
    examples in the modules named [...Sample] show the case.

    ** Bounds and fuel

    Integers are [Z]s with their wrap-around; theorems that need a bound state it, and it is the
    width of the type unless the statement says otherwise.  Fuel occurs where the code loops
    without a structural measure.  [ClassGroup.egcd_loop] and [reduce_loop] are given a
    logarithm of their arguments, shown to be enough; the two walks of
    [Consensus.FindBranchPoint] need as much fuel as the chain has blocks, and the loop over the
    orphans gets their number, shown to be enough; [Strconv] the 20 digits of a 64-bit number;
    [Merkle] the number of the data; [Script.Parser] the length of the text; the walks of
    [Peer] more than the chain has blocks; the loops of [Sync] count down the heights.  The two searches for a prime in [PowHash] have no bound in
    the code, and [None] is a search that has not ended; the theorems about their results hold
    for every fuel.

    A transaction of badger has room for so many writes ([room]); a theorem that needs its
    writes to fit says how many they are ([Reorg.delete_cost], [Reorg.branch_cost]) or how
    small the blocks must be ([IndexFacts.small]).

    ** Parameters

    Code that is not in the repository is an argument: SHA-256, SHA3-256 and SHA-1, the ed25519 and
    secp256k1 primitives, badger's transactions ([BadgerLaws]), go-ethereum's state database, EVM,
    addresses and transactions ([StateDB], [StateStore], [EvmRuntime], [EvmView], [EthCommon],
    [HexCommon], [EthSigner]), the decoding of JSON, of a request's parameters and of RLP
    ([MapStructure], [RpcCommon]), the codec of gossip ([GossipCodec]), the memberlist that calls it, gcache and the limiters of
    golang.org/x/time ([Limiters]), cbor-gen's headers, [ProbablyPrime] of [math/big], the clock, the order in which
    Go walks a map, and the growth of slices.  Theorems that need one of them to behave
    name the law; each has a witness with a concrete instance.  [Reorg] asks two things more of the
    state database: a state that has just been committed, or reopened, commits to the same root.

    ** Not modelled

    - Goroutines, mutexes and channels, but for those of [Boot] and [Workers] and the clock of
      [Gossip]: every operation runs to its end, as it does under its lock.
    - [config], [logger], [util/ntp] and the commands: input, output and glue.  Of the servers:
      listening, deadlines, headers, and the wallet service's forwarding to other nodes and its
      hash rate.
    - [blockchain/contracttransaction.go]: an earlier version of [contract.go], whose methods it
      declares again, so that the package does not compile with both.
    - Generated code: the protobuf files and the cbor-gen headers.
    - Floating point outside [math/big]: the two results of [approximateParameters] are
      arguments of [PowHash].
*)

From Stdlib Require Export ZArith Lia.
From Stdlib Require Import Strings.String Strings.Byte.
From stdpp Require Export base list gmap strings numbers sorting.
From coqutil Require Export Byte Word.LittleEndianList.

#[global] Open Scope Z_scope.
#[global] Set Default Goal Selector "!".

(** ** Bytes

    A Go [[]byte] and a Go [string] are both a sequence of bytes, and the code
    converts freely between the two, so both are [bytes] here.  [nil] and the
    empty slice are not distinguished; no modelled operation observes the
    difference. *)

Abbreviation bytes := (list byte).

#[global] Instance byte_eq_dec : EqDecision byte := Byte.byte_eq_dec.
#[global] Instance byte_countable : Countable byte :=
  inj_countable Byte.to_N Byte.of_N Byte.of_to_N.

(** A string literal of the source. *)
Definition bs (s : string) : bytes := String.list_byte_of_string s.

(** [bytes.Compare] / [strings.Compare]: lexicographic order on unsigned bytes. *)
Fixpoint bytes_compare (a b : bytes) : comparison :=
  match a, b with
  | [], [] => Eq
  | [], _ :: _ => Lt
  | _ :: _, [] => Gt
  | x :: a', y :: b' =>
      match Z.compare (byte.unsigned x) (byte.unsigned y) with
      | Eq => bytes_compare a' b'
      | c => c
      end
  end.

Lemma bytes_compare_refl a : bytes_compare a a = Eq.
Proof. induction a as [|x a IH]; simpl; [done|]. by rewrite Z.compare_refl. Qed.

Lemma bytes_compare_eq a b : bytes_compare a b = Eq ↔ a = b.
Proof.
  split; [|intros ->; apply bytes_compare_refl].
  revert b; induction a as [|x a IH]; intros [|y b]; simpl; try done.
  destruct (Z.compare_spec (byte.unsigned x) (byte.unsigned y)) as [Heq| |]; try done.
  apply byte.unsigned_inj in Heq as ->. by intros ->%IH.
Qed.

Lemma bytes_compare_antisym a b : bytes_compare b a = CompOpp (bytes_compare a b).
Proof.
  revert b; induction a as [|x a IH]; intros [|y b]; simpl; try done.
  rewrite (Z.compare_antisym (byte.unsigned x)).
  destruct (Z.compare _ _); simpl; auto.
Qed.

Lemma bytes_compare_trans a b c :
  bytes_compare a b = Lt → bytes_compare b c = Lt → bytes_compare a c = Lt.
Proof.
  revert b c; induction a as [|x a IH]; intros [|y b] [|z c]; simpl; try done.
  destruct (Z.compare_spec (byte.unsigned x) (byte.unsigned y));
    destruct (Z.compare_spec (byte.unsigned y) (byte.unsigned z));
    destruct (Z.compare_spec (byte.unsigned x) (byte.unsigned z));
    eauto; intros; try done; lia.
Qed.

(** ** Machine integers

    A [uint64] is a [Z] with [0 ≤ z < 2^64]; every operation that can wrap is
    written with its wrap-around. *)

Definition MAXUINT64 : Z := 18446744073709551615.
Definition u64 (z : Z) : Z := z mod 18446744073709551616.
Definition u32 (z : Z) : Z := z mod 4294967296.

(** Conversion [int64(x)]: two's complement reading of the low 64 bits. *)
Definition i64 (z : Z) : Z :=
  let r := u64 z in if r <? 9223372036854775808 then r else r - 18446744073709551616.
Definition i32 (z : Z) : Z :=
  let r := u32 z in if r <? 2147483648 then r else r - 4294967296.

Definition add64 (a b : Z) : Z := u64 (a + b).
Definition sub64 (a b : Z) : Z := u64 (a - b).
Definition mul64 (a b : Z) : Z := u64 (a * b).

Definition is_u64 (z : Z) : Prop := 0 ≤ z ≤ MAXUINT64.
Definition is_u32 (z : Z) : Prop := 0 ≤ z < 4294967296.
Definition is_i64 (z : Z) : Prop := -9223372036854775808 ≤ z < 9223372036854775808.

#[global] Instance is_u64_dec z : Decision (is_u64 z).
Proof. unfold is_u64. apply _. Defined.

Declare Scope go_scope.
Delimit Scope go_scope with go.
Notation "a +₆₄ b" := (add64 a b) (at level 50, left associativity) : go_scope.
Notation "a -₆₄ b" := (sub64 a b) (at level 50, left associativity) : go_scope.
Notation "a *₆₄ b" := (mul64 a b) (at level 40, left associativity) : go_scope.
#[global] Open Scope go_scope.

(** Case split every wrapped integer operation into its Euclidean equation. *)
Ltac unfold_words :=
  unfold add64, sub64, mul64, i64, i32, u64, u32, is_u64, is_u32, is_i64, MAXUINT64 in *.
Ltac word_lia := unfold_words; Z.to_euclidean_division_equations; lia.

Lemma u64_small z : is_u64 z → u64 z = z.
Proof. unfold_words. intros. by rewrite Z.mod_small by lia. Qed.
Lemma u64_range z : is_u64 (u64 z).
Proof. unfold_words. pose proof (Z.mod_pos_bound z 18446744073709551616). lia. Qed.
Lemma add64_range a b : is_u64 (a +₆₄ b).
Proof. apply u64_range. Qed.
Lemma sub64_range a b : is_u64 (a -₆₄ b).
Proof. apply u64_range. Qed.
Lemma mul64_range a b : is_u64 (a *₆₄ b).
Proof. apply u64_range. Qed.
Lemma add64_small a b : 0 ≤ a + b ≤ MAXUINT64 → a +₆₄ b = a + b.
Proof. apply u64_small. Qed.
Lemma sub64_small a b : 0 ≤ a - b ≤ MAXUINT64 → a -₆₄ b = a - b.
Proof. apply u64_small. Qed.
Lemma mul64_small a b : 0 ≤ a * b ≤ MAXUINT64 → a *₆₄ b = a * b.
Proof. apply u64_small. Qed.

Create HintDb words.
Create Rewrite HintDb words_rw.
#[export] Hint Resolve u64_range add64_range sub64_range mul64_range : words.
#[export] Hint Rewrite add64_small sub64_small mul64_small u64_small using (unfold_words; lia) : words_rw.

(** ** Results

    A Go call returns a value, returns a non-nil [error], or panics. *)

Inductive error :=
  | NotExist                     (* store.NotExist *)
  | OutOfSize                    (* store.OutOfSize *)
  | ErrMsg (msg : string).       (* any other error value, by its message *)

#[global] Instance error_eq_dec : EqDecision error.
Proof. solve_decision. Defined.

Inductive res (A : Type) :=
  | Ok (a : A)
  | Err (e : error)
  | Panic.
Arguments Ok {A} a.
Arguments Err {A} e.
Arguments Panic {A}.

#[global] Instance res_eq_dec {A} `{EqDecision A} : EqDecision (res A).
Proof. solve_decision. Defined.

#[global] Instance res_ret : MRet res := λ A, Ok.
#[global] Instance res_bind : MBind res := λ A B f m,
  match m with Ok a => f a | Err e => Err e | Panic => Panic end.
#[global] Instance res_fmap : FMap res := λ A B f m,
  match m with Ok a => Ok (f a) | Err e => Err e | Panic => Panic end.

Definition is_Ok {A} (m : res A) : Prop := ∃ a, m = Ok a.

Lemma is_Ok_check {A} (m : res A) : match m with Ok _ => true | _ => false end = true → is_Ok m.
Proof. destruct m; [by eexists|done..]. Qed.

Definition err (s : string) {A} : res A := Err (ErrMsg s).

Section Results.
Context {A B : Type}.
Implicit Types (m : res A) (f : A → res B).

Lemma bind_Ok m f b : (m ≫= f) = Ok b ↔ ∃ a, m = Ok a ∧ f a = Ok b.
Proof. destruct m; naive_solver. Qed.
Lemma bind_Ok_eq m f a : m = Ok a → (m ≫= f) = f a.
Proof. by intros ->. Qed.
End Results.

(** Decompose a hypothesis [H : … = Ok _] into the successful branch of the
    program text it is about. *)
Ltac ok_inv H :=
  lazymatch type of H with
  | (_ ≫= _) = Ok _ =>
      let a := fresh "a" in let Ha := fresh H in
      apply bind_Ok in H as (a & Ha & H); cbn beta in H; ok_inv H
  | Ok _ = Ok _ => simplify_eq
  | (if ?b then _ else _) = Ok _ => let E := fresh "E" in destruct b eqn:E; ok_inv H
  | (match ?x with _ => _ end) = Ok _ => let E := fresh "E" in destruct x eqn:E; ok_inv H
  | _ => try discriminate H
  end.

(** ** State with errors

    A Go method mutates its receiver and may return an error; the mutations
    made before the error stay. *)

Definition stM (S A : Type) : Type := S → res A * S.

Section StateMonad.
Context {S : Type}.
#[global] Instance stM_ret : MRet (stM S) := λ A a s, (Ok a, s).
#[global] Instance stM_bind : MBind (stM S) := λ A B f m s,
  match m s with
  | (Ok a, s') => f a s'
  | (Err e, s') => (Err e, s')
  | (Panic, s') => (Panic, s')
  end.
#[global] Instance stM_fmap : FMap (stM S) := λ A B f m s,
  match m s with
  | (Ok a, s') => (Ok (f a), s')
  | (Err e, s') => (Err e, s')
  | (Panic, s') => (Panic, s')
  end.
Definition st_get : stM S S := λ s, (Ok s, s).
Definition st_gets {A} (f : S → A) : stM S A := λ s, (Ok (f s), s).
Definition st_put (s : S) : stM S unit := λ _, (Ok tt, s).
Definition st_modify (f : S → S) : stM S unit := λ s, (Ok tt, f s).
Definition st_lift {A} (m : res A) : stM S A := λ s, (m, s).
Definition st_err {A} (e : error) : stM S A := λ s, (Err e, s).
Definition st_panic {A} : stM S A := λ s, (Panic, s).
(* [if x, err := m; err != nil { h }] *)
Definition st_catch {A} (m : stM S A) (h : error → stM S A) : stM S A := λ s,
  match m s with (Err e, s') => h e s' | r => r end.
(* a call whose error the caller ignores *)
Definition ignore_err {A} (m : stM S A) (default : A) : stM S A := st_catch m (λ _, mret default).
(* [x, err := m; if err != nil { return bad }; k x] *)
Definition or_return {A B} (m : stM S A) (bad : B) (k : A → stM S B) : stM S B := λ s,
  match m s with
  | (Ok a, s) => k a s
  | (Err _, s) => (Ok bad, s)
  | (Panic, s) => (Panic, s)
  end.
(* [for _, x := range l { f x }], leaving at the first error *)
Fixpoint st_iter {A} (f : A → stM S unit) (l : list A) : stM S unit :=
  match l with
  | [] => mret tt
  | x :: l => f x ;; st_iter f l
  end.

Lemma st_bind_eq {A B} (m : stM S A) (f : A → stM S B) s a s' :
  m s = (Ok a, s') → (m ≫= f) s = f a s'.
Proof. unfold mbind, stM_bind. by intros ->. Qed.
Lemma st_bind_err {A B} (m : stM S A) (f : A → stM S B) s e s' :
  m s = (Err e, s') → (m ≫= f) s = (Err e, s').
Proof. unfold mbind, stM_bind. by intros ->. Qed.
Lemma st_fmap_eq {A B} (f : A → B) (m : stM S A) s a s' :
  m s = (Ok a, s') → (f <$> m) s = (Ok (f a), s').
Proof. unfold fmap, stM_fmap. by intros ->. Qed.
Lemma st_fmap_err {A B} (f : A → B) (m : stM S A) s e s' :
  m s = (Err e, s') → (f <$> m) s = (Err e, s').
Proof. unfold fmap, stM_fmap. by intros ->. Qed.
Lemma ignore_err_run {A} (m : stM S A) (d : A) s (x : A) s' : m s = (Ok x, s') → ignore_err m d s = (Ok x, s').
Proof. unfold ignore_err, st_catch. by intros ->. Qed.
Lemma stM_bind_Ok {A B} (m : stM S A) (f : A → stM S B) s b s' :
  (m ≫= f) s = (Ok b, s') ↔ ∃ a s1, m s = (Ok a, s1) ∧ f a s1 = (Ok b, s').
Proof.
  unfold mbind, stM_bind. destruct (m s) as [[a|e|] s1]; naive_solver.
Qed.

Lemma st_bind_panic {A B} (m : stM S A) (f : A → stM S B) s s' :
  m s = (Panic, s') → (m ≫= f) s = (Panic, s').
Proof. unfold mbind, stM_bind. by intros ->. Qed.

(** [P] holds in every state a computation started in a state with [P] can end in. *)
Definition preserves {A} (P : S → Prop) (m : stM S A) : Prop := ∀ s r s', P s → m s = (r, s') → P s'.

Lemma preserves_ret {A} P (a : A) : preserves P (mret a).
Proof. by intros s r s' HP [= <- <-]. Qed.
Lemma preserves_lift {A} P (m : res A) : preserves P (st_lift m).
Proof. by intros s r s' HP [= <- <-]. Qed.
Lemma preserves_gets {A} P (f : S → A) : preserves P (st_gets f).
Proof. by intros s r s' HP [= <- <-]. Qed.
Lemma preserves_err {A} P e : preserves P (st_err (A := A) e).
Proof. by intros s r s' HP [= <- <-]. Qed.
Lemma preserves_panic {A} P : preserves P (st_panic (A := A)).
Proof. by intros s r s' HP [= <- <-]. Qed.
Lemma preserves_bind {A B} P (m : stM S A) (f : A → stM S B) :
  preserves P m → (∀ a, preserves P (f a)) → preserves P (m ≫= f).
Proof.
  intros Hm Hf s r s' HP. unfold mbind, stM_bind. destruct (m s) as [[a|e|] s1] eqn:E.
  - apply Hf. by eapply Hm.
  - intros [= <- <-]. by eapply Hm.
  - intros [= <- <-]. by eapply Hm.
Qed.
Lemma preserves_catch {A} P (m : stM S A) h :
  preserves P m → (∀ e, preserves P (h e)) → preserves P (st_catch m h).
Proof.
  intros Hm Hh s r s' HP. unfold st_catch. destruct (m s) as [[a|e|] s1] eqn:E.
  - intros [= <- <-]. by eapply Hm.
  - apply Hh. by eapply Hm.
  - intros [= <- <-]. by eapply Hm.
Qed.
Lemma preserves_fmap {A B} P (f : A → B) (m : stM S A) : preserves P m → preserves P (f <$> m).
Proof. intros Hm s r s' HP. unfold fmap, stM_fmap. destruct (m s) as [[?|?|] ?] eqn:E; intros [= <- <-]; by eapply Hm. Qed.
Lemma preserves_ignore {A} P (m : stM S A) d : preserves P m → preserves P (ignore_err m d).
Proof. intros. apply preserves_catch; [done|]. intros. apply preserves_ret. Qed.
Lemma preserves_or_return {A B} P (m : stM S A) (bad : B) k :
  preserves P m → (∀ a, preserves P (k a)) → preserves P (or_return m bad k).
Proof.
  intros Hm Hk s r s' HP. unfold or_return. destruct (m s) as [[a|e|] s1] eqn:E.
  - apply Hk. by eapply Hm.
  - intros [= <- <-]. by eapply Hm.
  - intros [= <- <-]. by eapply Hm.
Qed.
Lemma or_return_inv {A B} (m : stM S A) (bad : B) k s r s' :
  or_return m bad k s = (r, s') →
  (∃ a s1, m s = (Ok a, s1) ∧ k a s1 = (r, s')) ∨ (∃ e, m s = (Err e, s') ∧ r = Ok bad) ∨ r = Panic.
Proof.
  unfold or_return. destruct (m s) as [[a|e|] s1] eqn:E.
  - intros H. left. eauto.
  - intros [= <- <-]. right. left. eauto.
  - intros [= <- <-]. by right; right.
Qed.
End StateMonad.

(** Running a computation on a part of the state. *)
Definition zoom {S X A} (get : S → X) (put : X → S → S) (m : stM X A) : stM S A := λ s,
  let '(r, x) := m (get s) in (r, put x s).

Lemma zoom_run {S X A} (get : S → X) put (m : stM X A) s r x :
  m (get s) = (r, x) → zoom get put m s = (r, put x s).
Proof. unfold zoom. by intros ->. Qed.
Lemma preserves_zoom {S X A} (P : S → Prop) (Q : X → Prop) (get : S → X) put (m : stM X A) :
  preserves Q m → (∀ s, P s → Q (get s)) → (∀ s x, P s → Q x → P (put x s)) → preserves P (zoom get put m).
Proof.
  intros Hm Hg Hp s r s' HP. unfold zoom. destruct (m (get s)) as [r0 x] eqn:E. intros [= <- <-].
  apply Hp; [done|]. eapply Hm; [|done]. by apply Hg.
Qed.

(** A run by its result; the end state, which may be large, is left as it is. *)
Lemma run_is {A B} (p : A * B) (a : A) : p.1 = a → p = (a, p.2).
Proof. by destruct p; intros <-. Qed.
Ltac by_run :=
  lazymatch goal with |- ?p = (?a, _) => refine (run_is p a _); vm_compute; reflexivity end.

Create HintDb preserves.
#[export] Hint Resolve preserves_ret preserves_lift preserves_gets preserves_err preserves_panic
  preserves_bind preserves_catch preserves_ignore : preserves.

(** A property is kept by a computation when the hints show that its parts keep it. *)
Ltac preserving := repeat first
  [ progress intros
  | match goal with
    | |- preserves _ (match ?x with _ => _ end) => destruct x
    | |- preserves _ (if ?x then _ else _) => destruct x
    | |- preserves _ (let '(_, _) := ?x in _) => destruct x
    end
  | by eauto 2 with preserves
  | apply preserves_bind | apply preserves_fmap | apply preserves_or_return | apply preserves_catch ].

(** ** Lists *)

Section Filters.
Context {A : Type} (P : A → Prop) `{!∀ x, Decision (P x)}.

Lemma filter_none (l : list A) : Forall (λ x, ¬ P x) l → filter P l = [].
Proof. induction 1; [done|]. by rewrite filter_cons_False. Qed.
Lemma filter_every (l : list A) : Forall P l → filter P l = l.
Proof. induction 1; [done|]. rewrite filter_cons_True by done. by f_equal. Qed.
Lemma Forall_filter' (Q : A → Prop) (l : list A) : Forall Q l → Forall Q (filter P l).
Proof. rewrite !Forall_forall. intros HQ x [_ Hx]%list_elem_of_filter. auto. Qed.
Lemma StronglySorted_filter' (R : relation A) (l : list A) :
  StronglySorted R l → StronglySorted R (filter P l).
Proof.
  induction 1 as [|x l Hs IH Hall]; [constructor|]. rewrite filter_cons.
  case_decide; [|done]. constructor; [done|]. by apply Forall_filter'.
Qed.
End Filters.
