(* ===== verification/Misc.v ===== *)
(** Byte codecs of [pkg/storage/miscellaneous/miscellaneous.go] and the checked
    arithmetic of [pkg/util/math/overflow.go]: fixed-width little- and
    big-endian integers, length-prefixed slices, map keys.

    The encoders are total; the decoders return the error the code returns on a
    length mismatch.  Every codec is shown to be a bijection between its integer
    range and the byte strings of its length, and the two composite encodings
    (slices, map keys) are shown to be uniquely decodable. *)

From S2P Require Import Prelude.

(** ** Fixed-width integers *)

(** [binary.LittleEndian.PutUintN] and its inverse on [n] bytes. *)
Definition dec_le (n : nat) (msg : string) (a : bytes) : res Z :=
  if decide (length a = n) then Ok (le_combine a) else err msg.
Definition dec_be (n : nat) (msg : string) (a : bytes) : res Z :=
  if decide (length a = n) then Ok (le_combine (rev a)) else err msg.

Definition E8func (a : Z) : bytes := [byte.of_Z (Z.land a 255)].
Definition D8func (a : bytes) : res Z :=
  match a with
  | [x] => Ok (byte.unsigned x)
  | _ => err "D8func: Illegal slice length"
  end.

Definition E16func (a : Z) : bytes := le_split 2 a.
Definition D16func (a : bytes) : res Z := dec_le 2 "D16func: Illegal slice length" a.
Definition E32func (a : Z) : bytes := le_split 4 a.
Definition D32func (a : bytes) : res Z := dec_le 4 "D32func: Illegal slice length" a.
Definition E64func (a : Z) : bytes := le_split 8 a.
Definition D64func (a : bytes) : res Z := dec_le 8 "D64func: Illegal slice length" a.

Definition EB16func (a : Z) : bytes := rev (le_split 2 a).
Definition DB16func (a : bytes) : res Z := dec_be 2 "DB16func: Illegal slice length" a.
Definition EB32func (a : Z) : bytes := rev (le_split 4 a).
Definition DB32func (a : bytes) : res Z := dec_be 4 "DB32func: Illegal slice length" a.
Definition EB64func (a : Z) : bytes := rev (le_split 8 a).
Definition DB64func (a : bytes) : res Z := dec_be 8 "DB64func: Illegal slice length" a.

(** ** Integers and slices *)

Definition Max (x y : Z) : Z := if decide (x < y) then y else x.
Definition Min (x y : Z) : Z := if decide (x < y) then x else y.

(** A fresh copy with the same contents. *)
Definition Dup (a : bytes) : bytes := [] ++ a.

(** slice length || slice *)
Definition Eslice (a : bytes) : bytes :=
  ([] ++ E32func (u32 (Z.of_nat (length a)))) ++ a.

Definition Dslice (data : bytes) : res (bytes * bytes) :=
  if decide (length data < 4)%nat then err "DecodeSlice: Illegal slice length"
  else
    n ← D32func (take 4 data);
    let data := drop 4 data in
    if decide (u32 (Z.of_nat (length data)) < n) then
      err "DecodeSlice: Illegal slice length"
    else Ok (Dup (take (Z.to_nat n) data), drop (Z.to_nat n) data).

(** EMapKey merges [m] and [k] into one key: 'm' + len(m) + m + '+' + k. *)
Definition EMapKey (m k : bytes) : bytes :=
  bs "m" ++ E32func (u32 (Z.of_nat (length m))) ++ m ++ bs "+" ++ k.

(** ** Checked arithmetic of [pkg/util/math] *)

Fixpoint AddUint64Overflow (a : Z) (b : list Z) : res Z :=
  match b with
  | [] => Ok a
  | v :: b' =>
      if decide (MAXUINT64 -₆₄ a < v) then err "uint64 add overflow"
      else AddUint64Overflow (a +₆₄ v) b'
  end.

Fixpoint SubUint64Overflow (a : Z) (b : list Z) : res Z :=
  match b with
  | [] => Ok a
  | v :: b' =>
      if decide (a < v) then err "uint64 sub overflow"
      else SubUint64Overflow (a -₆₄ v) b'
  end.

(** ** Lemmas *)

#[global] Arguments E32func _ : simpl never.
#[global] Arguments E64func _ : simpl never.
#[global] Arguments EB32func _ : simpl never.

Create Rewrite HintDb codec_rw.

Lemma length_E32func a : length (E32func a) = 4%nat.
Proof. apply length_le_split. Qed.
Lemma length_E64func a : length (E64func a) = 8%nat.
Proof. apply length_le_split. Qed.
Lemma length_EB32func a : length (EB32func a) = 4%nat.
Proof. unfold EB32func. by rewrite length_rev, length_le_split. Qed.

Lemma dec_le_split n msg z :
  0 ≤ z < 2 ^ (Z.of_nat n * 8) → dec_le n msg (le_split n z) = Ok z.
Proof.
  intros. unfold dec_le. rewrite decide_True by apply length_le_split.
  by rewrite le_combine_split, Z.mod_small.
Qed.

Lemma dec_be_split n msg z :
  0 ≤ z < 2 ^ (Z.of_nat n * 8) → dec_be n msg (rev (le_split n z)) = Ok z.
Proof.
  intros. unfold dec_be.
  rewrite decide_True by (rewrite length_rev; apply length_le_split).
  by rewrite rev_involutive, le_combine_split, Z.mod_small.
Qed.

(** Decoding is exactly the inverse of encoding: what decodes to [z] is the
    encoding of [z], and [z] is in range. *)
Lemma dec_le_Ok n msg a z :
  dec_le n msg a = Ok z ↔ a = le_split n z ∧ 0 ≤ z < 2 ^ (Z.of_nat n * 8).
Proof.
  split; [|intros [-> ?]; by apply dec_le_split].
  unfold dec_le. case_decide as Hl; [|done]. intros [= <-]. split.
  - by rewrite split_le_combine'.
  - pose proof (le_combine_bound a) as Hb. rewrite Hl in Hb. by rewrite Z.mul_comm.
Qed.

Lemma dec_be_Ok n msg a z :
  dec_be n msg a = Ok z ↔ a = rev (le_split n z) ∧ 0 ≤ z < 2 ^ (Z.of_nat n * 8).
Proof.
  split; [|intros [-> ?]; by apply dec_be_split].
  unfold dec_be. case_decide as Hl; [|done]. intros [= <-].
  rewrite <- length_rev in Hl. split.
  - by rewrite split_le_combine', rev_involutive.
  - pose proof (le_combine_bound (rev a)) as Hb. rewrite Hl in Hb. by rewrite Z.mul_comm.
Qed.

Lemma D32_E32 z : is_u32 z → D32func (E32func z) = Ok z.
Proof. intros. by apply dec_le_split. Qed.
Lemma D64_E64 z : is_u64 z → D64func (E64func z) = Ok z.
Proof. unfold_words. intros. apply dec_le_split. lia. Qed.
Lemma DB32_EB32 z : is_u32 z → DB32func (EB32func z) = Ok z.
Proof. intros. by apply dec_be_split. Qed.

Lemma E32func_inj x y : is_u32 x → is_u32 y → E32func x = E32func y → x = y.
Proof.
  intros Hx Hy He. apply D32_E32 in Hx, Hy. congruence.
Qed.
Lemma E64func_inj x y : is_u64 x → is_u64 y → E64func x = E64func y → x = y.
Proof.
  intros Hx Hy He. apply D64_E64 in Hx, Hy. congruence.
Qed.

#[export] Hint Rewrite length_E32func length_E64func length_EB32func : codec_rw.
#[export] Hint Rewrite D32_E32 D64_E64 DB32_EB32 using (unfold_words; lia) : codec_rw.

(** A slice whose length fits the 32-bit length prefix. *)
Definition short (a : bytes) : Prop := Z.of_nat (length a) < 4294967296.

Lemma short_u32 a : short a → u32 (Z.of_nat (length a)) = Z.of_nat (length a).
Proof. unfold short. unfold_words. intros. rewrite Z.mod_small; lia. Qed.

(** Two length-prefixed concatenations are equal only componentwise. *)
Lemma prefixed_inj a b x y :
  short a → short b →
  E32func (u32 (Z.of_nat (length a))) ++ a ++ x = E32func (u32 (Z.of_nat (length b))) ++ b ++ y →
  a = b ∧ x = y.
Proof.
  intros Ha Hb Heq. rewrite !short_u32 in Heq by done.
  apply app_inj_1 in Heq as [Hl Heq]; [|by rewrite !length_E32func].
  apply E32func_inj in Hl; [|unfold short in *; unfold_words; lia..].
  apply app_inj_1 in Heq; [done|lia].
Qed.

(** ** Properties *)

(** [Dslice] decodes a slice written by [Eslice] followed by any bytes, giving
    back the slice and exactly the remaining bytes, as long as everything after the
    prefix is shorter than 4 GiB (the code truncates that length to 32 bits). *)
Theorem Dslice_Eslice (a rest : bytes) :
  short (a ++ rest) → Dslice (Eslice a ++ rest) = Ok (a, rest).
Proof.
  intros Hs. assert (short a) as Ha by (unfold short in *; rewrite length_app in Hs; lia).
  unfold Dslice, Eslice, Dup. cbn [app].
  rewrite <- app_assoc, (short_u32 a Ha).
  assert (is_u32 (Z.of_nat (length a))) as Hu by (unfold short in Ha; unfold is_u32; lia).
  rewrite decide_False by (rewrite length_app, length_E32func; lia).
  rewrite (take_app_length' (E32func _)), (drop_app_length' (E32func _))
    by (by rewrite length_E32func).
  rewrite (D32_E32 _ Hu). cbn [mbind res_bind].
  rewrite (short_u32 _ Hs), length_app, decide_False by lia.
  by rewrite take_app_length', drop_app_length' by lia.
Qed.

Lemma Dslice_Eslice_witness :
  short (bs "mint" ++ bs "rest") ∧ Dslice (Eslice (bs "mint") ++ bs "rest") = Ok (bs "mint", bs "rest").
Proof. split; [vm_compute; reflexivity|]. apply Dslice_Eslice. vm_compute; reflexivity. Defined.

(** Map keys are uniquely decodable: two [EMapKey] results agree only for the
    same map name and the same key, so entries of different maps never collide. *)
Theorem EMapKey_inj (m k m' k' : bytes) :
  short m → short m' → EMapKey m k = EMapKey m' k' → m = m' ∧ k = k'.
Proof.
  unfold EMapKey. intros Hm Hm' Heq. apply app_inv_head in Heq.
  apply prefixed_inj in Heq as [-> Heq]; [|done..].
  by apply app_inv_head in Heq.
Qed.

Lemma EMapKey_inj_witness :
  short (bs "binding") ∧ (bs "binding" = bs "binding" ∧ bs "k" = bs "k").
Proof.
  assert (short (bs "binding")) as H by (vm_compute; reflexivity).
  split; [exact H|]. exact (EMapKey_inj (bs "binding") (bs "k") (bs "binding") (bs "k") H H eq_refl).
Defined.

(** The fixed-width codecs are bijections: each decoder accepts exactly the
    encodings of the integers of its width, in both byte orders. *)
Theorem codecs_bijective (a : bytes) (z : Z) :
  (D16func a = Ok z ↔ a = E16func z ∧ 0 ≤ z < 2 ^ 16) ∧
  (D32func a = Ok z ↔ a = E32func z ∧ 0 ≤ z < 2 ^ 32) ∧
  (D64func a = Ok z ↔ a = E64func z ∧ 0 ≤ z < 2 ^ 64) ∧
  (DB16func a = Ok z ↔ a = EB16func z ∧ 0 ≤ z < 2 ^ 16) ∧
  (DB32func a = Ok z ↔ a = EB32func z ∧ 0 ≤ z < 2 ^ 32) ∧
  (DB64func a = Ok z ↔ a = EB64func z ∧ 0 ≤ z < 2 ^ 64).
Proof. repeat split_and; first [apply dec_le_Ok | apply dec_be_Ok]. Qed.

Lemma AddUint64Overflow_cases a b :
  is_u64 a → Forall is_u64 b →
  AddUint64Overflow a b =
    if decide (a + foldr Z.add 0 b ≤ MAXUINT64)
    then Ok (a + foldr Z.add 0 b) else err "uint64 add overflow".
Proof.
  intros Ha Hb. revert a Ha. induction Hb as [|v b Hv Hb IH]; intros a Ha; simpl.
  - rewrite decide_True; [by rewrite Z.add_0_r|unfold_words; lia].
  - assert (0 ≤ foldr Z.add 0 b).
    { clear -Hb. induction Hb; simpl; unfold_words; lia. }
    rewrite sub64_small by (unfold_words; lia).
    case_decide as Hlt; [rewrite decide_False by (unfold_words; lia); done|].
    rewrite add64_small, IH by (unfold_words; lia).
    by rewrite Z.add_assoc.
Qed.

Lemma SubUint64Overflow_cases a b :
  is_u64 a → Forall is_u64 b →
  SubUint64Overflow a b =
    if decide (foldr Z.add 0 b ≤ a)
    then Ok (a - foldr Z.add 0 b) else err "uint64 sub overflow".
Proof.
  intros Ha Hb. revert a Ha. induction Hb as [|v b Hv Hb IH]; intros a Ha; simpl.
  - rewrite decide_True; [by rewrite Z.sub_0_r|unfold_words; lia].
  - assert (0 ≤ foldr Z.add 0 b).
    { clear -Hb. induction Hb; simpl; unfold_words; lia. }
    case_decide as Hlt; [rewrite decide_False by (unfold_words; lia); done|].
    rewrite sub64_small, IH by (unfold_words; lia).
    repeat case_decide; try lia; f_equal; lia.
Qed.

(** The overflow-checked sum and difference return the exact mathematical
    result when it fits in 64 bits and an error exactly otherwise, for any number
    of operands. *)
Theorem overflow_checked_exact (a : Z) (b : list Z) :
  is_u64 a → Forall is_u64 b →
  (∀ s, AddUint64Overflow a b = Ok s ↔ s = a + foldr Z.add 0 b ∧ s ≤ MAXUINT64) ∧
  (∀ d, SubUint64Overflow a b = Ok d ↔ d = a - foldr Z.add 0 b ∧ 0 ≤ d) ∧
  AddUint64Overflow a b ≠ Panic ∧ SubUint64Overflow a b ≠ Panic.
Proof.
  intros Ha Hb. rewrite AddUint64Overflow_cases, SubUint64Overflow_cases by done.
  split_and!; intros; repeat case_decide; try done;
    (split; [intros [= <-]|intros [-> ?]]; try split; try lia; done).
Qed.

Lemma overflow_checked_exact_witness :
  is_u64 5 ∧ AddUint64Overflow 5 [MAXUINT64] = err "uint64 add overflow" ∧
  (SubUint64Overflow 5 [2; 3] = Ok 0 ↔ 0 = 5 - foldr Z.add 0 [2; 3] ∧ 0 ≤ 0).
Proof.
  assert (is_u64 5) as H5 by (vm_compute; split; discriminate).
  assert (Forall is_u64 [2; 3]) as Hf
    by (repeat constructor; vm_compute; discriminate).
  split; [exact H5|]. split; [vm_compute; reflexivity|].
  exact (proj1 (proj2 (overflow_checked_exact 5 [2; 3] H5 Hf)) 0).
Defined.
