(* ===== verification/Ord.v ===== *)
(** Orders and equality of dynamic values ([pkg/storage/typeclass]): integers, unsigned
    integers, floating-point numbers, byte strings and texts behind the interfaces [Eq] and [Ord].

    The argument of a method is an interface value, which the method asserts to be of its
    own type; the failed assertion yields the zero value of the type.  [float64] is
    the standard library's [spec_float]. *)

From Stdlib Require Import SpecFloat.
From S2P Require Import Prelude.

(** ** Values *)

Inductive Ordering := LT | EQ | GT.

(** A value of the interface [Eq]: one of the five types, or another one, as is a nil. *)
Inductive eq_value :=
  | ordInt (v : Z) | ordUint64 (v : Z) | ordFloat (v : spec_float) | ordBytes (v : bytes) | ordString (v : bytes)
  | other.

(** [v, _ := b.(ordInt)] and its likes. *)
Definition as_ordInt (b : eq_value) : Z := match b with ordInt v => v | _ => 0 end.
Definition as_ordUint64 (b : eq_value) : Z := match b with ordUint64 v => v | _ => 0 end.
Definition as_ordFloat (b : eq_value) : spec_float := match b with ordFloat v => v | _ => S754_zero false end.
Definition as_ordBytes (b : eq_value) : bytes := match b with ordBytes v => v | _ => [] end.
Definition as_ordString (b : eq_value) : bytes := match b with ordString v => v | _ => [] end.

(** ** The methods of a type *)

Record Ord (A : Type) := MkOrd {
  box : A → eq_value;
  is_Eq : A → eq_value → bool;
  is_NotEq : A → eq_value → bool;
  is_Lt : A → eq_value → bool;
  is_Le : A → eq_value → bool;
  is_Gt : A → eq_value → bool;
  is_Ge : A → eq_value → bool;
  Compare : A → eq_value → Ordering;
}.
Arguments MkOrd {A} box is_Eq is_NotEq is_Lt is_Le is_Gt is_Ge Compare.
Arguments box {A} o v.
Arguments is_Eq {A} o a b.
Arguments is_NotEq {A} o a b.
Arguments is_Lt {A} o a b.
Arguments is_Le {A} o a b.
Arguments is_Gt {A} o a b.
Arguments is_Ge {A} o a b.
Arguments Compare {A} o a b.

(** Integers: [int] and [uint64] compare as numbers. *)
Definition OrdInt : Ord Z :=
  let eq a b := bool_decide (a = as_ordInt b) in
  let lt a b := bool_decide (a < as_ordInt b) in
  MkOrd ordInt eq (λ a b, negb (eq a b)) lt
    (λ a b, bool_decide (a <= as_ordInt b))
    (λ a b, bool_decide (a > as_ordInt b))
    (λ a b, bool_decide (a >= as_ordInt b))
    (λ a b, if lt a b then LT else if eq a b then EQ else GT).

Definition OrdUint64 : Ord Z :=
  let eq a b := bool_decide (a = as_ordUint64 b) in
  let lt a b := bool_decide (a < as_ordUint64 b) in
  MkOrd ordUint64 eq (λ a b, negb (eq a b)) lt
    (λ a b, bool_decide (a <= as_ordUint64 b))
    (λ a b, bool_decide (a > as_ordUint64 b))
    (λ a b, bool_decide (a >= as_ordUint64 b))
    (λ a b, if lt a b then LT else if eq a b then EQ else GT).

(** The comparisons of IEEE 754, all of them false of a NaN. *)
Definition OrdFloat : Ord spec_float :=
  let eq a b := SFeqb a (as_ordFloat b) in
  let lt a b := SFltb a (as_ordFloat b) in
  MkOrd ordFloat eq (λ a b, negb (eq a b)) lt
    (λ a b, SFleb a (as_ordFloat b))
    (λ a b, SFltb (as_ordFloat b) a)
    (λ a b, SFleb (as_ordFloat b) a)
    (λ a b, if lt a b then LT else if eq a b then EQ else GT).

Definition OrdBytes : Ord bytes :=
  let eq a b := bool_decide (bytes_compare a (as_ordBytes b) = Eq) in
  let lt a b := bool_decide (bytes_compare a (as_ordBytes b) = Lt) in
  MkOrd ordBytes eq (λ a b, negb (eq a b)) lt
    (λ a b, bool_decide (bytes_compare a (as_ordBytes b) ≠ Gt))
    (λ a b, bool_decide (bytes_compare a (as_ordBytes b) = Gt))
    (λ a b, bool_decide (bytes_compare a (as_ordBytes b) ≠ Lt))
    (λ a b, if lt a b then LT else if eq a b then EQ else GT).

Definition OrdString : Ord bytes :=
  let eq a b := bool_decide (bytes_compare a (as_ordString b) = Eq) in
  let lt a b := bool_decide (bytes_compare a (as_ordString b) = Lt) in
  MkOrd ordString eq (λ a b, negb (eq a b)) lt
    (λ a b, bool_decide (bytes_compare a (as_ordString b) ≠ Gt))
    (λ a b, bool_decide (bytes_compare a (as_ordString b) = Gt))
    (λ a b, bool_decide (bytes_compare a (as_ordString b) ≠ Lt))
    (λ a b, if lt a b then LT else if eq a b then EQ else GT).

(** ** Smaller and greater

    The arguments of the functions on texts are interface values that only these types
    implement; they are taken not to be nil. *)

Definition MaxInt (a b : Z) : Z := if is_Lt OrdInt a (ordInt b) then b else a.
Definition MinInt (a b : Z) : Z := if is_Lt OrdInt a (ordInt b) then a else b.
Definition MaxUint64 (a b : Z) : Z := if is_Lt OrdUint64 a (ordUint64 b) then b else a.
Definition MinUint64 (a b : Z) : Z := if is_Lt OrdUint64 a (ordUint64 b) then a else b.
Definition MaxFloat (a b : spec_float) : spec_float := if is_Lt OrdFloat a (ordFloat b) then b else a.
Definition MinFloat (a b : spec_float) : spec_float := if is_Lt OrdFloat a (ordFloat b) then a else b.
Definition MaxBytes (a b : bytes) : bytes := if is_Lt OrdBytes a (ordBytes b) then b else a.
Definition MinBytes (a b : bytes) : bytes := if is_Lt OrdBytes a (ordBytes b) then b else a.
Definition MaxString (a b : bytes) : bytes := if is_Lt OrdString a (ordString b) then b else a.
Definition MinString (a b : bytes) : bytes := if is_Lt OrdString a (ordString b) then b else a.

(** [a.Lt(b)] on an interface value: the method of its dynamic type; a nil has none. *)
Definition call_Lt (a b : eq_value) : res bool :=
  match a with
  | ordInt v => Ok (is_Lt OrdInt v b)
  | ordUint64 v => Ok (is_Lt OrdUint64 v b)
  | ordFloat v => Ok (is_Lt OrdFloat v b)
  | ordBytes v => Ok (is_Lt OrdBytes v b)
  | ordString v => Ok (is_Lt OrdString v b)
  | other => Panic
  end.
Definition call_Eq (a b : eq_value) : res bool :=
  match a with
  | ordInt v => Ok (is_Eq OrdInt v b)
  | ordUint64 v => Ok (is_Eq OrdUint64 v b)
  | ordFloat v => Ok (is_Eq OrdFloat v b)
  | ordBytes v => Ok (is_Eq OrdBytes v b)
  | ordString v => Ok (is_Eq OrdString v b)
  | other => Panic
  end.

Definition Min (a b : eq_value) : res eq_value := lt ← call_Lt a b; Ok (if lt : bool then a else b).
Definition Max (a b : eq_value) : res eq_value := lt ← call_Lt a b; Ok (if lt : bool then b else a).

(** ** Total orders *)

Definition ordering_of (c : comparison) : Ordering := match c with Lt => LT | Eq => EQ | Gt => GT end.

(** The methods of [o], among values of its own type, are the ones of the order [cmp]. *)
Record total_by {A} (o : Ord A) (cmp : A → A → comparison) : Prop := {
  by_Compare a b : Compare o a (box o b) = ordering_of (cmp a b);
  by_Eq a b : is_Eq o a (box o b) = bool_decide (cmp a b = Eq);
  by_NotEq a b : is_NotEq o a (box o b) = bool_decide (cmp a b ≠ Eq);
  by_Lt a b : is_Lt o a (box o b) = bool_decide (cmp a b = Lt);
  by_Le a b : is_Le o a (box o b) = bool_decide (cmp a b ≠ Gt);
  by_Gt a b : is_Gt o a (box o b) = bool_decide (cmp a b = Gt);
  by_Ge a b : is_Ge o a (box o b) = bool_decide (cmp a b ≠ Lt);
  cmp_eq a b : cmp a b = Eq ↔ a = b;
  cmp_antisym a b : cmp b a = CompOpp (cmp a b);
  cmp_trans a b c : cmp a b = Lt → cmp b c = Lt → cmp a c = Lt;
}.

Ltac integers :=
  split; intros *; cbn;
    [..|apply Z.compare_eq_iff|apply Z.compare_antisym|
     rewrite !Z.compare_lt_iff; lia];
    match goal with |- context [(?x ?= ?y)%Z] => destruct (Z.compare_spec x y) end; cbn; repeat case_bool_decide; done || lia.

Lemma OrdInt_total : total_by OrdInt Z.compare.
Proof. integers. Qed.
Lemma OrdUint64_total : total_by OrdUint64 Z.compare.
Proof. integers. Qed.

Ltac texts :=
  split; intros *; cbn;
    [..|apply bytes_compare_eq|apply bytes_compare_antisym|apply bytes_compare_trans];
    match goal with |- context [bytes_compare ?x ?y] => destruct (bytes_compare x y) end; done.

Lemma OrdBytes_total : total_by OrdBytes bytes_compare.
Proof. texts. Qed.
Lemma OrdString_total : total_by OrdString bytes_compare.
Proof. texts. Qed.

Section Total.
Context {A : Type} (o : Ord A) (cmp : A → A → comparison) (T : total_by o cmp).
Implicit Types a b c : A.

Lemma le_total a b : is_Le o a (box o b) = true ∨ is_Le o b (box o a) = true.
Proof.
  rewrite !(by_Le _ _ T), !bool_decide_eq_true, (cmp_antisym _ _ T a b).
  destruct (cmp a b); naive_solver.
Qed.
Lemma le_antisym a b : is_Le o a (box o b) = true → is_Le o b (box o a) = true → a = b.
Proof.
  rewrite !(by_Le _ _ T), !bool_decide_eq_true, (cmp_antisym _ _ T a b), <- (cmp_eq _ _ T).
  destruct (cmp a b); naive_solver.
Qed.
Lemma le_trans a b c :
  is_Le o a (box o b) = true → is_Le o b (box o c) = true → is_Le o a (box o c) = true.
Proof.
  rewrite !(by_Le _ _ T), !bool_decide_eq_true. intros Hab Hbc.
  destruct (cmp a b) eqn:Eab; [apply (cmp_eq _ _ T) in Eab as ->; done| |done].
  destruct (cmp b c) eqn:Ebc; [apply (cmp_eq _ _ T) in Ebc as <-; by rewrite Eab| |done].
  by rewrite (cmp_trans _ _ T _ _ _ Eab Ebc).
Qed.

End Total.

(** What a function that takes the smaller of two values, and one that takes the greater, should do. *)
Definition smaller_of {A} (o : Ord A) (f : A → A → A) : Prop :=
  ∀ a b, (f a b = a ∨ f a b = b) ∧ is_Le o (f a b) (box o a) = true ∧ is_Le o (f a b) (box o b) = true.
Definition greater_of {A} (o : Ord A) (f : A → A → A) : Prop :=
  ∀ a b, (f a b = a ∨ f a b = b) ∧ is_Le o a (box o (f a b)) = true ∧ is_Le o b (box o (f a b)) = true.

Lemma pick_smaller {A} (o : Ord A) cmp : total_by o cmp → smaller_of o (λ a b, if is_Lt o a (box o b) then a else b).
Proof.
  intros T a b. rewrite (by_Lt _ _ T). case_bool_decide as E; rewrite !(by_Le _ _ T), !bool_decide_eq_true.
  - rewrite E, (proj2 (cmp_eq _ _ T a a) eq_refl). auto.
  - rewrite (proj2 (cmp_eq _ _ T b b) eq_refl), (cmp_antisym _ _ T a b).
    split; [auto|]. split; [|done]. by destruct (cmp a b).
Qed.
Lemma pick_greater {A} (o : Ord A) cmp : total_by o cmp → greater_of o (λ a b, if is_Lt o a (box o b) then b else a).
Proof.
  intros T a b. rewrite (by_Lt _ _ T). case_bool_decide as E; rewrite !(by_Le _ _ T), !bool_decide_eq_true.
  - rewrite E, (proj2 (cmp_eq _ _ T b b) eq_refl). auto.
  - rewrite (proj2 (cmp_eq _ _ T a a) eq_refl), (cmp_antisym _ _ T a b).
    split; [auto|]. split; [done|]. by destruct (cmp a b).
Qed.

(** What the functions for the minimum and the maximum do: those for numbers take the
    smaller and the greater of their arguments, those for texts take the greater both. *)
Theorem extrema :
  smaller_of OrdInt MinInt ∧ greater_of OrdInt MaxInt ∧ smaller_of OrdUint64 MinUint64 ∧ greater_of OrdUint64 MaxUint64 ∧
  greater_of OrdBytes MaxBytes ∧ greater_of OrdBytes MinBytes ∧ greater_of OrdString MaxString ∧ greater_of OrdString MinString.
Proof.
  pose proof (pick_smaller _ _ OrdInt_total). pose proof (pick_greater _ _ OrdInt_total).
  pose proof (pick_smaller _ _ OrdUint64_total). pose proof (pick_greater _ _ OrdUint64_total).
  pose proof (pick_greater _ _ OrdBytes_total). pose proof (pick_greater _ _ OrdString_total).
  by split_and!.
Qed.

(** The functions on interface values take the smaller and the greater of two values of
    one type; only a nil as the first argument makes them panic. *)
Lemma Min_Max_same {A} (o : Ord A) cmp a b : total_by o cmp →
  (∀ x y, call_Lt (box o x) y = Ok (is_Lt o x y)) →
  let lo := if is_Lt o a (box o b) then a else b in let hi := if is_Lt o a (box o b) then b else a in
  Min (box o a) (box o b) = Ok (box o lo) ∧ Max (box o a) (box o b) = Ok (box o hi) ∧ is_Le o lo (box o hi) = true.
Proof.
  intros T Hc lo hi. subst lo hi. unfold Min, Max. rewrite Hc. cbn [mbind res_bind].
  split; [by destruct (is_Lt _ _ _)|]. split; [by destruct (is_Lt _ _ _)|].
  rewrite (by_Lt _ _ T). case_bool_decide as E; rewrite (by_Le _ _ T), bool_decide_eq_true; [by rewrite E|].
  rewrite (cmp_antisym _ _ T a b). by destruct (cmp a b).
Qed.

Module OrdSample.

(** A value of another type counts as zero, so that equality is not symmetric. *)
Example mixed_equality : call_Eq (ordInt 0) (ordString (bs "a")) = Ok true ∧ call_Eq (ordString (bs "a")) (ordInt 0) = Ok false.
Proof. done. Qed.

(** A NaN is greater than itself, and the maximum with it depends on the order. *)
Example nan_greater : Compare OrdFloat S754_nan (ordFloat S754_nan) = GT ∧
  MaxFloat S754_nan (S754_zero false) = S754_nan ∧ MaxFloat (S754_zero false) S754_nan = S754_zero false.
Proof. done. Qed.

End OrdSample.
