(* ===== verification/Badger.v ===== *)
(** The interface of the badger key-value engine, which the store is built on.

    Badger is a third-party package: its transactions are the parameter [T] of
    the model, with the operations the code calls as the class [Badger] and
    their documented behaviour as the class [BadgerLaws].  [view] is the
    contents a transaction sees (its snapshot with its own writes on top).
    [MapTxn] is a concrete instance on finite maps, which shows that the laws
    can hold and on which witnesses are evaluated. *)

From S2P Require Import Prelude.

(** ** Interface *)

Class Badger (T : Type) := {
  ErrKeyNotFound : error;
  (* [Txn.Get] followed by [Item.ValueCopy] *)
  tx_Get : bytes → T → res bytes;
  tx_Set : bytes → bytes → stM T unit;
  tx_Delete : bytes → stM T unit;
  (* the items an iterator with this [Prefix] yields after [Seek], in order:
     the key, and what [ValueCopy] returns *)
  tx_Iter : bytes → bytes → T → list (bytes * res bytes);
}.

(** A database and its transactions. *)
Class BadgerDB (D T : Type) := {
  db_begin : D → T;                 (* [DB.NewTransaction] *)
  db_commit : T → stM D unit;       (* [Txn.Commit] *)
}.

(** Keys and values badger accepts: a key is not empty, not in badger's own name
    space and at most 65000 bytes; a value of at most 1 MiB is below every limit. *)
Definition key_ok (k : bytes) : Prop :=
  k ≠ [] ∧ ¬ bs "!badger!" `prefix_of` k ∧ Z.of_nat (length k) ≤ 65000.
Definition val_ok (v : bytes) : Prop := Z.of_nat (length v) ≤ 1048576.

(** The order of keys: unsigned bytes, lexicographically. *)
Definition key_lt (a b : bytes) : Prop := bytes_compare a b = Lt.
Definition key_le (a b : bytes) : Prop := bytes_compare a b ≠ Gt.

Class BadgerLaws (T : Type) `{!Badger T} := {
  view : T → gmap bytes bytes;
  (* how many more entries fit before [ErrTxnTooBig] *)
  room : T → nat;
  (* the committed contents the transaction started from *)
  base : T → gmap bytes bytes;
  (* the keys it has written *)
  writes : T → gset bytes;
  Get_law t k : k ≠ [] →
    tx_Get k t = match view t !! k with Some v => Ok v | None => Err ErrKeyNotFound end;
  Set_law t k v : key_ok k → val_ok v → room t ≠ 0%nat →
    ∃ t', tx_Set k v t = (Ok tt, t') ∧ view t' = <[k:=v]> (view t) ∧
          room t' = pred (room t) ∧ base t' = base t;
  Delete_law t k : key_ok k → room t ≠ 0%nat →
    ∃ t', tx_Delete k t = (Ok tt, t') ∧ view t' = delete k (view t) ∧
          room t' = pred (room t) ∧ base t' = base t;
  (* a write that fails changes nothing *)
  Set_inv t k v r t' : tx_Set k v t = (r, t') →
    r = Ok tt ∧ view t' = <[k:=v]> (view t) ∧ writes t' = {[k]} ∪ writes t ∨
    r ≠ Ok tt ∧ r ≠ Panic ∧ view t' = view t ∧ writes t' = writes t;
  Delete_inv t k r t' : tx_Delete k t = (r, t') →
    r = Ok tt ∧ view t' = delete k (view t) ∧ writes t' = {[k]} ∪ writes t ∨
    r ≠ Ok tt ∧ r ≠ Panic ∧ view t' = view t ∧ writes t' = writes t;
  (* a write takes the room of one entry at most *)
  Set_room t k v r t' : tx_Set k v t = (r, t') → (room t ≤ S (room t'))%nat;
  Delete_room t k r t' : tx_Delete k t = (r, t') → (room t ≤ S (room t'))%nat;
  Iter_sorted t p s : StronglySorted key_lt (tx_Iter p s t).*1;
  (* [Seek] to the prefix, or to a key that has it *)
  Iter_law t p s k rv : s = [] ∨ p `prefix_of` s →
    (k, rv) ∈ tx_Iter p s t ↔
      ∃ v, rv = Ok v ∧ view t !! k = Some v ∧ p `prefix_of` k ∧ key_le s k;
}.

Class BadgerDBLaws (D T : Type) `{!BadgerDB D T} `{!Badger T} `{!BadgerLaws T} := {
  dbview : D → gmap bytes bytes;
  begin_view d : view (db_begin (T:=T) d) = dbview d;
  begin_base d : base (db_begin (T:=T) d) = dbview d;
  begin_room d : (100 ≤ room (db_begin (T:=T) d))%nat;
  begin_writes d : writes (db_begin (T:=T) d) = ∅;
  (* a transaction whose snapshot is still the contents commits *)
  commit_law d t : base t = dbview d →
    ∃ d', db_commit t d = (Ok tt, d') ∧ dbview d' = view t;
  (* one that commits on other contents writes its own keys there and nothing else *)
  commit_merge d t d' : db_commit t d = (Ok tt, d') →
    ∀ k, dbview d' !! k = if decide (k ∈ writes t) then view t !! k else dbview d !! k;
  commit_fail d t r d' : db_commit t d = (r, d') → r ≠ Ok tt → r ≠ Panic ∧ dbview d' = dbview d;
}.

(** ** Order of keys *)

Lemma key_lt_trans a b c : key_lt a b → key_lt b c → key_lt a c.
Proof. apply bytes_compare_trans. Qed.

Lemma key_le_lt_or_eq a b : key_le a b ↔ key_lt a b ∨ a = b.
Proof.
  unfold key_le, key_lt. rewrite <- bytes_compare_eq.
  destruct (bytes_compare a b); naive_solver.
Qed.

#[global] Instance key_le_dec : RelDecision key_le.
Proof. intros a b. unfold key_le. solve_decision. Defined.
#[global] Instance key_le_total : Total key_le.
Proof.
  intros a b. unfold key_le. rewrite (bytes_compare_antisym a b).
  destruct (bytes_compare a b); simpl; auto.
Qed.
#[global] Instance key_le_trans : Transitive key_le.
Proof.
  intros a b c Hab Hbc.
  apply key_le_lt_or_eq in Hab as [Hab| ->]; [|done].
  apply key_le_lt_or_eq in Hbc as [Hbc| ->]; apply key_le_lt_or_eq; left;
    [by eapply key_lt_trans|done].
Qed.
#[global] Instance key_le_antisymm : AntiSymm (=) key_le.
Proof.
  intros a b Hab Hba. apply key_le_lt_or_eq in Hab as [Hab|]; [|done].
  destruct Hba. unfold key_lt in Hab. by rewrite (bytes_compare_antisym a b), Hab.
Qed.

Lemma bytes_compare_app p a b : bytes_compare (p ++ a) (p ++ b) = bytes_compare a b.
Proof. induction p as [|x p IH]; simpl; [done|]. by rewrite Z.compare_refl. Qed.

(** ** An instance on finite maps *)

Module MapTxn.

(** The contents at the start, how many more writes fit, and the pending writes
    ([None] for a deletion). *)
Record txn := Txn { tbase : gmap bytes bytes; troom : nat; tpend : gmap bytes (option bytes) }.

Definition over (d : gmap bytes bytes) (p : gmap bytes (option bytes)) : gmap bytes bytes :=
  merge (λ b p, match p with Some w => w | None => b end) d p.
Definition tview (t : txn) : gmap bytes bytes := over (tbase t) (tpend t).

Lemma lookup_over d p k : over d p !! k = match p !! k with Some w => w | None => d !! k end.
Proof. unfold over. rewrite lookup_merge. by destruct (d !! k), (p !! k). Qed.

Definition item_le (x y : bytes * bytes) : Prop := key_le x.1 y.1.
#[global] Instance item_le_dec : RelDecision item_le.
Proof. intros x y. unfold item_le. apply _. Defined.
#[global] Instance item_le_total : Total item_le.
Proof. intros x y. apply key_le_total. Qed.
#[global] Instance item_le_trans : Transitive item_le.
Proof. intros x y z. apply key_le_trans. Qed.

Definition write (k : bytes) (w : option bytes) : stM txn unit := λ t,
  if decide (k = []) then (err "Key cannot be empty", t)
  else match troom t with
       | O => (err "Txn is too big to fit into one request", t)
       | S n => (Ok tt, Txn (tbase t) n (<[k:=w]> (tpend t)))
       end.

Lemma view_set t n k v :
  tview (Txn (tbase t) n (<[k:=Some v]> (tpend t))) = <[k:=v]> (tview t).
Proof.
  apply map_eq. intros i. unfold tview. rewrite lookup_over. cbn [tbase tpend].
  destruct (decide (k = i)) as [->|Hne]; [by rewrite !lookup_insert_eq|].
  by rewrite !lookup_insert_ne, lookup_over by done.
Qed.

Lemma view_delete t n k : tview (Txn (tbase t) n (<[k:=None]> (tpend t))) = delete k (tview t).
Proof.
  apply map_eq. intros i. unfold tview. rewrite lookup_over. cbn [tbase tpend].
  destruct (decide (k = i)) as [->|Hne]; [by rewrite lookup_insert_eq, lookup_delete_eq|].
  by rewrite lookup_insert_ne, lookup_delete_ne, lookup_over by done.
Qed.

#[global] Instance txn_badger : Badger txn := {
  ErrKeyNotFound := ErrMsg "Key not found";
  tx_Get k t := if decide (k = []) then err "Key cannot be empty" else
    match tview t !! k with Some v => Ok v | None => err "Key not found" end;
  tx_Set k v := write k (Some v);
  tx_Delete k := write k None;
  tx_Iter p s t :=
    (prod_map id Ok) <$>
      merge_sort item_le
        (filter (λ kv, p `prefix_of` kv.1 ∧ key_le s kv.1) (map_to_list (tview t)));
}.

Lemma sorted_items_lt (l : list (bytes * bytes)) :
  NoDup l.*1 → StronglySorted item_le l → StronglySorted key_lt l.*1.
Proof.
  induction l as [|[k v] l IH]; simpl; intros Hnd Hs; [constructor|].
  apply NoDup_cons in Hnd as [Hk Hnd]. inversion Hs as [|? ? Hs' Hall]; subst.
  constructor; [auto|]. apply Forall_forall. intros k' Hk'.
  apply list_elem_of_fmap in Hk' as ([k1 v1] & -> & Hin).
  rewrite Forall_forall in Hall. specialize (Hall _ Hin).
  apply key_le_lt_or_eq in Hall as [?|Heq]; [done|]. simpl in Heq. subst.
  destruct Hk. apply list_elem_of_fmap. by exists (k1, v1).
Qed.

#[global] Program Instance txn_laws : BadgerLaws txn := {
  view := tview; room := troom; base := tbase; writes t := dom (tpend t);
}.
Next Obligation. intros t k Hk. simpl. by rewrite decide_False. Qed.
Next Obligation.
  intros t k v (Hk & _) _ Hr. simpl. unfold write. rewrite decide_False by done.
  destruct (troom t) eqn:E; [done|]. eexists. split; [done|]. split; [apply view_set|done].
Qed.
Next Obligation.
  intros t k (Hk & _) Hr. simpl. unfold write. rewrite decide_False by done.
  destruct (troom t) eqn:E; [done|]. eexists. split; [done|]. split; [apply view_delete|done].
Qed.
Next Obligation.
  intros t k v r t' Hw. simpl in Hw. unfold write in Hw. case_decide; [by simplify_eq; auto|].
  destruct (troom t); simplify_eq; [by auto|]. left. split; [done|]. split; [apply view_set|].
  apply dom_insert_L.
Qed.
Next Obligation.
  intros t k r t' Hw. simpl in Hw. unfold write in Hw. case_decide; [by simplify_eq; auto|].
  destruct (troom t); simplify_eq; [by auto|]. left. split; [done|]. split; [apply view_delete|].
  apply dom_insert_L.
Qed.
Next Obligation.
  intros t k v r t' Hw. simpl in Hw. unfold write in Hw. case_decide; [simplify_eq; lia|].
  destruct (troom t) eqn:E; simplify_eq; simpl; lia.
Qed.
Next Obligation.
  intros t k r t' Hw. simpl in Hw. unfold write in Hw. case_decide; [simplify_eq; lia|].
  destruct (troom t) eqn:E; simplify_eq; simpl; lia.
Qed.
Next Obligation.
  intros t p s. simpl. rewrite <- list_fmap_compose. unfold compose. simpl.
  change (λ x, (prod_map id Ok x).1) with (fst : bytes * bytes → bytes).
  apply sorted_items_lt; [|apply (StronglySorted_merge_sort item_le)].
  rewrite (merge_sort_Permutation item_le).
  eapply sublist_NoDup; [apply (NoDup_fst_map_to_list (tview t))|].
  by apply fmap_sublist, sublist_filter.
Qed.
Next Obligation.
  intros t p s k rv _. simpl. rewrite list_elem_of_fmap. split.
  - intros ([k' v] & [= -> ->] & Hin). rewrite (merge_sort_Permutation item_le) in Hin.
    apply list_elem_of_filter in Hin as [[??] Hin%elem_of_map_to_list]. eauto.
  - intros (v & -> & Hv & ? & ?). exists (k, v). split; [done|].
    rewrite (merge_sort_Permutation item_le).
    apply list_elem_of_filter.
    split; [done|]. by apply elem_of_map_to_list.
Qed.

#[global] Instance db_badger : BadgerDB (gmap bytes bytes) txn := {
  db_begin d := Txn d 1000 ∅;
  db_commit t d := (Ok tt, over d (tpend t));
}.

Lemma over_empty d : over d ∅ = d.
Proof. apply map_eq. intros i. by rewrite lookup_over, lookup_empty. Qed.

#[global] Program Instance db_laws : BadgerDBLaws (gmap bytes bytes) txn := { dbview d := d }.
Next Obligation. intros d. apply over_empty. Qed.
Next Obligation. done. Qed.
Next Obligation. intros d. simpl. lia. Qed.
Next Obligation. intros d. apply dom_empty_L. Qed.
Next Obligation. intros d t Hb. simpl in *. subst. by eexists. Qed.
Next Obligation.
  intros d t d' [= <-] k. rewrite lookup_over. simpl. unfold tview. rewrite lookup_over.
  destruct (tpend t !! k) eqn:E.
  - rewrite decide_True; [done|]. by apply elem_of_dom_2 in E.
  - rewrite decide_False; [done|]. by apply not_elem_of_dom.
Qed.
Next Obligation. by intros d t r d' [= <- <-] Hr. Qed.

End MapTxn.
