(* ===== verification/BgStore.v ===== *)
(** The key-value store of [pkg/storage/store/bg/bg.go]: plain keys, maps, lists,
    sets and sorted sets, all encoded in one badger key space.

    [bgTransaction]'s methods are the functions of the section below, on a
    transaction [T]; [bgStore]'s methods (Module [Store]) run one of them in a
    transaction of their own and commit it. *)

From S2P Require Import Prelude Misc Badger.

(** ** Keys *)

(** 'l' + k *)
Definition eListMetaKey (k : bytes) : bytes := bs "l" ++ k.

Definition dListMetaKey (buf : bytes) : res bytes :=
  if decide (length buf < 1)%nat then Panic else Ok (drop 1 buf).

(** start + end *)
Definition eListMetaValue (start fin : Z) : bytes := E64func (u64 start) ++ E64func (u64 fin).

(** The value a decoder's ignored error leaves. *)
Definition or_zero (r : res Z) : Z := match r with Ok z => z | _ => 0 end.

(** A slice beyond the length is a panic here; Go's panics beyond the capacity, and reads what
    is behind the length up to there.  So also in [dMapKey]. *)
Definition dListMetaValue (buf : bytes) : res (Z * Z) :=
  if decide (length buf < 16)%nat then Panic
  else Ok (i64 (or_zero (D64func (take 8 buf))), i64 (or_zero (D64func (take 8 (drop 8 buf))))).

(** 'l' + k + index *)
Definition eListKey (k : bytes) (idx : Z) : bytes := bs "l" ++ k ++ E64func (u64 idx).

Definition dListKey (buf : bytes) : res bytes :=
  let n := length buf in
  if decide (n < 9)%nat then Panic else Ok (take (n - 9) (drop 1 buf)).

(** c + klen + k + '+' *)
Definition prefix_key (c : bytes) (k : bytes) : bytes :=
  c ++ E32func (u32 (Z.of_nat (length k))) ++ k ++ bs "+".

(** 'm' + mlen + m + '+' + k *)
Definition eMapKey (m k : bytes) : bytes := prefix_key (bs "m") m ++ k.

(** [buf[5+n:]], with [5+n] a uint32 *)
Definition dMapKey (buf : bytes) : res bytes :=
  if decide (length buf < 5)%nat then Panic
  else
    let buf := drop 1 buf in
    let n := or_zero (D32func (take 4 buf)) in
    let lo := Z.to_nat (u32 (5 + n)) in
    if decide (length buf < lo)%nat then Panic else Ok (drop lo buf).

(** 's' + klen + k + '+' + v *)
Definition eSetKey (k v : bytes) : bytes := prefix_key (bs "s") k ++ v.
Definition dSetKey (buf : bytes) : res bytes := dMapKey buf.

(** 'z' + klen + k + '+' + v *)
Definition eZetKey (k v : bytes) : bytes := prefix_key (bs "z") k ++ v.
Definition dZetKey (buf : bytes) : res bytes := dMapKey buf.

(** 'sz' + klen + k + '+' + score + v *)
Definition eZetScore (k v : bytes) (score : Z) : bytes :=
  prefix_key (bs "sz") k ++ EB32func (u32 score) ++ v.

Definition dZetScore (buf : bytes) : res (Z * bytes) :=
  if decide (length buf < 6)%nat then Panic
  else
    let buf := drop 2 buf in
    let n := or_zero (D32func (take 4 buf)) in
    let lo := Z.to_nat (u32 (5 + n)) in
    let hi := Z.to_nat (u32 (9 + n)) in
    if decide (hi < lo ∨ length buf < hi)%nat then Panic
    else Ok (i32 (or_zero (DB32func (take (hi - lo) (drop lo buf)))), drop hi buf).

(** ** Operations on a transaction *)

Section Operations.
Context {T : Type} `{!Badger T}.
Implicit Types (k m v : bytes) (start fin idx score : Z).

Definition del k : stM T unit := tx_Delete k.
Definition set k v : stM T unit := tx_Set k v.

Definition get k : stM T bytes := λ t,
  (match tx_Get k t with
   | Err e => if decide (e = ErrKeyNotFound) then Err NotExist else Err e
   | r => r
   end, t).

(** [itr := tx.NewIterator({Prefix: p}); for itr.Seek(s); itr.ValidForPrefix(p); itr.Next()] *)
Fixpoint while_prefix (p : bytes) (l : list (bytes * res bytes)) : list (bytes * res bytes) :=
  match l with
  | [] => []
  | i :: l => if decide (p `prefix_of` i.1) then i :: while_prefix p l else []
  end.
Definition scan (p s : bytes) : stM T (list (bytes * res bytes)) :=
  st_gets (λ t, while_prefix p (tx_Iter p s t)).

(** *** Maps *)

Definition mclear m : stM T unit :=
  let k := eMapKey m [] in
  items ← scan k k;
  st_iter (λ i, del i.1) items.

Definition mdel m k : stM T unit := del (eMapKey m k).
Definition mset m k v : stM T unit := set (eMapKey m k) v.
Definition mget m k : stM T bytes := get (eMapKey m k).

Fixpoint keys_of (f : bytes → res bytes) (items : list (bytes * res bytes)) : res (list bytes) :=
  match items with
  | [] => Ok []
  | i :: items => k ← f i.1; ks ← keys_of f items; Ok (k :: ks)
  end.

Fixpoint vals_of (items : list (bytes * res bytes)) : res (list bytes) :=
  match items with
  | [] => Ok []
  | i :: items => v ← i.2; vs ← vals_of items; Ok (v :: vs)
  end.

Definition mkeys m : stM T (list bytes) :=
  let k := eMapKey m [] in
  items ← scan k k;
  st_lift (keys_of dMapKey items).

Definition mvals m : stM T (list bytes) :=
  let k := eMapKey m [] in
  items ← scan k k;
  st_lift (vals_of items).

Fixpoint kvs_of (items : list (bytes * res bytes)) : res (list bytes * list bytes) :=
  match items with
  | [] => Ok ([], [])
  | i :: items =>
      k ← dMapKey i.1; v ← i.2;
      '(ks, vs) ← kvs_of items;
      Ok (k :: ks, v :: vs)
  end.

Definition mkvs m : stM T (list bytes * list bytes) :=
  let k := eMapKey m [] in
  items ← scan k k;
  st_lift (kvs_of items).

(** *** Lists *)

Definition listStartEnd k : stM T (Z * Z) :=
  v ← get (eListMetaKey k);
  st_lift (dListMetaValue v).

Definition lnew k : stM T unit := set (eListMetaKey k) (eListMetaValue 0 0).

(** A list without a meta entry is created empty. *)
Definition listStartEnd_new k : stM T (Z * Z) :=
  st_catch (listStartEnd k) (λ _, lnew k ;; mret (0, 0)).

Definition llen k : stM T Z :=
  st_catch ('(start, fin) ← listStartEnd k; mret (i64 (fin - start))) (λ _, mret 0).

Definition llclear k : stM T unit :=
  '(start, fin) ← listStartEnd k;
  st_iter (λ i, del (eListKey k i)) (seqZ start (fin - start)) ;;
  del (eListMetaKey k).

Definition llpush k v : stM T Z :=
  '(start, fin) ← listStartEnd_new k;
  if decide (i64 (start - 1) = fin) then st_err OutOfSize else
  set (eListKey k (i64 (start - 1))) v ;;
  set (eListMetaKey k) (eListMetaValue (i64 (start - 1)) fin) ;;
  mret (i64 (fin - start + 1)).

Definition llpop k : stM T bytes :=
  '(start, fin) ← listStartEnd k;
  if decide (start = fin) then st_err OutOfSize else
  v ← get (eListKey k start);
  set (eListMetaKey k) (eListMetaValue (i64 (start + 1)) fin) ;;
  mret v.

Definition lrpush k v : stM T Z :=
  '(start, fin) ← listStartEnd_new k;
  if decide (start = i64 (fin + 1)) then st_err OutOfSize else
  set (eListKey k fin) v ;;
  set (eListMetaKey k) (eListMetaValue start (i64 (fin + 1))) ;;
  mret (i64 (fin - start + 1)).

Definition lrpop k : stM T bytes :=
  '(start, fin) ← listStartEnd k;
  if decide (start = fin) then st_err OutOfSize else
  v ← get (eListKey k (i64 (fin - 1)));
  set (eListMetaKey k) (eListMetaValue start (i64 (fin - 1))) ;;
  mret v.

Definition lset k idx v : stM T unit :=
  '(start, fin) ← listStartEnd k;
  let idx := if decide (idx >= 0) then i64 (idx + start) else i64 (idx + fin) in
  if decide (idx < start ∨ idx >= fin) then st_err OutOfSize else
  set (eListKey k (i64 (idx + start))) v.

Definition lindex k idx : stM T bytes :=
  '(start, fin) ← listStartEnd k;
  let idx := if decide (idx >= 0) then i64 (idx + start) else i64 (idx + fin) in
  if decide (idx < start ∨ idx >= fin) then mret [] else
  get (eListKey k idx).

(** The loop of [lrange]: an index that cannot be read is skipped. *)
Fixpoint lrange_loop k (ixs : list Z) : stM T (list bytes) :=
  match ixs with
  | [] => mret []
  | i :: ixs =>
      v ← st_catch (v ← get (eListKey k i); mret [v]) (λ _, mret []);
      vs ← lrange_loop k ixs;
      mret (v ++ vs)
  end.

Definition lrange k start fin : stM T (list bytes) :=
  '(x, y) ← listStartEnd k;
  let fin := if decide (fin < 0) then i64 (fin + y) else i64 (fin + x) in
  let start := if decide (start < 0) then i64 (start + y) else i64 (start + x) in
  let start := if decide (start < x) then x else start in
  let fin := if decide (fin >= y) then y else fin in
  lrange_loop k (seqZ start (fin + 1 - start)).

(** *** Sets *)

Definition sclear k : stM T unit :=
  let k := eSetKey k [] in
  items ← scan k k;
  st_iter (λ i, del i.1) items.

Definition sdel k v : stM T unit := del (eSetKey k v).
Definition sadd k v : stM T unit := set (eSetKey k v) [].

Definition selem k v : stM T bool :=
  st_catch (get (eSetKey k v) ;; mret true)
    (λ e, if decide (e = NotExist) then mret false else st_err e).

Definition smembers k : stM T (list bytes) :=
  let k := eSetKey k [] in
  items ← scan k k;
  st_lift (keys_of dSetKey items).

(** *** Sorted sets *)

Definition zclear k : stM T unit :=
  let key := prefix_key (bs "sz") k in
  items ← scan key key;
  st_iter (λ i,
    '(score, v) ← st_lift (dZetScore i.1);
    del (eZetKey k v) ;;
    del (eZetScore k v score)) items.

Definition zdel k v : stM T unit :=
  let key := eZetKey k v in
  buf ← get key;
  del key ;;
  let score := or_zero (D32func buf) in
  del (eZetScore k v (i32 score)).

Definition zscore k v : stM T Z :=
  buf ← get (eZetKey k v);
  mret (i32 (or_zero (D32func buf))).

Definition zadd k score v : stM T unit :=
  set (eZetKey k v) (E32func (u32 score)) ;;
  set (eZetScore k v score) [].

Fixpoint zrange_loop (fin : Z) (items : list (bytes * res bytes)) : res (list bytes) :=
  match items with
  | [] => Ok []
  | i :: items =>
      '(score, v) ← dZetScore i.1;
      if decide (score > fin) then Ok []
      else vs ← zrange_loop fin items; Ok (Dup v :: vs)
  end.

Definition zrange k start fin : stM T (list bytes) :=
  let key := prefix_key (bs "sz") k in
  items ← scan key (eZetScore k [] start);
  st_lift (zrange_loop fin items).

End Operations.

(** ** Operations of the store: one transaction each *)

Module Store.
Section Store.
Context {D T : Type} `{!BadgerDB D T} `{!Badger T}.
Implicit Types (k m v : bytes) (start fin idx score : Z).

(** [tx := db.NewTransaction(true); defer tx.Discard(); …; return tx.Commit()] *)
Definition update {A} (f : stM T A) : stM D A := λ d,
  match f (db_begin d) with
  | (Ok a, t) => (db_commit t ;; mret a) d
  | (Err e, _) => (Err e, d)
  | (Panic, _) => (Panic, d)
  end.

(** [tx := db.NewTransaction(false); defer tx.Discard(); return …] *)
Definition read {A} (f : stM T A) : stM D A := λ d, ((f (db_begin d)).1, d).

Definition Del k : stM D unit := update (del k).
Definition Set_ k v : stM D unit := update (set k v).
Definition Get k : stM D bytes := read (get k).
Definition Mclear m : stM D unit := update (mclear m).
Definition Mdel m k : stM D unit := update (mdel m k).
Definition Mset m k v : stM D unit := update (mset m k v).
Definition Mget m k : stM D bytes := read (mget m k).
Definition Mkeys m : stM D (list bytes) := read (mkeys m).
Definition Mvals m : stM D (list bytes) := read (mvals m).
Definition Mkvs m : stM D (list bytes * list bytes) := read (mkvs m).
Definition Llen k : stM D Z := read (llen k).
Definition Lclear k : stM D unit := update (llclear k).
Definition Llpush k v : stM D Z := update (llpush k v).
Definition Llpop k : stM D bytes := update (llpop k).
Definition Lrpush k v : stM D Z := update (lrpush k v).
Definition Lrpop k : stM D bytes := update (lrpop k).
Definition Lrange k start fin : stM D (list bytes) := read (lrange k start fin).
Definition Lset k idx v : stM D unit := update (lset k idx v).
Definition Lindex k idx : stM D bytes := read (lindex k idx).
Definition Sclear k : stM D unit := update (sclear k).
Definition Sdel k v : stM D unit := update (sdel k v).
Definition Sadd k v : stM D unit := update (sadd k v).
Definition Selem k v : stM D bool := read (selem k v).
Definition Smembers k : stM D (list bytes) := read (smembers k).
Definition Zclear k : stM D unit := update (zclear k).
Definition Zdel k v : stM D unit := update (zdel k v).
Definition Zadd k score v : stM D unit := update (zadd k score v).
Definition Zscore k v : stM D Z := read (zscore k v).
Definition Zrange k start fin : stM D (list bytes) := read (zrange k start fin).

End Store.
End Store.

(** ** Keys are uniquely decodable *)

(** A name short enough for every key made from it, with a value part of at most
    600 bytes, to be a badger key. *)
Definition name_ok (k : bytes) : Prop := Z.of_nat (length k) ≤ 60000.

Lemma name_ok_short k : name_ok k → short k.
Proof. unfold name_ok, short. lia. Qed.

Lemma prefix_key_eq c k r :
  prefix_key c k ++ r = c ++ E32func (u32 (Z.of_nat (length k))) ++ k ++ bs "+" ++ r.
Proof. unfold prefix_key. by rewrite <- !app_assoc. Qed.

Lemma prefix_key_inj c k k' r r' :
  short k → short k' → prefix_key c k ++ r = prefix_key c k' ++ r' → k = k' ∧ r = r'.
Proof.
  intros Hk Hk'. rewrite !prefix_key_eq. intros Heq%app_inv_head.
  apply prefixed_inj in Heq as [-> Heq]; [|done..].
  by apply app_inv_head in Heq.
Qed.

Lemma prefix_key_prefix c k k' r :
  short k → short k' → prefix_key c k `prefix_of` prefix_key c k' ++ r → k = k'.
Proof.
  intros Hk Hk' [x Hx]. symmetry in Hx. by apply prefix_key_inj in Hx as [-> _].
Qed.

Lemma length_prefix_key c k :
  length (prefix_key c k) = (length c + 5 + length k)%nat.
Proof. unfold prefix_key. rewrite !length_app, length_E32func. simpl. lia. Qed.

Lemma dMapKey_prefix_key c k r :
  length c = 1%nat → name_ok k → dMapKey (prefix_key c k ++ r) = Ok r.
Proof.
  intros Hc Hk. unfold dMapKey.
  rewrite decide_False by (rewrite length_app, length_prefix_key; lia).
  rewrite prefix_key_eq, drop_app_length' by done.
  rewrite take_app_length' by (by rewrite length_E32func).
  unfold name_ok in *. rewrite (short_u32 k) by (unfold short; lia).
  autorewrite with codec_rw. cbn [or_zero].
  replace (u32 (5 + _)) with (5 + Z.of_nat (length k)) by (unfold u32; rewrite Z.mod_small; lia).
  rewrite !app_assoc.
  assert (Hl : length ((E32func (Z.of_nat (length k)) ++ k) ++ bs "+") = Z.to_nat (5 + Z.of_nat (length k))).
  { rewrite !length_app, length_E32func. simpl. lia. }
  rewrite decide_False by (rewrite length_app, Hl; lia).
  by rewrite drop_app_length'.
Qed.

Lemma u32_range z : is_u32 (u32 z).
Proof. unfold_words. pose proof (Z.mod_pos_bound z 4294967296). lia. Qed.

Lemma i32_u32 z : -2147483648 ≤ z < 2147483648 → i32 (u32 z) = z.
Proof.
  intros. unfold i32, u32. rewrite Z.mod_mod by lia.
  destruct (Z.ltb_spec (z mod 4294967296) 2147483648); Z.to_euclidean_division_equations; lia.
Qed.

Lemma i64_u64 z : is_i64 z → i64 (u64 z) = z.
Proof.
  unfold is_i64. intros. unfold i64, u64. rewrite Z.mod_mod by lia.
  destruct (Z.ltb_spec (z mod 18446744073709551616) 9223372036854775808);
    Z.to_euclidean_division_equations; lia.
Qed.

Lemma i64_small z : is_i64 z → i64 z = z.
Proof. intros Hz. rewrite <- (i64_u64 z) at 2 by done. unfold i64, u64. by rewrite Z.mod_mod. Qed.

Lemma u64_inj_i64 x y : is_i64 x → is_i64 y → u64 x = u64 y → x = y.
Proof. intros Hx Hy He. rewrite <- (i64_u64 x), <- (i64_u64 y), He; done. Qed.

Lemma length_EB32func' z : length (EB32func z) = 4%nat.
Proof. apply length_EB32func. Qed.

Lemma dZetScore_key k score r :
  name_ok k → -2147483648 ≤ score < 2147483648 →
  dZetScore (eZetScore k r score) = Ok (score, r).
Proof.
  intros Hk Hs. unfold dZetScore, eZetScore.
  rewrite decide_False by (rewrite length_app, length_prefix_key; simpl; lia).
  rewrite prefix_key_eq, drop_app_length' by done.
  rewrite take_app_length' by (by rewrite length_E32func).
  unfold name_ok in *. rewrite (short_u32 k) by (unfold short; lia).
  autorewrite with codec_rw. cbn [or_zero].
  replace (u32 (5 + _)) with (5 + Z.of_nat (length k)) by (unfold u32; rewrite Z.mod_small; lia).
  replace (u32 (9 + _)) with (9 + Z.of_nat (length k)) by (unfold u32; rewrite Z.mod_small; lia).
  replace (Z.to_nat (9 + Z.of_nat (length k)) - Z.to_nat (5 + Z.of_nat (length k)))%nat with 4%nat by lia.
  rewrite !app_assoc.
  assert (Hl : length ((E32func (Z.of_nat (length k)) ++ k) ++ bs "+") = Z.to_nat (5 + Z.of_nat (length k))).
  { rewrite !length_app, length_E32func. simpl. lia. }
  set (pre := (E32func (Z.of_nat (length k)) ++ k) ++ bs "+") in *.
  rewrite decide_False by (rewrite !length_app, length_EB32func, Hl; lia).
  rewrite <- (app_assoc pre), drop_app_length', take_app_length' by (rewrite ?length_EB32func; lia).
  rewrite app_assoc, drop_app_length' by (rewrite length_app, length_EB32func, Hl; lia).
  rewrite DB32_EB32 by apply u32_range. cbn [or_zero]. by rewrite i32_u32.
Qed.

(** ** Running one operation *)

Section Run.
Context {T : Type} `{!Badger T, !BadgerLaws T}.
Implicit Types (t : T) (k v : bytes).

Lemma key_ok_cons c k : c ≠ Byte.x21 → Z.of_nat (length k) ≤ 64999 → key_ok (c :: k).
Proof.
  intros Hc Hl. split_and!; [done| |simpl; lia].
  intros [x Hx]. unfold bs in Hx. simpl in Hx. congruence.
Qed.

Lemma key_ok_prefix_key c k r :
  c ≠ Byte.x21 → name_ok k → Z.of_nat (length r) ≤ 4000 → key_ok (prefix_key [c] k ++ r).
Proof.
  unfold name_ok. intros Hc Hk Hr.
  unfold prefix_key. cbn [app]. apply key_ok_cons; [done|].
  rewrite !length_app, length_E32func. simpl. lia.
Qed.

Lemma list_keys_ok k : name_ok k → key_ok (eListMetaKey k) ∧ ∀ i, key_ok (eListKey k i).
Proof.
  unfold name_ok. intros. split; [|intros i]; apply key_ok_cons; try done; [lia|].
  rewrite length_app, length_E64func. lia.
Qed.

Lemma set_run k v t :
  key_ok k → val_ok v → room t ≠ 0%nat →
  ∃ t', set k v t = (Ok tt, t') ∧ view t' = <[k:=v]> (view t) ∧ room t' = pred (room t) ∧ base t' = base t.
Proof. apply Set_law. Qed.

Lemma del_run k t :
  key_ok k → room t ≠ 0%nat →
  ∃ t', del k t = (Ok tt, t') ∧ view t' = delete k (view t) ∧ room t' = pred (room t) ∧ base t' = base t.
Proof. apply Delete_law. Qed.

Lemma get_run k t :
  k ≠ [] → get k t = (match view t !! k with Some v => Ok v | None => Err NotExist end, t).
Proof.
  intros Hk. unfold get. rewrite Get_law by done.
  destruct (view t !! k); [done|]. by rewrite decide_True.
Qed.

Lemma get_Some k v t : k ≠ [] → view t !! k = Some v → get k t = (Ok v, t).
Proof. intros Hk Hv. by rewrite get_run, Hv. Qed.
Lemma get_None k t : k ≠ [] → view t !! k = None → get k t = (Err NotExist, t).
Proof. intros Hk Hv. by rewrite get_run, Hv. Qed.

(** ** Lists: representation and operations

    The list [l] stored under [k] has its elements at consecutive indices
    [s, s + length l); [n] bounds the indices, so that none wraps around. *)

Definition list_repr (n : Z) (w : gmap bytes bytes) (k : bytes) (s : Z) (l : list bytes) : Prop :=
  w !! eListMetaKey k = Some (eListMetaValue s (s + Z.of_nat (length l))) ∧
  (∀ i x, l !! i = Some x → w !! eListKey k (s + Z.of_nat i) = Some x) ∧
  - n ≤ s ∧ s + Z.of_nat (length l) ≤ n.

(** [None] is a list that was never created: reading it is an error. *)
Definition list_state (n : Z) (w : gmap bytes bytes) (k : bytes) (ol : option (list bytes)) : Prop :=
  match ol with
  | None => w !! eListMetaKey k = None
  | Some l => ∃ s, list_repr n w k s l
  end.

(** The bound on the indices: no index below it wraps. *)
Definition max_index : Z := 4611686018427387904.

Lemma eListKey_inj k i j : is_i64 i → is_i64 j → eListKey k i = eListKey k j → i = j.
Proof.
  unfold eListKey. intros Hi Hj Heq%app_inv_head%app_inv_head.
  apply E64func_inj in Heq; [|apply u64_range..]. by apply u64_inj_i64.
Qed.

Lemma eListKey_meta k i : eListKey k i ≠ eListMetaKey k.
Proof.
  unfold eListKey, eListMetaKey. intros Heq%app_inv_head.
  apply (f_equal length) in Heq. rewrite length_app, length_E64func in Heq. lia.
Qed.

Lemma dListMetaValue_e s e : is_i64 s → is_i64 e → dListMetaValue (eListMetaValue s e) = Ok (s, e).
Proof.
  intros Hs He. unfold dListMetaValue, eListMetaValue.
  rewrite decide_False by (rewrite length_app, !length_E64func; lia).
  rewrite take_app_length', drop_app_length' by (by rewrite length_E64func).
  rewrite (take_ge (E64func (u64 e))) by (rewrite length_E64func; lia).
  rewrite !D64_E64 by apply u64_range. cbn [or_zero]. by rewrite !i64_u64.
Qed.

Lemma list_repr_bounds n w k s l :
  list_repr n w k s l → n < max_index →
  is_i64 s ∧ is_i64 (s + Z.of_nat (length l)) ∧ is_i64 (s - 1) ∧
  is_i64 (s + 1) ∧ is_i64 (s + Z.of_nat (length l) - 1) ∧ is_i64 (s + Z.of_nat (length l) + 1).
Proof. unfold list_repr, max_index. unfold_words. intros (_ & _ & ? & ?) ?. lia. Qed.

Lemma val_ok_meta s e : val_ok (eListMetaValue s e).
Proof. unfold val_ok, eListMetaValue. rewrite length_app, !length_E64func. lia. Qed.

Lemma listStartEnd_run n t k s l :
  n < max_index → list_repr n (view t) k s l →
  listStartEnd k t = (Ok (s, s + Z.of_nat (length l)), t).
Proof.
  intros Hn Hr. pose proof (list_repr_bounds _ _ _ _ _ Hr Hn) as (Hs & He & _).
  destruct Hr as (Hm & _). unfold listStartEnd.
  erewrite st_bind_eq by by apply get_Some.
  unfold st_lift. by rewrite dListMetaValue_e.
Qed.

Lemma listStartEnd_none t k :
  view t !! eListMetaKey k = None → listStartEnd k t = (Err NotExist, t).
Proof. intros Hm. unfold listStartEnd. by erewrite st_bind_err by by apply get_None. Qed.

(** What an operation on list [k] may change: the key of its bounds and those of its elements. *)
Definition list_frame (k : bytes) (w w' : gmap bytes bytes) : Prop :=
  ∀ q, q ≠ eListMetaKey k → (∀ i, q ≠ eListKey k i) → w' !! q = w !! q.

Lemma list_frame_refl k w : list_frame k w w.
Proof. by intros q. Qed.
Lemma list_frame_trans k w1 w2 w3 : list_frame k w1 w2 → list_frame k w2 w3 → list_frame k w1 w3.
Proof. intros H1 H2 q Hq Hi. by rewrite H2, H1. Qed.
Lemma list_frame_meta k v w : list_frame k w (<[eListMetaKey k:=v]> w).
Proof. intros q Hq Hi. by apply lookup_insert_ne. Qed.
Lemma list_frame_elem k i v w : list_frame k w (<[eListKey k i:=v]> w).
Proof. intros q Hq Hi. by apply lookup_insert_ne. Qed.

Lemma listStartEnd_new_run n t k ol :
  0 ≤ n < max_index → name_ok k → room t ≠ 0%nat → list_state n (view t) k ol →
  ∃ t' s, listStartEnd_new k t = (Ok (s, s + Z.of_nat (length (default [] ol))), t') ∧
    list_repr n (view t') k s (default [] ol) ∧ base t' = base t ∧
    (pred (room t) ≤ room t')%nat ∧ list_frame k (view t) (view t').
Proof.
  intros Hn Hk Hroom Hst. destruct ol as [l|]; simpl in *.
  - destruct Hst as [s Hr]. exists t, s. unfold listStartEnd_new, st_catch.
    rewrite (listStartEnd_run n) with (l := l) (s := s) by (done || lia).
    split_and!; [done|done|done|lia|apply list_frame_refl].
  - unfold listStartEnd_new, st_catch. rewrite listStartEnd_none by done.
    destruct (set_run (eListMetaKey k) (eListMetaValue 0 0) t) as (t' & Hs & Hv & Hrm & Hb);
      [apply list_keys_ok; done|apply val_ok_meta|done|].
    exists t', 0. unfold lnew. erewrite st_bind_eq by exact Hs.
    split_and!; [done| |done|lia|rewrite Hv; apply list_frame_meta].
    unfold list_repr. rewrite Hv, lookup_insert_eq. split_and!; [done| |lia|simpl; lia].
    intros i x Hx. by rewrite lookup_nil in Hx.
Qed.


Lemma list_repr_elem n w k s l i j x :
  list_repr n w k s l → n < max_index → is_i64 j →
  (j < s ∨ s + Z.of_nat (length l) ≤ j) → l !! i = Some x →
  ∀ v, <[eListKey k j:=v]> w !! eListKey k (s + Z.of_nat i) = Some x.
Proof.
  intros Hr Hn Hj Hout Hx v. pose proof (list_repr_bounds _ _ _ _ _ Hr Hn) as (Hs & He & _).
  apply lookup_lt_Some in Hx as Hi.
  rewrite lookup_insert_ne.
  - by apply Hr.
  - intros Heq%eListKey_inj; [lia|done|unfold_words; lia].
Qed.

Lemma list_repr_push_l n w k s l v :
  list_repr n w k s l → n < max_index →
  list_repr (n + 1) (<[eListMetaKey k:=eListMetaValue (s - 1) (s + Z.of_nat (length l))]>
    (<[eListKey k (s - 1):=v]> w)) k (s - 1) (v :: l).
Proof.
  intros Hr Hn. pose proof (list_repr_bounds _ _ _ _ _ Hr Hn) as Hb.
  unfold list_repr. rewrite lookup_insert_eq. split_and!.
  - f_equal. f_equal. simpl. lia.
  - intros i x Hx. rewrite lookup_insert_ne by (apply not_eq_sym, eListKey_meta).
    destruct i as [|i]; simpl in Hx.
    + simplify_eq. by rewrite Z.add_0_r, lookup_insert_eq.
    + replace (s - 1 + Z.of_nat (S i)) with (s + Z.of_nat i) by lia.
      by eapply list_repr_elem; [done..|naive_solver|lia|].
  - destruct Hr as (_ & _ & ? & ?). lia.
  - destruct Hr as (_ & _ & ? & ?). simpl. lia.
Qed.

Lemma list_repr_push_r n w k s l v :
  list_repr n w k s l → n < max_index →
  list_repr (n + 1) (<[eListMetaKey k:=eListMetaValue s (s + Z.of_nat (length l) + 1)]>
    (<[eListKey k (s + Z.of_nat (length l)):=v]> w)) k s (l ++ [v]).
Proof.
  intros Hr Hn. pose proof (list_repr_bounds _ _ _ _ _ Hr Hn) as Hb.
  unfold list_repr. rewrite lookup_insert_eq, length_app. split_and!.
  - f_equal. f_equal. simpl. lia.
  - intros i x Hx. rewrite lookup_insert_ne by (apply not_eq_sym, eListKey_meta).
    apply lookup_app_Some in Hx as [Hx|[Hi Hx]].
    + by eapply list_repr_elem; [done..|naive_solver|lia|].
    + apply list_lookup_singleton_Some in Hx as [Hi' ->].
      replace i with (length l) by lia. by rewrite lookup_insert_eq.
  - destruct Hr as (_ & _ & ? & ?). lia.
  - destruct Hr as (_ & _ & ? & ?). simpl. lia.
Qed.

Lemma list_repr_pop_l n w k s x l :
  list_repr n w k s (x :: l) →
  list_repr (n + 1) (<[eListMetaKey k:=eListMetaValue (s + 1) (s + Z.of_nat (length (x :: l)))]> w)
    k (s + 1) l.
Proof.
  intros (_ & He & ? & Hb). simpl in Hb. unfold list_repr. rewrite lookup_insert_eq. split_and!.
  - f_equal. f_equal. simpl. lia.
  - intros i y Hy. rewrite lookup_insert_ne by (apply not_eq_sym, eListKey_meta).
    replace (s + 1 + Z.of_nat i) with (s + Z.of_nat (S i)) by lia. by apply He.
  - lia.
  - lia.
Qed.

Lemma list_repr_pop_r n w k s x l :
  list_repr n w k s (l ++ [x]) →
  list_repr (n + 1) (<[eListMetaKey k:=eListMetaValue s (s + Z.of_nat (length (l ++ [x])) - 1)]> w)
    k s l.
Proof.
  intros (_ & He & ? & Hb). rewrite length_app in *. simpl in Hb. unfold list_repr.
  rewrite lookup_insert_eq. split_and!.
  - f_equal. f_equal. simpl. lia.
  - intros i y Hy. rewrite lookup_insert_ne by (apply not_eq_sym, eListKey_meta).
    apply He. by apply lookup_app_l_Some.
  - lia.
  - lia.
Qed.

(** ** The abstract list and its refinement *)

Inductive lop :=
  | LPush (v : bytes) | RPush (v : bytes) | LPop | RPop | LLen | LIndex (i : Z).

Inductive lval := VInt (z : Z) | VBytes (b : bytes).

(** What each operation returns and leaves, on an abstract list; reading or
    popping a list that was never created, and popping an empty one, are errors. *)
Definition lspec (o : lop) (ol : option (list bytes)) : res lval * option (list bytes) :=
  let l := default [] ol in
  match o with
  | LPush v => (Ok (VInt (Z.of_nat (length l) + 1)), Some (v :: l))
  | RPush v => (Ok (VInt (Z.of_nat (length l) + 1)), Some (l ++ [v]))
  | LPop => match ol with
            | None => (Err NotExist, None)
            | Some [] => (Err OutOfSize, ol)
            | Some (x :: l) => (Ok (VBytes x), Some l)
            end
  | RPop => match ol with
            | None => (Err NotExist, None)
            | Some l => match last l with
                        | None => (Err OutOfSize, ol)
                        | Some x => (Ok (VBytes x), Some (removelast l))
                        end
            end
  | LLen => (Ok (VInt (Z.of_nat (length l))), ol)
  | LIndex i => match ol with
                | None => (Err NotExist, None)
                | Some l =>
                    let j := if decide (0 ≤ i) then i else i + Z.of_nat (length l) in
                    (Ok (VBytes (if decide (j < 0) then [] else default [] (l !! Z.to_nat j))), ol)
                end
  end.

Definition lop_ok (o : lop) : Prop :=
  match o with
  | LPush v | RPush v => val_ok v
  | LIndex i => -max_index ≤ i ≤ max_index
  | _ => True
  end.

(** The same operation of the implementation, on a transaction. *)
Definition limpl (k : bytes) (o : lop) : stM T lval :=
  match o with
  | LPush v => VInt <$> llpush k v
  | RPush v => VInt <$> lrpush k v
  | LPop => VBytes <$> llpop k
  | RPop => VBytes <$> lrpop k
  | LLen => VInt <$> llen k
  | LIndex i => VBytes <$> lindex k i
  end.


Lemma list_state_mono n n' w k ol : list_state n w k ol → n ≤ n' → list_state n' w k ol.
Proof.
  destruct ol as [l|]; simpl; [|done]. intros (s & H1 & H2 & ? & ?) ?.
  exists s. split_and!; try done; lia.
Qed.

(** Both pushes end by writing the element and then the new bounds. *)
Lemma write_elem_meta k i v s e t :
  name_ok k → val_ok v → (2 ≤ room t)%nat →
  ∃ t', (set (eListKey k i) v ;; set (eListMetaKey k) (eListMetaValue s e)) t = (Ok tt, t') ∧
    view t' = <[eListMetaKey k:=eListMetaValue s e]> (<[eListKey k i:=v]> (view t)) ∧
    base t' = base t.
Proof.
  intros Hk Hv Hroom. destruct (list_keys_ok k Hk) as [Hmk Hek].
  destruct (set_run (eListKey k i) v t) as (t1 & H1 & Hv1 & Hr1 & Hb1); [done..|lia|].
  destruct (set_run (eListMetaKey k) (eListMetaValue s e) t1) as (t2 & H2 & Hv2 & _ & Hb2);
    [done|apply val_ok_meta|lia|].
  exists t2. erewrite st_bind_eq by exact H1. split_and!; [done| |congruence].
  by rewrite Hv2, Hv1.
Qed.

Lemma list_frame_write k i v m w : list_frame k w (<[eListMetaKey k:=m]> (<[eListKey k i:=v]> w)).
Proof. eapply list_frame_trans; [apply list_frame_elem|apply list_frame_meta]. Qed.

Section Simulation.
Context (n : Z) (k : bytes).
Hypothesis (Hn : 0 ≤ n < max_index) (Hk : name_ok k).

(** An operation agrees with its abstract version on every list it represents. *)
Definition simulates (o : lop) : Prop := ∀ t ol,
  (3 ≤ room t)%nat → list_state n (view t) k ol →
  ∃ t', limpl k o t = ((lspec o ol).1, t') ∧
    list_state (n + 1) (view t') k (lspec o ol).2 ∧ base t' = base t ∧
    list_frame k (view t) (view t').

Lemma sim_LPush v : val_ok v → simulates (LPush v).
Proof using Hn Hk.
  intros Hv t ol Hroom Hst.
  destruct (listStartEnd_new_run n t k ol) as (t1 & s & H1 & Hr & Hb1 & Hroom1 & Hf1); [done..|lia|done|].
  pose proof (list_repr_bounds _ _ _ _ _ Hr (proj2 Hn)) as (Hs & He & Hs1 & _).
  set (l := default [] ol) in *.
  destruct (write_elem_meta k (s - 1) v (s - 1) (s + Z.of_nat (length l)) t1)
    as (t2 & H2 & Hv2 & Hb2); [done..|lia|].
  exists t2. split_and!; [|exists (s - 1); rewrite Hv2; by apply list_repr_push_l, Hn|congruence|].
  - simpl. fold l. apply st_fmap_eq. unfold llpush. erewrite st_bind_eq by exact H1. cbn beta iota.
    rewrite (i64_small (s - 1)) by done. rewrite decide_False by lia.
    destruct (set_run (eListKey k (s - 1)) v t1) as (t3 & H3 & _ & _ & _); [by apply list_keys_ok|done|lia|].
    erewrite st_bind_eq in H2 by exact H3. erewrite st_bind_eq by exact H3.
    erewrite st_bind_eq by exact H2. unfold mret, stM_ret. do 3 f_equal.
    rewrite i64_small; [lia|]. destruct Hr as (_ & _ & ? & ?). unfold max_index in *. unfold_words. lia.
  - rewrite Hv2. eapply list_frame_trans; [done|apply list_frame_write].
Qed.

Lemma sim_RPush v : val_ok v → simulates (RPush v).
Proof using Hn Hk.
  intros Hv t ol Hroom Hst.
  destruct (listStartEnd_new_run n t k ol) as (t1 & s & H1 & Hr & Hb1 & Hroom1 & Hf1); [done..|lia|done|].
  pose proof (list_repr_bounds _ _ _ _ _ Hr (proj2 Hn)) as (Hs & He & _ & _ & _ & He1).
  set (l := default [] ol) in *. set (e := s + Z.of_nat (length l)) in *.
  destruct (write_elem_meta k e v s (e + 1) t1) as (t2 & H2 & Hv2 & Hb2); [done..|lia|].
  exists t2. split_and!; [|exists s; rewrite Hv2; by apply list_repr_push_r, Hn|congruence|].
  - simpl. fold l. apply st_fmap_eq. unfold lrpush. erewrite st_bind_eq by exact H1. cbn beta iota.
    rewrite (i64_small (e + 1)) by done. rewrite decide_False by lia.
    destruct (set_run (eListKey k e) v t1) as (t3 & H3 & _ & _ & _); [by apply list_keys_ok|done|lia|].
    erewrite st_bind_eq in H2 by exact H3. erewrite st_bind_eq by exact H3.
    erewrite st_bind_eq by exact H2. unfold mret, stM_ret. do 3 f_equal.
    rewrite i64_small; [lia|]. destruct Hr as (_ & _ & ? & ?). unfold max_index in *. unfold_words. lia.
  - rewrite Hv2. eapply list_frame_trans; [done|apply list_frame_write].
Qed.

(** The common tail of both pops: the new bounds are written. *)
Lemma write_meta s e t :
  (1 ≤ room t)%nat →
  ∃ t', set (eListMetaKey k) (eListMetaValue s e) t = (Ok tt, t') ∧
    view t' = <[eListMetaKey k:=eListMetaValue s e]> (view t) ∧ base t' = base t.
Proof using Hk.
  intros Hroom. destruct (set_run (eListMetaKey k) (eListMetaValue s e) t) as (t2 & H2 & Hv2 & _ & Hb2);
    [by apply list_keys_ok|apply val_ok_meta|lia|]. eauto.
Qed.

Lemma get_elem t s l i x :
  list_repr n (view t) k s l → l !! i = Some x → get (eListKey k (s + Z.of_nat i)) t = (Ok x, t).
Proof using Hk. intros (_ & He & _) Hx. apply get_Some; [done|by apply He]. Qed.

Lemma no_list o e : (∀ t, view t !! eListMetaKey k = None → limpl k o t = (Err e, t)) →
  lspec o None = (Err e, None) → ∀ t, list_state n (view t) k None →
  ∃ t', limpl k o t = ((lspec o None).1, t') ∧ list_state (n + 1) (view t') k (lspec o None).2 ∧
    base t' = base t ∧ list_frame k (view t) (view t').
Proof using Hn.
  intros Hi Hs t Hst. exists t. rewrite Hs, Hi by done. by split_and!.
Qed.

Lemma sim_LPop : simulates LPop.
Proof using Hn Hk.
  intros t [l|] Hroom Hst.
  2:{ apply (no_list _ NotExist); [|done..]. intros t0 Hm. simpl. apply st_fmap_err. unfold llpop.
      apply st_bind_err. by apply listStartEnd_none. }
  destruct Hst as [s Hr]. pose proof (list_repr_bounds _ _ _ _ _ Hr (proj2 Hn)) as (Hs & He & _ & Hs1 & _).
  destruct l as [|x l]; simpl.
  - exists t. split_and!; [| |done|apply list_frame_refl].
    + apply st_fmap_err. unfold llpop. erewrite st_bind_eq by (eapply listStartEnd_run; [|done]; lia).
      cbn beta iota. rewrite decide_True by (simpl; lia). done.
    + apply (list_state_mono n (n + 1) _ k (Some [])); [by exists s|lia].
  - destruct (write_meta (s + 1) (s + Z.of_nat (length (x :: l))) t) as (t2 & H2 & Hv2 & Hb2); [lia|].
    exists t2. split_and!; [|exists (s + 1); rewrite Hv2; by apply list_repr_pop_l|done|rewrite Hv2; apply list_frame_meta].
    apply st_fmap_eq. unfold llpop. erewrite st_bind_eq by (eapply listStartEnd_run; [|done]; lia).
    cbn beta iota. rewrite decide_False by (simpl; lia).
    pose proof (get_elem t s (x :: l) 0 x Hr eq_refl) as Hg. rewrite Z.add_0_r in Hg.
    erewrite st_bind_eq by exact Hg. rewrite (i64_small (s + 1)) by done.
    by erewrite st_bind_eq by exact H2.
Qed.

Lemma sim_RPop : simulates RPop.
Proof using Hn Hk.
  intros t [l|] Hroom Hst.
  2:{ apply (no_list _ NotExist); [|done..]. intros t0 Hm. simpl. apply st_fmap_err. unfold lrpop.
      apply st_bind_err. by apply listStartEnd_none. }
  destruct Hst as [s Hr]. pose proof (list_repr_bounds _ _ _ _ _ Hr (proj2 Hn)) as (Hs & He & _ & _ & He1 & _).
  destruct l as [|x l] using rev_ind; [|clear IHl]; simpl.
  - exists t. split_and!; [| |done|apply list_frame_refl].
    + apply st_fmap_err. unfold lrpop. erewrite st_bind_eq by (eapply listStartEnd_run; [|done]; lia).
      cbn beta iota. rewrite decide_True by (simpl; lia). done.
    + apply (list_state_mono n (n + 1) _ k (Some [])); [by exists s|lia].
  - rewrite last_snoc, removelast_last. set (e := s + Z.of_nat (length (l ++ [x]))) in *.
    destruct (write_meta s (e - 1) t) as (t2 & H2 & Hv2 & Hb2); [lia|].
    exists t2. split_and!; [|exists s; rewrite Hv2; by apply list_repr_pop_r|done|rewrite Hv2; apply list_frame_meta].
    apply st_fmap_eq. unfold lrpop. erewrite st_bind_eq by (eapply listStartEnd_run; [|done]; lia).
    cbn beta iota. fold e.
    assert (e = s + Z.of_nat (length l) + 1) as Hee by (unfold e; rewrite length_app; simpl; lia).
    clearbody e. rewrite decide_False by lia.
    pose proof (get_elem t s (l ++ [x]) (length l) x Hr) as Hg.
    rewrite (i64_small (e - 1)) by done.
    replace (e - 1) with (s + Z.of_nat (length l)) in * by lia.
    erewrite st_bind_eq by (apply Hg, list_lookup_middle; done).
    by erewrite st_bind_eq by exact H2.
Qed.

Lemma sim_LLen : simulates LLen.
Proof using Hn Hk.
  intros t ol Hroom Hst. exists t.
  split_and!; [|by apply (list_state_mono n); [|lia]|done|apply list_frame_refl].
  simpl. apply st_fmap_eq. unfold llen, st_catch. destruct ol as [l|].
  - destruct Hst as [s Hr]. pose proof (list_repr_bounds _ _ _ _ _ Hr (proj2 Hn)) as (Hs & He & _).
    erewrite st_bind_eq by (eapply listStartEnd_run; [|done]; lia).
    unfold mret, stM_ret. simpl. do 2 f_equal.
    rewrite i64_small; [lia|]. destruct Hr as (_ & _ & ? & ?). unfold max_index in *. unfold_words. lia.
  - by erewrite st_bind_err by by apply listStartEnd_none.
Qed.

Lemma sim_LIndex i : -max_index ≤ i ≤ max_index → simulates (LIndex i).
Proof using Hn Hk.
  intros Hi t [l|] Hroom Hst.
  2:{ apply (no_list _ NotExist); [|done..]. intros t0 Hm. simpl. apply st_fmap_err. unfold lindex.
      apply st_bind_err. by apply listStartEnd_none. }
  exists t. split_and!; [|by apply (list_state_mono n (n + 1) _ k (Some l)); [|lia]|done|apply list_frame_refl].
  destruct Hst as [s Hr]. pose proof Hr as (_ & _ & Hlo & Hhi).
  simpl. apply st_fmap_eq. unfold lindex. erewrite st_bind_eq by (eapply listStartEnd_run; [|done]; lia).
  cbn beta iota. set (j := if decide (0 ≤ i) then i else i + Z.of_nat (length l)).
  replace (if decide (i >= 0) then _ else _) with (s + j)
    by (unfold j; repeat case_decide; rewrite ?i64_small by (unfold max_index in *; unfold_words; lia); lia).
  case_decide as Hout.
  - unfold mret, stM_ret. case_decide; [done|].
    by rewrite lookup_ge_None_2 by lia.
  - rewrite decide_False by lia.
    destruct (lookup_lt_is_Some_2 l (Z.to_nat j)) as [x Hx]; [lia|].
    pose proof (get_elem t s l _ x Hr Hx) as Hg. rewrite Z2Nat.id in Hg by lia.
    by rewrite Hg, Hx.
Qed.

Lemma limpl_sim o : lop_ok o → simulates o.
Proof using Hn Hk.
  destruct o; simpl; intros; auto using sim_LPush, sim_RPush, sim_LPop, sim_RPop, sim_LLen, sim_LIndex.
Qed.

End Simulation.
End Run.

(** *** Whole runs of the store *)

Section StoreLists.
Context {D T : Type} `{!BadgerDB D T, !Badger T, !BadgerLaws T, !BadgerDBLaws D T}.

Definition limpl_db (k : bytes) (o : lop) : stM D lval :=
  match o with
  | LPush v => VInt <$> Store.Llpush k v
  | RPush v => VInt <$> Store.Lrpush k v
  | LPop => VBytes <$> Store.Llpop k
  | RPop => VBytes <$> Store.Lrpop k
  | LLen => VInt <$> Store.Llen k
  | LIndex i => VBytes <$> Store.Lindex k i
  end.

Fixpoint run_db (k : bytes) (os : list lop) (d : D) : list (res lval) * D :=
  match os with
  | [] => ([], d)
  | o :: os => let '(r, d) := limpl_db k o d in let '(rs, d) := run_db k os d in (r :: rs, d)
  end.

Fixpoint run_spec (os : list lop) (ol : option (list bytes)) : list (res lval) * option (list bytes) :=
  match os with
  | [] => ([], ol)
  | o :: os => let '(r, ol) := lspec o ol in let '(rs, ol) := run_spec os ol in (r :: rs, ol)
  end.

Lemma update_fmap {A B} (f : A → B) (m : stM T A) d :
  (f <$> Store.update m) d = Store.update (f <$> m) d.
Proof.
  unfold Store.update, fmap, stM_fmap, mbind, stM_bind.
  destruct (m (db_begin d)) as [[a|e|] t]; try done.
  destruct (db_commit t d) as [[[]|e|] d']; done.
Qed.

Lemma read_fmap {A B} (f : A → B) (m : stM T A) d :
  (f <$> Store.read m) d = Store.read (f <$> m) d.
Proof.
  unfold Store.read, fmap, stM_fmap. destruct (m (db_begin d)) as [[a|e|] t]; done.
Qed.

Lemma update_Ok {A} (f : stM T A) d a t :
  f (db_begin d) = (Ok a, t) → base t = dbview d →
  ∃ d', Store.update f d = (Ok a, d') ∧ dbview d' = view t.
Proof.
  intros Hf Hb. destruct (commit_law d t Hb) as (d' & Hc & Hv). exists d'. split; [|done].
  unfold Store.update. rewrite Hf. by erewrite st_bind_eq by exact Hc.
Qed.

Lemma lspec_Err o ol e : (lspec o ol).1 = Err e → (lspec o ol).2 = ol.
Proof. destruct o, ol as [l|]; simpl; try done; [by destruct l|by destruct (last l)]. Qed.

Lemma lspec_not_Panic o ol : (lspec o ol).1 ≠ Panic.
Proof. destruct o, ol as [l|]; simpl; try done; [by destruct l|by destruct (last l)]. Qed.

Lemma limpl_db_sim n k o d ol :
  0 ≤ n < max_index → name_ok k → lop_ok o → list_state n (dbview d) k ol →
  ∃ d', limpl_db k o d = ((lspec o ol).1, d') ∧
    list_state (n + 1) (dbview d') k (lspec o ol).2 ∧ list_frame k (dbview d) (dbview d').
Proof.
  intros Hn Hk Ho Hst. pose proof (begin_room (T:=T) d) as Hroom.
  rewrite <- (begin_view (T:=T) d) in Hst.
  destruct (limpl_sim n k Hn Hk o Ho (db_begin d) ol) as (t' & Hrun & Hst' & Hb & Hf); [lia|done|].
  rewrite begin_view in *. rewrite begin_base in Hb.
  assert ((∃ i, o = LIndex i) ∨ o = LLen ∨ limpl_db k o d = Store.update (limpl k o) d) as
    [[i ->]|[->|Hup]] by (destruct o; [do 2 right; apply (update_fmap _ _ d)..|auto|eauto]).
  1,2: exists d; split_and!;
    [|apply (list_state_mono n); [by destruct ol|lia]|apply list_frame_refl];
    cbn [limpl_db]; unfold Store.Lindex, Store.Llen; rewrite read_fmap; unfold Store.read;
    unfold limpl in Hrun; by rewrite Hrun.
  rewrite Hup. destruct (lspec o ol).1 as [v|e|] eqn:E.
  - destruct (update_Ok _ d v t' Hrun Hb) as (d' & -> & Hv). exists d'. by rewrite Hv.
  - exists d. unfold Store.update. rewrite Hrun.
    rewrite (lspec_Err _ _ _ E). split_and!; [done| |done]. by apply (list_state_mono n); [|lia].
  - by destruct (lspec_not_Panic o ol).
Qed.

Lemma run_db_sim n k os d ol :
  name_ok k → Forall lop_ok os → 0 ≤ n → n + Z.of_nat (length os) < max_index →
  list_state n (dbview d) k ol →
  (run_db k os d).1 = (run_spec os ol).1 ∧ list_frame k (dbview d) (dbview (run_db k os d).2).
Proof.
  intros Hk Hos. revert d n ol.
  induction Hos as [|o os Ho Hos IH]; intros d n ol Hn Hmax Hst; simpl in *; [done|].
  destruct (limpl_db_sim n k o d ol) as (d1 & H1 & Hst1 & Hf1); [lia|done..|].
  rewrite H1. destruct (lspec o ol) as [r ol1]. simpl in *.
  destruct (IH d1 (n + 1) ol1) as [IH1 IH2]; [lia|lia|done|].
  destruct (run_db k os d1) as [rs d2]. destruct (run_spec os ol1) as [rs' ol2]. simpl in *.
  split; [congruence|]. by eapply list_frame_trans.
Qed.

(** C9: the store's lists refine abstract lists.  Starting from a database without
    the list [k], any sequence of pushes, pops, lengths and indexed reads (each in a
    transaction of its own, with its commit) returns exactly the results, errors
    included, of the same operations on an abstract list, and touches no key but that of
    the list's bounds and those of its elements.  [lset] and [lrange], which do not do what
    they mean to ([lset_effect], [Examples.lrange_returns_popped]), and the deletion of a
    whole list are left out. *)
Theorem lists_refine (k : bytes) (os : list lop) (d : D) :
  name_ok k → Forall lop_ok os → Z.of_nat (length os) < max_index →
  dbview d !! eListMetaKey k = None →
  (run_db k os d).1 = (run_spec os None).1 ∧
  list_frame k (dbview d) (dbview (run_db k os d).2).
Proof.
  intros Hk Hos Hmax Hnone. apply (run_db_sim 0 k os d None); try done; lia.
Qed.

End StoreLists.

Lemma lists_refine_witness :
  let os := [LPush (bs "a"); RPush (bs "b"); LIndex (-1); LPop; RPop; LPop] in
  (run_db (D:=gmap bytes bytes) (T:=MapTxn.txn) (bs "q") os ∅).1 =
    [Ok (VInt 1); Ok (VInt 2); Ok (VBytes (bs "b")); Ok (VBytes (bs "a")); Ok (VBytes (bs "b")); Err OutOfSize].
Proof.
  intros os. refine (eq_trans (proj1 (lists_refine (bs "q") os (∅ : gmap bytes bytes) _ _ _ _)) _).
  - vm_compute. discriminate.
  - repeat constructor; vm_compute; discriminate.
  - vm_compute. reflexivity.
  - reflexivity.
  - vm_compute. reflexivity.
Defined.

(** ** Maps, sets and sorted sets: ordered listing under a prefix *)

Section Scans.
Context {T : Type} `{!Badger T, !BadgerLaws T}.
Implicit Types (t : T) (p s k v : bytes) (l : list (bytes * bytes)).

Definition item p (kv : bytes * bytes) : bytes * res bytes := (p ++ kv.1, Ok kv.2).

(** [l] lists exactly the entries below the prefix [p] from [s] on, in key order,
    without the prefix. *)
Definition listing (w : gmap bytes bytes) p s l : Prop :=
  StronglySorted key_lt l.*1 ∧
  ∀ k v, (k, v) ∈ l ↔ w !! (p ++ k) = Some v ∧ key_le s (p ++ k).

Lemma key_lt_app p a b : key_lt (p ++ a) (p ++ b) ↔ key_lt a b.
Proof. unfold key_lt. by rewrite bytes_compare_app. Qed.

Lemma items_of_prefix p (its : list (bytes * res bytes)) :
  Forall (λ i, ∃ k v, i = item p (k, v)) its → ∃ l, its = item p <$> l.
Proof.
  induction 1 as [|i its (k & v & ->) _ (l & ->)]; [by exists []|by exists ((k, v) :: l)].
Qed.

Lemma while_prefix_items p l : while_prefix p (item p <$> l) = item p <$> l.
Proof.
  induction l as [|[k v] l IH]; simpl; [done|].
  rewrite decide_True by (by eexists). by f_equal.
Qed.

Lemma sorted_items p l : StronglySorted key_lt (item p <$> l).*1 → StronglySorted key_lt l.*1.
Proof.
  induction l as [|[k v] l IH]; simpl; [constructor|].
  intros Hs. inversion Hs as [|? ? Hs' Hall]; subst. constructor; [auto|].
  rewrite <- list_fmap_compose in Hall. rewrite Forall_fmap in *.
  eapply Forall_impl; [exact Hall|]. intros [k' v'] Hlt. by apply key_lt_app in Hlt.
Qed.

Lemma scan_run p s t : p `prefix_of` s → ∃ l, scan p s t = (Ok (item p <$> l), t) ∧ listing (view t) p s l.
Proof.
  intros Hs. destruct (items_of_prefix p (tx_Iter p s t)) as [l Hl].
  { apply Forall_forall. intros [k rv] (v & -> & _ & [k' ->] & _)%Iter_law; [|by right]. by exists k', v. }
  exists l. unfold scan, st_gets. cbv beta. rewrite Hl. rewrite while_prefix_items. split; [done|]. split.
  - apply (sorted_items p). rewrite <- Hl. apply Iter_sorted.
  - intros k v. transitivity ((p ++ k, Ok v) ∈ tx_Iter p s t).
    + rewrite Hl, list_elem_of_fmap. split; [intros; by exists (k, v)|].
      intros ([k' v'] & [= Hk <-] & Hin). by apply app_inv_head in Hk as ->.
    + rewrite Iter_law by by right. split; [naive_solver|]. intros [Hv Hle]. exists v. by repeat split; [..|eexists|].
Qed.

Lemma key_le_app p k : key_le p (p ++ k).
Proof.
  unfold key_le. rewrite <- (app_nil_r p) at 1. rewrite bytes_compare_app. by destruct k.
Qed.

Lemma listing_all w p l : listing w p p l → ∀ k v, (k, v) ∈ l ↔ w !! (p ++ k) = Some v.
Proof. intros [_ Hl] k v. rewrite Hl. naive_solver eauto using key_le_app. Qed.

Lemma keys_of_items (f : bytes → res bytes) p l :
  (∀ k, f (p ++ k) = Ok k) → keys_of f (item p <$> l) = Ok l.*1.
Proof. 
  intros Hf. induction l as [|[k v] l IH]; [done|].
  rewrite fmap_cons. cbn [keys_of item fst]. by rewrite Hf, IH.
Qed.
Lemma vals_of_items p l : vals_of (item p <$> l) = Ok l.*2.
Proof.
  induction l as [|[k v] l IH]; [done|].
  rewrite fmap_cons. cbn [vals_of item snd]. by rewrite IH.
Qed.
Lemma kvs_of_items c m l :
  length c = 1%nat → name_ok m → kvs_of (item (prefix_key c m) <$> l) = Ok (l.*1, l.*2).
Proof.
  intros Hc Hm. induction l as [|[k v] l IH]; [done|].
  rewrite fmap_cons. cbn [kvs_of item fst snd]. by rewrite dMapKey_prefix_key, IH.
Qed.

(** The entries of the map [m]. *)
Definition map_entry (w : gmap bytes bytes) (m k : bytes) : option bytes := w !! eMapKey m k.

Lemma eMapKey_nil m : eMapKey m [] = prefix_key (bs "m") m.
Proof. apply app_nil_r. Qed.

Lemma map_entry_insert w m k v m' k' : name_ok m → name_ok m' →
  map_entry (<[eMapKey m k:=v]> w) m' k' =
    if decide (m = m' ∧ k = k') then Some v else map_entry w m' k'.
Proof.
  intros Hm Hm'. unfold map_entry. case_decide as Heq.
  - destruct Heq as [-> ->]. by rewrite lookup_insert_eq.
  - rewrite lookup_insert_ne; [done|]. intros He. apply Heq.
    by apply prefix_key_inj in He; [|apply name_ok_short..].
Qed.

Lemma map_entry_delete w m k m' k' : name_ok m → name_ok m' →
  map_entry (delete (eMapKey m k) w) m' k' =
    if decide (m = m' ∧ k = k') then None else map_entry w m' k'.
Proof.
  intros Hm Hm'. unfold map_entry. case_decide as Heq.
  - destruct Heq as [-> ->]. by rewrite lookup_delete_eq.
  - rewrite lookup_delete_ne; [done|]. intros He. apply Heq.
    by apply prefix_key_inj in He; [|apply name_ok_short..].
Qed.

Definition field_ok (k : bytes) : Prop := Z.of_nat (length k) ≤ 4000.

Lemma eMapKey_ok m k : name_ok m → field_ok k → key_ok (eMapKey m k).
Proof. intros. by apply (key_ok_prefix_key Byte.x6d). Qed.

(** The maps of a transaction behave as finite maps from (map, key) to values:
    [mset] and [mdel] succeed and change exactly the entry they name, in no other map
    and no other key; [mget] returns the entry or [NotExist]; [mkeys], [mvals] and
    [mkvs] list exactly the entries of their map, keys in ascending byte order. *)
Theorem maps_correct (t : T) (m k v : bytes) :
  name_ok m → field_ok k → val_ok v → room t ≠ 0%nat →
  (∃ t', mset m k v t = (Ok tt, t') ∧ ∀ m' k', name_ok m' →
     map_entry (view t') m' k' = if decide (m = m' ∧ k = k') then Some v else map_entry (view t) m' k') ∧
  (∃ t', mdel m k t = (Ok tt, t') ∧ ∀ m' k', name_ok m' →
     map_entry (view t') m' k' = if decide (m = m' ∧ k = k') then None else map_entry (view t) m' k') ∧
  mget m k t = (match map_entry (view t) m k with Some v => Ok v | None => Err NotExist end, t) ∧
  ∃ l, StronglySorted key_lt l.*1 ∧ (∀ k v, (k, v) ∈ l ↔ map_entry (view t) m k = Some v) ∧
    mkeys m t = (Ok l.*1, t) ∧ mvals m t = (Ok l.*2, t) ∧ mkvs m t = (Ok (l.*1, l.*2), t).
Proof.
  intros Hm Hk Hv Hr. pose proof (eMapKey_ok m k Hm Hk) as Hkey. split_and!.
  - destruct (set_run _ v t Hkey Hv Hr) as (t' & Hs & Hw & _). exists t'. split; [done|].
    intros m' k' Hm'. rewrite Hw. by apply map_entry_insert.
  - destruct (del_run _ t Hkey Hr) as (t' & Hs & Hw & _). exists t'. split; [done|].
    intros m' k' Hm'. rewrite Hw. by apply map_entry_delete.
  - apply get_run. apply Hkey.
  - destruct (scan_run (prefix_key (bs "m") m) (prefix_key (bs "m") m) t) as (l & Hl & Hlist); [done|].
    exists l. split; [apply Hlist|]. split; [by apply listing_all|].
    unfold mkeys, mvals, mkvs. rewrite !eMapKey_nil.
    split_and!; erewrite st_bind_eq by exact Hl; unfold st_lift.
    + by rewrite keys_of_items by (intros; by apply dMapKey_prefix_key).
    + by rewrite vals_of_items.
    + by rewrite kvs_of_items.
Qed.

(** The sets of a transaction behave as finite sets: [sadd] and [sdel] succeed and
    change only the membership of their element in their set, [selem] answers
    membership, [smembers] lists exactly the members in ascending byte order. *)
Theorem sets_correct (t : T) (k v : bytes) :
  name_ok k → field_ok v → room t ≠ 0%nat →
  let member w k v := is_Some (w !! eSetKey k v) in
  (∃ t', sadd k v t = (Ok tt, t') ∧ ∀ k' v', name_ok k' →
     member (view t') k' v' ↔ k = k' ∧ v = v' ∨ member (view t) k' v') ∧
  (∃ t', sdel k v t = (Ok tt, t') ∧ ∀ k' v', name_ok k' →
     member (view t') k' v' ↔ ¬ (k = k' ∧ v = v') ∧ member (view t) k' v') ∧
  (∃ b, selem k v t = (Ok b, t) ∧ (b = true ↔ member (view t) k v)) ∧
  ∃ vs, smembers k t = (Ok vs, t) ∧ StronglySorted key_lt vs ∧ ∀ v, v ∈ vs ↔ member (view t) k v.
Proof.
  intros Hk Hv Hr member.
  assert (key_ok (eSetKey k v)) as Hkey by by apply (key_ok_prefix_key Byte.x73).
  assert (∀ k' v', name_ok k' → eSetKey k v = eSetKey k' v' → k = k' ∧ v = v') as Hinj.
  { intros k' v' Hk' He. by apply prefix_key_inj in He; [|apply name_ok_short..]. }
  split_and!.
  - destruct (set_run _ [] t Hkey) as (t' & Hs & Hw & _); [by unfold val_ok|done|].
    exists t'. split; [done|]. intros k' v' Hk'. unfold member. rewrite Hw.
    rewrite lookup_insert_is_Some'. split; intros [He|?]; [left; by apply Hinj|by right| |by right].
    left. by destruct He as [-> ->].
  - destruct (del_run _ t Hkey Hr) as (t' & Hs & Hw & _). exists t'. split; [done|].
    intros k' v' Hk'. unfold member. rewrite Hw, lookup_delete_is_Some.
    split; intros [Hne ?]; (split; [|done]).
    + intros [-> ->]. by apply Hne.
    + intros He. apply Hne. by apply Hinj.
  - unfold selem, st_catch, member. destruct (view t !! eSetKey k v) as [x|] eqn:E.
    + exists true. erewrite st_bind_eq by (by apply get_Some). naive_solver.
    + exists false. erewrite st_bind_err by (by apply get_None).
      rewrite decide_True by done. split; [done|]. split; [done|]. intros [? [=]].
  - destruct (scan_run (prefix_key (bs "s") k) (prefix_key (bs "s") k) t) as (l & Hl & Hlist); [done|].
    exists l.*1. split_and!; [|apply Hlist|].
    + unfold smembers. replace (eSetKey k []) with (prefix_key (bs "s") k) by by rewrite <- (app_nil_r (prefix_key _ _)).
      erewrite st_bind_eq by exact Hl. unfold st_lift.
      by rewrite keys_of_items by (intros; by apply dMapKey_prefix_key).
    + intros x. pose proof (listing_all _ _ _ Hlist) as Hall. unfold member, eSetKey.
      rewrite list_elem_of_fmap. split.
      * intros ([k1 v1] & -> & Hin). apply Hall in Hin. by eexists.
      * intros [y Hy]. exists (x, y). split; [done|]. by apply Hall.
Qed.

End Scans.

(** ** Sorted sets *)

Lemma bytes_compare_snoc p q x y a b :
  length p = length q →
  bytes_compare (p ++ x :: a) (q ++ y :: b) =
    match bytes_compare p q with
    | Eq => match byte.unsigned x ?= byte.unsigned y with Eq => bytes_compare a b | c => c end
    | c => c
    end.
Proof.
  revert q; induction p as [|i p IH]; intros [|j q]; simpl; try done; intros [= Hl].
  rewrite IH by done. by destruct (byte.unsigned i ?= byte.unsigned j).
Qed.

Lemma le_split_S n z : le_split (S n) z = byte.of_Z z :: le_split n (Z.shiftr z 8).
Proof. done. Qed.

(** Big-endian encodings are ordered like the integers they encode. *)
Lemma be_compare n x y a b :
  0 ≤ x < 2 ^ (Z.of_nat n * 8) → 0 ≤ y < 2 ^ (Z.of_nat n * 8) →
  bytes_compare (rev (le_split n x) ++ a) (rev (le_split n y) ++ b) =
    match x ?= y with Eq => bytes_compare a b | c => c end.
Proof.
  revert x y a b; induction n as [|n IH]; intros x y a b Hx Hy.
  - simpl in Hx, Hy. assert (y = x) as -> by lia. by rewrite Z.compare_refl.
  - rewrite !le_split_S. cbn [rev]. rewrite <- !app_assoc. cbn [app].
    rewrite bytes_compare_snoc by (rewrite !length_rev, !length_le_split; done).
    replace (2 ^ (Z.of_nat (S n) * 8)) with (256 * 2 ^ (Z.of_nat n * 8)) in *
      by (replace (Z.of_nat (S n) * 8) with (8 + Z.of_nat n * 8) by lia; rewrite Z.pow_add_r by lia; done).
    specialize (IH (Z.shiftr x 8) (Z.shiftr y 8) [] []). rewrite !app_nil_r in IH.
    rewrite !Z.shiftr_div_pow2 in * by lia. change (2 ^ 8) with 256 in *.
    rewrite IH by (Z.to_euclidean_division_equations; lia).
    rewrite !byte.unsigned_of_Z. unfold byte.wrap. change (2 ^ 8) with 256.
    destruct (Z.compare_spec (x / 256) (y / 256)) as [He|Hlt|Hgt];
      destruct (Z.compare_spec x y) as [He'|Hlt'|Hgt']; try done;
      try (exfalso; Z.to_euclidean_division_equations; lia);
      destruct (Z.compare_spec (x mod 256) (y mod 256)); try done;
      exfalso; Z.to_euclidean_division_equations; lia.
Qed.

Lemma EB32_compare x y a b :
  is_u32 x → is_u32 y →
  bytes_compare (EB32func x ++ a) (EB32func y ++ b) =
    match x ?= y with Eq => bytes_compare a b | c => c end.
Proof. intros. by apply be_compare. Qed.

Section SortedSets.
Context {T : Type} `{!Badger T, !BadgerLaws T}.
Implicit Types (t : T) (k v : bytes) (s : Z).

Definition is_score (s : Z) : Prop := -2147483648 ≤ s < 2147483648.

(** [v] is listed in [k] with score [s]. *)
Definition zentry (w : gmap bytes bytes) k s v : Prop := is_Some (w !! eZetScore k v s).

(** Every score entry below [k] is one that [zadd] writes, with a score that is not
    negative (a negative one would sort after the positive ones). *)
Definition zset_wf (w : gmap bytes bytes) k : Prop :=
  ∀ r x, w !! (prefix_key (bs "sz") k ++ r) = Some x →
    ∃ s v, 0 ≤ s < 2147483648 ∧ r = EB32func (u32 s) ++ v.

(** The index by member and the index by score agree. *)
Definition zset_consistent (w : gmap bytes bytes) k : Prop :=
  ∀ v s, is_score s → zentry w k s v ↔ w !! eZetKey k v = Some (E32func (u32 s)).

Definition zkey (e : Z * bytes) : bytes := EB32func (u32 e.1) ++ e.2.

Definition zentry_lt (a b : Z * bytes) : Prop := a.1 < b.1 ∨ a.1 = b.1 ∧ key_lt a.2 b.2.

Lemma is_u32_score s : 0 ≤ s < 2147483648 → u32 s = s ∧ is_u32 s.
Proof. unfold_words. intros. rewrite Z.mod_small; lia. Qed.

Lemma zkey_lt a b :
  0 ≤ a.1 < 2147483648 → 0 ≤ b.1 < 2147483648 → key_lt (zkey a) (zkey b) ↔ zentry_lt a b.
Proof.
  intros Ha Hb. unfold key_lt, zkey, zentry_lt.
  destruct (is_u32_score _ Ha) as [-> ?], (is_u32_score _ Hb) as [-> ?].
  rewrite EB32_compare by done. destruct (Z.compare_spec a.1 b.1); unfold key_lt; naive_solver lia.
Qed.

Lemma zentries_of (w : gmap bytes bytes) k p l :
  zset_wf w k → listing w (prefix_key (bs "sz") k) p l →
  ∃ es, l.*1 = zkey <$> es ∧ Forall (λ e, 0 ≤ e.1 < 2147483648) es ∧ StronglySorted zentry_lt es.
Proof.
  intros Hwf [Hs Hl].
  assert (Forall (λ r, ∃ e, 0 ≤ e.1 < 2147483648 ∧ r = zkey e) l.*1) as Hall.
  { apply Forall_fmap, Forall_forall. intros [r x] Hin. apply Hl in Hin as [Hin _].
    destruct (Hwf r x Hin) as (s & v & ? & ->). by exists (s, v). }
  clear Hl. revert Hs Hall. generalize l.*1 as rs. clear l p.
  induction rs as [|r rs IH]; intros Hs Hall.
  - exists []. split_and!; constructor.
  - apply Forall_cons in Hall as [(e & He & ->) Hall].
    inversion Hs as [|? ? Hs' Hlt]; subst. destruct (IH Hs' Hall) as (es & -> & Hes & Hses).
    exists (e :: es). split_and!; [done|by constructor|]. constructor; [done|].
    rewrite Forall_fmap in Hlt. apply Forall_forall. intros e' He'.
    rewrite Forall_forall in Hlt, Hes. apply zkey_lt; [done|by apply Hes|by apply Hlt].
Qed.

Lemma zrange_loop_items k fin l es :
  name_ok k → l.*1 = zkey <$> es → Forall (λ e, 0 ≤ e.1 < 2147483648) es →
  StronglySorted zentry_lt es →
  zrange_loop fin (item (prefix_key (bs "sz") k) <$> l) = Ok (filter (λ e, e.1 ≤ fin) es).*2.
Proof.
  intros Hk. revert es; induction l as [|[r x] l IH]; intros [|[s v] es] Heq Hes Hs; try done.
  cbn in Heq. injection Heq as -> Heq. inversion Hs as [|? ? Hs' Hlt]; subst.
  apply Forall_cons in Hes as [Hsc Hes]. rewrite fmap_cons. cbn [zrange_loop item fst].
  change (prefix_key (bs "sz") k ++ zkey (s, v)) with (eZetScore k v s).
  simpl in Hsc. rewrite dZetScore_key by (done || lia). unfold mbind at 1, res_bind.
  destruct (decide (s > fin)) as [Hgt|Hle].
  - rewrite filter_cons_False by (simpl; lia).
    rewrite filter_none; [done|]. eapply Forall_impl; [exact Hlt|].
    intros e. unfold zentry_lt. simpl. lia.
  - rewrite filter_cons_True by (simpl; lia). by rewrite (IH es Heq Hes Hs').
Qed.

(** [zrange] returns exactly the members listed with a score between its bounds,
    both included, in ascending order of score (members with equal scores in byte
    order), for a sorted set whose scores are not negative. *)
Theorem zrange_correct (t : T) (k : bytes) (start fin : Z) :
  name_ok k → zset_wf (view t) k → 0 ≤ start < 2147483648 → is_score fin →
  ∃ es, zrange k start fin t = (Ok es.*2, t) ∧ StronglySorted zentry_lt es ∧
    ∀ s v, (s, v) ∈ es ↔ start ≤ s ≤ fin ∧ zentry (view t) k s v.
Proof.
  intros Hk Hwf Hst Hfin. set (p := prefix_key (bs "sz") k).
  destruct (scan_run p (eZetScore k [] start) t) as (l & Hl & Hlist); [by eexists|].
  destruct (zentries_of _ _ _ _ Hwf Hlist) as (es & Hes & Hrange & Hsorted).
  exists (filter (λ e, e.1 ≤ fin) es). split_and!.
  - unfold zrange. erewrite st_bind_eq by exact Hl. unfold st_lift.
    unfold p. by rewrite (zrange_loop_items k fin l es).
  - by apply StronglySorted_filter'.
  - intros s v. rewrite list_elem_of_filter. cbn [fst].
    assert ((s, v) ∈ es ↔ 0 ≤ s < 2147483648 ∧ zkey (s, v) ∈ l.*1) as Hin.
    { rewrite Hes. rewrite list_elem_of_fmap. split.
      - intros Hin. split; [|by exists (s, v)]. rewrite Forall_forall in Hrange. by apply (Hrange _ Hin).
      - intros (Hs & [s' v'] & Heq & Hin). rewrite Forall_forall in Hrange.
        pose proof (Hrange _ Hin) as Hs'. unfold zkey in Heq. cbn [fst snd] in *.
        apply app_inj_1 in Heq as [Heq ->]; [|by rewrite !length_EB32func].
        destruct (is_u32_score _ Hs) as [Hu1 Hu1'], (is_u32_score _ Hs') as [Hu2 Hu2'].
        rewrite Hu1, Hu2 in Heq. apply (f_equal DB32func) in Heq.
        rewrite !DB32_EB32 in Heq by done. by injection Heq as ->. }
    rewrite Hin, list_elem_of_fmap. unfold zentry. split.
    + intros (Hsf & Hs & [r x] & Hr & [Hx Hle]%Hlist). cbn [fst] in Hr. subst r.
      split; [split; [|done]|by exists x].
      unfold key_le, eZetScore in Hle. fold p in Hle. rewrite bytes_compare_app in Hle.
      unfold zkey in Hle. cbn [fst snd] in Hle.
      destruct (is_u32_score _ Hs) as [Hu1 ?], (is_u32_score _ Hst) as [Hu2 ?].
      rewrite Hu1, Hu2, EB32_compare in Hle by done. destruct (Z.compare_spec start s); [lia|lia|done].
    + intros ([Hlo Hhi] & [x Hx]). unfold is_score in Hfin.
      assert (0 ≤ s < 2147483648) as Hs by lia. split; [done|]. split; [done|].
      exists (zkey (s, v), x). split; [done|]. apply Hlist. split; [exact Hx|].
      unfold key_le, eZetScore. fold p. rewrite bytes_compare_app. unfold zkey. cbn [fst snd].
      destruct (is_u32_score _ Hs) as [-> ?], (is_u32_score _ Hst) as [-> ?].
      rewrite EB32_compare by done. destruct (Z.compare_spec start s); [by destruct v|done|lia].
Qed.

Lemma zset_keys_ok k v s : name_ok k → field_ok v → key_ok (eZetKey k v) ∧ key_ok (eZetScore k v s).
Proof.
  unfold name_ok, field_ok. intros Hk Hv. split; [by apply (key_ok_prefix_key Byte.x7a)|].
  unfold eZetScore, prefix_key. rewrite <- !app_assoc. unfold bs at 1. cbn [app].
  apply key_ok_cons; [done|].
  rewrite length_cons, !length_app, length_E32func, length_EB32func.
  change (length (bs "+")) with 1%nat. lia.
Qed.

Lemma u32_inj s s' : is_score s → is_score s' → u32 s = u32 s' → s = s'.
Proof. unfold is_score. intros Hs Hs' He. rewrite <- (i32_u32 s), <- (i32_u32 s'), He; done. Qed.

Lemma EB32_score_inj s s' : is_score s → is_score s' → EB32func (u32 s) = EB32func (u32 s') → s = s'.
Proof.
  intros Hs Hs' He. apply (f_equal DB32func) in He. rewrite !DB32_EB32 in He by apply u32_range.
  injection He as He. by apply u32_inj.
Qed.

Lemma E32_score_inj s s' : is_score s → is_score s' → E32func (u32 s) = E32func (u32 s') → s = s'.
Proof. intros Hs Hs' He%E32func_inj; [|apply u32_range..]. by apply u32_inj. Qed.

Lemma eZetScore_inj k v s v' s' : is_score s → is_score s' →
  eZetScore k v s = eZetScore k v' s' → v = v' ∧ s = s'.
Proof.
  unfold eZetScore. intros Hs Hs' Heq%app_inv_head.
  apply app_inj_1 in Heq as [Heq ->]; [|by rewrite !length_EB32func].
  apply EB32_score_inj in Heq; auto.
Qed.

Lemma eZetKey_inj k v v' : eZetKey k v = eZetKey k v' → v = v'.
Proof. apply app_inv_head. Qed.

(** The two indexes live in disjoint parts of the key space. *)
Lemma zset_keys_disjoint k v k' v' s : eZetKey k v ≠ eZetScore k' v' s.
Proof. unfold eZetKey, eZetScore, prefix_key. by intros [=]. Qed.

Lemma zscore_run k v t : zscore k v t =
  match view t !! eZetKey k v with
  | Some buf => (Ok (i32 (or_zero (D32func buf))), t)
  | None => (Err NotExist, t)
  end.
Proof.
  unfold zscore. destruct (view t !! eZetKey k v) eqn:E.
  - by erewrite st_bind_eq by by apply get_Some.
  - by erewrite st_bind_err by by apply get_None.
Qed.

Lemma zadd_view k s v t : name_ok k → field_ok v → (2 ≤ room t)%nat →
  ∃ t', zadd k s v t = (Ok tt, t') ∧
    view t' = <[eZetScore k v s:=[]]> (<[eZetKey k v:=E32func (u32 s)]> (view t)).
Proof.
  intros Hk Hv Hr. destruct (zset_keys_ok k v s Hk Hv) as [Hk1 Hk2].
  destruct (set_run (eZetKey k v) (E32func (u32 s)) t Hk1) as (t1 & H1 & Hv1 & Hr1 & _);
    [unfold val_ok; rewrite length_E32func; lia|lia|].
  destruct (set_run (eZetScore k v s) [] t1 Hk2) as (t2 & H2 & Hv2 & _); [by unfold val_ok|lia|].
  exists t2. unfold zadd. erewrite st_bind_eq by exact H1. by rewrite Hv2, Hv1.
Qed.

Lemma zdel_view k s v t : name_ok k → field_ok v → is_score s → (2 ≤ room t)%nat →
  view t !! eZetKey k v = Some (E32func (u32 s)) →
  ∃ t', zdel k v t = (Ok tt, t') ∧
    view t' = delete (eZetScore k v s) (delete (eZetKey k v) (view t)).
Proof.
  intros Hk Hv Hs Hr Hm. destruct (zset_keys_ok k v s Hk Hv) as [Hk1 Hk2].
  destruct (del_run (eZetKey k v) t Hk1) as (t1 & H1 & Hv1 & Hr1 & _); [lia|].
  destruct (del_run (eZetScore k v s) t1 Hk2) as (t2 & H2 & Hv2 & _); [lia|].
  exists t2. unfold zdel. erewrite st_bind_eq by by apply get_Some.
  erewrite st_bind_eq by exact H1. rewrite D32_E32 by apply u32_range. cbn [or_zero].
  rewrite i32_u32 by done. by rewrite Hv2, Hv1.
Qed.

(** Adding a new member and deleting one keep the two indexes of a sorted set
    consistent.  [zadd] of a member that is not in the set lists it with its score and
    changes no other member; [zscore] then returns that score.  [zdel] of a member
    removes both of its entries, so [zscore] no longer finds it and it is listed with no
    score; [zdel] of a non-member is an error that changes nothing. *)
Theorem zadd_zdel_correct (t : T) (k v : bytes) (s : Z) :
  name_ok k → field_ok v → is_score s → (2 ≤ room t)%nat → zset_consistent (view t) k →
  (view t !! eZetKey k v = None →
   (zdel k v t = (Err NotExist, t)) ∧
   ∃ t', zadd k s v t = (Ok tt, t') ∧ zset_consistent (view t') k ∧ zscore k v t' = (Ok s, t') ∧
     ∀ s' v', is_score s' → zentry (view t') k s' v' ↔ s' = s ∧ v' = v ∨ zentry (view t) k s' v') ∧
  (zentry (view t) k s v →
   ∃ t', zdel k v t = (Ok tt, t') ∧ zset_consistent (view t') k ∧ zscore k v t' = (Err NotExist, t') ∧
     ∀ s' v', is_score s' → zentry (view t') k s' v' ↔ v' ≠ v ∧ zentry (view t) k s' v').
Proof.
  intros Hk Hv Hs Hr Hc. split.
  - intros Hnone. split; [unfold zdel; by erewrite st_bind_err by by apply get_None|].
    destruct (zadd_view k s v t Hk Hv Hr) as (t' & Hrun & Hw). exists t'.
    assert (∀ s' v', is_score s' → zentry (view t') k s' v' ↔ s' = s ∧ v' = v ∨ zentry (view t) k s' v') as He.
    { intros s' v' Hs'. unfold zentry. rewrite Hw, lookup_insert_is_Some'.
      rewrite lookup_insert_ne by apply zset_keys_disjoint.
      split; intros [Heq|?]; [left|by right|left|by right].
      - apply eZetScore_inj in Heq as [-> ->]; done.
      - by destruct Heq as [-> ->]. }
    split_and!; [done| | |done].
    + intros v' s' Hs'. rewrite He by done. rewrite (Hc v' s' Hs').
      rewrite Hw, (lookup_insert_ne _ (eZetScore k v s)) by apply not_eq_sym, zset_keys_disjoint.
      destruct (decide (v' = v)) as [->|Hne].
      * rewrite lookup_insert_eq, Hnone. split; [by intros [[-> _]|?]|].
        intros Heq%(inj Some). left. split; [by apply E32_score_inj in Heq|done].
      * rewrite lookup_insert_ne by (by intros ?%eZetKey_inj). naive_solver.
    + rewrite zscore_run, Hw, lookup_insert_ne, lookup_insert_eq by apply not_eq_sym, zset_keys_disjoint.
      rewrite D32_E32 by apply u32_range. cbn [or_zero]. by rewrite i32_u32.
  - intros Hz. apply Hc in Hz as Hm; [|done].
    destruct (zdel_view k s v t Hk Hv Hs Hr Hm) as (t' & Hrun & Hw). exists t'.
    assert (∀ s' v', is_score s' → zentry (view t') k s' v' ↔ v' ≠ v ∧ zentry (view t) k s' v') as He.
    { intros s' v' Hs'. unfold zentry. rewrite Hw, lookup_delete_is_Some.
      rewrite lookup_delete_ne by apply zset_keys_disjoint. split.
      - intros [Hne Hin]. split; [|done]. intros ->. apply Hne.
        change (zentry (view t) k s' v) in Hin. apply Hc in Hin; [|done].
        rewrite Hm in Hin. apply (inj Some), E32_score_inj in Hin; [|done..]. by subst.
      - intros [Hne Hin]. split; [|done]. intros Heq. by apply eZetScore_inj in Heq as [? _]. }
    split_and!; [done| | |done].
    + intros v' s' Hs'. rewrite He by done. rewrite (Hc v' s' Hs').
      rewrite Hw, (lookup_delete_ne _ (eZetScore k v s)) by apply not_eq_sym, zset_keys_disjoint.
      destruct (decide (v' = v)) as [->|Hne].
      * rewrite lookup_delete_eq. naive_solver.
      * rewrite lookup_delete_ne by (by intros ?%eZetKey_inj). naive_solver.
    + by rewrite zscore_run, Hw, lookup_delete_ne, lookup_delete_eq by apply not_eq_sym, zset_keys_disjoint.
Qed.

End SortedSets.

(** ** Indexed writes *)

Section ListSet.
Context {T : Type} `{!Badger T, !BadgerLaws T}.

(** The exact effect of [lset], which adds the list's first index [s] twice: on a
    list whose elements start at index [s], [lset k i v] with [i] in range succeeds, but
    the element it changes is the one at position [s + i] when there is one, and no
    element otherwise.  Only for [s = 0] (no push or pop on the left so far) is it the
    element at [i]. *)
Theorem lset_effect (t : T) (n : Z) (k v : bytes) (s i : Z) (l : list bytes) :
  0 ≤ n < max_index → name_ok k → val_ok v → room t ≠ 0%nat →
  list_repr n (view t) k s l → 0 ≤ i < Z.of_nat (length l) → - n ≤ 2 * s + i ≤ n →
  ∃ t', lset k i v t = (Ok tt, t') ∧
    ∀ j x, l !! j = Some x →
      lindex k (Z.of_nat j) t' = (Ok (if decide (Z.of_nat j = s + i) then v else x), t').
Proof.
  intros Hn Hk Hv Hr Hrep Hi Hb.
  pose proof (list_repr_bounds _ _ _ _ _ Hrep (proj2 Hn)) as (Hs & He & _).
  pose proof Hrep as (Hm & Hel & Hlo & Hhi). unfold max_index in *.
  destruct (set_run (eListKey k (s + i + s)) v t) as (t' & H1 & Hw & _); [by apply list_keys_ok|done..|].
  exists t'. split.
  - unfold lset. erewrite st_bind_eq by (apply (listStartEnd_run n t k s l); [unfold max_index; lia|done]).
    cbn beta iota. rewrite (decide_True (P := i >= 0)) by lia.
    rewrite !i64_small by (unfold_words; lia). rewrite decide_False by lia.
    by replace (i + s + s) with (s + i + s) by lia.
  - intros j x Hj. apply lookup_lt_Some in Hj as Hjl.
    unfold lindex, listStartEnd.
    assert (view t' !! eListMetaKey k = Some (eListMetaValue s (s + Z.of_nat (length l)))) as Hm'.
    { rewrite Hw, lookup_insert_ne; [done|apply eListKey_meta]. }
    erewrite st_bind_eq.
    2:{ erewrite st_bind_eq by by apply get_Some. unfold st_lift. by rewrite dListMetaValue_e. }
    cbn beta iota. rewrite (decide_True (P := Z.of_nat j >= 0)) by lia.
    rewrite !i64_small by (unfold_words; lia). rewrite decide_False by lia.
    apply get_Some; [done|]. rewrite Hw. replace (Z.of_nat j + s) with (s + Z.of_nat j) by lia.
    case_decide as Hd.
    + rewrite Hd. replace (s + (s + i)) with (s + i + s) by lia. apply lookup_insert_eq.
    + rewrite lookup_insert_ne; [by apply Hel|].
      intros Heq%eListKey_inj; [lia|unfold_words; lia..].
Qed.

End ListSet.

(** ** Witnesses and examples on finite maps *)

Module Examples.
Import MapTxn.

Definition t0 : txn := Txn ∅ 100 ∅.

Definition run {A} (m : stM txn A) : res A := (m t0).1.

(** A list pushed on the left: [lset] at 0 does not change the element at 0. *)
Example lset_misses :
  run (llpush (bs "q") (bs "a") ;; lset (bs "q") 0 (bs "X") ;; lindex (bs "q") 0) = Ok (bs "a").
Proof. vm_compute. reflexivity. Qed.

(** [lrange]'s upper clamp is the index after the last: a popped element is returned. *)
Example lrange_returns_popped :
  run (lrpush (bs "q") (bs "a") ;; lrpush (bs "q") (bs "b") ;; lrpop (bs "q") ;;
       lrange (bs "q") 0 5) = Ok [bs "a"; bs "b"].
Proof. vm_compute. reflexivity. Qed.

(** A member added again with another score is listed under both. *)
Example zadd_twice :
  run (zadd (bs "z") 1 (bs "v") ;; zadd (bs "z") 2 (bs "v") ;; zrange (bs "z") 0 9) = Ok [bs "v"; bs "v"].
Proof. vm_compute. reflexivity. Qed.

(** A negative score sorts after the positive ones, and hides them from a range
    that begins below it. *)
Example zrange_negative :
  run (zadd (bs "z") 1 (bs "v") ;; zrange (bs "z") (-1) 9) = Ok [].
Proof. vm_compute. reflexivity. Qed.

(** The keys of lists are not uniquely decodable: the bounds of one list are an
    element of another. *)
Example list_keys_collide : eListMetaKey (bs "a" ++ E64func 0) = eListKey (bs "a") 0.
Proof. vm_compute. reflexivity. Qed.

End Examples.

Lemma maps_correct_witness :
  name_ok (bs "m") ∧
  mget (bs "m") (bs "k") (MapTxn.Txn {[ eMapKey (bs "m") (bs "k") := bs "v" ]} 9 ∅) =
    (Ok (bs "v"), MapTxn.Txn {[ eMapKey (bs "m") (bs "k") := bs "v" ]} 9 ∅).
Proof.
  split; [vm_compute; discriminate|].
  set (t := MapTxn.Txn {[ eMapKey (bs "m") (bs "k") := bs "v" ]} 9 ∅).
  refine (eq_trans (proj1 (proj2 (proj2 (maps_correct t (bs "m") (bs "k") [] _ _ _ _)))) _);
    [vm_compute; discriminate..|vm_compute; reflexivity].
Defined.

Lemma sets_correct_witness :
  name_ok (bs "s") ∧ ∃ b, selem (bs "s") (bs "v") Examples.t0 = (Ok b, Examples.t0) ∧
    (b = true ↔ is_Some (view Examples.t0 !! eSetKey (bs "s") (bs "v"))).
Proof.
  split; [vm_compute; discriminate|].
  refine (proj1 (proj2 (proj2 (sets_correct Examples.t0 (bs "s") (bs "v") _ _ _))));
    vm_compute; discriminate.
Defined.

Lemma zrange_correct_witness :
  zset_wf (view Examples.t0) (bs "z") ∧
  ∃ es, zrange (bs "z") 0 9 Examples.t0 = (Ok es.*2, Examples.t0) ∧ StronglySorted zentry_lt es ∧
    ∀ s v, (s, v) ∈ es ↔ 0 ≤ s ≤ 9 ∧ zentry (view Examples.t0) (bs "z") s v.
Proof.
  assert (zset_wf (view Examples.t0) (bs "z")) as Hwf by (intros r x Hx; vm_compute in Hx; discriminate).
  split; [exact Hwf|].
  refine (zrange_correct Examples.t0 (bs "z") 0 9 _ Hwf _ _); vm_compute; repeat split; discriminate.
Defined.

Lemma zadd_zdel_correct_witness :
  zset_consistent (view Examples.t0) (bs "z") ∧
  zdel (bs "z") (bs "v") Examples.t0 = (Err NotExist, Examples.t0).
Proof.
  assert (zset_consistent (view Examples.t0) (bs "z")) as Hc.
  { intros v s _. unfold zentry. change (view Examples.t0) with (∅ : gmap bytes bytes).
    rewrite !lookup_empty. split; [intros [x Hx]|intros Hx]; discriminate. }
  split; [exact Hc|].
  refine (proj1 (proj1 (zadd_zdel_correct Examples.t0 (bs "z") (bs "v") 7 _ _ _ _ Hc) _));
    [vm_compute; discriminate|vm_compute; discriminate|vm_compute; split; [discriminate|reflexivity]
    |vm_compute; lia|reflexivity].
Defined.

(** The list [a] at index 0. *)
Definition one_list : MapTxn.txn :=
  MapTxn.Txn {[ eListMetaKey (bs "q") := eListMetaValue 0 1; eListKey (bs "q") 0 := bs "a" ]} 9 ∅.

Lemma one_list_repr : list_repr 5 (view one_list) (bs "q") 0 [bs "a"].
Proof.
  split; [reflexivity|]. split; [|simpl; lia].
  intros [|i] x Hx; [|discriminate]. injection Hx as <-. reflexivity.
Qed.

Lemma lset_effect_witness :
  list_repr 5 (view one_list) (bs "q") 0 [bs "a"] ∧
  ∃ t', lset (bs "q") 0 (bs "b") one_list = (Ok tt, t') ∧
    ∀ j x, [bs "a"] !! j = Some x →
      lindex (bs "q") (Z.of_nat j) t' = (Ok (if decide (Z.of_nat j = 0 + 0) then bs "b" else x), t').
Proof.
  split; [exact one_list_repr|].
  refine (lset_effect one_list 5 (bs "q") (bs "b") 0 0 [bs "a"] _ _ _ _ one_list_repr _ _);
    vm_compute; repeat split; discriminate.
Defined.
