(* ===== verification/BgDb.v ===== *)
(** The store as go-ethereum's trie sees it: [storage/store/bg/bgdb/bgdb.go], with its
    batches, and the iterator of [storage/store/bg/iterator.go].

    The methods for ancient data, which only return that they are not supported, are left
    out.  A batch's host database is an argument of [Write]. *)

From S2P Require Import Prelude Misc Badger BgStore.

Section Database.
Context {D T : Type} `{!Badger T, !BadgerDB D T}.
Implicit Types (key value : bytes) (d : D).

(** A missing key is an error here. *)
Definition Has key : stM D bool := Store.Get key ;; mret true.
Definition Get key : stM D bytes := Store.Get key.
Definition Put key value : stM D unit := Store.Set_ key value.
Definition Delete key : stM D unit := Store.Del key.

(** ** Batches *)

Record keyvalue := KeyValue { kv_key : bytes; kv_value : bytes; kv_delete : bool }.
Record batch := Batch { b_writes : list keyvalue; b_size : Z }.

Definition NewBatch : batch := Batch [] 0.
Definition batch_Put key value (b : batch) : batch :=
  Batch (b_writes b ++ [KeyValue key value false]) (i64 (b_size b + Z.of_nat (length value))).
Definition batch_Delete key (b : batch) : batch := Batch (b_writes b ++ [KeyValue key [] true]) (i64 (b_size b + 1)).
Definition ValueSize (b : batch) : Z := b_size b.
Definition Reset_ (b : batch) : batch := Batch [] 0.

(** Every write is a transaction of its own, and its error is dropped. *)
Definition write_one (w : keyvalue) : stM D unit :=
  ignore_err (if kv_delete w then Store.Del (kv_key w) else Store.Set_ (kv_key w) (kv_value w)) tt.
Definition Write (b : batch) : stM D unit := st_iter write_one (b_writes b).

(** ** Iterators *)

(** What is left of the items, the current one first, and the last error of a value. *)
Record iterator := Iterator { items : list (bytes * res bytes); it_err : option error }.

Definition NewIterator (prefix start : bytes) d : iterator := Iterator (tx_Iter prefix start (db_begin d : T)) None.

Definition Next (it : iterator) : bool * iterator :=
  match items it with
  | [] => (false, it)
  | _ :: rest => (bool_decide (rest ≠ []), Iterator rest (it_err it))
  end.

(** The item behind the last one is nil. *)
Definition Key (it : iterator) : res bytes := match items it with (k, _) :: _ => Ok k | [] => Panic end.
Definition Value_ (it : iterator) : res bytes * iterator :=
  match items it with
  | (_, Ok v) :: _ => (Ok v, it)
  | (_, Err e) :: _ => (Ok [], Iterator (items it) (Some e))
  | _ => (Panic, it)
  end.
Definition Error (it : iterator) : option error := it_err it.

(** go-ethereum's loop: [for it.Next() { … it.Key() … }]. *)
Fixpoint keys_seen (fuel : nat) (it : iterator) : list (res bytes) :=
  match fuel with
  | O => []
  | S fuel => let '(more, it) := Next it in if (more : bool) then Key it :: keys_seen fuel it else []
  end.

End Database.

(** *** Replaying *)

(** [ethdb.KeyValueWriter] *)
Class KeyValueWriter (W : Type) := { kw_Put : bytes → bytes → stM W unit; kw_Delete : bytes → stM W unit }.

Section Replay.
Context {W : Type} `{!KeyValueWriter W}.

Definition replay_one (w : keyvalue) : stM W unit :=
  if kv_delete w then kw_Delete (kv_key w) else kw_Put (kv_key w) (kv_value w).
Definition Replay (b : batch) : stM W unit := st_iter replay_one (b_writes b).

(** The wrapper that remembers the first failure. *)
Record replayer := Replayer { writer : W; failure : option error }.
Definition replayer_do (m : stM W unit) (r : replayer) : res unit * replayer :=
  match failure r with
  | Some _ => (Ok tt, r)
  | None =>
      match m (writer r) with
      | (Ok _, w) => (Ok tt, Replayer w None)
      | (Err e, w) => (Ok tt, Replayer w (Some e))
      | (Panic, w) => (Panic, Replayer w None)
      end
  end.
Definition replayer_Put (key value : bytes) : stM replayer unit := replayer_do (kw_Put key value).
Definition replayer_Delete (key : bytes) : stM replayer unit := replayer_do (kw_Delete key).
End Replay.

(** ** What they do *)

Definition apply_write (m : gmap bytes bytes) (w : keyvalue) : gmap bytes bytes :=
  if kv_delete w then delete (kv_key w) m else <[kv_key w := kv_value w]> m.
Definition acceptable (w : keyvalue) : Prop := key_ok (kv_key w) ∧ val_ok (kv_value w).

Section Facts.
Context {D T : Type} `{!Badger T, !BadgerDB D T, !BadgerLaws T, !BadgerDBLaws D T}.
Implicit Types (d : D) (w : keyvalue).

(** A transaction with one write in it. *)
Lemma commit_one d (t : T) w r d' :
  view t = apply_write (dbview d) w → writes t = {[ kv_key w ]} → db_commit t d = (r, d') →
  r = Ok tt ∧ dbview d' = apply_write (dbview d) w ∨ (∃ e, r = Err e) ∧ dbview d' = dbview d.
Proof.
  intros Hv Hw Hc. destruct r as [[]|e|].
  - left. split; [done|]. apply map_eq. intros k. rewrite (commit_merge _ _ _ Hc k), Hw, Hv.
    case_decide as Hk; [done|]. apply not_elem_of_singleton in Hk. unfold apply_write.
    destruct (kv_delete w); [by rewrite lookup_delete_ne|by rewrite lookup_insert_ne].
  - right. destruct (commit_fail _ _ _ _ Hc ltac:(done)) as [_ Hd]. split; [by eexists|done].
  - by destruct (commit_fail _ _ _ _ Hc ltac:(done)) as [Hp _].
Qed.

(** The writing part of a batch's transaction. *)
Definition tx_write w : stM T unit := if kv_delete w then del (kv_key w) else set (kv_key w) (kv_value w).

Lemma tx_write_inv w (t : T) r t' : tx_write w t = (r, t') →
  r = Ok tt ∧ view t' = apply_write (view t) w ∧ writes t' = {[ kv_key w ]} ∪ writes t ∨ ∃ e, r = Err e.
Proof.
  unfold tx_write, apply_write, del, set. intros Hr. destruct (kv_delete w).
  - destruct (Delete_inv _ _ _ _ Hr) as [(-> & ? & ?)|(? & ? & _)]; [by left|right]. destruct r as [[]| |]; [done|by eexists|done].
  - destruct (Set_inv _ _ _ _ _ Hr) as [(-> & ? & ?)|(? & ? & _)]; [by left|right]. destruct r as [[]| |]; [done|by eexists|done].
Qed.

Lemma tx_write_ok w (t : T) : acceptable w → room t ≠ 0%nat →
  ∃ t', tx_write w t = (Ok tt, t') ∧ view t' = apply_write (view t) w ∧ base t' = base t.
Proof.
  intros [Hk Hv] Hr. unfold tx_write, apply_write. destruct (kv_delete w).
  - destruct (del_run _ _ Hk Hr) as (t' & ? & ? & _ & ?). by exists t'.
  - destruct (set_run _ _ _ Hk Hv Hr) as (t' & ? & ? & _ & ?). by exists t'.
Qed.

Lemma write_one_run w d : ∃ d', write_one w d = (Ok tt, d') ∧
  (dbview d' = apply_write (dbview d) w ∨ ¬ acceptable w ∧ dbview d' = dbview d).
Proof.
  assert (write_one w d = ignore_err (Store.update (tx_write w)) tt d) as ->.
  { unfold write_one, tx_write, Store.Del, Store.Set_. by destruct (kv_delete w). }
  unfold ignore_err, st_catch, Store.update. destruct (tx_write w (db_begin d)) as [r t] eqn:E.
  pose proof (begin_room (T := T) d) as Hroom.
  destruct (tx_write_inv _ _ _ _ E) as [(-> & Hv & Hw)|[e ->]].
  - rewrite begin_view in Hv. rewrite begin_writes, (right_id_L ∅ (∪)) in Hw.
    unfold mbind, stM_bind. destruct (db_commit t d) as [r d'] eqn:Ec.
    destruct (commit_one d t w r d' Hv Hw Ec) as [[-> Hd]|[[e ->] Hd]].
    + exists d'. split; [done|]. by left.
    + exists d'. split; [done|]. right. split; [|done]. intros Ha.
      destruct (tx_write_ok w (db_begin d) Ha ltac:(lia)) as (t' & E' & _ & Hb). rewrite E in E'. injection E' as <-.
      rewrite begin_base in Hb. destruct (commit_law _ _ Hb) as (d2 & Hc & _). by rewrite Ec in Hc.
  - exists d. split; [done|]. right. split; [|done]. intros Ha.
    destruct (tx_write_ok w (db_begin d) Ha ltac:(lia)) as (t' & E' & _). by rewrite E in E'.
Qed.

(** [kept] is what is left of the writes when some that the database does not accept are
    dropped, and only such. *)
Inductive dropping : list keyvalue → list keyvalue → Prop :=
  | drop_none : dropping [] []
  | drop_not w ws kept : dropping ws kept → dropping (w :: ws) (w :: kept)
  | drop_one w ws kept : ¬ acceptable w → dropping ws kept → dropping (w :: ws) kept.

Lemma dropping_all ws kept : dropping ws kept → Forall acceptable ws → kept = ws.
Proof. induction 1 as [|w ws kept _ IH|w ws kept Hno _ _]; [done| |]; intros [Ha Hall]%Forall_cons; [by rewrite IH|done]. Qed.

Lemma writes_run ws d : ∃ d' kept, st_iter write_one ws d = (Ok tt, d') ∧
  dbview d' = foldl apply_write (dbview d) kept ∧ dropping ws kept.
Proof.
  revert d. induction ws as [|w ws IH]; intros d; [exists d, []; split_and!; [done|done|constructor]|].
  destruct (write_one_run w d) as (d1 & Hw & Hd). destruct (IH d1) as (d' & kept & Hl & Hd' & Hs).
  cbn [st_iter]. rewrite (st_bind_eq _ _ _ _ _ Hw). destruct Hd as [Hd|[Hno Hd]].
  - exists d', (w :: kept). split; [done|]. split; [by rewrite Hd', Hd|by constructor].
  - exists d', kept. split; [done|]. split; [by rewrite Hd', Hd|by constructor].
Qed.

(** C10: writing a batch always succeeds, and carries out its writes one after the other: what
    is in the database afterwards is what the writes that were kept leave, in their order; a
    write is dropped only if its key or value is not one the database accepts, which is no
    error and does not keep the writes after it from being done.  When all are acceptable, all
    are done. *)
Theorem batch_writes (b : batch) d :
  ∃ d' kept, Write b d = (Ok tt, d') ∧ dbview d' = foldl apply_write (dbview d) kept ∧
    dropping (b_writes b) kept ∧ (Forall acceptable (b_writes b) → kept = b_writes b).
Proof.
  destruct (writes_run (b_writes b) d) as (d' & kept & Hr & Hd & Hs).
  exists d', kept. split_and!; [done..|]. by apply dropping_all.
Qed.

Lemma keys_seen_tail (l : list (bytes * res bytes)) fuel e : (length l <= fuel)%nat → keys_seen fuel (Iterator l e) = Ok <$> (tail l).*1.
Proof.
  revert l. induction fuel as [|fuel IH]; intros l Hl; [by destruct l; [|simpl in Hl; lia]|].
  destruct l as [|x [|[k v] l]]; [done|done|]. cbn [keys_seen Next items tail].
  rewrite bool_decide_eq_true_2 by done. rewrite IH by (simpl in *; lia). done.
Qed.

(** Go-ethereum's loop over an iterator sees the keys with the prefix from the start on,
    in order, but for the first of them. *)
Theorem iterator_skips_first prefix start d :
  start = [] ∨ prefix `prefix_of` start →
  ∃ keys, StronglySorted key_lt keys ∧
    (∀ k, k ∈ keys ↔ is_Some (dbview d !! k) ∧ prefix `prefix_of` k ∧ key_le start k) ∧
    ∀ fuel, (length keys <= fuel)%nat → keys_seen fuel (NewIterator (T := T) prefix start d) = Ok <$> tail keys.
Proof.
  intros Hp0. exists (tx_Iter prefix start (db_begin d : T)).*1. split; [apply Iter_sorted|]. split.
  - intros k. rewrite list_elem_of_fmap. split.
    + intros ([k' rv] & -> & Hi). cbn [fst]. apply Iter_law in Hi as (v & -> & Hv & Hp & Hs); [|done]. rewrite begin_view in Hv. by rewrite Hv.
    + intros ([v Hv] & Hp & Hs). exists (k, Ok v). split; [done|]. apply Iter_law; [done|]. exists v. by rewrite begin_view.
  - intros fuel Hf. unfold NewIterator. rewrite length_fmap in Hf. rewrite keys_seen_tail by done. by rewrite fmap_tail.
Qed.
End Facts.

(** ** A database with two keys *)

Module BgDbSample.
Import MapTxn.
Definition two : gmap bytes bytes := {[ bs "ka" := bs "1"; bs "kb" := bs "2" ]}.

(** A batch with a key that is refused is written in part, without an error. *)
Definition torn : batch := batch_Put (bs "kd") (bs "4") (batch_Put [] (bs "0") (batch_Delete (bs "ka") NewBatch)).
Lemma torn_written : Write (T := txn) torn two = (Ok tt, {[ bs "kb" := bs "2"; bs "kd" := bs "4" ]}).
Proof. apply (bool_decide_unpack _). vm_compute. exact I. Qed.

(** Asking whether a missing key is there is an error. *)
Lemma missing_fails : (Has (T := txn) (bs "kc") two).1 = Err NotExist.
Proof. vm_compute. reflexivity. Qed.
End BgDbSample.

Lemma iterator_skips_first_witness :
  ∃ keys, keys_seen 5 (NewIterator (T := MapTxn.txn) (bs "k") [] BgDbSample.two) = Ok <$> tail keys ∧ (∀ k, k ∈ keys → is_Some (BgDbSample.two !! k)).
Proof.
  destruct (iterator_skips_first (T := MapTxn.txn) (bs "k") [] BgDbSample.two ltac:(by left)) as (keys & Hs & Hk & Hrun).
  exists keys. split; [|intros k Hi; by apply Hk]. apply Hrun.
  assert (length keys <= length (map_to_list BgDbSample.two).*1)%nat as Hl; [|etrans; [exact Hl|vm_compute; lia]].
  apply submseteq_length, NoDup_submseteq.
  - clear Hk Hrun. induction Hs as [|k keys Hs IH Hall]; constructor; [|done]. intros Hi. rewrite Forall_forall in Hall.
    specialize (Hall k Hi). unfold key_lt in Hall. by rewrite bytes_compare_refl in Hall.
  - intros k Hi. apply Hk in Hi as [[v Hv] _]. apply list_elem_of_fmap. exists (k, v). split; [done|]. by apply elem_of_map_to_list.
Defined.

(** The write that comes after a refused one is done, and the one before it. *)
Lemma batch_writes_witness :
  ∃ d', Write (T := MapTxn.txn) BgDbSample.torn BgDbSample.two = (Ok tt, d') ∧
    d' !! bs "kd" = Some (bs "4") ∧ d' !! bs "ka" = None.
Proof.
  destruct (batch_writes (T := MapTxn.txn) BgDbSample.torn BgDbSample.two) as (d' & kept & Hw & Hd & Hs & _).
  exists d'. split; [exact Hw|]. change (dbview d') with d' in Hd. rewrite Hd. clear Hw Hd.
  assert (∀ k v del, k ≠ [] → (length k < 8)%nat → (length v < 8)%nat → acceptable (KeyValue k v del)) as Hok.
  { intros k v del Hk Hlk Hlv. unfold acceptable, key_ok, val_ok. cbn. split_and!; [done| |lia|lia].
    intros [r Hr]. apply (f_equal length) in Hr. rewrite length_app in Hr. cbn in Hr. lia. }
  change (b_writes _) with [KeyValue (bs "ka") [] true; KeyValue [] (bs "0") false; KeyValue (bs "kd") (bs "4") false] in Hs.
  inversion Hs as [|w ws k1 H1|w ws k1 Hno _]; subst; [|by destruct Hno; apply Hok; [|vm_compute; lia..]].
  inversion H1 as [|w ws k2 H2|w ws k2 _ H2]; subst.
  all: inversion H2 as [|w ws k3 H3|w ws k3 Hno _]; subst; [|by destruct Hno; apply Hok; [|vm_compute; lia..]].
  all: inversion H3; subst; vm_compute; by split.
Defined.
