(* ===== verification/Base58.v ===== *)
(** Base-58 text of [pkg/util/addrcodec]: the bitcoin-style [Encode]/[Decode]
    with their checked variants, and the fixed-width [EncodeAddr]/[DecodeAddr] of
    ed25519 addresses.  SHA-256 is a parameter. *)

From S2P Require Import Prelude.

(** ** Big integers as bytes *)

(** [new(big.Int).SetBytes(b)] *)
Definition big_SetBytes (b : bytes) : Z := le_combine (rev b).

(** [x.Bytes()], the minimal big-endian bytes of the absolute value of [x]. *)
Definition nbytes (x : Z) : nat := if decide (x = 0) then 0 else Z.to_nat (Z.log2 x / 8 + 1).
Definition big_Bytes (x : Z) : bytes := rev (le_split (nbytes (Z.abs x)) (Z.abs x)).

(** ** The alphabet *)

Definition alphabet : bytes := bs "123456789ABCDEFGHJKLMNPQRSTUVWXYZabcdefghijkmnopqrstuvwxyz".
Definition alphabetIdx0 : byte := Byte.x31.

(** The table [b58], by the rows of the source. *)
Definition b58 : list Z :=
  replicate 48 255 ++
  [255; 0; 1; 2; 3; 4; 5; 6;
   7; 8; 255; 255; 255; 255; 255; 255;
   255; 9; 10; 11; 12; 13; 14; 15;
   16; 255; 17; 18; 19; 20; 21; 255;
   22; 23; 24; 25; 26; 27; 28; 29;
   30; 31; 32; 255; 255; 255; 255; 255;
   255; 33; 34; 35; 36; 37; 38; 39;
   40; 41; 42; 43; 255; 44; 45; 46;
   47; 48; 49; 50; 51; 52; 53; 54;
   55; 56; 57; 255; 255; 255; 255; 255] ++
  replicate 128 255.

Definition b58_at (c : byte) : Z := nth (Z.to_nat (byte.unsigned c)) b58 255.
Definition alphabet_at (i : Z) : byte := nth (Z.to_nat i) alphabet Byte.x00.

(** ** Encoding and decoding *)

(** [for x.Cmp(bigZero) > 0 { x.DivMod(x, bigRadix, mod); answer = append(answer, alphabet[mod]) }] *)
Fixpoint digits (fuel : nat) (x : Z) : bytes :=
  match fuel with
  | O => []
  | S fuel => if decide (x > 0) then alphabet_at (x mod 58) :: digits fuel (x / 58) else []
  end.
(** Each step at least halves [x]. *)
Definition digits_of (x : Z) : bytes := digits (Z.to_nat (Z.log2 x) + 1) x.

(** The decoding loop, from the last character to the first; [None] is the early
    return on a character outside the alphabet. *)
Fixpoint undigits (rb : bytes) (answer j : Z) : option Z :=
  match rb with
  | [] => Some answer
  | c :: rb =>
      let tmp := b58_at c in
      if decide (tmp = 255) then None
      else undigits rb (answer + j * tmp) (j * 58)
  end.

(** The number of leading elements that satisfy [f]. *)
Fixpoint leading (f : byte → bool) (b : bytes) : nat :=
  match b with
  | [] => 0
  | x :: b => if f x then S (leading f b) else 0
  end.

Definition is_idx0 (c : byte) : bool := bool_decide (c = alphabetIdx0).
Definition is_zero (c : byte) : bool := bool_decide (c = Byte.x00).

Definition Encode (b : bytes) : bytes :=
  let answer := digits_of (big_SetBytes b) in
  rev (answer ++ replicate (leading is_zero b) alphabetIdx0).

Definition Decode (b : bytes) : bytes :=
  match undigits (rev b) 0 1 with
  | None => []
  | Some answer => replicate (leading is_idx0 b) Byte.x00 ++ big_Bytes answer
  end.

Definition EncodeAddr (data : bytes) : bytes :=
  let answer := digits_of (big_SetBytes data) in
  let want := (length data * 136 / 100 + 1)%nat in
  rev (answer ++ replicate (want - length answer) alphabetIdx0).

(** [copy(val[numZeros:], tmpval)] panics when the value needs more than 32 bytes. *)
Definition DecodeAddr (b : bytes) : res bytes :=
  match undigits (rev b) 0 1 with
  | None => Ok []
  | Some answer =>
      let tmpval := big_Bytes answer in
      let numZeros := 32 - Z.of_nat (length tmpval) in
      if decide (numZeros < 0) then Panic
      else Ok (replicate (Z.to_nat numZeros) Byte.x00 ++ tmpval)
  end.

(** ** Checked encoding *)

Section Check.
Variable sha256_Sum256 : bytes → bytes.

(** checksum: first four bytes of sha256^2 *)
Definition checksum (input : bytes) : bytes :=
  let h := sha256_Sum256 input in
  let h2 := sha256_Sum256 h in
  take 4 h2.

Definition CheckEncode (input : bytes) (version : byte) : bytes :=
  let b := version :: input in
  Encode (b ++ checksum b).

Definition CheckDecode (input : bytes) : res (bytes * byte) :=
  let decoded := Decode input in
  if decide (length decoded < 5)%nat then err "invalid format: version and/or checksum bytes missing"
  else
    match decoded with
    | [] => Panic
    | version :: _ =>
        let cut := (length decoded - 4)%nat in
        let cksum := drop cut decoded in
        if decide (checksum (take cut decoded) = cksum)
        then Ok (take (cut - 1) (drop 1 decoded), version)
        else err "checksum error"
    end.
End Check.

(** ** Lemmas: the table inverts the alphabet *)

Lemma b58_alphabet i : 0 ≤ i < 58 → b58_at (alphabet_at i) = i ∧ (alphabet_at i = alphabetIdx0 → i = 0).
Proof.
  intros Hi.
  assert (Forall (λ n, b58_at (alphabet_at (Z.of_nat n)) = Z.of_nat n ∧
    (alphabet_at (Z.of_nat n) = alphabetIdx0 → Z.of_nat n = 0)) (seq 0 58)) as Hall.
  { apply (bool_decide_unpack _). vm_compute. exact I. }
  rewrite Forall_forall in Hall.
  specialize (Hall (Z.to_nat i)). rewrite Z2Nat.id in Hall by lia. apply Hall.
  apply elem_of_seq. lia.
Qed.

(** ** Lemmas: digits *)

(** The value of little-endian base-58 text. *)
Fixpoint value58 (ds : bytes) : Z :=
  match ds with [] => 0 | c :: ds => b58_at c + 58 * value58 ds end.

Definition is_digit (c : byte) : Prop := 0 ≤ b58_at c < 58.

Lemma undigits_value ds a j :
  Forall is_digit ds → undigits ds a j = Some (a + j * value58 ds).
Proof.
  intros Hd. revert a j; induction Hd as [|c ds Hc Hd IH]; intros a j; simpl.
  - f_equal. lia.
  - unfold is_digit in Hc. rewrite decide_False by lia. rewrite IH. f_equal. lia.
Qed.

Lemma digits_spec fuel x :
  0 ≤ x < 2 ^ Z.of_nat fuel →
  Forall is_digit (digits fuel x) ∧ value58 (digits fuel x) = x.
Proof.
  revert x; induction fuel as [|fuel IH]; intros x Hx.
  - simpl in Hx. simpl. split; [constructor|lia].
  - cbn [digits]. case_decide as Hpos; [|split; [constructor|simpl; lia]].
    rewrite Nat2Z.inj_succ, Z.pow_succ_r in Hx by lia.
    destruct (IH (x / 58)) as [Hd Hv]; [Z.to_euclidean_division_equations; nia|].
    pose proof (Z.mod_pos_bound x 58).
    destruct (b58_alphabet (x mod 58)) as [Hb _]; [lia|].
    split; [constructor; [unfold is_digit; lia|done]|].
    cbn [value58]. rewrite Hb, Hv. pose proof (Z.div_mod x 58). lia.
Qed.

(** The last digit written, the most significant one, is not the zero digit. *)
Lemma digits_last fuel x c :
  0 ≤ x < 2 ^ Z.of_nat fuel → last (digits fuel x) = Some c → is_idx0 c = false.
Proof.
  revert x; induction fuel as [|fuel IH]; intros x Hx Hl; [done|].
  cbn [digits] in Hl. case_decide as Hpos; [|done].
  rewrite Nat2Z.inj_succ, Z.pow_succ_r in Hx by lia.
  assert (0 ≤ x / 58 < 2 ^ Z.of_nat fuel) as Hx' by (Z.to_euclidean_division_equations; nia).
  destruct (digits fuel (x / 58)) as [|d ds] eqn:E.
  - simpl in Hl. injection Hl as <-.
    destruct (digits_spec fuel (x / 58) Hx') as [_ Hv]. rewrite E in Hv. simpl in Hv.
    destruct (b58_alphabet (x mod 58)) as [_ Hb]; [pose proof (Z.mod_pos_bound x 58); lia|].
    apply bool_decide_eq_false. intros He. apply Hb in He.
    pose proof (Z.div_mod x 58). lia.
  - apply (IH (x / 58) Hx'). by rewrite E.
Qed.

Lemma fuel_enough x : 0 ≤ x → 0 ≤ x < 2 ^ Z.of_nat (Z.to_nat (Z.log2 x) + 1).
Proof.
  intros Hx. split; [done|]. rewrite Nat2Z.inj_add, Z2Nat.id by apply Z.log2_nonneg.
  destruct (decide (x = 0)) as [->|]; [done|]. apply Z.log2_spec. lia.
Qed.

Lemma value58_app ds es : value58 (ds ++ es) = value58 ds + 58 ^ Z.of_nat (length ds) * value58 es.
Proof.
  induction ds as [|c ds IH]; cbn [app value58 length]; [lia|].
  rewrite IH, Nat2Z.inj_succ, Z.pow_succ_r by lia. lia.
Qed.

Lemma value58_ones n : value58 (replicate n alphabetIdx0) = 0.
Proof. induction n as [|n IH]; cbn [replicate value58]; [done|]. by rewrite IH. Qed.

Lemma ones_digits n : Forall is_digit (replicate n alphabetIdx0).
Proof. apply Forall_replicate. unfold is_digit. vm_compute. split; [discriminate|reflexivity]. Qed.

(** Text made of the digits of [x] and any number of zero digits decodes to [x]. *)
Lemma undigits_digits_of x n :
  0 ≤ x → undigits (digits_of x ++ replicate n alphabetIdx0) 0 1 = Some x.
Proof.
  intros Hx. destruct (digits_spec _ x (fuel_enough x Hx)) as [Hd Hv].
  rewrite undigits_value by (apply Forall_app; split; [done|apply ones_digits]).
  rewrite value58_app, value58_ones. unfold digits_of. rewrite Hv. f_equal. lia.
Qed.

(** ** Lemmas: bytes *)

Lemma nbytes_bound x : 0 ≤ x → x < 2 ^ (Z.of_nat (nbytes x) * 8).
Proof.
  intros Hx. unfold nbytes. case_decide; [by subst|].
  pose proof (Z.log2_spec x) as [_ Hlt]; [lia|]. pose proof (Z.log2_nonneg x).
  eapply Z.lt_le_trans; [exact Hlt|]. apply Z.pow_le_mono_r; [lia|].
  rewrite Z2Nat.id; Z.to_euclidean_division_equations; lia.
Qed.

Lemma length_big_Bytes x : 0 ≤ x → length (big_Bytes x) = nbytes x.
Proof. intros. unfold big_Bytes. by rewrite length_rev, length_le_split, Z.abs_eq. Qed.

Lemma big_SetBytes_bound b : 0 ≤ big_SetBytes b < 2 ^ (8 * Z.of_nat (length b)).
Proof. unfold big_SetBytes. pose proof (le_combine_bound (rev b)). by rewrite length_rev in *. Qed.

Lemma replicate_repeat {A} n (x : A) : replicate n x = repeat x n.
Proof. induction n as [|n IH]; simpl; [done|by f_equal]. Qed.

Lemma big_SetBytes_zeros n b : big_SetBytes (replicate n Byte.x00 ++ b) = big_SetBytes b.
Proof.
  unfold big_SetBytes. rewrite rev_app_distr, replicate_repeat, rev_repeat. apply le_combine_app_0.
Qed.

Lemma big_SetBytes_Bytes x : 0 ≤ x → big_SetBytes (big_Bytes x) = x.
Proof.
  intros Hx. unfold big_SetBytes, big_Bytes. rewrite rev_involutive, le_combine_split, Z.abs_eq by done.
  apply Z.mod_small. split; [done|by apply nbytes_bound].
Qed.

Lemma big_SetBytes_inj a b : length a = length b → big_SetBytes a = big_SetBytes b → a = b.
Proof.
  unfold big_SetBytes. intros Hl He%le_combine_inj; [|by rewrite !length_rev].
  by rewrite <- (rev_involutive a), He, rev_involutive.
Qed.

(** The value of bytes whose first is not zero needs all of them. *)
Lemma nbytes_SetBytes c b : c ≠ Byte.x00 → nbytes (big_SetBytes (c :: b)) = S (length b).
Proof.
  intros Hc. pose proof (big_SetBytes_bound (c :: b)) as Hb.
  set (v := big_SetBytes (c :: b)) in *. set (n := Z.of_nat (length b)).
  replace (8 * Z.of_nat (length (c :: b))) with (8 * n + 8) in Hb by (simpl; lia).
  assert (2 ^ (8 * n) ≤ v) as Hlo.
  { apply Z.nlt_ge. intros Hlt. apply Hc.
    assert (v = big_SetBytes b) as Hv.
    { rewrite <- (Z.mod_small v (2 ^ (8 * n))) by lia. unfold v, n, big_SetBytes.
      rewrite <- length_rev, <- le_combine_firstn. simpl rev. by rewrite take_app_length. }
    assert (c :: b = Byte.x00 :: b) as [=]; [|done]. apply big_SetBytes_inj; [done|].
    fold v. rewrite Hv. symmetry. apply (big_SetBytes_zeros 1). }
  assert (0 < v) by (pose proof (Z.pow_pos_nonneg 2 (8 * n)); lia).
  unfold nbytes. rewrite decide_False by lia.
  assert (8 * n ≤ Z.log2 v < 8 * n + 8) as Hlog.
  { split; [apply Z.log2_le_pow2; lia|apply Z.log2_lt_pow2; lia]. }
  replace (Z.log2 v / 8) with n by (Z.to_euclidean_division_equations; lia). lia.
Qed.

(** ** Lemmas: leading characters *)

Lemma leading_app f n x b :
  f x = true → head b = None ∨ (∃ y, head b = Some y ∧ f y = false) →
  leading f (replicate n x ++ b) = n.
Proof.
  intros Hf Hb. induction n as [|n IH]; simpl.
  - destruct b as [|y b]; [done|]. destruct Hb as [|(z & [= ->] & Hz)]; [done|]. simpl. by rewrite Hz.
  - rewrite Hf. by f_equal.
Qed.

Lemma leading_split b : ∃ b', b = replicate (leading is_zero b) Byte.x00 ++ b' ∧
  (b' = [] ∨ ∃ c b'', b' = c :: b'' ∧ c ≠ Byte.x00).
Proof.
  induction b as [|x b (b' & IH & Hb')]; [by exists []; auto|]. simpl.
  destruct (is_zero x) eqn:E.
  - apply bool_decide_eq_true in E as ->. exists b'. split; [simpl; by f_equal|done].
  - apply bool_decide_eq_false in E. exists (x :: b). split; [done|]. right. by exists x, b.
Qed.

Lemma big_Bytes_SetBytes b :
  replicate (leading is_zero b) Byte.x00 ++ big_Bytes (big_SetBytes b) = b.
Proof.
  destruct (leading_split b) as (b' & Heq & Hb').
  set (n := leading is_zero b) in *. clearbody n. subst b.
  rewrite big_SetBytes_zeros. f_equal.
  pose proof (proj1 (big_SetBytes_bound b')) as Hnn.
  destruct Hb' as [->|(c & b & -> & Hc)]; [done|].
  apply big_SetBytes_inj; [|by apply big_SetBytes_Bytes].
  rewrite length_big_Bytes by done. by apply nbytes_SetBytes.
Qed.

Lemma head_rev {A} (l : list A) : head (rev l) = last l.
Proof. destruct l as [|x l _] using rev_ind; [done|]. by rewrite rev_unit, last_snoc. Qed.

Lemma length_digits fuel x n : 0 ≤ x < 58 ^ Z.of_nat n → (length (digits fuel x) ≤ n)%nat.
Proof.
  revert x n; induction fuel as [|fuel IH]; intros x n Hx; cbn [digits]; [simpl; lia|].
  case_decide; [|simpl; lia]. destruct n as [|n]; [simpl in Hx; lia|].
  rewrite Nat2Z.inj_succ, Z.pow_succ_r in Hx by lia. simpl. apply le_n_S, IH.
  Z.to_euclidean_division_equations; nia.
Qed.

(** ** Properties *)

(** Base-58 text is lossless: decoding the encoding of any bytes gives them back,
    leading zero bytes included. *)
Theorem Decode_Encode (b : bytes) : Decode (Encode b) = b.
Proof.
  pose proof (big_SetBytes_bound b) as [Hnn _].
  unfold Decode, Encode. rewrite rev_involutive, undigits_digits_of by done.
  rewrite rev_app_distr.
  replace (leading is_idx0 _) with (leading is_zero b); [apply big_Bytes_SetBytes|].
  rewrite replicate_repeat, rev_repeat, <- replicate_repeat.
  symmetry. apply leading_app; [done|].
  destruct (last (digits_of (big_SetBytes b))) as [c|] eqn:E; [right|left]; rewrite head_rev, E; [|done].
  exists c. split; [done|]. eapply digits_last; [by apply fuel_enough|exact E].
Qed.

(** Decoding the checked encoding of any input and version returns both. *)
Theorem CheckDecode_CheckEncode (sha256 : bytes → bytes) (input : bytes) (version : byte) :
  (∀ b, length (sha256 b) = 32%nat) →
  CheckDecode sha256 (CheckEncode sha256 input version) = Ok (input, version).
Proof.
  intros Hlen. unfold CheckDecode, CheckEncode. rewrite Decode_Encode.
  set (b := version :: input).
  assert (length (checksum sha256 b) = 4%nat) as Hck
    by (unfold checksum; rewrite length_take, Hlen; done).
  assert (length (b ++ checksum sha256 b) - 4 = length b)%nat as Hcut
    by (rewrite length_app, Hck; lia).
  rewrite decide_False by (rewrite length_app, Hck; simpl; lia). rewrite Hcut.
  rewrite drop_app_length, take_app_length. unfold b at 1. cbn [app].
  rewrite decide_True by done. f_equal. f_equal.
  replace (length b - 1)%nat with (length input) by (simpl; lia).
  unfold b. cbn [app drop]. by rewrite drop_0, take_app_length.
Qed.

Lemma CheckDecode_CheckEncode_witness :
  let h := λ _, replicate 32 Byte.x07 in
  (∀ b : bytes, length (h b) = 32%nat) ∧
  CheckDecode h (CheckEncode h (bs "kto") Byte.x00) = Ok (bs "kto", Byte.x00).
Proof. intros h. split; [reflexivity|]. exact (CheckDecode_CheckEncode h (bs "kto") Byte.x00 (λ _, eq_refl)). Defined.

(** The fixed-width text of a 32-byte public key has 44 characters and decodes to
    that key, leading zero bytes included. *)
Theorem DecodeAddr_EncodeAddr (key : bytes) :
  length key = 32%nat → length (EncodeAddr key) = 44%nat ∧ DecodeAddr (EncodeAddr key) = Ok key.
Proof.
  intros Hk. pose proof (big_SetBytes_bound key) as [Hnn Hlt]. rewrite Hk in Hlt.
  unfold EncodeAddr, DecodeAddr. rewrite Hk. change (32 * 136 / 100 + 1)%nat with 44%nat.
  set (x := big_SetBytes key) in *.
  assert (length (digits_of x) ≤ 44)%nat as Hd by (apply length_digits; split; [done|eapply Z.lt_trans; [exact Hlt|reflexivity]]).
  split; [rewrite length_rev, length_app, length_replicate; lia|].
  rewrite rev_involutive, undigits_digits_of by done.
  assert (nbytes x ≤ 32)%nat as Hn.
  { unfold nbytes. case_decide; [lia|]. apply Z.log2_lt_pow2 in Hlt; [|lia].
    Z.to_euclidean_division_equations; lia. }
  rewrite length_big_Bytes, decide_False by (done || lia). f_equal.
  apply big_SetBytes_inj.
  - rewrite length_app, length_replicate, length_big_Bytes, Hk by done. lia.
  - by rewrite big_SetBytes_zeros, big_SetBytes_Bytes.
Qed.

Lemma DecodeAddr_EncodeAddr_witness :
  let key := replicate 31 Byte.x00 ++ [Byte.x3a] in
  length key = 32%nat ∧
  EncodeAddr key = replicate 42 alphabetIdx0 ++ bs "21" ∧ DecodeAddr (EncodeAddr key) = Ok key.
Proof.
  intros key. split; [reflexivity|]. split; [vm_compute; reflexivity|].
  exact (proj2 (DecodeAddr_EncodeAddr key eq_refl)).
Defined.

(** Text of 44 characters can stand for more than 32 bytes, and then decoding panics. *)
Example DecodeAddr_panics : DecodeAddr (replicate 44 (alphabet_at 57)) = Panic.
Proof. vm_compute. reflexivity. Qed.
