(* ===== verification/Cbor.v ===== *)
(** The CBOR layer shared by the codecs: the header functions of the cbor-gen
    package (a parameter), Go's readers, and the class of codecs with its
    round-trip law.

    A reader is the list of bytes that remain, a decoder a state-and-error
    computation on it.  Writing to a [bytes.Buffer] never fails, so an encoder is a
    function to bytes. *)

From S2P Require Import Prelude.

(** ** cbor-gen *)

Definition MajUnsignedInt : Z := 0.
Definition MajByteString : Z := 2.
Definition MajArray : Z := 4.

Class CborHeader := {
  (* [WriteMajorTypeHeader] and [WriteMajorTypeHeaderBuf] write the same bytes *)
  WriteMajorTypeHeader : Z → Z → bytes;
  (* [CborReadHeader] and [CborReadHeaderBuf]: major type and argument *)
  CborReadHeader : stM bytes (Z * Z);
  ByteArrayMaxLen : Z;
}.

(** Reading a header that was written gives back the major type and the argument,
    and consumes exactly the header. *)
Class CborHeaderLaws `{!CborHeader} := {
  header_roundtrip maj n rest :
    0 ≤ maj < 8 → is_u64 n →
    CborReadHeader (WriteMajorTypeHeader maj n ++ rest) = (Ok (maj, n), rest);
  (* the one-byte header 130 that the code writes itself *)
  header_array2 rest : CborReadHeader (Byte.x82 :: rest) = (Ok (MajArray, 2), rest);
  ByteArrayMaxLen_pos : 0 < ByteArrayMaxLen <= 4294967296;
}.

(** ** Readers *)

(** [make([]byte, n)] panics when [n] is beyond the address space. *)
Definition makeslice (n : Z) : stM bytes unit :=
  if decide (n > 281474976710656) then st_panic else mret tt.

(** [buf := make([]byte, n); io.ReadFull(r, buf)] *)
Definition ReadFull (n : Z) : stM bytes bytes := λ s,
  if decide (Z.of_nat (length s) < n)
  then (err (if decide (s = []) then "EOF" else "unexpected EOF"), [])
  else (Ok (take (Z.to_nat n) s), drop (Z.to_nat n) s).

(** [buf := make([]byte, n); r.Read(buf)] on a buffer: fewer bytes than asked for are
    not an error, the rest of [buf] stays zero. *)
Definition ReadBuf (n : Z) : stM bytes bytes := λ s,
  if decide (s = [] ∧ n > 0) then (err "EOF", [])
  else
    let got := take (Z.to_nat n) s in
    (Ok (got ++ replicate (Z.to_nat n - length got) Byte.x00), drop (Z.to_nat n) s).

(** A header of the given major type; its argument. *)
Definition expect `{!CborHeader} (maj : Z) (msg : string) : stM bytes Z :=
  '(m, extra) ← CborReadHeader;
  if decide (m ≠ maj) then st_err (ErrMsg msg) else mret extra.

Lemma expect_run `{!CborHeader, !CborHeaderLaws} maj msg n rest :
  0 ≤ maj < 8 → is_u64 n → expect maj msg (WriteMajorTypeHeader maj n ++ rest) = (Ok n, rest).
Proof.
  intros. unfold expect. erewrite st_bind_eq by by apply header_roundtrip.
  cbn beta iota. by rewrite decide_False by naive_solver.
Qed.

Lemma ReadFull_run b rest : ReadFull (Z.of_nat (length b)) (b ++ rest) = (Ok b, rest).
Proof.
  unfold ReadFull. rewrite decide_False by (rewrite length_app; lia).
  by rewrite Nat2Z.id, take_app_length, drop_app_length.
Qed.

Lemma ReadBuf_run b rest : ReadBuf (Z.of_nat (length b)) (b ++ rest) = (Ok b, rest).
Proof.
  unfold ReadBuf. rewrite Nat2Z.id, take_app_length, drop_app_length, Nat.sub_diag.
  rewrite decide_False; [by rewrite app_nil_r|].
  intros [[-> _]%app_eq_nil Hn]. simpl in Hn. lia.
Qed.

Lemma makeslice_run n s : n ≤ 281474976710656 → makeslice n s = (Ok tt, s).
Proof. intros. unfold makeslice. by rewrite decide_False by lia. Qed.

(** ** Codecs *)

(** What one component promises to the ones that embed its values: decoding the
    encoding of a well-formed value, followed by anything, gives back the value and
    leaves what followed. *)
Class Codec (A : Type) := {
  enc : A → bytes;
  dec : stM bytes A;
  enc_ok : A → Prop;
}.
Class CodecLaw (A : Type) `{!Codec A} :=
  codec_roundtrip : ∀ (a : A) (rest : bytes), enc_ok a → dec (enc a ++ rest) = (Ok a, rest).

(** Encodings of well-formed values are uniquely decodable, also inside a longer
    message. *)
Lemma codec_prefix_free `{CodecLaw A} (a b : A) x y :
  enc_ok a → enc_ok b → enc a ++ x = enc b ++ y → a = b ∧ x = y.
Proof.
  intros Ha Hb Heq. pose proof (codec_roundtrip a x Ha) as H1.
  rewrite Heq, codec_roundtrip in H1 by done. by injection H1 as -> ->.
Qed.

(** Run one decoding step against the bytes of one encoding step. *)
Ltac dec_step :=
  first
    [ erewrite st_bind_eq by apply header_array2
    | erewrite st_bind_eq by (apply expect_run; [unfold MajUnsignedInt, MajByteString, MajArray; lia|done])
    | erewrite st_bind_eq by (apply (header_roundtrip); [unfold MajUnsignedInt, MajByteString, MajArray; lia|done])
    | erewrite st_bind_eq by apply ReadFull_run
    | erewrite st_bind_eq by apply ReadBuf_run
    | erewrite st_bind_eq by (apply makeslice_run; lia)
    | erewrite st_bind_eq by (apply codec_roundtrip; done) ];
  cbn beta iota.

(** ** The header format of RFC 8949, an instance *)

Module Rfc8949.

Definition write (maj n : Z) : bytes :=
  let h low := byte.of_Z (maj * 32 + low) in
  if decide (n < 24) then [h n]
  else if decide (n < 256) then h 24 :: rev (le_split 1 n)
  else if decide (n < 65536) then h 25 :: rev (le_split 2 n)
  else if decide (n < 4294967296) then h 26 :: rev (le_split 4 n)
  else h 27 :: rev (le_split 8 n).

Definition read_arg (maj : Z) (len : nat) (s : bytes) : res (Z * Z) * bytes :=
  if decide (length s < len)%nat then (err "unexpected EOF", [])
  else (Ok (maj, le_combine (rev (take len s))), drop len s).

Definition read : stM bytes (Z * Z) := λ s,
  match s with
  | [] => (err "EOF", [])
  | x :: s =>
      let maj := byte.unsigned x / 32 in
      let low := byte.unsigned x mod 32 in
      if decide (low < 24) then (Ok (maj, low), s)
      else if decide (low = 24) then read_arg maj 1 s
      else if decide (low = 25) then read_arg maj 2 s
      else if decide (low = 26) then read_arg maj 4 s
      else if decide (low = 27) then read_arg maj 8 s
      else (err "invalid header", s)
  end.

#[global] Instance header : CborHeader := {
  WriteMajorTypeHeader := write; CborReadHeader := read; ByteArrayMaxLen := 2097152;
}.

Lemma read_arg_run maj len n rest :
  0 ≤ n < 2 ^ (Z.of_nat len * 8) → read_arg maj len (rev (le_split len n) ++ rest) = (Ok (maj, n), rest).
Proof.
  intros Hn. assert (length (rev (le_split len n)) = len) as Hl by by rewrite length_rev, length_le_split.
  unfold read_arg. rewrite decide_False by (rewrite length_app; lia).
  rewrite take_app_length', drop_app_length' by done.
  by rewrite rev_involutive, le_combine_split, Z.mod_small.
Qed.

Lemma header_byte maj low : 0 ≤ maj < 8 → 0 ≤ low < 32 →
  byte.unsigned (byte.of_Z (maj * 32 + low)) / 32 = maj ∧
  byte.unsigned (byte.of_Z (maj * 32 + low)) mod 32 = low.
Proof.
  intros. rewrite byte.unsigned_of_Z. unfold byte.wrap. change (2 ^ 8) with 256.
  rewrite Z.mod_small by lia. split; Z.to_euclidean_division_equations; lia.
Qed.

#[global] Instance header_laws : CborHeaderLaws.
Proof.
  split; [|done|simpl; lia]. intros maj n rest Hm Hn. simpl. unfold write, read.
  unfold is_u64, MAXUINT64 in Hn.
  repeat case_decide; cbn [app];
    (match goal with |- context [byte.of_Z (maj * 32 + ?l)] =>
       destruct (header_byte maj l) as [-> ->]; [lia|lia|] end);
    repeat (first [rewrite decide_True by lia | rewrite decide_False by lia]);
    first [done | apply read_arg_run; simpl; lia].
Qed.

End Rfc8949.
