(* ===== verification/Address.v ===== *)
(** Account addresses, [pkg/address/address.go]: the two protocols (secp256k1
    payloads and ed25519 public keys), their text, CBOR and go-ethereum forms.

    The package's two global variables are the record [globals]; go-ethereum's
    address functions and SHA-1 are the class [EthCommon]. *)

From S2P Require Import Prelude Base58 Cbor.

(** ** go-ethereum and SHA-1 *)

Class EthCommon := {
  BytesToAddress : bytes → bytes;
  HexToAddress : bytes → bytes;
  eth_Hex : bytes → bytes;                  (* [Address.Hex], with its mixed-case checksum *)
  (* [UnmarshalPubkey] and then [PubkeyToAddress] *)
  PubkeyToEthAddress : bytes → res bytes;
  sha1_Sum : bytes → bytes;
}.

(** Addresses are 20 bytes; 20 bytes are taken as they are. *)
Class EthCommonLaws `{!EthCommon} := {
  BytesToAddress_20 b : length b = 20%nat → BytesToAddress b = b;
  BytesToAddress_length b : length (BytesToAddress b) = 20%nat;
  HexToAddress_length b : length (HexToAddress b) = 20%nat;
  HexToAddress_Hex b : length b = 20%nat → HexToAddress (eth_Hex b) = b;
  PubkeyToEthAddress_length k a : PubkeyToEthAddress k = Ok a → length a = 20%nat;
}.

(** ** Signature types ([pkg/crypto/signature.go]) *)

Abbreviation SigType := byte.
Definition TypeSecp256k1 : SigType := Byte.x00.
Definition TypeED25519 : SigType := Byte.x01.
Definition TypeMutil : SigType := Byte.x02.
Definition TypeUnknown : SigType := Byte.xff.

(** ** Hexadecimal text ([encoding/hex]) *)

Definition hexdigit (n : Z) : byte := nth (Z.to_nat n) (bs "0123456789abcdef") Byte.x00.

Fixpoint EncodeToString (b : bytes) : bytes :=
  match b with
  | [] => []
  | x :: b => hexdigit (byte.unsigned x / 16) :: hexdigit (byte.unsigned x mod 16) :: EncodeToString b
  end.

Definition fromHexChar (c : byte) : option Z :=
  let c := byte.unsigned c in
  if decide (48 ≤ c ≤ 57) then Some (c - 48)
  else if decide (97 ≤ c ≤ 102) then Some (c - 97 + 10)
  else if decide (65 ≤ c ≤ 70) then Some (c - 65 + 10)
  else None.

Fixpoint DecodeString (s : bytes) : res bytes :=
  match s with
  | [] => Ok []
  | [c] => match fromHexChar c with None => err "invalid byte" | Some _ => err "odd length hex string" end
  | c :: d :: s =>
      match fromHexChar c, fromHexChar d with
      | Some h, Some l => b ← DecodeString s; Ok (byte.of_Z (h * 16 + l) :: b)
      | _, _ => err "invalid byte"
      end
  end.

(** ** Addresses *)

Record Address := Addr { addr_string : bytes (* string(public key) *) }.

#[global] Instance Address_eq_dec : EqDecision Address.
Proof. solve_decision. Defined.
#[global] Instance Address_countable : Countable Address :=
  inj_countable' addr_string Addr (λ a, match a with Addr _ => eq_refl end).

Abbreviation NetWork := byte.
Definition Mainnet : NetWork := Byte.x00.
Definition Testnet : NetWork := Byte.x01.

Definition ED25519PubKeySize : nat := 32.
Definition Secp256k1PayloadSize : nat := 21.
Definition AddressSize : nat := 44.
Definition AddresPrefixSize : nat := 3.
Definition SecpAddressSzie : nat := 44.
Definition Ed25519AddressSzie : nat := 47.

Definition MainnetPrefix : bytes := bs "Kto".
Definition TestnetPrefix : bytes := bs "otK".

Definition Undef : Address := Addr [].
Definition ZeroAddress : Address := Addr (replicate 21 Byte.x00).

Definition prefixSet (n : NetWork) : option bytes :=
  if decide (n = Mainnet) then Some MainnetPrefix
  else if decide (n = Testnet) then Some TestnetPrefix
  else None.

(** The package's variables. *)
Record globals := Globals { CurrentNetWork : NetWork; GenesisAddress : bytes }.

Definition init_globals : globals :=
  Globals Testnet (bs "otK00000000000000000000000000000000000000000").

(** [strings.ToLower] up to equality with ASCII text: 'İ' (C4 B0) is the only other
    character whose lower case is a letter of the network names. *)
Fixpoint ToLower (s : bytes) : bytes :=
  match s with
  | Byte.xc4 :: Byte.xb0 :: s => Byte.x69 :: ToLower s
  | c :: s =>
      (if decide (65 ≤ byte.unsigned c ≤ 90) then byte.of_Z (byte.unsigned c + 32) else c) :: ToLower s
  | [] => []
  end.

(** A map read of an absent key yields the empty string. *)
Definition SetNetWork (networkType : bytes) (g : globals) : globals :=
  let nwt := ToLower networkType in
  let net := if decide (nwt = bs "mainnet") then Mainnet else Testnet in
  Globals net (default [] (prefixSet net) ++ drop 3 (GenesisAddress g)).

Definition Bytes (a : Address) : bytes := addr_string a.
Definition Payload (a : Address) : bytes := addr_string a.

Definition newAddress (protocol : SigType) (payload : bytes) : res Address :=
  if decide (protocol = TypeED25519) then Ok (Addr payload)
  else if decide (protocol = TypeSecp256k1) then
    (* [buf := make([]byte, 21); buf[0] = TypeSecp256k1; copy(buf[1:], payload)] *)
    Ok (Addr (TypeSecp256k1 :: take 20 payload ++ replicate (20 - length payload) Byte.x00))
  else err "unknown address type".

Definition NewEd25519Addr (pubkey : bytes) : res Address :=
  if decide (length pubkey ≠ ED25519PubKeySize) then err "invalid public key"
  else newAddress TypeED25519 pubkey.

Definition NewFromBytes (addr : bytes) : res Address :=
  if decide (length addr = 0)%nat then Ok Undef
  else if decide (length addr < Secp256k1PayloadSize)%nat then err "invalid address bytes"
  else Ok (Addr addr).

Definition NewFromEthAddr (eaddr : bytes) : res Address := newAddress TypeSecp256k1 eaddr.

Definition Protocol (a : Address) : SigType :=
  match addr_string a with
  | [] => TypeUnknown
  | c :: _ =>
      if decide (c = TypeSecp256k1 ∧ length (addr_string a) = Secp256k1PayloadSize) then TypeSecp256k1
      else if decide (length (addr_string a) = ED25519PubKeySize) then TypeED25519
      else TypeUnknown
  end.

(** ** Text *)

Definition encode (network : NetWork) (a : Address) : res bytes :=
  if decide (a = Undef) then Ok []
  else
    match prefixSet network with
    | None => err "unknown address network"
    | Some prefix =>
        if decide (Protocol a = TypeSecp256k1) then
          Ok (prefix ++ bs "0" ++ EncodeToString (drop 1 (Payload a)))
        else if decide (Protocol a = TypeED25519) then Ok (prefix ++ EncodeAddr (Payload a))
        else err "unknown address protocol"
    end.

(** [String] panics on an address that cannot be encoded. *)
Definition String (g : globals) (a : Address) : res bytes :=
  match encode (CurrentNetWork g) a with Ok s => Ok s | _ => Panic end.

(** [str[0]] of an empty string panics; the caller passes at least 41 characters. *)
Definition parseAddrStrProtocol (str : bytes) : res SigType :=
  match str with
  | [] => Panic
  | c :: _ =>
      if decide (c = Byte.x30 ∧ length str = (SecpAddressSzie - AddresPrefixSize)%nat) then Ok TypeSecp256k1
      else if decide (length str = (Ed25519AddressSzie - AddresPrefixSize)%nat) then Ok TypeED25519
      else Ok TypeUnknown
  end.

Definition decode (g : globals) (str : bytes) : res Address :=
  if decide (length str < AddressSize)%nat then err "invalid address string length"
  else if decide (take AddresPrefixSize str ≠ default [] (prefixSet (CurrentNetWork g)))
  then err "unknow address network"
  else
    p ← parseAddrStrProtocol (drop AddresPrefixSize str);
    if decide (p = TypeSecp256k1) then
      payload ← DecodeString (drop (AddresPrefixSize + 1) str);
      newAddress TypeSecp256k1 payload
    else if decide (p = TypeED25519) then
      payload ← DecodeAddr (drop AddresPrefixSize str);
      newAddress TypeED25519 payload
    else err "unknow address type".

Definition NewAddrFromString (g : globals) (str : bytes) : res Address := decode g str.

Section Eth.
Context `{!EthCommon}.

Definition NewSecp256k1Addr (pub : bytes) : res Address :=
  ethAddr ← PubkeyToEthAddress pub;
  NewFromEthAddr ethAddr.

(** The go-ethereum address an account's balance and nonce are kept under. *)
Definition NewCommonAddr (g : globals) (a : Address) : res bytes :=
  if decide (a = Undef) then err "undef address"
  else if decide (Protocol a = TypeED25519) then
    s ← String g a;
    Ok (HexToAddress (EncodeToString (sha1_Sum s)))
  else if decide (Protocol a = TypeSecp256k1) then Ok (BytesToAddress (drop 1 (Payload a)))
  else err "unknown address type".

Definition StringToAddress (g : globals) (addr : bytes) : res Address :=
  if decide (length addr < 4)%nat then err "wrong address"
  else if decide (take 3 addr = MainnetPrefix ∨ take 3 addr = TestnetPrefix) then NewAddrFromString g addr
  else if decide (take 2 addr = bs "0x") then NewFromEthAddr (HexToAddress addr)
  else err "Unsupport address type".
End Eth.

(** ** CBOR *)

Section Codec.
Context `{!CborHeader}.

Definition MarshalCBOR (a : Address) : bytes :=
  WriteMajorTypeHeader MajByteString (Z.of_nat (length (addr_string a))) ++ addr_string a.

Definition UnmarshalCBOR : stM bytes Address :=
  extra ← expect MajByteString "cbor type for address unmarshal was not byte string";
  makeslice extra ;;
  buf ← ReadFull extra;
  addr ← st_lift (NewFromBytes buf);
  if decide (addr = Undef) then st_err (ErrMsg "cbor input should not contain empty addresses")
  else mret addr.

(** What the decoder accepts: at least 21 bytes. *)
#[global] Instance Address_codec : Codec Address := {
  enc := MarshalCBOR;
  dec := UnmarshalCBOR;
  enc_ok a := (Secp256k1PayloadSize ≤ length (addr_string a))%nat ∧
              Z.of_nat (length (addr_string a)) ≤ 281474976710656;
}.
End Codec.

(** ** Lemmas *)

Lemma hex_digit_inv n : 0 ≤ n < 16 → fromHexChar (hexdigit n) = Some n.
Proof.
  intros Hn.
  assert (Forall (λ i, fromHexChar (hexdigit (Z.of_nat i)) = Some (Z.of_nat i)) (seq 0 16)) as Hall.
  { apply (bool_decide_unpack _). vm_compute. exact I. }
  rewrite Forall_forall in Hall. specialize (Hall (Z.to_nat n)).
  rewrite Z2Nat.id in Hall by lia. apply Hall, elem_of_seq. lia.
Qed.

Lemma DecodeString_Encode b : DecodeString (EncodeToString b) = Ok b.
Proof.
  induction b as [|x b IH]; [done|]. cbn [EncodeToString DecodeString].
  pose proof (byte.unsigned_range x) as Hx.
  rewrite !hex_digit_inv by (Z.to_euclidean_division_equations; lia). rewrite IH. cbn.
  replace (byte.unsigned x / 16 * 16 + byte.unsigned x mod 16) with (byte.unsigned x)
    by (Z.to_euclidean_division_equations; lia).
  by rewrite byte.of_Z_unsigned.
Qed.

Lemma length_EncodeToString b : length (EncodeToString b) = (2 * length b)%nat.
Proof. induction b as [|x b IH]; [done|]. cbn [EncodeToString length]. rewrite IH. lia. Qed.

Lemma length_DecodeString s b : DecodeString s = Ok b → length s = (2 * length b)%nat.
Proof.
  revert b. induction s as [s IH] using (induction_ltof1 _ length). unfold ltof in IH. intros b.
  destruct s as [|c [|d s]]; [by intros [= <-]|simpl; by destruct (fromHexChar c)|].
  cbn [DecodeString]. destruct (fromHexChar c), (fromHexChar d); try done. intros Hd. ok_inv Hd.
  match goal with H : DecodeString s = Ok _ |- _ => apply IH in H; simpl in *; lia end.
Qed.

(** The addresses that have a text and a go-ethereum form. *)
Definition known (a : Address) : Prop := Protocol a = TypeSecp256k1 ∨ Protocol a = TypeED25519.

Lemma Protocol_secp a :
  Protocol a = TypeSecp256k1 ↔ ∃ p, a = Addr (TypeSecp256k1 :: p) ∧ length p = 20%nat.
Proof.
  unfold Protocol, Secp256k1PayloadSize, ED25519PubKeySize.
  destruct a as [[|c s]]; cbn [addr_string]; [split; [done|by intros (?&?&?)]|]. split.
  - case_decide as H1; [|by case_decide]. destruct H1 as [-> Hl]. intros _.
    exists s. split; [done|]. simpl in Hl. lia.
  - intros (p & [= -> ->] & Hl). rewrite decide_True; [done|]. split; [done|]. simpl. by rewrite Hl.
Qed.

Lemma Protocol_ed25519 a : Protocol a = TypeED25519 ↔ length (addr_string a) = ED25519PubKeySize.
Proof.
  unfold Protocol, Secp256k1PayloadSize, ED25519PubKeySize.
  destruct a as [[|c s]]; cbn [addr_string]; [done|].
  case_decide as H1; [|by case_decide]. destruct H1 as [-> Hl]. rewrite Hl. done.
Qed.

Lemma known_prefix net p : prefixSet net = Some p → length p = 3%nat.
Proof. unfold prefixSet. intros. repeat case_decide; by simplify_eq. Qed.

Lemma known_not_Undef a : known a → a ≠ Undef.
Proof. by intros [Ha|Ha] ->. Qed.

(** The text of an address of either protocol. *)
Lemma encode_known net p a :
  prefixSet net = Some p → known a →
  encode net a = Ok (p ++ if decide (Protocol a = TypeSecp256k1)
                          then bs "0" ++ EncodeToString (drop 1 (Payload a)) else EncodeAddr (Payload a)).
Proof.
  intros Hp Ha. unfold encode. rewrite Hp, decide_False by by apply known_not_Undef.
  case_decide; [done|]. destruct Ha as [Ha|Ha]; [done|]. by rewrite decide_True.
Qed.

Lemma newAddress_secp q :
  length q = 20%nat → newAddress TypeSecp256k1 q = Ok (Addr (TypeSecp256k1 :: q)).
Proof.
  intros Hq. unfold newAddress. rewrite decide_False, decide_True by done.
  rewrite take_ge by lia. by rewrite Hq, app_nil_r.
Qed.

Lemma parse_secp q : length q = 40%nat → parseAddrStrProtocol (bs "0" ++ q) = Ok TypeSecp256k1.
Proof.
  intros Hq. change (bs "0" ++ q) with (Byte.x30 :: q). unfold parseAddrStrProtocol.
  rewrite decide_True; [done|]. split; [done|]. simpl. by rewrite Hq.
Qed.

Lemma parse_ed25519 q : length q = 44%nat → parseAddrStrProtocol q = Ok TypeED25519.
Proof.
  intros Hq. unfold parseAddrStrProtocol. destruct q as [|c q]; [done|].
  rewrite decide_False by (rewrite Hq; by intros [_ ?]). by rewrite decide_True.
Qed.

(** ** Properties *)

Lemma known_roundtrip (g : globals) (a : Address) :
  is_Some (prefixSet (CurrentNetWork g)) → known a →
  ∃ s, encode (CurrentNetWork g) a = Ok s ∧ NewAddrFromString g s = Ok a ∧
    length s = if decide (Protocol a = TypeSecp256k1) then SecpAddressSzie else Ed25519AddressSzie.
Proof.
  intros [p Hp] Ha. pose proof (known_prefix _ _ Hp) as Hl.
  eexists. split; [by apply encode_known|]. unfold NewAddrFromString, decode, AddresPrefixSize, AddressSize.
  destruct (decide (Protocol a = TypeSecp256k1)) as [Hs|Hs].
  - apply Protocol_secp in Hs as (q & -> & Hq). change (drop 1 (Payload (Addr (TypeSecp256k1 :: q)))) with q.
    assert (length (EncodeToString q) = 40%nat) as Hh by (rewrite length_EncodeToString, Hq; done).
    rewrite decide_False by (rewrite !length_app, Hl, Hh; simpl; lia).
    rewrite take_app_length', (drop_app_length' p _ 3) by lia. rewrite Hp.
    rewrite decide_False by naive_solver.
    rewrite parse_secp by done. cbn [mbind res_bind]. rewrite decide_True by done.
    split; [|rewrite !length_app, Hl, Hh; done].
    rewrite <- (drop_drop _ 1 3), drop_app_length' by lia.
    change (drop 1 (bs "0" ++ EncodeToString q)) with (EncodeToString q). rewrite DecodeString_Encode.
    by apply newAddress_secp.
  - destruct Ha as [?|Ha]; [done|]. apply Protocol_ed25519 in Ha as Hk.
    destruct (DecodeAddr_EncodeAddr _ Hk) as [Hh Hd].
    rewrite decide_False by (rewrite !length_app, Hl; unfold Payload; rewrite Hh; simpl; lia).
    rewrite take_app_length', (drop_app_length' p _ 3) by lia. rewrite Hp.
    rewrite decide_False by naive_solver.
    unfold Payload. rewrite parse_ed25519 by done. cbn [mbind res_bind].
    rewrite (decide_False (P := TypeED25519 = TypeSecp256k1)), decide_True by done. rewrite Hd.
    split; [by destruct a|]. rewrite length_app, Hl, Hh. done.
Qed.

(** Different addresses have different texts. *)
Lemma String_inj (g : globals) (a b : Address) (s : bytes) :
  known a → known b → String g a = Ok s → String g b = Ok s → a = b.
Proof.
  intros Ha Hb Hsa Hsb. unfold String in *.
  destruct (encode (CurrentNetWork g) a) as [sa|e|] eqn:Ea; [|done..]. injection Hsa as ->.
  destruct (encode (CurrentNetWork g) b) as [sb|e|] eqn:Eb; [|done..]. injection Hsb as ->.
  assert (is_Some (prefixSet (CurrentNetWork g))) as Hp.
  { unfold encode in Ea. case_decide as Hu; [|by destruct (prefixSet _)]. subst a.
    unfold known in Ha. by destruct Ha. }
  destruct (known_roundtrip g a Hp Ha) as (sa & Ea' & Ha' & _).
  destruct (known_roundtrip g b Hp Hb) as (sb & Eb' & Hb' & _). congruence.
Qed.

(** The text of an address is lossless: on either network every secp256k1 or ed25519
    address has a text (of 44 and 47 characters), and parsing that text on the same
    network gives back the address. *)
Theorem text_roundtrip (g : globals) (a : Address) :
  is_Some (prefixSet (CurrentNetWork g)) → known a →
  ∃ s, encode (CurrentNetWork g) a = Ok s ∧ NewAddrFromString g s = Ok a ∧
    length s = if decide (Protocol a = TypeSecp256k1) then SecpAddressSzie else Ed25519AddressSzie.
Proof. apply known_roundtrip. Qed.

Lemma text_roundtrip_witness :
  let a := Addr (TypeSecp256k1 :: replicate 20 Byte.xab) in
  known a ∧ ∃ s, encode Testnet a = Ok s ∧ NewAddrFromString init_globals s = Ok a ∧ length s = 44%nat.
Proof.
  intros a. split; [left; reflexivity|].
  exact (text_roundtrip init_globals a (ex_intro _ TestnetPrefix eq_refl) (or_introl eq_refl)).
Defined.

Lemma newAddress_length p q a :
  newAddress p q = Ok a → p = TypeSecp256k1 → ∃ r, a = Addr (TypeSecp256k1 :: r) ∧ length r = 20%nat.
Proof.
  intros H ->. unfold newAddress in H. rewrite decide_False, decide_True in H by done.
  injection H as <-. eexists. split; [done|]. rewrite length_app, length_take, length_replicate. lia.
Qed.

(** Every address that parsing text yields is a secp256k1 address, an ed25519
    address, or, for 44 characters that are not base 58, the undefined address (which
    the parser returns without an error). *)
Theorem decode_result (g : globals) (s : bytes) (a : Address) :
  NewAddrFromString g s = Ok a → known a ∨ a = Undef.
Proof.
  unfold NewAddrFromString, decode. intros H.
  case_decide; [done|]. case_decide; [done|].
  apply bind_Ok in H as (p & Hp & H). case_decide; [|case_decide; [|done]].
  - apply bind_Ok in H as (q & Hq & H). left; left. apply Protocol_secp.
    by apply newAddress_length in H.
  - apply bind_Ok in H as (q & Hq & H). unfold newAddress in H. rewrite decide_True in H by done.
    injection H as <-. unfold DecodeAddr in Hq. destruct (undigits _ 0 1) as [x|].
    + left; right. apply Protocol_ed25519. case_decide; [done|]. injection Hq as <-.
      cbn [addr_string]. rewrite length_app, length_replicate. unfold ED25519PubKeySize. lia.
    + right. by injection Hq as <-.
Qed.

Lemma decode_result_witness :
  NewAddrFromString init_globals (bs "otK" ++ replicate 44 Byte.x30) = Ok Undef ∧
  (known Undef ∨ Undef = Undef).
Proof.
  assert (NewAddrFromString init_globals (bs "otK" ++ replicate 44 Byte.x30) = Ok Undef) as H
    by (vm_compute; reflexivity).
  split; [exact H|exact (decode_result init_globals (bs "otK" ++ replicate 44 Byte.x30) Undef H)].
Defined.

(** 44 base-58 characters whose value needs 33 bytes crash the parser. *)
Example parse_panics : NewAddrFromString init_globals (bs "otK" ++ replicate 44 Byte.x7a) = Panic.
Proof. vm_compute. reflexivity. Qed.

(** ** CBOR *)

#[global] Instance Address_codec_law `{!CborHeader, !CborHeaderLaws} : CodecLaw Address.
Proof.
  intros [s] rest [Hmin Hmax]. cbn [addr_string] in *.
  change (UnmarshalCBOR (MarshalCBOR (Addr s) ++ rest) = (Ok (Addr s), rest)).
  unfold UnmarshalCBOR, MarshalCBOR. cbn [addr_string]. rewrite <- app_assoc.
  assert (is_u64 (Z.of_nat (length s))) as Hu by (unfold is_u64, MAXUINT64; lia).
  do 3 dec_step. unfold st_lift, NewFromBytes. unfold Secp256k1PayloadSize in *.
  rewrite decide_False, decide_False by lia. unfold mbind, stM_bind.
  rewrite decide_False; [done|]. intros [= ->]. simpl in Hmin. lia.
Qed.

(** The decoder accepts an address of no known protocol, on which [String] panics. *)
Lemma unmarshal_then_panic (g : globals) (a : Address) :
  a ≠ Undef → is_Some (prefixSet (CurrentNetWork g)) → ¬ known a → String g a = Panic.
Proof.
  intros Hu [p Hp] Hk. unfold String, encode. rewrite decide_False, Hp by done.
  rewrite decide_False, decide_False by (intros ?; apply Hk; by (left + right)). done.
Qed.

(** A header that announces 2^60 bytes makes the decoder panic instead of returning an
    error. *)
Example unmarshal_panics :
  (@UnmarshalCBOR Rfc8949.header (Rfc8949.write MajByteString (2 ^ 60))).1 = Panic.
Proof. vm_compute. reflexivity. Qed.

(** ** go-ethereum form *)

Section CommonAddr.
Context `{!EthCommon, !EthCommonLaws}.

(** Every secp256k1 or ed25519 address has a 20-byte go-ethereum address, which for
    secp256k1 is the payload itself, so that two such accounts never share state;
    undefined and malformed addresses are errors. *)
Theorem NewCommonAddr_cases (g : globals) (a b : Address) :
  is_Some (prefixSet (CurrentNetWork g)) →
  (known a → ∃ c, NewCommonAddr g a = Ok c ∧ length c = 20%nat) ∧
  (¬ known a → ∃ e, NewCommonAddr g a = Err e) ∧
  (Protocol a = TypeSecp256k1 → Protocol b = TypeSecp256k1 → NewCommonAddr g a = NewCommonAddr g b → a = b).
Proof.
  intros [p Hp].
  assert (∀ q, length q = 20%nat → NewCommonAddr g (Addr (TypeSecp256k1 :: q)) = Ok q) as Hsecp.
  { intros q Hq. unfold NewCommonAddr. rewrite decide_False by done.
    rewrite (proj2 (Protocol_secp _)) by eauto. rewrite decide_False, decide_True by done.
    by rewrite BytesToAddress_20. }
  split_and!.
  - intros [Ha|Ha].
    + apply Protocol_secp in Ha as (q & -> & Hq). eauto.
    + unfold NewCommonAddr. rewrite decide_False by (apply known_not_Undef; by right).
      rewrite decide_True by done. unfold String.
      erewrite encode_known by (done || by right). cbn. eauto using HexToAddress_length.
  - intros Hk. unfold NewCommonAddr. case_decide; [by eexists|].
    rewrite decide_False, decide_False by (intros ?; apply Hk; by (left + right)). by eexists.
  - intros (q & -> & Hq)%Protocol_secp (r & -> & Hr)%Protocol_secp.
    rewrite !Hsecp by done. by intros [= ->].
Qed.
End CommonAddr.

(** ** A concrete go-ethereum *)

Module EthInstance.

(** [common.BytesToAddress]: the last 20 bytes, padded on the left; the hash is a stand-in. *)
Definition fit20 (b : bytes) : bytes :=
  let b := drop (length b - 20) b in replicate (20 - length b) Byte.x00 ++ b.

Lemma fit20_length b : length (fit20 b) = 20%nat.
Proof. unfold fit20. rewrite length_app, length_replicate, length_drop. lia. Qed.

Definition trim0x (s : bytes) : bytes := if decide (take 2 s = bs "0x") then drop 2 s else s.

#[global] Instance eth : EthCommon := {
  BytesToAddress := fit20;
  HexToAddress s := fit20 (match DecodeString (trim0x s) with Ok b => b | _ => [] end);
  eth_Hex b := bs "0x" ++ EncodeToString b;
  PubkeyToEthAddress k := if decide (k = []) then err "invalid" else Ok (fit20 k);
  sha1_Sum b := fit20 (rev b);
}.

Lemma fit20_id b : length b = 20%nat → fit20 b = b.
Proof. intros Hb. unfold fit20. rewrite Hb. cbn [Nat.sub]. rewrite drop_0, Hb. done. Qed.

#[global] Program Instance eth_laws : EthCommonLaws.
Next Obligation. intros b. apply fit20_id. Qed.
Next Obligation. intros b. apply fit20_length. Qed.
Next Obligation. intros b. apply fit20_length. Qed.
Next Obligation.
  intros b Hb. simpl. change (trim0x _) with (EncodeToString b). rewrite DecodeString_Encode. by apply fit20_id.
Qed.
Next Obligation. intros k a. simpl. case_decide; [done|]. intros [= <-]. apply fit20_length. Qed.

End EthInstance.

Lemma NewCommonAddr_cases_witness :
  is_Some (prefixSet (CurrentNetWork init_globals)) ∧
  ∃ c, NewCommonAddr init_globals ZeroAddress = Ok c ∧ length c = 20%nat.
Proof.
  assert (is_Some (prefixSet (CurrentNetWork init_globals))) as H by (exists TestnetPrefix; reflexivity).
  split; [exact H|].
  exact (proj1 (NewCommonAddr_cases init_globals ZeroAddress ZeroAddress H) (or_introl eq_refl)).
Defined.
