(* ===== verification/Transaction.v ===== *)
(** Transactions: [pkg/crypto/signature.go], the signature schemes of
    [pkg/crypto/sigs] and the packages' [pkg/transaction] types with their CBOR
    codecs, hashes, signing and verification.

    The cryptographic primitives, SHA-256, go-ethereum's transactions and the JSON
    form of contract calls are parameters. *)

From S2P Require Import Prelude Misc Base58 Cbor Address.

(** ** Signatures *)

Definition SignatureMaxLength : Z := 130.

Record Signature := Sig { SigType_ : SigType; Data : bytes }.

#[global] Instance Signature_eq_dec : EqDecision Signature.
Proof. solve_decision. Defined.

(** ** Transaction types *)

Abbreviation TransactionType := byte.
Definition TransferTransaction : TransactionType := Byte.x00.
Definition CoinBaseTransaction : TransactionType := Byte.x01.
Definition LockTransaction : TransactionType := Byte.x02.
Definition UnlockTransaction : TransactionType := Byte.x03.
Definition MortgageTransaction : TransactionType := Byte.x04.
Definition BindingAddressTransaction : TransactionType := Byte.x05.
Definition EvmContractTransaction : TransactionType := Byte.x06.
Definition PledgeTrasnaction : TransactionType := Byte.x07.
Definition EvmKtoTransaction : TransactionType := Byte.x08.
Definition IsTokenTransaction : TransactionType := Byte.x09.
Definition PledgeBreakTransaction : TransactionType := Byte.x0a.
Definition WithdrawToEthTransaction : TransactionType := Byte.x0b.

Record Transaction := Tx {
  Version : Z; Type_ : TransactionType; From : Address; To : Address;
  Amount : Z; Nonce : Z; GasLimit : Z; GasFeeCap : Z; GasPrice : Z; Input : bytes;
}.

Record SignedTransaction := STx { st_tx : Transaction; st_sig : Signature }.

Record FinishedTransaction := FTx { ft_st : SignedTransaction; GasUsed : Z; BlockNum : Z }.
Definition ft_tx (ft : FinishedTransaction) : Transaction := st_tx (ft_st ft).

#[global] Instance Transaction_eq_dec : EqDecision Transaction.
Proof. solve_decision. Defined.
#[global] Instance SignedTransaction_eq_dec : EqDecision SignedTransaction.
Proof. solve_decision. Defined.
#[global] Instance FinishedTransaction_eq_dec : EqDecision FinishedTransaction.
Proof. solve_decision. Defined.

Definition IsTransferTrasnaction (t : Transaction) : bool := bool_decide (Type_ t = TransferTransaction).
Definition IsLockTransaction (t : Transaction) : bool := bool_decide (Type_ t = LockTransaction).
Definition IsUnlockTransaction (t : Transaction) : bool := bool_decide (Type_ t = UnlockTransaction).
Definition IsCoinBaseTransaction (t : Transaction) : bool := bool_decide (Type_ t = CoinBaseTransaction).
Definition IsTokenTransaction_ (t : Transaction) : bool := bool_decide (Type_ t = IsTokenTransaction).
Definition IsBindingAddressTransaction (t : Transaction) : bool := bool_decide (Type_ t = BindingAddressTransaction).
Definition IsEvmContractTransaction (t : Transaction) : bool := bool_decide (Type_ t = EvmContractTransaction).
Definition IsKtoTransaction (t : Transaction) : bool := bool_decide (Type_ t = EvmKtoTransaction).
Definition IsPledgeTrasnaction (t : Transaction) : bool := bool_decide (Type_ t = PledgeTrasnaction).
Definition IsPledgeBreakTransaction (t : Transaction) : bool := bool_decide (Type_ t = PledgeBreakTransaction).

Definition Caller (t : Transaction) : Address := From t.
Definition Receiver (t : Transaction) : Address := To t.

(** GasCap gas fee upper limit *)
Definition GasCap (t : Transaction) : Z := GasLimit t *₆₄ GasPrice t.

(** ** CBOR *)

Section Codecs.
Context `{!CborHeader}.

Definition uint_header (n : Z) : bytes := WriteMajorTypeHeader MajUnsignedInt n.
Definition byte_string (b : bytes) : bytes :=
  WriteMajorTypeHeader MajByteString (Z.of_nat (length b)) ++ b.

Definition Sig_MarshalCBOR (s : Signature) : bytes :=
  WriteMajorTypeHeader MajByteString (Z.of_nat (length (Data s)) + 1) ++ [SigType_ s] ++ Data s.

Definition Sig_UnmarshalCBOR : stM bytes Signature :=
  l ← expect MajByteString "not byte string";
  if decide (l > SignatureMaxLength + 1) then st_err (ErrMsg "string too long") else
  if decide (l = 0) then st_err (ErrMsg "string is empty") else
  buf ← ReadFull l;
  match buf with
  | [] => st_panic
  | t :: data =>
      if decide (t = TypeED25519 ∨ t = TypeSecp256k1 ∨ t = TypeMutil) then mret (Sig t data)
      else st_err (ErrMsg "unkown signature type")
  end.

Definition Sig_Serialize (s : Signature) : bytes := Sig_MarshalCBOR s.
Definition DeserializeSignature (data : bytes) : res Signature := (Sig_UnmarshalCBOR data).1.

Definition Tx_MarshalCBOR (t : Transaction) : bytes :=
  uint_header (Version t) ++
  byte_string [Type_ t] ++
  Address.MarshalCBOR (From t) ++
  Address.MarshalCBOR (To t) ++
  uint_header (Amount t) ++
  uint_header (Nonce t) ++
  uint_header (GasFeeCap t) ++
  uint_header (GasLimit t) ++
  uint_header (GasPrice t) ++
  byte_string (Input t).

Definition Tx_UnmarshalCBOR : stM bytes Transaction :=
  version ← expect MajUnsignedInt "wrong type for uint64 field for Version ";
  extra ← expect MajByteString "expected byte array";
  if decide (extra ≠ 1) then st_err (ErrMsg "t.Type: byte array length is wrong") else
  typeBytes ← ReadFull 1;
  match typeBytes with
  | [] => st_panic
  | type :: _ =>
      from ← Address.UnmarshalCBOR;
      to ← Address.UnmarshalCBOR;
      amount ← expect MajUnsignedInt "wrong type for uint64 field for Amount";
      nonce ← expect MajUnsignedInt "wrong type for uint64 field for Nonce";
      gasFeeCap ← expect MajUnsignedInt "wrong type for uint64 field for gas";
      gasLimit ← expect MajUnsignedInt "wrong type for uint64 field for gaslimit";
      gasPrice ← expect MajUnsignedInt "wrong type for uint64 field for  price";
      '(maj, extra) ← CborReadHeader;
      if decide (extra > ByteArrayMaxLen) then st_err (ErrMsg "t.Input: byte array too large") else
      if decide (maj ≠ MajByteString) then st_err (ErrMsg "expected byte array") else
      input ← ReadFull extra;
      mret (Tx version type from to amount nonce gasLimit gasFeeCap gasPrice input)
  end.

Definition Tx_Serialize (t : Transaction) : bytes := Tx_MarshalCBOR t.
Definition DeserializeTransaction (data : bytes) : res Transaction := (Tx_UnmarshalCBOR data).1.

(** The two-element array header the signed and finished forms share. *)
Definition expect_pair : stM bytes unit :=
  '(maj, extra) ← CborReadHeader;
  if decide (maj ≠ MajArray) then st_err (ErrMsg "cbor input should be of type array") else
  if decide (extra ≠ 2) then st_err (ErrMsg "cbor input had wrong number of fields") else mret tt.

Definition STx_MarshalCBOR (st : SignedTransaction) : bytes :=
  [Byte.x82] ++ Tx_MarshalCBOR (st_tx st) ++ Sig_MarshalCBOR (st_sig st).

Definition STx_UnmarshalCBOR : stM bytes SignedTransaction :=
  expect_pair ;;
  t ← Tx_UnmarshalCBOR;
  s ← Sig_UnmarshalCBOR;
  mret (STx t s).

Definition STx_Serialize (st : SignedTransaction) : bytes := STx_MarshalCBOR st.
Definition DeserializeSignaturedTransaction (data : bytes) : res SignedTransaction :=
  (STx_UnmarshalCBOR data).1.

Definition FTx_MarshalCBOR (ft : FinishedTransaction) : bytes :=
  [Byte.x82] ++ STx_MarshalCBOR (ft_st ft) ++ uint_header (GasUsed ft) ++ uint_header (BlockNum ft).

Definition FTx_UnmarshalCBOR : stM bytes FinishedTransaction :=
  expect_pair ;;
  st ← STx_UnmarshalCBOR;
  gasUsed ← expect MajUnsignedInt "wrong type for uint64 field";
  blockNum ← expect MajUnsignedInt "wrong type for uint64 field";
  mret (FTx st gasUsed blockNum).

Definition FTx_Serialize (ft : FinishedTransaction) : bytes := FTx_MarshalCBOR ft.
Definition DeserializeFinishedTransaction (data : bytes) : res FinishedTransaction :=
  (FTx_UnmarshalCBOR data).1.

(** ** Well-formed values: what the decoders accept *)

Definition sig_ok (s : Signature) : Prop :=
  (SigType_ s = TypeED25519 ∨ SigType_ s = TypeSecp256k1 ∨ SigType_ s = TypeMutil) ∧
  Z.of_nat (length (Data s)) ≤ SignatureMaxLength.

Definition tx_ok (t : Transaction) : Prop :=
  is_u64 (Version t) ∧ enc_ok (From t) ∧ enc_ok (To t) ∧ is_u64 (Amount t) ∧ is_u64 (Nonce t) ∧
  is_u64 (GasLimit t) ∧ is_u64 (GasFeeCap t) ∧ is_u64 (GasPrice t) ∧
  Z.of_nat (length (Input t)) ≤ ByteArrayMaxLen.

#[global] Instance Signature_codec : Codec Signature :=
  { enc := Sig_MarshalCBOR; dec := Sig_UnmarshalCBOR; enc_ok := sig_ok }.
#[global] Instance Transaction_codec : Codec Transaction :=
  { enc := Tx_MarshalCBOR; dec := Tx_UnmarshalCBOR; enc_ok := tx_ok }.
#[global] Instance SignedTransaction_codec : Codec SignedTransaction :=
  { enc := STx_MarshalCBOR; dec := STx_UnmarshalCBOR;
    enc_ok st := enc_ok (st_tx st) ∧ enc_ok (st_sig st) }.
#[global] Instance FinishedTransaction_codec : Codec FinishedTransaction :=
  { enc := FTx_MarshalCBOR; dec := FTx_UnmarshalCBOR;
    enc_ok ft := enc_ok (ft_st ft) ∧ is_u64 (GasUsed ft) ∧ is_u64 (BlockNum ft) }.

(** ** The codecs satisfy the law *)

Context `{!CborHeaderLaws}.

Lemma byte_string_header b rest :
  byte_string b ++ rest = WriteMajorTypeHeader MajByteString (Z.of_nat (length b)) ++ b ++ rest.
Proof. unfold byte_string. by rewrite <- app_assoc. Qed.

#[global] Instance Signature_codec_law : CodecLaw Signature.
Proof.
  intros [t d] rest [Ht Hd]. cbn [SigType_ Data] in *. unfold SignatureMaxLength in *.
  change (Sig_UnmarshalCBOR (Sig_MarshalCBOR (Sig t d) ++ rest) = (Ok (Sig t d), rest)).
  unfold Sig_UnmarshalCBOR, Sig_MarshalCBOR. cbn [SigType_ Data]. rewrite <- !app_assoc.
  assert (is_u64 (Z.of_nat (length d) + 1)) as Hu by (unfold is_u64, MAXUINT64; lia).
  dec_step. unfold SignatureMaxLength. rewrite decide_False, decide_False by lia.
  replace (Z.of_nat (length d) + 1) with (Z.of_nat (length ([t] ++ d))) by (simpl; lia).
  rewrite (app_assoc [t]). dec_step. cbn [app]. rewrite decide_True by naive_solver. done.
Qed.

#[global] Instance Transaction_codec_law : CodecLaw Transaction.
Proof.
  intros [ver ty from to am no gl gf gp inp] rest (H1 & H2 & H3 & H4 & H5 & H6 & H7 & H8 & H9).
  cbn [Version From To Amount Nonce GasLimit GasFeeCap GasPrice Input] in *.
  match goal with |- dec (enc ?t ++ _) = _ =>
    change (Tx_UnmarshalCBOR (Tx_MarshalCBOR t ++ rest) = (Ok t, rest)) end.
  unfold Tx_UnmarshalCBOR, Tx_MarshalCBOR, uint_header.
  cbn [Version Type_ From To Amount Nonce GasLimit GasFeeCap GasPrice Input].
  rewrite <- !app_assoc, !byte_string_header.
  assert (is_u64 (Z.of_nat (length [ty]))) as Hu1 by (unfold is_u64, MAXUINT64; simpl; lia).
  pose proof ByteArrayMaxLen_pos as Hpos.
  assert (is_u64 (Z.of_nat (length inp))) as Hu2 by (unfold is_u64, MAXUINT64; lia).
  do 2 dec_step. rewrite decide_False by (simpl; lia).
  change 1 with (Z.of_nat (length [ty])). dec_step.
  change Address.UnmarshalCBOR with (dec (A := Address)).
  change (Address.MarshalCBOR from) with (enc from). change (Address.MarshalCBOR to) with (enc to).
  do 8 dec_step. rewrite decide_False, decide_False by (lia || done).
  by dec_step.
Qed.

Lemma expect_pair_run rest : expect_pair (Byte.x82 :: rest) = (Ok tt, rest).
Proof. unfold expect_pair. dec_step. by rewrite decide_False, decide_False by naive_solver. Qed.

#[global] Instance SignedTransaction_codec_law : CodecLaw SignedTransaction.
Proof.
  intros [t s] rest [Ht Hs]. cbn [st_tx st_sig] in *.
  change (STx_UnmarshalCBOR (STx_MarshalCBOR (STx t s) ++ rest) = (Ok (STx t s), rest)).
  unfold STx_UnmarshalCBOR, STx_MarshalCBOR. cbn [st_tx st_sig app].
  erewrite st_bind_eq by apply expect_pair_run. rewrite <- !app_assoc.
  change Tx_UnmarshalCBOR with (dec (A := Transaction)). change (Tx_MarshalCBOR t) with (enc t).
  change Sig_UnmarshalCBOR with (dec (A := Signature)). change (Sig_MarshalCBOR s) with (enc s).
  by do 2 dec_step.
Qed.

#[global] Instance FinishedTransaction_codec_law : CodecLaw FinishedTransaction.
Proof.
  intros [st g b] rest (Hst & Hg & Hb). cbn [ft_st GasUsed BlockNum] in *.
  change (FTx_UnmarshalCBOR (FTx_MarshalCBOR (FTx st g b) ++ rest) = (Ok (FTx st g b), rest)).
  unfold FTx_UnmarshalCBOR, FTx_MarshalCBOR, uint_header. cbn [ft_st GasUsed BlockNum app].
  erewrite st_bind_eq by apply expect_pair_run. rewrite <- !app_assoc.
  change STx_UnmarshalCBOR with (dec (A := SignedTransaction)).
  change (STx_MarshalCBOR st) with (enc st).
  by do 3 dec_step.
Qed.

End Codecs.

(** ** Signature schemes *)

(** SHA-256, crypto/ed25519 and go-ethereum's secp256k1. *)
Class Crypto := {
  sha256_Sum256 : bytes → bytes;
  ed25519_Verify : bytes → bytes → bytes → bool;          (* key, message, signature *)
  ed25519_Sign : bytes → bytes → bytes;                   (* private key, message *)
  ed25519_GenerateKey : bytes → res bytes;                (* from random bytes *)
  ed25519_Public : bytes → bytes;                         (* private key *)
  secp_Sign : bytes → bytes → res bytes;                  (* [ToECDSA], then [Sign] *)
  secp_Ecrecover : bytes → bytes → res bytes;             (* hash, signature *)
  secp_VerifySignature : bytes → bytes → bytes → bool;    (* key, hash, signature *)
  secp_GenerateKey : bytes → res bytes;                   (* [GenerateKey], then [FromECDSA] *)
  secp_Public : bytes → res bytes;                        (* [ToECDSA], then [FromECDSAPub] *)
}.

(** The address of a private key, and what generating keys and signing promise. *)
Class CryptoLaws `{!Crypto, !EthCommon} := {
  sha256_length b : length (sha256_Sum256 b) = 32%nat;
  secp_Address : bytes → bytes;
  ed25519_Sign_length priv msg : length (ed25519_Sign priv msg) = 64%nat;
  ed25519_Verify_Sign priv msg :
    length priv = 64%nat → ed25519_Verify (ed25519_Public priv) msg (ed25519_Sign priv msg) = true;
  ed25519_Public_length priv : length priv = 64%nat → length (ed25519_Public priv) = 32%nat;
  secp_Address_length priv : length (secp_Address priv) = 20%nat;
  secp_Sign_law priv msg s :
    secp_Sign priv msg = Ok s →
    length s = 65%nat ∧ ∃ pub, secp_Ecrecover msg s = Ok pub ∧
      PubkeyToEthAddress pub = Ok (secp_Address priv) ∧
      secp_VerifySignature pub msg (take 64 s) = true;
  ed25519_GenerateKey_length r priv : ed25519_GenerateKey r = Ok priv → length priv = 64%nat;
  secp_Public_law priv pub : secp_Public priv = Ok pub → PubkeyToEthAddress pub = Ok (secp_Address priv);
}.

Section Sigs.
Context `{!Crypto, !EthCommon}.

Definition ed_PublicKeySize : nat := 32.
Definition ed_PrivateKeySize : nat := 64.
Definition ed_SignatureSize : nat := 64.

Definition ED25519Signer_Verify (sig publicKey msg : bytes) : res unit :=
  if decide (length publicKey ≠ ed_PublicKeySize ∨ length sig ≠ ed_SignatureSize)
  then err "ed25519 signature failed to verify"
  else if ed25519_Verify publicKey msg sig then Ok tt
  else err "ed25519 signature failed to verify".

Definition ED25519Signer_Sign (priv msg : bytes) : res bytes :=
  if decide (length priv ≠ ed_PrivateKeySize) then err "ed25519 signature invalid private key"
  else Ok (ed25519_Sign priv msg).

Definition ED25519Signer_Generate (random : bytes) : res bytes := ed25519_GenerateKey random.

Definition ED25519Signer_ToPublic (priv : bytes) : res bytes :=
  if decide (length priv ≠ ed_PrivateKeySize) then err "ed25519 signature invalid private key"
  else Ok (ed25519_Public priv).

Definition Secp256k1Signer_Generate (random : bytes) : res bytes := secp_GenerateKey random.

Definition Secp256k1Signer_ToPublic (privBytes : bytes) : res bytes := secp_Public privBytes.

Definition Secp256k1Signer_Sign (priv msg : bytes) : res bytes := secp_Sign priv msg.

(** [signature[:len(signature)-1]] and [pubKey[1:]] are slices of non-empty strings here:
    the recovered signature has 65 bytes and the key 21. *)
Definition Secp256k1Signer_Verify (signature pubKey sighash : bytes) : res unit :=
  if decide (length pubKey ≠ 21%nat) then err "signature verification failed"
  else
    pub ← secp_Ecrecover sighash signature;
    maybeAddr ← PubkeyToEthAddress pub;
    if decide (maybeAddr ≠ drop 1 pubKey) then err "signature verification failed"
    else if decide (signature = []) then Panic
    else if secp_VerifySignature pub sighash (take (length signature - 1) signature) then Ok tt
    else err "signature verification failed".

(** The registry [sigs] after both packages' [init]. *)
Record SigShim := Shim {
  shim_Generate : bytes → res bytes;
  shim_ToPublic : bytes → res bytes;
  shim_Sign : bytes → bytes → res bytes;
  shim_Verify : bytes → bytes → bytes → res unit;
}.
Definition sigs (t : SigType) : option SigShim :=
  if decide (t = TypeED25519) then Some (Shim ED25519Signer_Generate ED25519Signer_ToPublic ED25519Signer_Sign ED25519Signer_Verify)
  else if decide (t = TypeSecp256k1) then Some (Shim Secp256k1Signer_Generate Secp256k1Signer_ToPublic Secp256k1Signer_Sign Secp256k1Signer_Verify)
  else None.

Definition sigs_Generate (sigType : SigType) (random : bytes) : res bytes :=
  match sigs sigType with
  | None => err "cannot generate private key with signature of unsupported type"
  | Some s => shim_Generate s random
  end.

Definition sigs_ToPublic (sigType : SigType) (priv : bytes) : res bytes :=
  match sigs sigType with
  | None => err "cannot to public key with signature of unsupported type"
  | Some signer => shim_ToPublic signer priv
  end.

Definition sigs_Sign (sigType : SigType) (priv msg : bytes) : res Signature :=
  match sigs sigType with
  | None => err "cannot sign message with signature of unsupported type"
  | Some signer => signature ← shim_Sign signer priv msg; Ok (Sig sigType signature)
  end.

Definition sigs_Verify (sig : Signature) (pk msg : bytes) : res unit :=
  match sigs (SigType_ sig) with
  | None => err "cannot verify message with signature of unsupported type"
  | Some signer => shim_Verify signer (Data sig) pk msg
  end.

End Sigs.

(** ** Hashes *)

Section Hashes.
Context `{!CborHeader, !Crypto}.

Definition Hash_preimage (t : Transaction) : bytes :=
  Bytes (From t) ++ Bytes (To t) ++ E64func (Version t) ++ E64func (Amount t) ++ E64func (Nonce t) ++
  E64func (GasLimit t) ++ E64func (GasPrice t) ++ E64func (GasFeeCap t).

Definition Hash (t : Transaction) : bytes := sha256_Sum256 (Hash_preimage t).

(** SignHash required for signature *)
Definition SignHash (t : Transaction) : bytes := sha256_Sum256 (Tx_Serialize t).

End Hashes.

(** ** Contract calls *)

(** go-ethereum's transaction: what the code reads of it. *)
Record EthTx := MkEthTx {
  eth_V : Z; eth_R : Z; eth_S : Z; eth_ChainId : Z; eth_Hash : bytes; eth_Value : Z;
  eth_Nonce : Z; eth_GasPrice : Z; eth_Gas : Z; eth_To : option bytes; eth_Data : bytes;
}.
(** go-ethereum's log records, as far as the code stores them. *)
Record EthLog := MkEthLog { log_Address : bytes; log_Topics : list bytes; log_Data : bytes }.

Record EvmContract := MkEvm {
  EthData : bytes; MsgHash : bytes; Operation : bytes; CreateCode : bytes; Origin : bytes;
  ContractAddr : bytes; CallInput : bytes; Ret : bytes; Status : bool; Logs : list EthLog;
}.

(** Their codecs: [encoding/json], and [hexutil] with [rlp]. *)
Class EvmData := {
  DecodeEvmData : bytes → res EvmContract;
  EncodeEvmData : EvmContract → res bytes;
  DecodeEthData : bytes → res EthTx;
}.

Definition ParseEthSignature (ethtx : EthTx) : bytes :=
  let v := eth_V ethtx - eth_ChainId ethtx * 2 in
  let v := v - 8 in
  big_Bytes (eth_R ethtx) ++ big_Bytes (eth_S ethtx) ++ [byte.of_Z (u64 (Z.abs v) -₆₄ 27)].

Section Verify.
Context `{!CborHeader, !Crypto, !EthCommon, !EvmData}.

(** [ed25519.Verify] panics on a key that is not 32 bytes long. *)
Definition ed25519_Verify_std (pubkey msg sig : bytes) : res bool :=
  if decide (length pubkey ≠ 32%nat) then Panic else Ok (ed25519_Verify pubkey msg sig).

(** It's a eth transaction struct signed by kto priv *)
Definition VerifyKtoSign (kFrom : Address) (msgHash ethdata : bytes) : res bool :=
  match DecodeEthData ethdata with
  | Ok ethtx =>
      let sign := ParseEthSignature ethtx in
      if decide (length sign <= 64)%nat then Ok false
      else ed25519_Verify_std (Payload kFrom) msgHash (take 64 sign)
  | Err _ => Ok false
  | Panic => Panic
  end.

Definition VerifyEthSign (ethdata : bytes) : res bool :=
  match DecodeEthData ethdata with
  | Ok ethtx =>
      let sign := ParseEthSignature ethtx in
      if decide (length sign <= 64)%nat then Ok false
      else
        match secp_Ecrecover (eth_Hash ethtx) sign with
        | Ok pub => Ok (secp_VerifySignature pub (eth_Hash ethtx) (take 64 sign))
        | Err _ => Ok false
        | Panic => Panic
        end
  | Err _ => Ok false
  | Panic => Panic
  end.

Definition MutilSign (t : Transaction) (fromPriv toPriv : bytes) : res SignedTransaction :=
  if decide (length fromPriv = 0)%nat then err "invalid from privte key"
  else if decide (length toPriv = 0)%nat then err "invalid from privte key"
  else
    fsign ← sigs_Sign (Protocol (From t)) fromPriv (SignHash t);
    tsign ← sigs_Sign (Protocol (To t)) toPriv (SignHash t);
    Ok (STx t (Sig TypeMutil (Data fsign ++ Data tsign))).

(** The length of a signature of the address's protocol. *)
Definition sig_length (p : SigType) : nat :=
  if decide (p = TypeED25519) then 64 else if decide (p = TypeSecp256k1) then 65 else 0.

Definition VerifySign (st : SignedTransaction) : res unit :=
  let t := st_tx st in
  if decide (Type_ t = TransferTransaction ∨ Type_ t = PledgeTrasnaction ∨
             Type_ t = PledgeBreakTransaction ∨ Type_ t = WithdrawToEthTransaction) then
    sigs_Verify (st_sig st) (Payload (Caller t)) (SignHash t)
  else if decide (Type_ t = LockTransaction ∨ Type_ t = UnlockTransaction) then
    let l := sig_length (Protocol (From t)) in
    if decide (length (Data (st_sig st)) < l)%nat then err "invalide mutil signature"
    else
      sigs_Verify (Sig (Protocol (From t)) (take l (Data (st_sig st)))) (Bytes (Caller t)) (SignHash t) ≫= λ _,
      sigs_Verify (Sig (Protocol (To t)) (drop l (Data (st_sig st)))) (Bytes (Receiver t)) (SignHash t)
  else if decide (Type_ t = EvmContractTransaction ∨ Type_ t = EvmKtoTransaction) then
    evm ← DecodeEvmData (Input t);
    if decide (0 < length (MsgHash evm))%nat then
      ok ← VerifyKtoSign (Caller t) (MsgHash evm) (EthData evm);
      if (ok : bool) then Ok tt else err "verify kto transaction failed!"
    else
      ok ← VerifyEthSign (EthData evm);
      if (ok : bool) then Ok tt else err "verify eth transaction failed!"
  else Ok tt.

End Verify.

(** ** Properties *)

(** Storing a transaction and reading it back loses nothing: for every finished
    transaction whose fields are in the decoder's range, deserializing its
    serialization, followed by any other bytes, gives back the same transaction, with
    its signed transaction and signature. *)
Theorem transaction_roundtrip `{!CborHeader, !CborHeaderLaws} (ft : FinishedTransaction) (rest : bytes) :
  enc_ok ft →
  DeserializeFinishedTransaction (FTx_Serialize ft ++ rest) = Ok ft ∧
  DeserializeSignaturedTransaction (STx_Serialize (ft_st ft) ++ rest) = Ok (ft_st ft) ∧
  DeserializeTransaction (Tx_Serialize (ft_tx ft) ++ rest) = Ok (ft_tx ft) ∧
  DeserializeSignature (Sig_Serialize (st_sig (ft_st ft)) ++ rest) = Ok (st_sig (ft_st ft)).
Proof.
  intros Hft. pose proof Hft as ([Ht Hs] & _). split_and!.
  - exact (f_equal fst (codec_roundtrip (A := FinishedTransaction) ft rest Hft)).
  - exact (f_equal fst (codec_roundtrip (A := SignedTransaction) (ft_st ft) rest (conj Ht Hs))).
  - exact (f_equal fst (codec_roundtrip (A := Transaction) _ rest Ht)).
  - exact (f_equal fst (codec_roundtrip (A := Signature) _ rest Hs)).
Qed.

(** A transfer between two secp256k1 accounts. *)
Definition sample_tx : FinishedTransaction :=
  FTx (STx (Tx 1 TransferTransaction (Addr (replicate 21 Byte.x00))
              (Addr (Byte.x00 :: replicate 20 Byte.x11)) 500 2 21000 0 100 [])
           (Sig TypeSecp256k1 (replicate 65 Byte.x07))) 2100000 60350423.

Lemma sample_tx_ok : enc_ok sample_tx.
Proof. repeat split; try (vm_compute; first [discriminate | reflexivity | lia]). right; left; reflexivity. Qed.

Lemma transaction_roundtrip_witness :
  enc_ok sample_tx ∧ DeserializeFinishedTransaction (FTx_Serialize sample_tx ++ []) = Ok sample_tx.
Proof.
  split; [exact sample_tx_ok|]. exact (proj1 (transaction_roundtrip sample_tx [] sample_tx_ok)).
Defined.

Section SignVerify.
Context `{!CborHeader, !Crypto, !EthCommon, !EvmData, !CryptoLaws}.

(** [priv] is the private key behind the address [a]. *)
Definition key_of (a : Address) (priv : bytes) : Prop :=
  Protocol a = TypeED25519 ∧ length priv = 64%nat ∧ addr_string a = ed25519_Public priv ∨
  Protocol a = TypeSecp256k1 ∧ addr_string a = TypeSecp256k1 :: secp_Address priv.

Lemma sign_verify a priv msg s :
  key_of a priv → sigs_Sign (Protocol a) priv msg = Ok s →
  SigType_ s = Protocol a ∧ length (Data s) = sig_length (Protocol a) ∧
  sigs_Verify s (addr_string a) msg = Ok tt.
Proof.
  unfold sigs_Sign, sigs_Verify, sigs, sig_length. intros [(Hp & Hl & Hk)|(Hp & Hk)] Hs; rewrite Hp in *.
  - rewrite decide_True in Hs by done. cbn [shim_Sign] in Hs. apply bind_Ok in Hs as (d & Hd & Hs).
    injection Hs as <-. cbn [SigType_ Data]. rewrite !decide_True by done. cbn [shim_Verify].
    unfold ED25519Signer_Sign in Hd. rewrite decide_False in Hd by (intros Hn; by apply Hn).
    injection Hd as <-. split_and!; [done|apply ed25519_Sign_length|].
    unfold ED25519Signer_Verify. rewrite Hk, ed25519_Verify_Sign by done.
    rewrite decide_False; [done|]. rewrite ed25519_Public_length, ed25519_Sign_length by done. by intros [].
  - rewrite decide_False, decide_True in Hs by done. cbn [shim_Sign] in Hs.
    apply bind_Ok in Hs as (d & Hd & Hs). injection Hs as <-. cbn [SigType_ Data].
    rewrite !(decide_False (P := TypeSecp256k1 = TypeED25519)), !decide_True by done. cbn [shim_Verify].
    destruct (secp_Sign_law _ _ _ Hd) as (Hlen & pub & Hrec & Haddr & Hver).
    split_and!; [done..|]. unfold Secp256k1Signer_Verify. rewrite Hk.
    rewrite decide_False by (intros Hn; apply Hn; simpl; by rewrite secp_Address_length).
    rewrite Hrec. cbn [mbind res_bind]. rewrite Haddr. cbn [mbind res_bind drop].
    rewrite decide_False by (intros Hn; by apply Hn). rewrite decide_False by (intros ->; done).
    rewrite Hlen. change (65 - 1)%nat with 64%nat. by rewrite Hver.
Qed.

(** The address of a public key, by its scheme. *)
Definition address_of (t : SigType) (pub : bytes) : res Address :=
  if decide (t = TypeED25519) then NewEd25519Addr pub else NewSecp256k1Addr pub.

Lemma generated_key_of t random priv pub a :
  sigs_Generate t random = Ok priv → sigs_ToPublic t priv = Ok pub → address_of t pub = Ok a →
  Protocol a = t ∧ key_of a priv.
Proof.
  unfold sigs_Generate, sigs_ToPublic, sigs, address_of. intros Hg Hp Ha. case_decide as Ht.
  - subst t. cbn [shim_Generate shim_ToPublic] in *. pose proof (ed25519_GenerateKey_length _ _ Hg) as Hl.
    unfold ED25519Signer_ToPublic in Hp. rewrite decide_False in Hp by (intros Hn; by apply Hn). injection Hp as <-.
    pose proof (ed25519_Public_length _ Hl) as Hk. unfold NewEd25519Addr in Ha.
    rewrite decide_False in Ha by (intros Hn; by apply Hn). unfold newAddress in Ha. rewrite decide_True in Ha by done.
    injection Ha as <-. assert (Protocol (Addr (ed25519_Public priv)) = TypeED25519) as HP; [|split; [done|by left]].
    unfold Protocol. cbn [addr_string]. destruct (ed25519_Public priv) as [|c l]; [done|].
    rewrite decide_False by (rewrite Hk; by intros []). by rewrite decide_True.
  - case_decide as Ht'; [|done]. subst t. cbn [shim_ToPublic] in Hp. unfold Secp256k1Signer_ToPublic in Hp.
    unfold NewSecp256k1Addr in Ha. rewrite (secp_Public_law _ _ Hp) in Ha. cbn [mbind res_bind] in Ha.
    unfold NewFromEthAddr, newAddress in Ha. rewrite decide_False, decide_True in Ha by done.
    pose proof (secp_Address_length priv) as Hl.
    rewrite take_ge, Hl, Nat.sub_diag, app_nil_r in Ha by lia. injection Ha as <-.
    assert (Protocol (Addr (TypeSecp256k1 :: secp_Address priv)) = TypeSecp256k1) as HP; [|split; [done|by right]].
    unfold Protocol. cbn [addr_string]. rewrite decide_True; [done|]. simpl. by rewrite Hl.
Qed.

(** What is signed with a generated key verifies under the address of its public key, in both schemes. *)
Theorem generated_key_verifies t random priv pub a msg s :
  sigs_Generate t random = Ok priv → sigs_ToPublic t priv = Ok pub → address_of t pub = Ok a →
  sigs_Sign t priv msg = Ok s → sigs_Verify s (addr_string a) msg = Ok tt.
Proof.
  intros Hg Hp Ha Hs. destruct (generated_key_of _ _ _ _ _ Hg Hp Ha) as [<- Hk]. by apply (sign_verify a priv).
Qed.

(** A lock or unlock transaction signed with the private keys of both its addresses
    passes verification, whichever scheme each of the two uses: the two signatures are
    concatenated and cut at the right place. *)
Theorem MutilSign_verifies (t : Transaction) (fromPriv toPriv : bytes) (st : SignedTransaction) :
  key_of (From t) fromPriv → key_of (To t) toPriv →
  Type_ t = LockTransaction ∨ Type_ t = UnlockTransaction →
  MutilSign t fromPriv toPriv = Ok st → st_tx st = t ∧ VerifySign st = Ok tt.
Proof.
  intros Hf Hto Hty Hs. unfold MutilSign in Hs. case_decide; [done|]. case_decide; [done|].
  apply bind_Ok in Hs as (fs & Hfs & Hs). apply bind_Ok in Hs as (ts & Hts & Hs). injection Hs as <-.
  destruct (sign_verify _ _ _ _ Hf Hfs) as (Hft & Hfl & Hfv).
  destruct (sign_verify _ _ _ _ Hto Hts) as (Htt & Htl & Htv).
  split; [done|]. unfold VerifySign. cbn [st_tx st_sig Data].
  rewrite decide_False by (destruct Hty as [-> | ->]; naive_solver).
  rewrite decide_True by done.
  rewrite decide_False by (rewrite length_app, Hfl; lia).
  rewrite take_app_length', drop_app_length' by done.
  rewrite <- Hft, <- Htt.
  replace (Sig (SigType_ fs) (Data fs)) with fs by by destruct fs.
  replace (Sig (SigType_ ts) (Data ts)) with ts by by destruct ts.
  unfold Bytes, Caller, Receiver. rewrite Hfv. cbn [mbind res_bind]. apply Htv.
Qed.

(** Verification demands nothing of the other transaction types: coinbase, mortgage,
    binding, token and every undefined type pass with any signature, or none. *)
Theorem VerifySign_unsigned (st : SignedTransaction) :
  Type_ (st_tx st) ∉ [TransferTransaction; PledgeTrasnaction; PledgeBreakTransaction;
    WithdrawToEthTransaction; LockTransaction; UnlockTransaction; EvmContractTransaction;
    EvmKtoTransaction] →
  VerifySign st = Ok tt.
Proof.
  intros Ht. unfold VerifySign.
  rewrite decide_False, decide_False, decide_False; [done|..]; intros Hn; apply Ht; set_solver.
Qed.

Lemma E64_cons_inj a b x y : is_u64 a → is_u64 b → E64func a ++ x = E64func b ++ y → a = b ∧ x = y.
Proof.
  intros Ha Hb He. apply app_inj_1 in He as [He ->]; [|by rewrite !length_E64func].
  split; [by apply E64func_inj|done].
Qed.

(** The transaction hash commits to the addresses, the amount, the nonce, the version
    and the gas, but not to the type or the input: transactions between addresses of
    the same lengths have the same hash input exactly when they agree on everything
    else. *)
Theorem Hash_commits (t u : Transaction) :
  tx_ok t → tx_ok u → length (Bytes (From t)) = length (Bytes (From u)) →
  length (Bytes (To t)) = length (Bytes (To u)) →
  Hash_preimage t = Hash_preimage u ↔
    Tx (Version t) (Type_ u) (From t) (To t) (Amount t) (Nonce t) (GasLimit t) (GasFeeCap t)
       (GasPrice t) (Input u) = u.
Proof.
  intros (?&_&_&?&?&?&?&?&_) (?&_&_&?&?&?&?&?&_) Hlf Hlt. split.
  - unfold Hash_preimage. intros He.
    apply app_inj_1 in He as [Hf He]; [|done]. apply app_inj_1 in He as [Hto He]; [|done].
    do 5 (apply E64_cons_inj in He as [? He]; [|done..]). apply E64func_inj in He; [|done..].
    destruct t as [? ? [] [] ? ? ? ? ? ?], u as [? ? [] [] ? ? ? ? ? ?]. simpl in *. by subst.
  - intros <-. done.
Qed.

(** An Ethereum signature is rejected whenever [r] and [s] need fewer than 64 bytes
    together, since the code concatenates them without padding: about one valid
    signature in 128 begins one of its halves with a zero byte. *)
Theorem VerifyEthSign_short (ethdata : bytes) (ethtx : EthTx) :
  DecodeEthData ethdata = Ok ethtx → 0 ≤ eth_R ethtx → 0 ≤ eth_S ethtx →
  (nbytes (eth_R ethtx) + nbytes (eth_S ethtx) < 64)%nat →
  VerifyEthSign ethdata = Ok false.
Proof.
  intros Hd HR HS Hn. unfold VerifyEthSign. rewrite Hd. rewrite decide_True; [done|].
  unfold ParseEthSignature. rewrite !length_app, !length_big_Bytes by done. simpl. lia.
Qed.

End SignVerify.

(** ** Stand-ins for the cryptography, on which the laws hold *)

Module CryptoInstance.

Definition fit (n : nat) (b : bytes) : bytes := take n (b ++ replicate n Byte.x00).

Lemma fit_length n b : length (fit n b) = n.
Proof. unfold fit. rewrite length_take, length_app, length_replicate. lia. Qed.

#[global] Instance crypto : Crypto := {
  sha256_Sum256 b := fit 32 b;
  ed25519_Verify pk msg sig := bool_decide (sig = fit 64 (pk ++ msg));
  ed25519_Sign priv msg := fit 64 (fit 32 priv ++ msg);
  ed25519_GenerateKey random := Ok (fit 64 random);
  ed25519_Public := fit 32;
  secp_Sign priv msg := if decide (priv = []) then err "invalid private key"
                        else Ok (fit 65 (EthInstance.fit20 priv ++ msg));
  secp_Ecrecover _ sig := Ok (take 20 sig);
  secp_VerifySignature _ _ sig := bool_decide (length sig = 64%nat);
  secp_GenerateKey random := Ok (fit 32 random);
  secp_Public priv := if decide (priv = []) then err "invalid private key" else Ok (EthInstance.fit20 priv);
}.

#[global] Program Instance crypto_laws : CryptoLaws := {
  secp_Address := EthInstance.fit20;
}.
Next Obligation. intros. apply fit_length. Qed.
Next Obligation. intros. apply fit_length. Qed.
Next Obligation. intros. by apply bool_decide_eq_true. Qed.
Next Obligation. intros. apply fit_length. Qed.
Next Obligation. intros. apply EthInstance.fit20_length. Qed.
Next Obligation.
  intros priv msg s Hs. simpl in Hs. case_decide; [done|]. injection Hs as <-.
  split; [apply fit_length|]. eexists. split; [done|].
  assert (take 20 (fit 65 (EthInstance.fit20 priv ++ msg)) = EthInstance.fit20 priv) as Ht.
  { unfold fit. rewrite take_take, Nat.min_l by lia. rewrite <- app_assoc.
    by rewrite take_app_length' by by rewrite EthInstance.fit20_length. }
  pose proof (EthInstance.fit20_length priv) as Hl. rewrite Ht. split.
  - simpl. rewrite decide_False by (intros Hn; by rewrite Hn in Hl).
    f_equal. by apply (BytesToAddress_20 (H := EthInstance.eth)).
  - simpl. apply bool_decide_eq_true. rewrite length_take, fit_length. lia.
Qed.
Next Obligation. intros r priv [= <-]. apply fit_length. Qed.
Next Obligation.
  intros priv pub Hp. simpl in Hp. case_decide; [done|]. injection Hp as <-. simpl.
  pose proof (EthInstance.fit20_length priv) as Hl.
  rewrite decide_False by (intros Hn; by rewrite Hn in Hl).
  f_equal. by apply (BytesToAddress_20 (H := EthInstance.eth)).
Qed.

#[global] Instance evmdata : EvmData := {
  DecodeEvmData i := Ok (MkEvm i [] (bs "call") [] [] [] [] [] false []);
  EncodeEvmData e := Ok (EthData e);
  DecodeEthData d := Ok (MkEthTx 0 1 1 0 d 0 0 0 0 None []);
}.

End CryptoInstance.

(** A lock between an ed25519 and a secp256k1 account. *)
Definition sample_lock : Transaction :=
  Tx 1 LockTransaction (Addr (CryptoInstance.fit 32 (replicate 64 Byte.x05)))
     (Addr (TypeSecp256k1 :: EthInstance.fit20 [Byte.x09])) 70 3 21000 0 100 [].

Lemma MutilSign_verifies_witness :
  ∃ st, MutilSign sample_lock (replicate 64 Byte.x05) [Byte.x09] = Ok st ∧
    st_tx st = sample_lock ∧ VerifySign st = Ok tt.
Proof.
  eexists. split; [reflexivity|]. eapply (MutilSign_verifies sample_lock (replicate 64 Byte.x05) [Byte.x09]).
  - left. repeat split.
  - right. repeat split.
  - left. reflexivity.
  - reflexivity.
Defined.

Definition unsigned_mortgage : SignedTransaction :=
  STx (Tx 1 MortgageTransaction ZeroAddress ZeroAddress 70 3 21000 0 100 []) (Sig TypeSecp256k1 []).

Lemma VerifySign_unsigned_witness : VerifySign unsigned_mortgage = Ok tt.
Proof.
  apply VerifySign_unsigned. apply (bool_decide_unpack _). vm_compute. exact I.
Defined.

Lemma Hash_commits_witness :
  tx_ok (ft_tx sample_tx) ∧ (Hash_preimage (ft_tx sample_tx) = Hash_preimage (ft_tx sample_tx) ↔
    ft_tx sample_tx = ft_tx sample_tx).
Proof.
  assert (tx_ok (ft_tx sample_tx)) as H by
    (repeat split; vm_compute; first [discriminate | reflexivity | lia]).
  split; [exact H|].
  exact (Hash_commits (ft_tx sample_tx) (ft_tx sample_tx) H H eq_refl eq_refl).
Defined.

Lemma VerifyEthSign_short_witness : VerifyEthSign (bs "0x") = Ok false.
Proof.
  eapply (VerifyEthSign_short (bs "0x") (MkEthTx 0 1 1 0 (bs "0x") 0 0 0 0 None [])); simpl.
  - reflexivity.
  - lia.
  - lia.
  - vm_compute. lia.
Defined.
