(* ===== verification/Block.v ===== *)
(** Blocks, [pkg/block/types.go]: their CBOR form and hashes, and the check of a
    block's hash in [pkg/blockchain/checkblock.go].

    SHA3-256 is a parameter. *)

From S2P Require Import Prelude Misc Base58 Cbor Address Transaction.

(** ** Blocks *)

(** The difficulties are pointers to big integers, [None] being nil. *)
Record Block := MkBlock {
  Height : Z; PrevHash : bytes; BHash : bytes; Transactions : list FinishedTransaction;
  Root : bytes; SnapRoot : bytes; BVersion : Z; Timestamp : Z; UsedTime : Z; Miner : Address;
  Difficulty : option Z; GlobalDifficulty : option Z; BNonce : Z; BGasLimit : Z; BGasUsed : Z;
}.

#[global] Instance Block_eq_dec : EqDecision Block.
Proof. solve_decision. Defined.

Definition with_hash (h : bytes) (b : Block) : Block :=
  MkBlock (Height b) (PrevHash b) h (Transactions b) (Root b) (SnapRoot b) (BVersion b) (Timestamp b)
    (UsedTime b) (Miner b) (Difficulty b) (GlobalDifficulty b) (BNonce b) (BGasLimit b) (BGasUsed b).
Definition with_txs (txs : list FinishedTransaction) (b : Block) : Block :=
  MkBlock (Height b) (PrevHash b) (BHash b) txs (Root b) (SnapRoot b) (BVersion b) (Timestamp b)
    (UsedTime b) (Miner b) (Difficulty b) (GlobalDifficulty b) (BNonce b) (BGasLimit b) (BGasUsed b).
Definition with_snapRoot (r : bytes) (b : Block) : Block :=
  MkBlock (Height b) (PrevHash b) (BHash b) (Transactions b) (Root b) r (BVersion b) (Timestamp b)
    (UsedTime b) (Miner b) (Difficulty b) (GlobalDifficulty b) (BNonce b) (BGasLimit b) (BGasUsed b).
Definition with_gasUsed (g : Z) (b : Block) : Block :=
  MkBlock (Height b) (PrevHash b) (BHash b) (Transactions b) (Root b) (SnapRoot b) (BVersion b) (Timestamp b)
    (UsedTime b) (Miner b) (Difficulty b) (GlobalDifficulty b) (BNonce b) (BGasLimit b) g.
Definition with_difficulties (d gd : option Z) (b : Block) : Block :=
  MkBlock (Height b) (PrevHash b) (BHash b) (Transactions b) (Root b) (SnapRoot b) (BVersion b) (Timestamp b)
    (UsedTime b) (Miner b) d gd (BNonce b) (BGasLimit b) (BGasUsed b).

Section Codec.
Context `{!CborHeader}.

(** ** Reading *)

(** A byte string whose body is read with [r.Read]. *)
Definition read_bytes : stM bytes bytes :=
  val ← expect MajByteString "expected byte array";
  makeslice val ;;
  ReadBuf val.

Definition read_uint (msg : string) : stM bytes Z := expect MajUnsignedInt msg.

(** [for i := uint64(0); i < val; i++ { ft.UnmarshalCBOR(r); append }] *)
Fixpoint read_txs (n : nat) : stM bytes (list FinishedTransaction) :=
  match n with
  | O => mret []
  | S n => ft ← FTx_UnmarshalCBOR; fts ← read_txs n; mret (ft :: fts)
  end.

Definition Block_UnmarshalCBOR : stM bytes Block :=
  height ← read_uint "wrong type for uint64 field for height";
  prevHash ← read_bytes;
  hash ← read_bytes;
  val ← read_uint "wrong type for uint64 field for transactions(len)";
  makeslice (8 * val) ;;
  txs ← read_txs (Z.to_nat val);
  root ← read_bytes;
  snapRoot ← read_bytes;
  version ← read_uint "wrong type for uint64 field for version";
  timestamp ← read_uint "wrong type for uint64 field for  Timestamp";
  usedTime ← read_uint "wrong type for uint64 field for  UsedTime";
  miner ← Address.UnmarshalCBOR;
  difficulty ← read_bytes;
  globalDifficulty ← read_bytes;
  nonce ← read_uint "wrong type for uint64 field for nonce";
  gasLimit ← read_uint "wrong type for uint64 field for gaslimit";
  gasUsed ← read_uint "wrong type for uint64 field for  gaslimit";
  mret (MkBlock height prevHash hash txs root snapRoot version timestamp usedTime miner
    (Some (big_SetBytes difficulty)) (Some (big_SetBytes globalDifficulty)) nonce gasLimit gasUsed).

(** ** Writing *)

Definition Block_MarshalCBOR (b : Block) : res bytes :=
  match Difficulty b with
  | None => err "difficulty cannot be nil"
  | Some d =>
      match GlobalDifficulty b with
      | None => err "global difficulty cannot be nil"
      | Some gd => Ok (
          uint_header (Height b) ++
          byte_string (PrevHash b) ++
          byte_string (BHash b) ++
          uint_header (Z.of_nat (length (Transactions b))) ++
          concat (FTx_MarshalCBOR <$> Transactions b) ++
          byte_string (Root b) ++
          byte_string (SnapRoot b) ++
          uint_header (BVersion b) ++
          uint_header (Timestamp b) ++
          uint_header (UsedTime b) ++
          Address.MarshalCBOR (Miner b) ++
          byte_string (big_Bytes d) ++
          byte_string (big_Bytes gd) ++
          uint_header (BNonce b) ++
          uint_header (BGasLimit b) ++
          uint_header (BGasUsed b))
      end
  end.

Definition Serialize (b : Block) : res bytes := Block_MarshalCBOR b.
Definition Deserialize (data : bytes) : res Block := (Block_UnmarshalCBOR data).1.

(** ** Hashes *)

Section Hashing.
Variable sha3_Sum256 : bytes → bytes.

(** SetHash hash the block data *)
Definition SetHash (b : Block) : res Block :=
  data ← Serialize b;
  Ok (with_hash (sha3_Sum256 data) b).

Definition clear_input (t : Transaction) : Transaction :=
  Tx (Version t) (Type_ t) (From t) (To t) (Amount t) (Nonce t) (GasLimit t) (GasFeeCap t) (GasPrice t) [].

Definition MinerHash (b : Block) : bytes :=
  let heightBytes := E64func (Height b) in
  let txs := (λ ft, STx_Serialize (STx (clear_input (ft_tx ft)) (st_sig (ft_st ft)))) <$> Transactions b in
  let txsBytes := concat txs in
  let timeBytes := E64func (Timestamp b) in
  let nonce := E64func (BNonce b) in
  let blockBytes := heightBytes ++ PrevHash b ++ txsBytes ++ timeBytes ++ nonce ++ Root b in
  sha3_Sum256 blockBytes.

Definition checkBlockHash (b : Block) : res unit :=
  let copyB := with_hash [] (with_gasUsed 0 b) in
  data ← Serialize copyB;
  if decide (sha3_Sum256 data ≠ BHash b) then err "hash not equal" else Ok tt.

End Hashing.

(** ** Round trip *)

Definition short_bytes (b : bytes) : Prop := Z.of_nat (length b) ≤ 281474976710656.

Definition block_ok (b : Block) : Prop :=
  is_u64 (Height b) ∧ short_bytes (PrevHash b) ∧ short_bytes (BHash b) ∧
  8 * Z.of_nat (length (Transactions b)) ≤ 281474976710656 ∧
  Forall enc_ok (Transactions b) ∧
  short_bytes (Root b) ∧ short_bytes (SnapRoot b) ∧
  is_u64 (BVersion b) ∧ is_u64 (Timestamp b) ∧ is_u64 (UsedTime b) ∧ enc_ok (Miner b) ∧
  is_u64 (BNonce b) ∧ is_u64 (BGasLimit b) ∧ is_u64 (BGasUsed b).

Context `{!CborHeaderLaws}.

Lemma read_bytes_run b rest : short_bytes b → read_bytes (byte_string b ++ rest) = (Ok b, rest).
Proof.
  unfold short_bytes. intros Hb. rewrite byte_string_header. unfold read_bytes.
  assert (is_u64 (Z.of_nat (length b))) as Hu by (unfold is_u64, MAXUINT64; lia).
  do 2 dec_step. apply ReadBuf_run.
Qed.

Lemma read_uint_run msg n rest : is_u64 n → read_uint msg (uint_header n ++ rest) = (Ok n, rest).
Proof. intros. by apply expect_run. Qed.

Lemma read_txs_run txs rest :
  Forall enc_ok txs → read_txs (length txs) (concat (FTx_MarshalCBOR <$> txs) ++ rest) = (Ok txs, rest).
Proof.
  intros Ht. revert rest. induction Ht as [|ft txs Hft Htxs IH]; intros rest; [done|].
  rewrite fmap_cons. cbn [concat length read_txs]. rewrite <- app_assoc.
  erewrite st_bind_eq by apply (codec_roundtrip (A := FinishedTransaction) ft _ Hft).
  by erewrite st_bind_eq by apply IH.
Qed.

(** Reading back what [Block_MarshalCBOR] writes. *)
Lemma block_decode (b : Block) (d gd : Z) (rest : bytes) :
  block_ok b → Difficulty b = Some d → GlobalDifficulty b = Some gd →
  short_bytes (big_Bytes d) → short_bytes (big_Bytes gd) →
  ∃ data, Serialize b = Ok data ∧
    Deserialize (data ++ rest) = Ok (with_difficulties (Some (Z.abs d)) (Some (Z.abs gd)) b).
Proof.
  intros (H1&H2&H3&H4&H5&H6&H7&H8&H9&H10&H11&H12&H13&H14) Hed Hegd Hd Hgd.
  unfold Serialize, Block_MarshalCBOR. rewrite Hed, Hegd. eexists. split; [done|].
  unfold Deserialize. rewrite <- !app_assoc.
  match goal with |- _.1 = Ok ?b => enough (∃ r, Block_UnmarshalCBOR _ = (Ok b, r)) as [r ->]; [done|] end.
  eexists. unfold Block_UnmarshalCBOR.
  assert (is_u64 (Z.of_nat (length (Transactions b)))) as Hu by (unfold is_u64, MAXUINT64; lia).
  assert (∀ x, big_SetBytes (big_Bytes x) = Z.abs x) as Habs.
  { intros x. rewrite <- (big_SetBytes_Bytes (Z.abs x)) by lia. unfold big_Bytes.
    by rewrite Z.abs_involutive. }
  repeat first
    [ erewrite st_bind_eq by (apply read_uint_run; done)
    | erewrite st_bind_eq by (apply read_bytes_run; done)
    | erewrite st_bind_eq by (apply makeslice_run; lia)
    | erewrite st_bind_eq by (rewrite Nat2Z.id; apply read_txs_run; done)
    | erewrite st_bind_eq by apply (codec_roundtrip (A := Address) (Miner b) _ H11) ].
  by rewrite !Habs.
Qed.

(** C39: storing a block and reading it back: a block whose fields are in range and whose
    difficulties are set serializes, and deserializing that gives back the same block,
    transactions included, except that the signs of the two difficulties are lost; a
    block with a nil difficulty is an error. *)
Theorem block_roundtrip (b : Block) (d gd : Z) :
  block_ok b → short_bytes (big_Bytes d) → short_bytes (big_Bytes gd) →
  (∃ data, Serialize (with_difficulties (Some d) (Some gd) b) = Ok data ∧
     ∀ rest, Deserialize (data ++ rest) = Ok (with_difficulties (Some (Z.abs d)) (Some (Z.abs gd)) b)) ∧
  ∀ gd', ∃ e, Serialize (with_difficulties None gd' b) = Err e ∧
    ∃ e, Serialize (with_difficulties (Some d) None b) = Err e.
Proof.
  intros Hok Hd Hgd. split; [|by repeat eexists].
  assert (block_ok (with_difficulties (Some d) (Some gd) b)) as Hok' by done.
  destruct (block_decode _ d gd [] Hok' eq_refl eq_refl Hd Hgd) as (data & Hdata & _).
  exists data. split; [done|]. intros rest.
  destruct (block_decode _ d gd rest Hok' eq_refl eq_refl Hd Hgd) as (data' & Hdata' & Hdec).
  rewrite Hdata in Hdata'. by injection Hdata' as <-.
Qed.

End Codec.

(** A block hashed by [SetHash] while its hash is empty and no gas is recorded passes
    [checkBlockHash]. *)
Lemma checkBlockHash_SetHash `{!CborHeader} (sha3 : bytes → bytes) (b b' : Block) :
  BHash b = [] → BGasUsed b = 0 → SetHash sha3 b = Ok b' → checkBlockHash sha3 b' = Ok tt.
Proof.
  intros Hh Hg Hs. unfold SetHash in Hs. apply bind_Ok in Hs as (data & Hdata & Hs). injection Hs as <-.
  unfold checkBlockHash.
  replace (with_hash [] (with_gasUsed 0 (with_hash (sha3 data) b))) with b
    by (destruct b; unfold with_hash, with_gasUsed; simpl in *; by subst).
  rewrite Hdata. cbn [mbind res_bind]. rewrite decide_False; [done|]. by intros Hn; apply Hn.
Qed.

(** A block with one transaction. *)
Definition sample_block : Block :=
  MkBlock 60350423 (replicate 32 Byte.x01) (replicate 32 Byte.x02) [sample_tx] (replicate 32 Byte.x03)
    (replicate 32 Byte.x04) 1 1600000000 12 (Addr (replicate 21 Byte.x00)) (Some 5) (Some 70000) 9 100 0.

Lemma block_roundtrip_witness :
  block_ok sample_block ∧
  ∃ data, Serialize sample_block = Ok data ∧
    ∀ rest, Deserialize (data ++ rest) = Ok sample_block.
Proof.
  assert (block_ok sample_block) as H.
  { unfold block_ok. repeat match goal with |- _ ∧ _ => split end;
      lazymatch goal with
      | |- Forall _ _ => constructor; [exact sample_tx_ok|constructor]
      | |- enc_ok _ => split; [vm_compute; lia|vm_compute; discriminate]
      | |- _ => vm_compute; first [discriminate | split; discriminate]
      end. }
  split; [exact H|].
  refine (proj1 (block_roundtrip sample_block 5 70000 H _ _)); vm_compute; discriminate.
Defined.
