(* ===== verification/Ledger.v ===== *)
(** Account balances, nonces and frozen amounts: [pkg/blockchain/state.go] and
    [pkg/blockchain/freeze.go].

    go-ethereum's [StateDB], which holds them, is the class [StateDB]; a balance is
    a big integer there and is read as an unsigned 64-bit number. *)

From S2P Require Import Prelude Misc Cbor Address Transaction.

(** ** go-ethereum's state database *)

Class StateDB (S : Type) := {
  sdb_GetBalance : bytes → S → Z;
  sdb_SetBalance : bytes → Z → S → S;
  sdb_GetNonce : bytes → S → Z;
  sdb_SetNonce : bytes → Z → S → S;
}.

Class StateDBLaws (S : Type) `{!StateDB S} := {
  balance_SetBalance a b v s :
    sdb_GetBalance a (sdb_SetBalance b v s) = if decide (a = b) then v else sdb_GetBalance a s;
  balance_SetNonce a b n s : sdb_GetBalance a (sdb_SetNonce b n s) = sdb_GetBalance a s;
  nonce_SetNonce a b n s : is_u64 n →
    sdb_GetNonce a (sdb_SetNonce b n s) = if decide (a = b) then n else sdb_GetNonce a s;
  nonce_SetBalance a b v s : sdb_GetNonce a (sdb_SetBalance b v s) = sdb_GetNonce a s;
  nonce_range a s : is_u64 (sdb_GetNonce a s);
}.

(** ** Operations *)

Section Ledger.
Context {S : Type} `{!StateDB S, !EthCommon} (g : globals).
Implicit Types (addr from to : Address) (s : S).

Definition FreezeKey : bytes := bs "freeze".

(** [caddr.SetBytes(sha1.Sum(append(prefix, caddr.Bytes()...)))] *)
Definition commonAddrToStoreAddr (caddr prefix : bytes) : bytes :=
  BytesToAddress (sha1_Sum (prefix ++ caddr)).

(** [addr.NewCommonAddr()] inside a state computation. *)
Definition common (a : Address) : stM S bytes := st_lift (NewCommonAddr g a).

(** setNonce set address nonce *)
Definition setNonce (addr : Address) (nonce : Z) : stM S unit :=
  coAddr ← common addr;
  sdbNonce ← st_gets (sdb_GetNonce coAddr);
  let sdbNonce := if decide (sdbNonce = 0) then 1 else sdbNonce in
  if decide (sdbNonce +₆₄ 1 ≠ nonce) then st_err (ErrMsg "error nonce") else
  st_modify (sdb_SetNonce coAddr nonce).

(** setBalance set address balance *)
Definition setBalance (addr : Address) (balance : Z) : stM S unit :=
  coAddr ← common addr;
  st_modify (sdb_SetBalance coAddr balance).

(** [balance.Uint64()] *)
Definition read_balance (a : bytes) : stM S Z := st_gets (λ s, u64 (Z.abs (sdb_GetBalance a s))).

(** getBalance get the balance of the address *)
Definition getBalance (address : Address) : stM S Z :=
  coAddr ← common address;
  read_balance coAddr.

(** getNonce get the nonce of the address *)
Definition getNonce (address : Address) : stM S Z :=
  coAddr ← common address;
  n ← st_gets (sdb_GetNonce coAddr);
  if decide (n = 0) then mret 1 else mret n.

(** *** Frozen amounts *)

Definition getAllFreezeBalance (address : Address) : stM S Z :=
  addr ← common address;
  read_balance (commonAddrToStoreAddr addr FreezeKey).

Definition getSingleFreezeBalance (address to : Address) : stM S Z :=
  addr ← common address;
  let fromKey := commonAddrToStoreAddr addr FreezeKey in
  read_balance (commonAddrToStoreAddr fromKey (Bytes to)).

Definition setSingleFreezeBalance (from to : Address) (freezeBal : Z) : stM S unit :=
  coFromAddr ← common from;
  let fromKey := commonAddrToStoreAddr coFromAddr FreezeKey in
  st_modify (sdb_SetBalance (commonAddrToStoreAddr fromKey (Bytes to)) freezeBal).

Definition setAllFreezeBalance (from : Address) (freezeBal : Z) : stM S unit :=
  coFromAddr ← common from;
  st_modify (sdb_SetBalance (commonAddrToStoreAddr coFromAddr FreezeKey) freezeBal).

(** getAvailableBalance get available balance *)
Definition getAvailableBalance (address : Address) : stM S Z :=
  balance ← getBalance address;
  feeBalance ← getAllFreezeBalance address;
  let aviBalance := balance -₆₄ feeBalance in
  if decide (balance < feeBalance) then st_err (ErrMsg "available balance is error") else
  if decide (MAXUINT64 -₆₄ aviBalance < feeBalance) then st_err (ErrMsg "available balance is error") else
  mret aviBalance.

(** setFreezeAccount update and unfreeze account information;
    code only has 0 or 1 *)
Definition setFreezeAccount (from to : Address) (freezeBal gasUsed : Z) (code : Z) : stM S unit :=
  singleFree ← getSingleFreezeBalance from to;
  allFree ← getAllFreezeBalance from;
  availableBal ← getAvailableBalance from;
  '(setSingFree, setAllFree) ←
    (if decide (code = 1) then
       if decide (freezeBal > availableBal +₆₄ gasUsed) then st_err (ErrMsg "freezeBal is too large") else
       if decide (MAXUINT64 -₆₄ singleFree -₆₄ gasUsed < freezeBal) then st_err (ErrMsg "freezeBal is too large") else
       if decide (MAXUINT64 -₆₄ allFree -₆₄ gasUsed < freezeBal) then st_err (ErrMsg "freezeBal is too large") else
       mret (singleFree +₆₄ freezeBal, allFree +₆₄ freezeBal)
     else
       if decide (gasUsed > availableBal) then st_err (ErrMsg "availableBal balance insufficient") else
       if decide (singleFree < freezeBal) then st_err (ErrMsg "unfreezing is too large") else
       if decide (allFree < freezeBal) then st_err (ErrMsg "unfreezing is too large") else
       mret (singleFree -₆₄ freezeBal, allFree -₆₄ freezeBal));
  ignore_err (setSingleFreezeBalance from to setSingFree) tt ;;
  ignore_err (setAllFreezeBalance from setAllFree) tt ;;
  fromBalance ← ignore_err (getBalance from) 0;
  if decide (MAXUINT64 -₆₄ gasUsed < fromBalance) then st_err (ErrMsg "freezeBal is too large") else
  st_catch (setBalance from (fromBalance -₆₄ gasUsed)) (λ _, st_err (ErrMsg "setBalance error")).

(** *** Transactions *)

(** The address an Ethereum address is bound to ([getBindingKtoAddress]), looked up in
    the database. *)
Variable binding : bytes → res Address.

(** Moving [amount] from an account with balance [fromBalance] to one with [toBalance]. *)
Definition move (payer to : Address) (fromBalance amount gasUsed : Z) : stM S unit :=
  toBalance ← getBalance to;
  if decide (fromBalance < amount +₆₄ gasUsed) then st_err (ErrMsg "not sufficient funds") else
  let fromBalance := fromBalance -₆₄ (amount +₆₄ gasUsed) in
  if decide (MAXUINT64 -₆₄ toBalance -₆₄ gasUsed < amount) then st_err (ErrMsg "amount is too large") else
  let toBalance := toBalance +₆₄ amount in
  setBalance payer fromBalance ;;
  setBalance to toBalance.

(** setAccount set the balance of the corresponding account; [defaultAmount] is the
    variadic argument, and indexing it panics when it was not passed. *)
Definition setAccount (tx : FinishedTransaction) (defaultAmount : option Z) : stM S unit :=
  let t := ft_tx tx in
  if decide (Type_ t = WithdrawToEthTransaction) then
    cmaddr ← common (From t);
    kaddr ← st_lift (binding (eth_Hex cmaddr));
    fromBalance ← getAvailableBalance kaddr;
    if decide (fromBalance < Amount t +₆₄ GasUsed tx) then st_err (ErrMsg "fromBalance insufficient") else
    move kaddr (To t) fromBalance (Amount t) (GasUsed tx)
  else
    let from := From t in
    let to := To t in
    (if decide (Type_ t ≠ PledgeTrasnaction) then
       availableBalance ← getAvailableBalance from;
       if decide (availableBalance < Amount t +₆₄ GasUsed tx)
       then st_err (ErrMsg "availableBalance insufficient") else mret tt
     else mret tt) ;;
    if bool_decide (Bytes from = Bytes to) || IsPledgeTrasnaction t || IsEvmContractTransaction t then
      fromBalance ← getBalance from;
      if decide (fromBalance < GasUsed tx) then st_err (ErrMsg "not sufficient funds") else
      if decide (MAXUINT64 -₆₄ fromBalance < GasUsed tx) then st_err (ErrMsg "gas is too large") else
      setBalance from (fromBalance -₆₄ GasUsed tx)
    else if IsPledgeBreakTransaction t then
      frBalance ← getBalance from;
      if decide (Amount t ≠ 0) then st_err (ErrMsg "Amount Expected 0") else
      match defaultAmount with
      | None => st_panic
      | Some d =>
          if decide (frBalance < d +₆₄ GasUsed tx) then st_err (ErrMsg "availableBalance insufficient") else
          setBalance from (frBalance -₆₄ d -₆₄ GasUsed tx)
      end
    else
      fromBalance ← getBalance from;
      move from to fromBalance (Amount t) (GasUsed tx).

(** setToAccount set the balance of the specified account *)
Definition setToAccount (t : Transaction) : stM S unit :=
  toBalance ← getBalance (To t);
  if decide (MAXUINT64 -₆₄ Amount t < toBalance) then st_err (ErrMsg "not sufficient funds") else
  setBalance (To t) (toBalance +₆₄ Amount t).

(** setMinerFee set the balance of the miner's account *)
Definition setMinerFee (to : Address) (gasAmount : Z) : stM S unit :=
  toBalance ← getBalance to;
  if decide (MAXUINT64 -₆₄ toBalance < gasAmount) then st_err (ErrMsg "amount is too large") else
  setBalance to (toBalance +₆₄ gasAmount).

End Ledger.

(** ** Reading and writing one account *)

Section Accounts.
Context {S : Type} `{!StateDB S, !StateDBLaws S, !EthCommon} (g : globals).
Implicit Types (a from to : Address) (c : bytes) (s : S).

(** Every balance is an unsigned 64-bit number. *)
Definition balances_ok s : Prop := ∀ c, is_u64 (sdb_GetBalance c s).

(** The account under which the total frozen amount of [c] is kept. *)
Definition frozen_acct c : bytes := commonAddrToStoreAddr c FreezeKey.

Lemma common_run a c s : NewCommonAddr g a = Ok c → common g a s = (Ok c, s).
Proof. unfold common, st_lift. by intros ->. Qed.

Lemma read_balance_run c s : balances_ok s → read_balance c s = (Ok (sdb_GetBalance c s), s).
Proof.
  intros Hok. unfold read_balance, st_gets. specialize (Hok c). unfold is_u64 in Hok.
  rewrite Z.abs_eq by lia. by rewrite u64_small.
Qed.

Lemma getBalance_run a c s :
  balances_ok s → NewCommonAddr g a = Ok c → getBalance g a s = (Ok (sdb_GetBalance c s), s).
Proof.
  intros Hok Hc. unfold getBalance. erewrite st_bind_eq by by apply common_run. by apply read_balance_run.
Qed.

Lemma getAllFreezeBalance_run a c s :
  balances_ok s → NewCommonAddr g a = Ok c →
  getAllFreezeBalance g a s = (Ok (sdb_GetBalance (frozen_acct c) s), s).
Proof.
  intros Hok Hc. unfold getAllFreezeBalance. erewrite st_bind_eq by by apply common_run.
  by apply read_balance_run.
Qed.

Lemma getSingleFreezeBalance_run a to c s :
  balances_ok s → NewCommonAddr g a = Ok c →
  getSingleFreezeBalance g a to s =
    (Ok (sdb_GetBalance (commonAddrToStoreAddr (frozen_acct c) (Bytes to)) s), s).
Proof.
  intros Hok Hc. unfold getSingleFreezeBalance. erewrite st_bind_eq by by apply common_run.
  by apply read_balance_run.
Qed.

Lemma getAvailableBalance_run a c s :
  balances_ok s → NewCommonAddr g a = Ok c →
  getAvailableBalance g a s =
    (if decide (sdb_GetBalance (frozen_acct c) s ≤ sdb_GetBalance c s)
     then Ok (sdb_GetBalance c s - sdb_GetBalance (frozen_acct c) s)
     else Err (ErrMsg "available balance is error"), s).
Proof.
  intros Hok Hc. pose proof (Hok c) as H1. pose proof (Hok (frozen_acct c)) as H2.
  unfold is_u64 in *. unfold getAvailableBalance.
  erewrite st_bind_eq by by apply getBalance_run.
  erewrite st_bind_eq by by apply getAllFreezeBalance_run. cbn zeta.
  destruct (decide (sdb_GetBalance c s < sdb_GetBalance (frozen_acct c) s)).
  - by rewrite decide_False by lia.
  - rewrite (sub64_small (sdb_GetBalance c s)) by lia. rewrite sub64_small by lia.
    by rewrite decide_False, decide_True by lia.
Qed.

Lemma setBalance_run a c v s :
  NewCommonAddr g a = Ok c → setBalance g a v s = (Ok tt, sdb_SetBalance c v s).
Proof. intros Hc. unfold setBalance. by erewrite st_bind_eq by by apply common_run. Qed.

Lemma balances_ok_set c v s : balances_ok s → is_u64 v → balances_ok (sdb_SetBalance c v s).
Proof. intros Hok Hv c'. rewrite balance_SetBalance. by case_decide. Qed.

(** ** Crediting *)

Lemma setMinerFee_run a c gas s :
  balances_ok s → is_u64 gas → NewCommonAddr g a = Ok c →
  setMinerFee g a gas s =
    if decide (sdb_GetBalance c s + gas ≤ MAXUINT64)
    then (Ok tt, sdb_SetBalance c (sdb_GetBalance c s + gas) s)
    else (Err (ErrMsg "amount is too large"), s).
Proof.
  intros Hok Hg Hc. pose proof (Hok c) as H1. unfold is_u64 in *. unfold setMinerFee.
  erewrite st_bind_eq by by apply getBalance_run. rewrite sub64_small by lia.
  repeat case_decide; try lia; [done|]. rewrite add64_small by lia. by apply setBalance_run.
Qed.

Lemma setToAccount_run t c s :
  balances_ok s → is_u64 (Amount t) → NewCommonAddr g (To t) = Ok c →
  setToAccount g t s =
    if decide (sdb_GetBalance c s + Amount t ≤ MAXUINT64)
    then (Ok tt, sdb_SetBalance c (sdb_GetBalance c s + Amount t) s)
    else (Err (ErrMsg "not sufficient funds"), s).
Proof.
  intros Hok Hg Hc. pose proof (Hok c) as H1. unfold is_u64 in *. unfold setToAccount.
  erewrite st_bind_eq by by apply getBalance_run. rewrite sub64_small by lia.
  repeat case_decide; try lia; [done|]. rewrite add64_small by lia. by apply setBalance_run.
Qed.

(** ** Moving *)

Lemma move_run payer to cf ct fromBalance amount gas s :
  balances_ok s → is_u64 fromBalance → is_u64 amount → is_u64 gas →
  NewCommonAddr g payer = Ok cf → NewCommonAddr g to = Ok ct →
  sdb_GetBalance ct s + gas ≤ MAXUINT64 →
  (amount + gas ≤ fromBalance → sdb_GetBalance ct s + gas + amount ≤ MAXUINT64 →
   move g payer to fromBalance amount gas s =
     (Ok tt, sdb_SetBalance ct (sdb_GetBalance ct s + amount)
               (sdb_SetBalance cf (fromBalance - amount - gas) s))) ∧
  (¬ (amount + gas ≤ fromBalance ∧ sdb_GetBalance ct s + gas + amount ≤ MAXUINT64) →
   ∃ e, move g payer to fromBalance amount gas s = (Err e, s)).
Proof.
  intros Hok Hf Ha Hg Hcf Hct Hroom. pose proof (Hok ct) as H1. unfold is_u64 in *.
  unfold move. erewrite st_bind_eq by by apply getBalance_run. cbn zeta.
  rewrite (sub64_small _ (sdb_GetBalance ct s)), (sub64_small _ gas) by lia. split.
  - intros Hle Hmax. rewrite (add64_small amount gas) by lia.
    rewrite decide_False, decide_False, sub64_small, add64_small by lia.
    erewrite st_bind_eq by by apply setBalance_run.
    replace (fromBalance - (amount + gas)) with (fromBalance - amount - gas) by lia.
    by apply setBalance_run.
  - intros Hno. case_decide as H2; [by eexists|].
    case_decide as H3; [by eexists|].
    exfalso. rewrite add64_small in H2 by lia. lia.
Qed.

(** ** Properties *)

(** The transaction types that [setAccount] treats as transfers. *)
Definition is_move (t : Transaction) : Prop :=
  Type_ t ∉ [WithdrawToEthTransaction; PledgeTrasnaction; EvmContractTransaction; PledgeBreakTransaction].

(** Moving money, when it is covered and when it is not. *)
Lemma setAccount_move (binding : bytes → res Address) (tx : FinishedTransaction) (d : option Z)
    (cf ct : bytes) (s : S) :
  let t := ft_tx tx in
  balances_ok s → is_u64 (Amount t) → is_u64 (GasUsed tx) → is_move t →
  NewCommonAddr g (From t) = Ok cf → NewCommonAddr g (To t) = Ok ct → cf ≠ ct →
  sdb_GetBalance ct s + GasUsed tx ≤ MAXUINT64 →
  let covered :=
    Amount t + GasUsed tx + sdb_GetBalance (frozen_acct cf) s ≤ sdb_GetBalance cf s ∧
    sdb_GetBalance ct s + GasUsed tx + Amount t ≤ MAXUINT64 in
  (covered →
   setAccount g binding tx d s =
     (Ok tt, sdb_SetBalance ct (sdb_GetBalance ct s + Amount t)
               (sdb_SetBalance cf (sdb_GetBalance cf s - Amount t - GasUsed tx) s))) ∧
  (¬ covered → ∃ e, setAccount g binding tx d s = (Err e, s)).
Proof.
  intros t Hok Ha Hg Hty Hcf Hct Hne Hroom covered.
  pose proof (Hok cf) as Hbf. pose proof (Hok (frozen_acct cf)) as Hff. unfold is_u64 in *.
  assert (Type_ t ≠ WithdrawToEthTransaction ∧ Type_ t ≠ PledgeTrasnaction ∧
    Type_ t ≠ EvmContractTransaction ∧ Type_ t ≠ PledgeBreakTransaction) as (Hw & Hp & He & Hpb)
    by (unfold is_move in Hty; set_solver).
  destruct (move_run (From t) (To t) cf ct (sdb_GetBalance cf s) (Amount t) (GasUsed tx) s)
    as [Hmove Hfail]; [done..|].
  assert (bool_decide (Bytes (From t) = Bytes (To t)) || IsPledgeTrasnaction t || IsEvmContractTransaction t = false)
    as Hbr.
  { unfold IsPledgeTrasnaction, IsEvmContractTransaction.
    rewrite !bool_decide_eq_false_2; [done|done|done|].
    intros Heq. apply Hne. assert (From t = To t) as Heq' by (destruct (From t), (To t); by f_equal).
    congruence. }
  assert (IsPledgeBreakTransaction t = false) as Hpb' by by apply bool_decide_eq_false_2.
  unfold setAccount. fold t. cbn zeta. rewrite Hbr, Hpb'.
  rewrite decide_False by done. rewrite (decide_True (P := Type_ t ≠ PledgeTrasnaction)) by done.
  assert (getAvailableBalance g (From t) s =
    (if decide (sdb_GetBalance (frozen_acct cf) s ≤ sdb_GetBalance cf s)
     then Ok (sdb_GetBalance cf s - sdb_GetBalance (frozen_acct cf) s)
     else Err (ErrMsg "available balance is error"), s)) as Hav by by apply getAvailableBalance_run.
  split.
  - intros [Hc1 Hc2]. rewrite decide_True in Hav by lia.
    erewrite st_bind_eq; [|erewrite st_bind_eq by exact Hav; rewrite add64_small by lia;
      rewrite decide_False by lia; done].
    erewrite st_bind_eq by by apply getBalance_run. apply Hmove; lia.
  - intros Hno. case_decide as Hfz.
    + destruct (decide (sdb_GetBalance cf s - sdb_GetBalance (frozen_acct cf) s < Amount t +₆₄ GasUsed tx)) as [Hlt|Hge].
      * eexists. erewrite st_bind_err; [done|]. erewrite st_bind_eq by exact Hav. by rewrite decide_True.
      * destruct Hfail as [e Hfail].
        { intros [H1 H2]. rewrite add64_small in Hge by lia. apply Hno. split; lia. }
        exists e. erewrite st_bind_eq; [|erewrite st_bind_eq by exact Hav; by rewrite decide_False].
        erewrite st_bind_eq by by apply getBalance_run. exact Hfail.
    + eexists. erewrite st_bind_err; [done|]. by erewrite st_bind_err by exact Hav.
Qed.

(** C4: [setAccount] on a transaction of a type that only moves money ([is_move]: not a
    withdrawal, for which see [withdraw_effect], a pledge, the break of a pledge or a contract
    call) between two different accounts, on every branch.  It succeeds exactly when the sender's balance covers the amount, the gas and what is
    frozen, and the receiver does not overflow; then the sender loses exactly the amount
    and the gas, the receiver gains exactly the amount, and nothing else changes.
    Otherwise it is an error and changes nothing.  The receiver's balance plus the gas
    must fit 64 bits, or the code's own overflow check wraps around. *)
Theorem transfer_exact (binding : bytes → res Address) (tx : FinishedTransaction) (d : option Z)
    (cf ct : bytes) (s : S) :
  let t := ft_tx tx in
  balances_ok s → is_u64 (Amount t) → is_u64 (GasUsed tx) → is_move t →
  NewCommonAddr g (From t) = Ok cf → NewCommonAddr g (To t) = Ok ct → cf ≠ ct →
  sdb_GetBalance ct s + GasUsed tx ≤ MAXUINT64 →
  let covered :=
    Amount t + GasUsed tx + sdb_GetBalance (frozen_acct cf) s ≤ sdb_GetBalance cf s ∧
    sdb_GetBalance ct s + GasUsed tx + Amount t ≤ MAXUINT64 in
  (covered →
   setAccount g binding tx d s =
     (Ok tt, sdb_SetBalance ct (sdb_GetBalance ct s + Amount t)
               (sdb_SetBalance cf (sdb_GetBalance cf s - Amount t - GasUsed tx) s))) ∧
  (¬ covered → ∃ e, setAccount g binding tx d s = (Err e, s)).
Proof. apply setAccount_move. Qed.

(** ** Frozen amounts *)

(** The account under which the amount frozen for the notary [to] is kept. *)
Definition single_acct c to : bytes := commonAddrToStoreAddr (frozen_acct c) (Bytes to).

Lemma setSingle_run a to c v s :
  NewCommonAddr g a = Ok c →
  setSingleFreezeBalance g a to v s = (Ok tt, sdb_SetBalance (single_acct c to) v s).
Proof. intros Hc. unfold setSingleFreezeBalance. by erewrite st_bind_eq by by apply common_run. Qed.

Lemma setAll_run a c v s :
  NewCommonAddr g a = Ok c → setAllFreezeBalance g a v s = (Ok tt, sdb_SetBalance (frozen_acct c) v s).
Proof. intros Hc. unfold setAllFreezeBalance. by erewrite st_bind_eq by by apply common_run. Qed.

(** The accounts a freeze writes are not the account itself (no SHA-1 collision). *)
Definition freeze_separate c to : Prop := frozen_acct c ≠ c ∧ single_acct c to ≠ c.

Definition frozen_state c to (bal single all : Z) s : S :=
  sdb_SetBalance c bal (sdb_SetBalance (frozen_acct c) all (sdb_SetBalance (single_acct c to) single s)).

(** The writes at the end of [setFreezeAccount]. *)
Lemma freeze_writes a to c single all gas s :
  balances_ok s → is_u64 single → is_u64 all → is_u64 gas → NewCommonAddr g a = Ok c →
  freeze_separate c to → sdb_GetBalance c s + gas ≤ MAXUINT64 →
  (ignore_err (setSingleFreezeBalance g a to single) tt ;;
   ignore_err (setAllFreezeBalance g a all) tt ;;
   fromBalance ← ignore_err (getBalance g a) 0;
   if decide (MAXUINT64 -₆₄ gas < fromBalance) then st_err (ErrMsg "freezeBal is too large") else
   st_catch (setBalance g a (fromBalance -₆₄ gas)) (λ _, st_err (ErrMsg "setBalance error"))) s =
  (Ok tt, frozen_state c to (sdb_GetBalance c s -₆₄ gas) single all s).
Proof.
  intros Hok Hs Hall Hg Hc [H1 H2] Hmax. pose proof (Hok c) as Hb. unfold is_u64 in Hb, Hg.
  erewrite st_bind_eq by (eapply ignore_err_run; by apply setSingle_run).
  erewrite st_bind_eq by (eapply ignore_err_run; by apply setAll_run).
  erewrite st_bind_eq.
  2:{ apply ignore_err_run, (getBalance_run a c); [|done]. by repeat apply balances_ok_set. }
  rewrite !balance_SetBalance, (decide_False (P := c = frozen_acct c)),
    (decide_False (P := c = single_acct c to)) by by apply not_eq_sym.
  rewrite (sub64_small MAXUINT64) by lia. rewrite decide_False by lia.
  unfold st_catch. by erewrite setBalance_run.
Qed.

(** Locking and unlocking an amount, with the transaction's gas.  Unlocking needs the
    amount to be locked for that notary and the gas to be available, and then takes
    exactly the amount off both locked totals and the gas off the balance.  Locking is
    accepted when the amount is at most the available balance PLUS the gas, adds exactly
    the amount to both locked totals, and subtracts the gas from the balance without
    checking that the balance covers it: an account with less than the gas ends with a
    balance that wrapped around to nearly 2^64. *)
Theorem freeze_effect (from to : Address) (c : bytes) (amount gas : Z) (s : S) :
  let bal := sdb_GetBalance c s in
  let all := sdb_GetBalance (frozen_acct c) s in
  let single := sdb_GetBalance (single_acct c to) s in
  balances_ok s → is_u64 amount → is_u64 gas → NewCommonAddr g from = Ok c → freeze_separate c to →
  single ≤ all ≤ bal → bal + gas ≤ MAXUINT64 →
  (amount ≤ single → gas ≤ bal - all →
   setFreezeAccount g from to amount gas 0 s =
     (Ok tt, frozen_state c to (bal - gas) (single - amount) (all - amount) s)) ∧
  (¬ (amount ≤ single ∧ gas ≤ bal - all) → ∃ e, setFreezeAccount g from to amount gas 0 s = (Err e, s)) ∧
  (amount ≤ bal - all + gas → all + gas + amount ≤ MAXUINT64 →
   setFreezeAccount g from to amount gas 1 s =
     (Ok tt, frozen_state c to (if decide (gas ≤ bal) then bal - gas else 2 ^ 64 + bal - gas)
               (single + amount) (all + amount) s)).
Proof.
  intros bal all single Hok Ha Hg Hc Hsep Hle Hmax.
  pose proof (Hok c) as Hb. pose proof (Hok (frozen_acct c)) as Hfb.
  pose proof (Hok (single_acct c to)) as Hsb. fold bal in Hb. fold all in Hfb. fold single in Hsb.
  unfold is_u64 in *.
  assert (getSingleFreezeBalance g from to s = (Ok single, s)) as R1 by by apply getSingleFreezeBalance_run.
  assert (getAllFreezeBalance g from s = (Ok all, s)) as R2 by by apply getAllFreezeBalance_run.
  assert (getAvailableBalance g from s = (Ok (bal - all), s)) as R3.
  { erewrite getAvailableBalance_run by done. by rewrite decide_True by lia. }
  pose proof (λ sg al H H', freeze_writes from to c sg al gas s Hok H H' Hg Hc Hsep Hmax) as W.
  unfold setFreezeAccount.
  do 3 (split || idtac); intros;
    (erewrite st_bind_eq by exact R1); (erewrite st_bind_eq by exact R2); (erewrite st_bind_eq by exact R3).
  - rewrite (decide_False (P := 0 = 1)) by done. cbn zeta.
    erewrite st_bind_eq by (rewrite decide_False, decide_False, decide_False by lia; done). cbn beta iota.
    etrans; [apply W; rewrite sub64_small; unfold is_u64; lia|]. fold bal. by rewrite !sub64_small by lia.
  - rewrite (decide_False (P := 0 = 1)) by done. cbn zeta.
    destruct (decide (gas > bal - all)); [eexists; by erewrite st_bind_err by done|].
    destruct (decide (single < amount)); [eexists; by erewrite st_bind_err by done|lia].
  - rewrite (decide_True (P := 1 = 1)) by done. cbn zeta.
    erewrite st_bind_eq by (rewrite add64_small by lia; rewrite !(sub64_small MAXUINT64) by lia;
      rewrite !sub64_small by lia;
      rewrite decide_False, decide_False, decide_False by lia; done). cbn beta iota.
    etrans; [apply W; rewrite add64_small; unfold is_u64; lia|]. fold bal. rewrite !add64_small by lia.
    do 2 f_equal. unfold sub64, u64, MAXUINT64 in *. case_decide.
    + by rewrite Z.mod_small by lia.
    + rewrite <- (Z.mod_add _ 1), Z.mod_small by lia. lia.
Qed.

(** ** Nonces *)

(** The nonce the next transaction of the account must have. *)
Definition next_nonce c s : Z := if decide (sdb_GetNonce c s = 0) then 1 else sdb_GetNonce c s.

Lemma setNonce_run a c n s :
  NewCommonAddr g a = Ok c →
  setNonce g a n s =
    if decide (next_nonce c s +₆₄ 1 = n) then (Ok tt, sdb_SetNonce c n s) else (Err (ErrMsg "error nonce"), s).
Proof.
  intros Hc. unfold setNonce. erewrite st_bind_eq by by apply common_run.
  erewrite st_bind_eq by reflexivity. cbn zeta. fold (next_nonce c s).
  repeat case_decide; done.
Qed.

(** The block step of a transaction with nonce [n], which sets the nonce to [n + 1], succeeds
    exactly when [n] is the account's next nonce, is an error without effect otherwise, and
    makes [n + 1] the next nonce, so that the same transaction is refused right after it; it
    touches no balance and no other account. *)
Lemma setNonce_spec (a : Address) (c : bytes) (n : Z) (s : S) :
  NewCommonAddr g a = Ok c → 0 ≤ n < MAXUINT64 → next_nonce c s < MAXUINT64 →
  (n ≠ next_nonce c s → ∃ e, setNonce g a (n +₆₄ 1) s = (Err e, s)) ∧
  (n = next_nonce c s → ∃ s', setNonce g a (n +₆₄ 1) s = (Ok tt, s') ∧
     next_nonce c s' = n + 1 ∧ (∃ e, setNonce g a (n +₆₄ 1) s' = (Err e, s')) ∧
     (∀ d, sdb_GetBalance d s' = sdb_GetBalance d s) ∧ (∀ d, d ≠ c → next_nonce d s' = next_nonce d s)).
Proof.
  intros Hc Hn Hm. pose proof (nonce_range c s) as Hr. unfold is_u64 in Hr.
  assert (0 < next_nonce c s) as Hpos by (unfold next_nonce; case_decide; lia).
  rewrite (setNonce_run a c) by done. rewrite !add64_small by lia. split.
  - intros Hne. rewrite decide_False by lia. by eexists.
  - intros ->. rewrite decide_True by done. set (s' := sdb_SetNonce c (next_nonce c s + 1) s).
    assert (is_u64 (next_nonce c s + 1)) as Hu by (unfold is_u64; lia).
    assert (next_nonce c s' = next_nonce c s + 1) as Hnext.
    { assert (sdb_GetNonce c s' = next_nonce c s + 1) as He
        by (unfold s'; rewrite nonce_SetNonce by done; by rewrite decide_True).
      unfold next_nonce at 1. by rewrite He, decide_False by lia. }
    exists s'. split_and!; [done|done| | |].
    + rewrite (setNonce_run a c) by done. rewrite Hnext.
      rewrite decide_False; [by eexists|]. unfold_words. intros He.
      Z.to_euclidean_division_equations; lia.
    + intros d. apply balance_SetNonce.
    + intros d Hd. assert (sdb_GetNonce d s' = sdb_GetNonce d s) as He
        by (unfold s'; rewrite nonce_SetNonce by done; by rewrite decide_False).
      unfold next_nonce. by rewrite He.
Qed.

(** ** Withdrawals *)

(** A withdrawal pays from the account bound to the sender's Ethereum address, and sets
    that account's balance to what is AVAILABLE less the amount and the gas: the part of
    the balance that is frozen is lost. *)
Theorem withdraw_effect (binding : bytes → res Address) (tx : FinishedTransaction) (d : option Z)
    (kaddr : Address) (cf ck ct : bytes) (s : S) :
  let t := ft_tx tx in
  let frozen := sdb_GetBalance (frozen_acct ck) s in
  balances_ok s → is_u64 (Amount t) → is_u64 (GasUsed tx) → Type_ t = WithdrawToEthTransaction →
  NewCommonAddr g (From t) = Ok cf → binding (eth_Hex cf) = Ok kaddr →
  NewCommonAddr g kaddr = Ok ck → NewCommonAddr g (To t) = Ok ct → ck ≠ ct →
  Amount t + GasUsed tx + frozen ≤ sdb_GetBalance ck s →
  sdb_GetBalance ct s + GasUsed tx + Amount t ≤ MAXUINT64 →
  ∃ s', setAccount g binding tx d s = (Ok tt, s') ∧
    sdb_GetBalance ck s' = sdb_GetBalance ck s - frozen - Amount t - GasUsed tx ∧
    sdb_GetBalance ct s' = sdb_GetBalance ct s + Amount t ∧
    ∀ c, c ≠ ck → c ≠ ct → sdb_GetBalance c s' = sdb_GetBalance c s.
Proof.
  intros t frozen Hok Ha Hg Hty Hcf Hb Hck Hct Hne Hcov Hmax.
  pose proof (Hok ck) as H1. pose proof (Hok (frozen_acct ck)) as H2. fold frozen in H2.
  unfold is_u64 in *.
  destruct (move_run kaddr (To t) ck ct (sdb_GetBalance ck s - frozen) (Amount t) (GasUsed tx) s)
    as [Hmove _]; [done|unfold is_u64; lia|done..|lia|].
  specialize (Hmove ltac:(lia) ltac:(lia)).
  eexists. split_and!.
  - unfold setAccount. fold t. cbn zeta. rewrite decide_True by done.
    erewrite st_bind_eq by by apply common_run. rewrite Hb.
    erewrite st_bind_eq by done.
    erewrite st_bind_eq.
    2:{ erewrite getAvailableBalance_run by done. by rewrite decide_True by (fold frozen; lia). }
    fold frozen. rewrite add64_small, decide_False by lia. exact Hmove.
  - rewrite !balance_SetBalance, decide_False, decide_True by done. lia.
  - by rewrite !balance_SetBalance, decide_True by done.
  - intros c H3 H4. by rewrite !balance_SetBalance, !decide_False by done.
Qed.

End Accounts.

(** ** A concrete state database *)

Module MapState.

Record state := State { bals : gmap bytes Z; nonces : gmap bytes Z }.

#[global] Instance sdb : StateDB state := {
  sdb_GetBalance a s := default 0 (bals s !! a);
  sdb_SetBalance a v s := State (<[a:=v]> (bals s)) (nonces s);
  sdb_GetNonce a s := u64 (default 0 (nonces s !! a));
  sdb_SetNonce a n s := State (bals s) (<[a:=n]> (nonces s));
}.

#[global] Program Instance sdb_laws : StateDBLaws state.
Next Obligation.
  intros a b v s. simpl. case_decide; subst; [by rewrite lookup_insert_eq|by rewrite lookup_insert_ne].
Qed.
Next Obligation. done. Qed.
Next Obligation.
  intros a b n s Hn. simpl. case_decide; subst; [|by rewrite lookup_insert_ne].
  rewrite lookup_insert_eq. simpl. by apply u64_small.
Qed.
Next Obligation. done. Qed.
Next Obligation. intros. apply u64_range. Qed.

Lemma balances_ok_map s : map_Forall (λ _ v, is_u64 v) (bals s) → balances_ok s.
Proof.
  intros Hall c. simpl. destruct (bals s !! c) as [v|] eqn:E; [by apply (Hall c)|].
  simpl. unfold is_u64, MAXUINT64. lia.
Qed.

End MapState.

(** ** Witnesses *)

Module Sample.
Import MapState.

Definition g : globals := init_globals.
(** Two secp256k1 accounts and their go-ethereum addresses. *)
Definition ca : bytes := replicate 20 Byte.x01.
Definition cb : bytes := replicate 20 Byte.x02.
Definition alice : Address := Addr (TypeSecp256k1 :: ca).
Definition bob : Address := Addr (TypeSecp256k1 :: cb).

Definition s0 : state := State {[ ca := 5000000; cb := 7 ]} ∅.

Definition tx_of (type : TransactionType) (amount : Z) : FinishedTransaction :=
  FTx (STx (Tx 1 type alice bob amount 1 21000 0 100 []) (Sig TypeSecp256k1 [])) 2100000 1.

Lemma alice_ca : NewCommonAddr g alice = Ok ca.
Proof. vm_compute. reflexivity. Qed.
Lemma bob_cb : NewCommonAddr g bob = Ok cb.
Proof. vm_compute. reflexivity. Qed.
Lemma ca_cb : ca ≠ cb.
Proof. discriminate. Qed.
Lemma s0_ok : balances_ok s0.
Proof.
  apply balances_ok_map. apply (bool_decide_unpack _). vm_compute. exact I.
Qed.

End Sample.

Lemma transfer_exact_witness :
  balances_ok Sample.s0 ∧
  ∃ s', setAccount Sample.g (λ _, err "unbound") (Sample.tx_of TransferTransaction 300) None Sample.s0 = (Ok tt, s') ∧
    sdb_GetBalance Sample.ca s' = 2899700 ∧ sdb_GetBalance Sample.cb s' = 307.
Proof.
  split; [exact Sample.s0_ok|]. eexists. split.
  - refine (proj1 (transfer_exact Sample.g (λ _, err "unbound") (Sample.tx_of TransferTransaction 300) None
      Sample.ca Sample.cb Sample.s0 Sample.s0_ok _ _ _ Sample.alice_ca Sample.bob_cb Sample.ca_cb _) _);
      [vm_compute; split; discriminate..| | |].
    + apply (bool_decide_unpack _). vm_compute. exact I.
    + vm_compute. discriminate.
    + vm_compute. split; discriminate.
  - vm_compute. split; reflexivity.
Defined.

Lemma freeze_effect_witness :
  freeze_separate Sample.ca Sample.bob ∧
  ∃ s', setFreezeAccount Sample.g Sample.alice Sample.bob 1000 6000000 1 Sample.s0 = (Ok tt, s') ∧
    sdb_GetBalance Sample.ca s' = 2 ^ 64 - 1000000.
Proof.
  assert (freeze_separate Sample.ca Sample.bob) as Hsep by (split; vm_compute; discriminate).
  split; [exact Hsep|]. eexists. split.
  - refine (proj2 (proj2 (freeze_effect Sample.g Sample.alice Sample.bob Sample.ca 1000 6000000 Sample.s0
      Sample.s0_ok _ _ Sample.alice_ca Hsep _ _)) _ _); vm_compute; repeat split; discriminate.
  - vm_compute. reflexivity.
Defined.

Lemma withdraw_effect_witness :
  ∃ s', setAccount Sample.g (λ _, Ok Sample.alice) (Sample.tx_of WithdrawToEthTransaction 300) None Sample.s0 = (Ok tt, s') ∧
    sdb_GetBalance Sample.ca s' = 5000000 - sdb_GetBalance (frozen_acct Sample.ca) Sample.s0 - 300 - 2100000.
Proof.
  destruct (withdraw_effect Sample.g (λ _, Ok Sample.alice) (Sample.tx_of WithdrawToEthTransaction 300) None
    Sample.alice Sample.ca Sample.ca Sample.cb Sample.s0) as (s' & H1 & H2 & _).
  - exact Sample.s0_ok.
  - vm_compute. split; discriminate.
  - vm_compute. split; discriminate.
  - reflexivity.
  - exact Sample.alice_ca.
  - reflexivity.
  - exact Sample.alice_ca.
  - exact Sample.bob_cb.
  - exact Sample.ca_cb.
  - vm_compute. discriminate.
  - vm_compute. discriminate.
  - exists s'. split; [exact H1|exact H2].
Defined.
