(* ===== verification/Difficulty.v ===== *)
(** Targets and difficulty: [pkg/util/difficulty/difficulty.go], and the copies of
    [CompactToBig] and [BigToCompact] in [pkg/blockchain/blockchain.go].

    The floating-point numbers of [math/big] that [NextMinerDifficulty] computes with
    are modelled with their precision and rounding (to nearest, ties to even). *)

From S2P Require Import Prelude Base58.

(** ** The compact form of a target *)

(** [uint32] operands: [&], [<<], [>>] and [|] are the bit operations of [Z]. *)
Definition CompactToBig (compact : Z) : Z :=
  let mantissa := Z.land compact 0x007fffff in
  let isNegative := bool_decide (Z.land compact 0x00800000 ≠ 0) in
  let exponent := Z.shiftr compact 24 in
  let bn :=
    if decide (exponent <= 3) then Z.shiftr mantissa (8 * (3 - exponent))
    else Z.shiftl mantissa (8 * (exponent - 3)) in
  if isNegative then - bn else bn.

(** [None] is a nil pointer.  [n.Bits()] holds the absolute value, and [Rsh] rounds
    towards minus infinity. *)
Definition BigToCompact (n : option Z) : res Z :=
  match n with
  | None => Panic
  | Some n => Ok (
      if decide (n = 0) then 0 else
      let exponent := Z.of_nat (nbytes (Z.abs n)) in
      let mantissa :=
        if decide (exponent <= 3) then u32 (Z.shiftl (u32 (Z.abs n)) (8 * (3 - exponent)))
        else u32 (Z.abs (Z.shiftr n (8 * (exponent - 3)))) in
      let '(mantissa, exponent) :=
        if decide (Z.land mantissa 0x00800000 ≠ 0) then (Z.shiftr mantissa 8, exponent + 1)
        else (mantissa, exponent) in
      let compact := Z.lor (u32 (Z.shiftl exponent 24)) mantissa in
      if decide (n < 0) then Z.lor compact 0x00800000 else compact)
  end.

Definition powLimit : Z := Z.shiftl 1 255 - 1.
Definition Cycle : Z := 10.

(** [int64] products of constants do not wrap; [big.Int.Div] by a positive number is [/]. *)
Definition CalcNextGlobalRequiredDifficulty (t0 t1 : Z) (globalBits : Z) : res Z :=
  let actualTimespan := i64 (t1 - t0) in
  let adjustedTimespan := actualTimespan in
  let oldTarget := CompactToBig globalBits in
  let newTarget := oldTarget * adjustedTimespan in
  let targetTimeSpan := Cycle in
  let newTarget := newTarget / (targetTimeSpan * 10) in
  let newTarget := if decide (newTarget > powLimit) then powLimit else newTarget in
  BigToCompact (Some newTarget).

(** The loop swaps [buf[i]] and [buf[blen-1-i]] for [i < blen/2]. *)
Definition HashToBig (buf : bytes) : Z := big_SetBytes (rev buf).

(** ** [big.Float] *)

(** The finite number [fmant * 2^fexp]. *)
Record Float := MkFloat { fmant : Z; fexp : Z }.

(** Rounding [num / den * 2^e] to [prec] bits, to nearest, ties to even; [den > 0]. *)
Definition fround (prec : Z) (num den e : Z) : Float :=
  if decide (num = 0) then MkFloat 0 0 else
  let n := Z.abs num in
  (* a scale at which the quotient has [prec] or [prec + 1] bits *)
  let s := Z.log2 n - Z.log2 den - prec in
  let q := Z.shiftl n (- Z.min s 0) / (den * 2 ^ Z.max s 0) in
  let s := if decide (q < 2 ^ prec) then s else s + 1 in
  let nn := Z.shiftl n (- Z.min s 0) in
  let dd := den * 2 ^ Z.max s 0 in
  let q := nn / dd in
  let r := nn - q * dd in
  let q := match Z.compare (2 * r) dd with
           | Lt => q
           | Gt => q + 1
           | Eq => if Z.even q then q else q + 1
           end in
  MkFloat (Z.sgn num * q) (e + s).

(** [z.SetUint64(x)] and [NewFloat(c)] keep these numbers exactly. *)
Definition f_of_Z (z : Z) : Float := MkFloat z 0.
Definition f_mul (prec : Z) (a b : Float) : Float :=
  fround prec (fmant a * fmant b) 1 (fexp a + fexp b).
Definition f_add (prec : Z) (a b : Float) : Float :=
  let e := Z.min (fexp a) (fexp b) in
  fround prec (Z.shiftl (fmant a) (fexp a - e) + Z.shiftl (fmant b) (fexp b - e)) 1 e.
Definition f_quo (prec : Z) (a b : Float) : Float :=
  fround prec (Z.sgn (fmant b) * fmant a) (Z.abs (fmant b)) (fexp a - fexp b).
(** [Int] truncates towards zero. *)
Definition f_int (a : Float) : Z :=
  if decide (0 <= fexp a) then Z.shiftl (fmant a) (fexp a)
  else Z.quot (fmant a) (2 ^ (- fexp a)).

(** [new(big.Float).SetUint64] has 64 bits, and [a] keeps them; [big.NewFloat(0)] has 53,
    and [SetInt] rounds to them.  A zero [basePledge] makes the quotient [0/0], on which
    [Quo] panics. *)
Definition NextMinerDifficulty (baseDifficulty : Z) (minerPledge basePledge : Z) : res Z :=
  let minerPledge := if decide (minerPledge > basePledge) then basePledge else minerPledge in
  if decide (basePledge = 0) then Panic else
  let a := f_quo 64 (f_of_Z minerPledge) (f_of_Z basePledge) in
  let fbase := fround 53 baseDifficulty 1 0 in
  let a := f_mul 64 (f_mul 64 a (f_of_Z 9)) fbase in
  let minerTarget := f_int (f_add 64 a fbase) in
  if decide (baseDifficulty > minerTarget) then err "miners too difficult"
  else if decide (baseDifficulty * 10 < minerTarget) then err "miners too little difficulty"
  else Ok minerTarget.

(** ** The repository's own test values *)

Module Tests.

Example rate_0 : NextMinerDifficulty 10000 0 10 = Ok 10000.
Proof. reflexivity. Qed.
Example rate_1_10 : NextMinerDifficulty 10000 1 10 = Ok 19000.
Proof. vm_compute. reflexivity. Qed.
Example rate_10 : NextMinerDifficulty 10000 10 10 = Ok 100000.
Proof. reflexivity. Qed.
Example rate_1_10000 : NextMinerDifficulty 10000 1 10000 = Ok 10009.
Proof. vm_compute. reflexivity. Qed.
Example rate_over : NextMinerDifficulty 10000 1000 10 = Ok 100000.
Proof. reflexivity. Qed.
Example compact_ten :
  ∃ num, NextMinerDifficulty (CompactToBig 523878437) 1200000000000000 1200000000000000 = Ok num ∧
  num / CompactToBig 523878437 = 10.
Proof. eexists. split; [vm_compute; reflexivity|vm_compute; reflexivity]. Qed.

End Tests.

(** ** The compact form loses less than one part in 2^15 *)

Lemma nbytes_spec n : 0 < n → 256 ^ (Z.of_nat (nbytes n) - 1) ≤ n < 256 ^ Z.of_nat (nbytes n) ∧ 1 ≤ Z.of_nat (nbytes n).
Proof.
  intros Hn. unfold nbytes. rewrite decide_False by lia.
  pose proof (Z.log2_nonneg n) as Hl. pose proof (Z.log2_spec n Hn) as [H1 H2].
  assert (0 ≤ Z.log2 n / 8) by (apply Z.div_pos; lia).
  rewrite Z2Nat.id by lia. change 256 with (2 ^ 8). rewrite <- !Z.pow_mul_r by lia.
  pose proof (Z.div_mod (Z.log2 n) 8 ltac:(lia)) as Hd. pose proof (Z.mod_pos_bound (Z.log2 n) 8 ltac:(lia)).
  split_and!; [|..|lia].
  - etrans; [|exact H1]. apply Z.pow_le_mono_r; lia.
  - eapply Z.lt_le_trans; [exact H2|]. apply Z.pow_le_mono_r; lia.
Qed.

Lemma nbytes_unique n e : 1 ≤ e → 256 ^ (e - 1) ≤ n < 256 ^ e → Z.of_nat (nbytes n) = e.
Proof.
  intros He [H1 H2]. assert (0 < n) by (pose proof (Z.pow_pos_nonneg 256 (e - 1)); lia).
  destruct (nbytes_spec n) as [[H3 H4] H5]; [done|]. set (e' := Z.of_nat (nbytes n)) in *.
  assert (e - 1 < e') by (apply (Z.pow_lt_mono_r_iff 256); lia).
  assert (e' - 1 < e) by (apply (Z.pow_lt_mono_r_iff 256); lia). lia.
Qed.

(** A single bit of a number. *)
Lemma land_pow2 m k : 0 ≤ k → Z.land m (2 ^ k) = if Z.testbit m k then 2 ^ k else 0.
Proof.
  intros Hk. apply Z.bits_inj'. intros i Hi. rewrite Z.land_spec, Z.pow2_bits_eqb by lia.
  destruct (Z.eqb_spec k i) as [<-|Hne].
  - rewrite andb_true_r. destruct (Z.testbit m k); [by rewrite Z.pow2_bits_true|by rewrite Z.bits_0].
  - rewrite andb_false_r. destruct (Z.testbit m k); [by rewrite Z.pow2_bits_false by lia|by rewrite Z.bits_0].
Qed.

Lemma bit23 m : 0 ≤ m < 2 ^ 24 → Z.land m 0x00800000 = if decide (m < 2 ^ 23) then 0 else 2 ^ 23.
Proof.
  intros Hm. change 0x00800000 with (2 ^ 23). rewrite land_pow2 by lia.
  destruct (Z.testbit m 23) eqn:E.
  - apply Z.testbit_true in E; [|lia]. case_decide; [|done]. by rewrite Z.div_small in E by lia.
  - apply Z.testbit_false in E; [|lia]. case_decide; [done|].
    replace (m / 2 ^ 23) with 1 in E; [done|]. apply Z.div_unique with (m - 2 ^ 23); lia.
Qed.

(** Packing an exponent above a 23-bit mantissa, and taking them apart. *)
Lemma pack_compact e m :
  0 ≤ e < 256 → 0 ≤ m < 2 ^ 23 → Z.lor (u32 (Z.shiftl e 24)) m = e * 2 ^ 24 + m.
Proof.
  intros He Hm. unfold u32. rewrite Z.shiftl_mul_pow2 by lia. rewrite Z.mod_small by lia.
  rewrite <- Z.add_lor_land. enough (Z.land (e * 2 ^ 24) m = 0) by lia.
  apply Z.bits_inj'. intros i Hi. rewrite Z.land_spec, Z.bits_0.
  destruct (decide (i < 24)); [by rewrite Z.mul_pow2_bits_low by lia|].
  rewrite (Z.testbit_false m i) || idtac. apply andb_false_intro2.
  apply Z.testbit_false; [lia|]. rewrite Z.div_small; [done|].
  split; [lia|]. apply Z.lt_le_trans with (2 ^ 24); [lia|]. apply Z.pow_le_mono_r; lia.
Qed.

Lemma unpack_compact e m : 0 ≤ e < 256 → 0 ≤ m < 2 ^ 23 →
  CompactToBig (e * 2 ^ 24 + m) =
    if decide (e ≤ 3) then m / 256 ^ (3 - e) else m * 256 ^ (e - 3).
Proof.
  intros He Hm. unfold CompactToBig.
  assert (Z.land (e * 2 ^ 24 + m) 0x007fffff = m) as ->.
  { change 0x007fffff with (Z.ones 23). rewrite Z.land_ones by lia.
    symmetry. apply (Z.mod_unique _ _ (2 * e)); lia. }
  assert (Z.land (e * 2 ^ 24 + m) 0x00800000 = 0) as ->.
  { change 0x00800000 with (2 ^ 23). rewrite land_pow2 by lia.
    replace (Z.testbit _ 23) with false; [done|]. symmetry. apply Z.testbit_false; [lia|].
    replace ((e * 2 ^ 24 + m) / 2 ^ 23) with (e * 2); [apply Z.mod_mul; lia|].
    apply Z.div_unique with m; lia. }
  rewrite bool_decide_eq_false_2 by (intros Hn; by apply Hn).
  rewrite Z.shiftr_div_pow2 by lia.
  replace ((e * 2 ^ 24 + m) / 2 ^ 24) with e by (apply Z.div_unique with m; lia).
  case_decide.
  - rewrite Z.shiftr_div_pow2 by lia. by rewrite Z.pow_mul_r by lia.
  - rewrite Z.shiftl_mul_pow2 by lia. by rewrite Z.pow_mul_r by lia.
Qed.

(** The three leading bytes of a number of [e] bytes. *)
Definition lead (n e : Z) : Z := if decide (e <= 3) then n * 256 ^ (3 - e) else n / 256 ^ (e - 3).

Lemma lead_range n e : 1 ≤ e → 256 ^ (e - 1) ≤ n < 256 ^ e → 2 ^ 16 ≤ lead n e < 2 ^ 24.
Proof.
  intros He [H1 H2]. change (2 ^ 16) with (256 ^ 2). change (2 ^ 24) with (256 ^ 3).
  unfold lead. case_decide.
  - pose proof (Z.pow_pos_nonneg 256 (3 - e)).
    replace (256 ^ 2) with (256 ^ (e - 1) * 256 ^ (3 - e)) by (rewrite <- Z.pow_add_r by lia; f_equal; lia).
    replace (256 ^ 3) with (256 ^ e * 256 ^ (3 - e)) by (rewrite <- Z.pow_add_r by lia; f_equal; lia). nia.
  - pose proof (Z.pow_pos_nonneg 256 (e - 3)). split.
    + apply Z.div_le_lower_bound; [lia|]. rewrite <- Z.pow_add_r by lia. by replace (e - 3 + 2) with (e - 1) by lia.
    + apply Z.div_lt_upper_bound; [lia|]. rewrite <- Z.pow_add_r by lia. by replace (e - 3 + 3) with e by lia.
Qed.

(** [BigToCompact] packs the leading bytes, one place further right when their top bit
    is set. *)
Lemma BigToCompact_pos n e :
  Z.of_nat (nbytes n) = e → 0 < n → e < 255 →
  BigToCompact (Some n) = Ok (
    if decide (lead n e < 2 ^ 23) then e * 2 ^ 24 + lead n e
    else (e + 1) * 2 ^ 24 + lead n e / 256).
Proof.
  intros He Hn Hlt. destruct (nbytes_spec n) as [Hb Hb1]; [done|]. rewrite He in Hb, Hb1.
  pose proof (lead_range n e Hb1 Hb) as Hl. unfold BigToCompact.
  rewrite (decide_False (P := n = 0)) by lia. rewrite Z.abs_eq by lia. rewrite He.
  assert ((if decide (e <= 3) then u32 (Z.shiftl (u32 n) (8 * (3 - e)))
           else u32 (Z.abs (Z.shiftr n (8 * (e - 3))))) = lead n e) as Hm.
  { unfold lead in *. destruct (decide (e <= 3)) as [H3|H3].
    - unfold u32. rewrite (Z.mod_small n).
      2:{ split; [lia|]. destruct Hb as [_ Hb]. apply Z.lt_le_trans with (1 := Hb).
          change 4294967296 with (256 ^ 4). apply Z.pow_le_mono_r; lia. }
      rewrite Z.shiftl_mul_pow2, Z.pow_mul_r by lia. change (2 ^ 8) with 256. apply Z.mod_small. lia.
    - unfold u32. rewrite Z.shiftr_div_pow2, Z.pow_mul_r by lia. change (2 ^ 8) with 256.
      rewrite Z.abs_eq by lia. apply Z.mod_small. lia. }
  rewrite Hm. rewrite bit23 by lia. f_equal. clear Hm.
  destruct (decide (lead n e < 2 ^ 23)).
  - rewrite (decide_False (P := 0 ≠ 0)) by (intros Hx; by apply Hx).
    rewrite (decide_False (P := n < 0)) by lia. apply pack_compact; lia.
  - rewrite (decide_True (P := 2 ^ 23 ≠ 0)) by lia.
    rewrite (decide_False (P := n < 0)) by lia. rewrite Z.shiftr_div_pow2 by lia.
    change (2 ^ 8) with 256. apply pack_compact; [lia|].
    split; [apply Z.div_pos; lia|]. apply Z.div_lt_upper_bound; lia.
Qed.

(** The compact form of a number that needs [j] more bytes than a mantissa has. *)
Lemma BigToCompact_at n j :
  0 < j < 252 → 2 ^ 15 * 256 ^ j ≤ n < 2 ^ 23 * 256 ^ j →
  BigToCompact (Some n) = Ok ((j + 3) * 2 ^ 24 + n / 256 ^ j).
Proof.
  intros Hj [H1 H2]. pose proof (Z.pow_pos_nonneg 256 j) as Hp.
  pose proof (Z.pow_pos_nonneg 256 (j - 1)) as Hp'.
  assert (256 ^ j = 256 * 256 ^ (j - 1)) as Hs by (rewrite <- Z.pow_succ_r by lia; f_equal; lia).
  assert (∀ k, 0 ≤ k → 256 ^ (j - 1 + k) = 256 ^ (j - 1) * 256 ^ k) as Ha by (intros; apply Z.pow_add_r; lia).
  destruct (decide (n < 256 ^ (j + 2))) as [Hlt|Hge].
  - assert (Z.of_nat (nbytes n) = j + 2) as He.
    { apply nbytes_unique; [lia|]. split; [|done]. replace (j + 2 - 1) with (j - 1 + 2) by lia.
      rewrite Ha by lia. lia. }
    assert (lead n (j + 2) / 256 = n / 256 ^ j) as Hq.
    { unfold lead. case_decide.
      - replace j with 1 by lia. by rewrite Z.mul_1_r.
      - rewrite Z.div_div by lia. f_equal. replace (j + 2 - 3) with (j - 1) by lia. lia. }
    assert (2 ^ 23 ≤ lead n (j + 2)).
    { unfold lead. case_decide.
      - replace j with 1 in * by lia. lia.
      - apply Z.div_le_lower_bound; replace (j + 2 - 3) with (j - 1) by lia; lia. }
    rewrite (BigToCompact_pos n _ He) by lia. rewrite decide_False by lia. rewrite Hq. do 2 f_equal. lia.
  - assert (Z.of_nat (nbytes n) = j + 3) as He.
    { apply nbytes_unique; [lia|]. split; [by replace (j + 3 - 1) with (j + 2) by lia; lia|].
      replace (j + 3) with (j - 1 + 4) by lia. rewrite Ha by lia. lia. }
    assert (lead n (j + 3) = n / 256 ^ j) as Hq.
    { unfold lead. rewrite decide_False by lia. by replace (j + 3 - 3) with j by lia. }
    rewrite (BigToCompact_pos n _ He) by lia. rewrite Hq.
    rewrite decide_True; [done|]. apply Z.div_lt_upper_bound; lia.
Qed.

(** A number of at most 23 bits keeps every bit; a larger one keeps a prefix. *)
Lemma compact_cases n :
  0 < n → Z.of_nat (nbytes n) < 254 →
  (∃ c, BigToCompact (Some n) = Ok c ∧ CompactToBig c = n) ∨
  (∃ j, 0 < j < 252 ∧ 2 ^ 15 * 256 ^ j ≤ n < 2 ^ 23 * 256 ^ j).
Proof.
  intros Hn Hlt. destruct (nbytes_spec n) as [Hb Hb1]; [done|].
  set (e := Z.of_nat (nbytes n)) in *. pose proof (lead_range n e Hb1 Hb) as Hl.
  assert (∀ k j, 0 ≤ k → 0 ≤ j → 256 ^ (k + j) = 256 ^ k * 256 ^ j) as Ha by (intros; apply Z.pow_add_r; lia).
  destruct (decide (e ≤ 3)) as [H3|H3].
  - assert (lead n e = n * 256 ^ (3 - e)) as Hle by (unfold lead; by rewrite decide_True).
    pose proof (Z.pow_pos_nonneg 256 (3 - e)) as Hp.
    destruct (decide (lead n e < 2 ^ 23)) as [Hd|Hd].
    + left. rewrite (BigToCompact_pos n e) by (done || lia). rewrite decide_True by done. eexists. split; [done|].
      rewrite unpack_compact by lia. rewrite decide_True by done. rewrite Hle. apply Z.div_mul. lia.
    + destruct (decide (e = 3)) as [E|E].
      * right. exists 1. rewrite Hle, E in *. lia.
      * left. rewrite (BigToCompact_pos n e) by (done || lia). rewrite decide_False by done. eexists. split; [done|].
        assert (lead n e / 256 = n * 256 ^ (2 - e)) as Hq.
        { rewrite Hle. replace (3 - e) with (1 + (2 - e)) by lia. rewrite Ha by lia.
          replace (n * (256 ^ 1 * 256 ^ (2 - e))) with (n * 256 ^ (2 - e) * 256) by lia.
          apply Z.div_mul. lia. }
        rewrite unpack_compact; [|lia|split; [apply Z.div_pos; lia|apply Z.div_lt_upper_bound; lia]].
        rewrite decide_True by lia. rewrite Hq. replace (3 - (e + 1)) with (2 - e) by lia.
        apply Z.div_mul. pose proof (Z.pow_pos_nonneg 256 (2 - e)). lia.
  - right. pose proof (Z.pow_pos_nonneg 256 (e - 3) ltac:(lia) ltac:(lia)) as Hp.
    assert (256 ^ (e - 1) = 65536 * 256 ^ (e - 3)) as E1 by (rewrite <- (Ha 2) by lia; f_equal; lia).
    assert (256 ^ (e - 2) = 256 * 256 ^ (e - 3)) as E2 by (rewrite <- (Ha 1) by lia; f_equal; lia).
    assert (256 ^ e = 16777216 * 256 ^ (e - 3)) as E3 by (rewrite <- (Ha 3) by lia; f_equal; lia).
    destruct (decide (n < 2 ^ 23 * 256 ^ (e - 3))) as [Hd|Hd].
    + exists (e - 3). lia.
    + exists (e - 2). rewrite E2. lia.
Qed.

Lemma compact_precise (n : Z) :
  0 < n → Z.of_nat (nbytes n) < 254 →
  ∃ c, BigToCompact (Some n) = Ok c ∧ 0 < CompactToBig c ≤ n ∧ (n - CompactToBig c) * 2 ^ 15 ≤ n ∧
    BigToCompact (Some (CompactToBig c)) = Ok c.
Proof.
  intros Hn Hlt. destruct (compact_cases n Hn Hlt) as [(c & Hc & Hcn)|(j & Hj & Hr)].
  { exists c. rewrite Hcn. split_and!; try done; lia. }
  pose proof (Z.pow_pos_nonneg 256 j ltac:(lia) ltac:(lia)) as Hp.
  rewrite (BigToCompact_at n j Hj Hr). eexists. split; [done|]. set (p := 256 ^ j) in *.
  pose proof (Z.div_mod n p ltac:(lia)) as Hdm. pose proof (Z.mod_pos_bound n p ltac:(lia)) as Hmp.
  assert (2 ^ 15 ≤ n / p) as Hq1 by (apply Z.div_le_lower_bound; lia).
  assert (n / p < 2 ^ 23) as Hq2 by (apply Z.div_lt_upper_bound; lia).
  assert (CompactToBig ((j + 3) * 2 ^ 24 + n / p) = n / p * p) as Hcb.
  { rewrite unpack_compact by lia. rewrite decide_False by lia. by replace (j + 3 - 3) with j by lia. }
  rewrite Hcb. split_and!; [nia|nia|nia|]. rewrite (BigToCompact_at _ j); [|done|fold p; nia].
  fold p. by rewrite Z.div_mul by lia.
Qed.

(** The compact form of a positive number of fewer than 254 bytes loses less than one
    part in 2^15 and never rounds up, and it is stable: converting the decoded number
    again gives the same compact form.  Numbers below 2^15 survive unchanged. *)
Theorem compact_precision (n : Z) :
  0 < n → Z.of_nat (nbytes n) < 254 →
  ∃ c, BigToCompact (Some n) = Ok c ∧ 0 < CompactToBig c ≤ n ∧ (n - CompactToBig c) * 2 ^ 15 ≤ n ∧
    BigToCompact (Some (CompactToBig c)) = Ok c.
Proof. apply compact_precise. Qed.

(** What is not positive is not positive in compact form either. *)
Lemma compact_sign n c : n ≤ 0 → BigToCompact (Some n) = Ok c → CompactToBig c ≤ 0.
Proof.
  intros Hn Hc. unfold BigToCompact in Hc. case_decide as H0; [injection Hc as <-; by vm_compute|].
  injection Hc as Hc. revert Hc. destruct (if decide (Z.land _ _ ≠ 0) then _ else _) as [m e].
  rewrite decide_True by lia. intros <-. unfold CompactToBig.
  rewrite (bool_decide_eq_true_2 (Z.land _ 0x00800000 ≠ 0)).
  - set (x := Z.lor _ 0x00800000). enough (0 ≤ if decide (Z.shiftr x 24 <= 3)
      then Z.shiftr (Z.land x 0x007fffff) (8 * (3 - Z.shiftr x 24))
      else Z.shiftl (Z.land x 0x007fffff) (8 * (Z.shiftr x 24 - 3))) by lia.
    case_decide; [apply Z.shiftr_nonneg|apply Z.shiftl_nonneg]; apply Z.land_nonneg; lia.
  - intros Hz. assert (Z.testbit (Z.land (Z.lor (Z.lor (u32 (Z.shiftl e 24)) m) 8388608) 8388608) 23 = false) as Hb
      by (by rewrite Hz).
    rewrite Z.land_spec, Z.lor_spec in Hb. change (Z.testbit 8388608 23) with true in Hb. by rewrite orb_true_r in Hb.
Qed.

(** ** Retargeting *)

Lemma nbytes_le n k : 0 ≤ k → 0 ≤ n < 256 ^ k → Z.of_nat (nbytes n) ≤ k.
Proof.
  intros Hk [H1 H2]. destruct (decide (n = 0)) as [->|]; [exact Hk|].
  destruct (nbytes_spec n) as [[H3 _] _]; [lia|].
  assert (Z.of_nat (nbytes n) - 1 < k); [|lia]. apply (Z.pow_lt_mono_r_iff 256); lia.
Qed.

Lemma powLimit_range : 0 < powLimit < 256 ^ 32.
Proof. vm_compute. split; reflexivity. Qed.

Lemma retarget_capped t0 t1 bits c : CalcNextGlobalRequiredDifficulty t0 t1 bits = Ok c → CompactToBig c ≤ powLimit.
Proof.
  unfold CalcNextGlobalRequiredDifficulty. cbn zeta. set (n := if decide _ then powLimit else _). intros Hc.
  assert (n ≤ powLimit) as Hn by (unfold n; case_decide; lia). pose proof powLimit_range.
  destruct (decide (n ≤ 0)) as [Hz|Hz]; [by pose proof (compact_sign n c Hz Hc); lia|].
  destruct (compact_precise n) as (c' & Hc' & Hr & _); [lia|pose proof (nbytes_le n 32); lia|].
  rewrite Hc in Hc'. injection Hc' as <-. lia.
Qed.

(** Retargeting, on every branch: with a previous target [old >= 0] and [span >= 0]
    seconds for the last ten blocks, the next target is [old * span / 100], capped at
    the proof-of-work limit, less at most one part in 2^15 and never more.  It is zero
    when the span (or the exact target) is zero, and a zero target stays zero for ever. *)
Theorem retarget_spec (bits span : Z) :
  let old := CompactToBig bits in
  let exact := Z.min (old * span / 100) powLimit in
  0 ≤ old → 0 ≤ span < 2 ^ 63 →
  (∃ c, CalcNextGlobalRequiredDifficulty 0 span bits = Ok c ∧
     0 ≤ CompactToBig c ≤ exact ∧ (exact - CompactToBig c) * 2 ^ 15 ≤ exact ∧
     (0 < exact → 0 < CompactToBig c) ∧ (exact = 0 → c = 0)) ∧
  ∀ t0 t1, CalcNextGlobalRequiredDifficulty t0 t1 0 = Ok 0.
Proof.
  intros old exact Hold Hspan. split; [|done].
  assert (i64 (span - 0) = span) as Hi.
  { unfold i64. rewrite u64_small by (unfold is_u64, MAXUINT64; lia).
    rewrite Z.sub_0_r. destruct (Z.ltb_spec span 9223372036854775808); lia. }
  unfold CalcNextGlobalRequiredDifficulty. rewrite Hi. fold old. change (Cycle * 10) with 100. cbn zeta.
  replace (if decide (old * span / 100 > powLimit) then powLimit else old * span / 100) with exact
    by (unfold exact; case_decide; lia).
  assert (0 ≤ old * span / 100) as Hnn by (apply Z.div_pos; nia).
  destruct (decide (exact = 0)) as [Hz|Hz].
  { rewrite Hz. exists 0. split; [done|]. change (CompactToBig 0) with 0. lia. }
  assert (0 < powLimit < 256 ^ 32) as Hpow by (vm_compute; split; reflexivity).
  assert (0 ≤ exact ≤ powLimit) as Hrange by (unfold exact; lia).
  assert (0 < exact) as Hpos by lia.
  assert (Z.of_nat (nbytes exact) ≤ 32) as Hnb by (apply nbytes_le; lia).
  destruct (compact_cases exact Hpos) as [(c & Hc & Hcn)|(j & Hj & Hr)]; [lia| |].
  { exists c. rewrite Hcn. split_and!; try done; lia. }
  pose proof (Z.pow_pos_nonneg 256 j ltac:(lia) ltac:(lia)) as Hp.
  rewrite (BigToCompact_at exact j Hj Hr). eexists. split; [done|]. set (p := 256 ^ j) in *.
  pose proof (Z.div_mod exact p ltac:(lia)) as Hdm. pose proof (Z.mod_pos_bound exact p ltac:(lia)) as Hmp.
  assert (2 ^ 15 ≤ exact / p) as Hq1 by (apply Z.div_le_lower_bound; lia).
  assert (exact / p < 2 ^ 23) as Hq2 by (apply Z.div_lt_upper_bound; lia).
  rewrite unpack_compact by lia. rewrite decide_False by lia.
  replace (j + 3 - 3) with j by lia. fold p. split_and!; [nia|nia|nia|nia|lia].
Qed.

(** ** The miner's target *)

Lemma f_int_shift m e k : 0 ≤ k → f_int (MkFloat (m * 2 ^ k) (e - k)) = f_int (MkFloat m e).
Proof.
  intros Hk. unfold f_int. cbn [fmant fexp]. pose proof (Z.pow_pos_nonneg 2 k ltac:(lia) Hk) as Hp.
  case_decide as H1; case_decide as H2; try lia.
  - rewrite !Z.shiftl_mul_pow2 by lia. rewrite <- Z.mul_assoc, <- Z.pow_add_r by lia. do 2 f_equal. lia.
  - rewrite Z.shiftl_mul_pow2 by lia.
    replace (m * 2 ^ k) with (m * 2 ^ e * 2 ^ (- (e - k)))
      by (rewrite <- Z.mul_assoc, <- Z.pow_add_r by lia; do 2 f_equal; lia).
    apply Z.quot_mul. pose proof (Z.pow_pos_nonneg 2 (- (e - k))). lia.
  - replace (- (e - k)) with (k + - e) by lia. rewrite Z.pow_add_r by lia.
    rewrite (Z.mul_comm (2 ^ k)). apply Z.quot_mul_cancel_r; [|lia].
    pose proof (Z.pow_pos_nonneg 2 (- e)). lia.
Qed.

(** A number whose significant bits fit the precision is not changed by rounding. *)
Lemma fround_fits prec m k e :
  0 < prec → 0 ≤ k → 0 < m < 2 ^ prec →
  ∃ j, 0 ≤ j ∧ fround prec (m * 2 ^ k) 1 e = MkFloat (m * 2 ^ j) (e + k - j).
Proof.
  intros Hprec Hk Hm. pose proof (Z.log2_nonneg m) as Hl0. pose proof (Z.log2_spec m ltac:(lia)) as [Hl1 Hl2].
  assert (Z.log2 m < prec) as Hl by (apply Z.log2_lt_pow2; lia).
  pose proof (Z.pow_pos_nonneg 2 k ltac:(lia) Hk) as Hpk.
  exists (prec - 1 - Z.log2 m). split; [lia|]. unfold fround.
  rewrite decide_False by nia. rewrite Z.abs_eq, Z.sgn_pos by nia.
  rewrite Z.log2_mul_pow2 by lia. change (Z.log2 1) with 0. set (s := k + Z.log2 m - 0 - prec).
  assert (∀ s', s' ≤ k → Z.shiftl (m * 2 ^ k) (- Z.min s' 0) = m * 2 ^ (k - s') * (1 * 2 ^ Z.max s' 0)) as Hn.
  { intros s' Hs'. rewrite Z.shiftl_mul_pow2, Z.mul_1_l by lia.
    rewrite <- !Z.mul_assoc, <- !Z.pow_add_r by lia. do 2 f_equal. lia. }
  assert (∀ s', 0 < 1 * 2 ^ Z.max s' 0) as Hd by (intros; rewrite Z.mul_1_l; apply Z.pow_pos_nonneg; lia).
  rewrite (Hn s), Z.div_mul by (try apply Z.neq_sym, Z.lt_neq, Hd; lia).
  assert (2 ^ prec ≤ m * 2 ^ (k - s)) as Hge.
  { replace prec with (Z.log2 m + (k - s)) by lia. rewrite Z.pow_add_r by lia.
    apply Z.mul_le_mono_nonneg_r; [|done]. pose proof (Z.pow_pos_nonneg 2 (k - s)). lia. }
  rewrite (decide_False (P := m * 2 ^ (k - s) < 2 ^ prec)) by lia.
  rewrite (Hn (s + 1)), Z.div_mul, Z.sub_diag by (try apply Z.neq_sym, Z.lt_neq, Hd; lia).
  pose proof (Hd (s + 1)) as Hpos. destruct (Z.compare_spec (2 * 0) (1 * 2 ^ Z.max (s + 1) 0)); [lia| |lia].
  rewrite Z.mul_1_l. f_equal; [|lia]. do 2 f_equal. lia.
Qed.

(** The rounding of a positive integer to [prec] bits. *)
Definition round_int (prec base : Z) : Z := f_int (fround prec base 1 0).

Lemma fround_range prec num :
  0 < prec → 0 < num → ∃ q s, fround prec num 1 0 = MkFloat q s ∧ 0 < q ≤ 2 ^ prec.
Proof.
  intros Hprec Hn. unfold fround. rewrite decide_False by lia. rewrite Z.abs_eq, Z.sgn_pos by lia.
  change (Z.log2 1) with 0. pose proof (Z.log2_nonneg num). pose proof (Z.log2_spec num Hn) as [Hl1 Hl2].
  set (s := Z.log2 num - 0 - prec).
  assert (∀ s', s ≤ s' ≤ s + 1 →
    let q := Z.shiftl num (- Z.min s' 0) / (1 * 2 ^ Z.max s' 0) in
    2 ^ (prec - (s' - s)) ≤ q < 2 ^ (prec + 1 - (s' - s))) as Hq.
  { intros s' Hs'. cbn zeta. rewrite Z.shiftl_mul_pow2, Z.mul_1_l by lia.
    pose proof (Z.pow_pos_nonneg 2 (Z.max s' 0)). pose proof (Z.pow_pos_nonneg 2 (- Z.min s' 0)).
    split.
    - apply Z.div_le_lower_bound; [lia|]. rewrite <- Z.pow_add_r by lia.
      transitivity (2 ^ Z.log2 num * 2 ^ (- Z.min s' 0)); [|apply Z.mul_le_mono_nonneg_r; lia].
      rewrite <- Z.pow_add_r by lia. apply Z.pow_le_mono_r; lia.
    - apply Z.div_lt_upper_bound; [lia|]. rewrite <- Z.pow_add_r by lia.
      apply Z.lt_le_trans with (2 ^ Z.succ (Z.log2 num) * 2 ^ (- Z.min s' 0));
        [apply Z.mul_lt_mono_pos_r; lia|].
      rewrite <- Z.pow_add_r by lia. apply Z.pow_le_mono_r; lia. }
  set (s' := if decide (_ < 2 ^ prec) then s else s + 1).
  assert (s ≤ s' ≤ s + 1) as Hs' by (unfold s'; case_decide; lia).
  pose proof (Hq s' Hs') as Hr. cbn zeta in Hr.
  set (q := Z.shiftl num (- Z.min s' 0) / (1 * 2 ^ Z.max s' 0)) in *.
  assert (0 < q < 2 ^ prec) as Hqr.
  { pose proof (Z.pow_pos_nonneg 2 (prec - (s' - s))). split; [lia|].
    unfold q, s'. case_decide as Hd; [done|].
    pose proof (Hq (s + 1) ltac:(lia)) as [_ Hu]. by replace (prec + 1 - (s + 1 - s)) with prec in Hu by lia. }
  eexists _, _. split; [done|]. rewrite Z.mul_1_l. case_match; [case_match| |]; lia.
Qed.

(** A miner without a pledge, the only case the chain uses, gets the base target
    rounded to the 53 bits of [big.NewFloat(0)]: the base target itself when it has at
    most 53 significant bits; an error when rounding makes it smaller, which no block can
    then satisfy. *)
Theorem NextMinerDifficulty_no_pledge (base basePledge : Z) :
  0 < base → 0 < basePledge →
  (round_int 53 base < base → ∃ e, NextMinerDifficulty base 0 basePledge = Err e) ∧
  (base ≤ round_int 53 base ≤ base * 10 → NextMinerDifficulty base 0 basePledge = Ok (round_int 53 base)) ∧
  (∀ m k, 0 ≤ k → 0 < m < 2 ^ 53 → base = m * 2 ^ k → round_int 53 base = base).
Proof.
  intros Hb Hp. destruct (fround_range 53 base) as (q & s & Hfr & Hq); [lia..|].
  assert (NextMinerDifficulty base 0 basePledge =
    if decide (base > round_int 53 base) then err "miners too difficult"
    else if decide (base * 10 < round_int 53 base) then err "miners too little difficulty"
    else Ok (round_int 53 base)) as Hrun.
  { unfold NextMinerDifficulty. rewrite (decide_False (P := 0 > basePledge)) by lia.
    rewrite (decide_False (P := basePledge = 0)) by lia. cbn zeta.
    replace (f_int (f_add 64 _ _)) with (round_int 53 base); [done|].
    unfold round_int. rewrite Hfr.
    assert (f_quo 64 (f_of_Z 0) (f_of_Z basePledge) = MkFloat 0 0) as ->.
    { unfold f_quo, f_of_Z, fround. cbn [fmant fexp]. by rewrite Z.mul_0_r. }
    change (f_mul 64 (MkFloat 0 0) (f_of_Z 9)) with (MkFloat 0 0).
    assert (f_mul 64 (MkFloat 0 0) (MkFloat q s) = MkFloat 0 0) as -> by done.
    unfold f_add. cbn [fmant fexp].
    rewrite Z.shiftl_0_l, Z.add_0_l, Z.shiftl_mul_pow2 by lia.
    destruct (fround_fits 64 q (s - Z.min 0 s) (Z.min 0 s)) as (j & Hj & ->); [lia..|].
    replace (Z.min 0 s + (s - Z.min 0 s) - j) with (s - j) by lia. symmetry. by apply f_int_shift. }
  rewrite Hrun. split_and!.
  - intros Hlt. rewrite decide_True by lia. by eexists.
  - intros Hle. by rewrite decide_False, decide_False by lia.
  - intros m k Hk Hm ->. unfold round_int.
    destruct (fround_fits 53 m k 0) as (j & Hj & ->); [lia..|].
    rewrite f_int_shift by done. unfold f_int. cbn [fmant fexp]. rewrite decide_True by lia.
    by rewrite Z.shiftl_mul_pow2 by lia.
Qed.

(** A miner's target is the base target or up to ten times it. *)
Lemma NextMinerDifficulty_bounds base pledge basePledge t :
  NextMinerDifficulty base pledge basePledge = Ok t → base ≤ t ≤ base * 10.
Proof.
  unfold NextMinerDifficulty. cbn zeta. destruct (decide (basePledge = 0)); [done|].
  generalize (f_int (f_add 64 (f_mul 64 (f_mul 64 (f_quo 64 (f_of_Z (if decide (pledge > basePledge) then basePledge
    else pledge)) (f_of_Z basePledge)) (f_of_Z 9)) (fround 53 base 1 0)) (fround 53 base 1 0))).
  intros m. case_decide; [done|]. case_decide; [done|]. intros [= <-]. lia.
Qed.

(** A target in range survives the compact form once it has been through it. *)
Lemma compact_stable n c : 0 < n ≤ powLimit * 10 → BigToCompact (Some n) = Ok c →
  BigToCompact (Some (CompactToBig c)) = Ok c ∧ 0 < CompactToBig c.
Proof.
  intros Hn Hc. pose proof powLimit_range. pose proof (nbytes_le n 33 ltac:(lia) ltac:(lia)).
  destruct (compact_precise n) as (c' & Hc' & Hr & _ & Hs); [lia..|].
  rewrite Hc in Hc'. injection Hc' as <-. split; [done|lia].
Qed.

(** ** Witnesses *)

Lemma compact_precision_witness :
  ∃ c, BigToCompact (Some 123456789) = Ok c ∧ 0 < CompactToBig c ≤ 123456789 ∧
    (123456789 - CompactToBig c) * 2 ^ 15 ≤ 123456789.
Proof.
  destruct (compact_precision 123456789) as (c & H1 & H2 & H3 & _); [lia|vm_compute; reflexivity|].
  exists c. split_and!; done || lia.
Defined.

Lemma retarget_spec_witness :
  ∃ c, CalcNextGlobalRequiredDifficulty 0 130 523878437 = Ok c ∧
    CompactToBig 523878437 < CompactToBig c ≤ CompactToBig 523878437 * 130 / 100.
Proof.
  destruct (retarget_spec 523878437 130) as [(c & H1 & [_ H2] & _) _]; [vm_compute; discriminate|lia|].
  exists c. split; [exact H1|]. vm_compute in H1. injection H1 as <-. split; [reflexivity|].
  etrans; [exact H2|apply Z.le_min_l].
Defined.

(** A target one above a power of two is rounded down, and no next block can be mined. *)
Lemma NextMinerDifficulty_no_pledge_witness :
  (∃ e, NextMinerDifficulty (2 ^ 200 + 1) 0 1200000000000000 = Err e) ∧
  NextMinerDifficulty (2 ^ 200) 0 1200000000000000 = Ok (2 ^ 200).
Proof.
  split.
  - apply (proj1 (NextMinerDifficulty_no_pledge (2 ^ 200 + 1) 1200000000000000 ltac:(lia) ltac:(lia))).
    vm_compute. reflexivity.
  - assert (round_int 53 (2 ^ 200) = 2 ^ 200) as E by (vm_compute; reflexivity).
    refine (eq_trans (proj1 (proj2 (NextMinerDifficulty_no_pledge (2 ^ 200) 1200000000000000
      ltac:(lia) ltac:(lia))) _) (f_equal Ok E)).
    rewrite E. lia.
Defined.
