(* ===== verification/Economics.v ===== *)
(** The issuance schedule: [GetMinerAmount] of [pkg/blockchain/types.go], and the
    circulating amount and base pledge computed in [pkg/blockchain/blockchain.go]. *)

From S2P Require Import Prelude.

Definition InitHeight : Z := 60350422.
Definition ERA : Z := 3153600.

(** ** The miner's reward *)

(** The typed constants of [GetMinerAmount]. *)
Definition ktoTotal : Z := 8848000000000000000.
Definition oldPhase1 : Z := 31536000 * 49460000000.
Definition oldPhase2 : Z := (InitHeight - 31536000) * 8 / 10 * 49460000000.
Definition newChainBalance : Z := 1000000000000000000 + oldPhase1 + oldPhase2.
Definition newChainTotal : Z := ktoTotal - newChainBalance.

(** One era: what is left loses what the era pays, and a tenth of the rest is spread over
    the next. *)
Definition next_era (s : Z * Z) : Z * Z :=
  let '(newChantotal, total) := s in
  let newChantotal := newChantotal -₆₄ (ERA *₆₄ total) in
  (newChantotal, newChantotal / ERA / 10).

Definition GetMinerAmount (height : Z) : res Z :=
  if decide (height < InitHeight) then Panic else
  let height := height - InitHeight in
  let total := newChainTotal / ERA / 10 in
  let x := height / ERA in
  Ok (snd (Nat.iter (Z.to_nat x) next_era (newChainTotal, total))).

(** ** The circulating amount *)

Definition era_sum (s : Z * Z) : Z * Z :=
  let '(sum, total) := s in (sum +₆₄ (total *₆₄ ERA), (total *₆₄ 5) / 10).

(** The number both [getWholeNetworkNum] functions compute from the height. *)
Definition wholeNetworkNum (h : Z) : Z :=
  let '(sum, total) := Nat.iter (Z.to_nat (h / ERA)) era_sum (0, 100000000000) in
  sum +₆₄ ((total *₆₄ (h mod ERA)) +₆₄ 10000000000000666666).

Definition maxPledge : Z := 1200000000000000.

(** What both [getBasePledge] methods compute; [big.Int.Div] is [/] here. *)
Definition basePledge (total pledgeTotal : Z) : res Z :=
  let rate := if decide (total ≠ 0) then u64 (pledgeTotal * 100 / total) else 0 in
  if decide (rate > 100) then err "rate is not in the range of 0~100"
  else Ok ((maxPledge *₆₄ (100 -₆₄ rate)) / 100).

(** ** The schedule never exceeds the total *)

(** The state after [k] eras, and the sum of the rewards of the [n] blocks from
    [InitHeight] on. *)
Definition era (k : nat) : Z * Z := Nat.iter k next_era (newChainTotal, newChainTotal / ERA / 10).
Definition remaining (k : nat) : Z := fst (era k).
Definition reward (k : nat) : Z := snd (era k).

Fixpoint issued (n : nat) : Z :=
  match n with
  | O => 0
  | S n => issued n + match GetMinerAmount (InitHeight + Z.of_nat n) with Ok a => a | _ => 0 end
  end.

Lemma era_spec k :
  0 ≤ remaining k ≤ newChainTotal ∧ reward k = remaining k / ERA / 10 ∧
  remaining (S k) = remaining k - ERA * reward k ∧ ERA * reward k ≤ remaining k.
Proof.
  assert (∀ r, 0 ≤ r ≤ newChainTotal → 0 ≤ ERA * (r / ERA / 10) ≤ r) as Hpay.
  { intros r Hr. rewrite Z.div_div by (unfold ERA; lia). change (ERA * 10) with 31536000.
    unfold ERA. pose proof (Z.mul_div_le r 31536000). pose proof (Z.div_pos r 31536000). lia. }
  assert (0 ≤ newChainTotal ≤ MAXUINT64) as Htot by (vm_compute; split; discriminate).
  assert (∀ k, 0 ≤ remaining k ≤ newChainTotal ∧ reward k = remaining k / ERA / 10 →
    remaining (S k) = remaining k - ERA * reward k ∧ reward (S k) = remaining (S k) / ERA / 10) as Hstep.
  { intros i [Hr Hw]. pose proof (Hpay _ Hr) as Hp. rewrite <- Hw in Hp.
    unfold remaining, reward, era in *. cbn [Nat.iter nat_rect].
    change (nat_rect (λ _, (Z * Z)%type) (newChainTotal, newChainTotal / ERA / 10) (λ _, next_era) i)
      with (Nat.iter i next_era (newChainTotal, newChainTotal / ERA / 10)).
    destruct (Nat.iter i next_era _) as [r w]. cbn [fst snd next_era] in *.
    rewrite (mul64_small ERA w), sub64_small by (unfold MAXUINT64 in *; lia). done. }
  assert (0 ≤ remaining k ≤ newChainTotal ∧ reward k = remaining k / ERA / 10) as [Hr Hw].
  { induction k as [|k IH]; [split; [cbn; lia|done]|].
    destruct (Hstep k IH) as [H1 H2]. destruct IH as [Hr Hw]. pose proof (Hpay _ Hr). rewrite <- Hw in *.
    split; [lia|done]. }
  destruct (Hstep k (conj Hr Hw)) as [H1 _]. pose proof (Hpay _ Hr). rewrite <- Hw in *. lia.
Qed.

Lemma GetMinerAmount_reward n :
  GetMinerAmount (InitHeight + Z.of_nat n) = Ok (reward (Z.to_nat (Z.of_nat n / ERA))).
Proof.
  unfold GetMinerAmount. rewrite decide_False by lia.
  by replace (InitHeight + Z.of_nat n - InitHeight) with (Z.of_nat n) by lia.
Qed.

(** The sum after [n] blocks, in terms of whole eras. *)
Lemma GetMinerAmount_range h a : GetMinerAmount h = Ok a → is_u64 a.
Proof.
  destruct (decide (h < InitHeight)) as [Hlt|Hge]; [unfold GetMinerAmount; by rewrite decide_True|].
  replace h with (InitHeight + Z.of_nat (Z.to_nat (h - InitHeight))) by lia. rewrite GetMinerAmount_reward.
  intros [= <-]. destruct (era_spec (Z.to_nat (Z.of_nat (Z.to_nat (h - InitHeight)) / ERA))) as (Hr & Hw & _).
  assert (newChainTotal ≤ MAXUINT64) by (vm_compute; discriminate). rewrite Hw. unfold is_u64, ERA in *.
  Z.to_euclidean_division_equations; lia.
Qed.

Lemma issued_eras n :
  let q := Z.to_nat (Z.of_nat n / ERA) in
  issued n = newChainTotal - remaining q + (Z.of_nat n mod ERA) * reward q.
Proof.
  induction n as [|n IH].
  { cbn zeta. change (Z.of_nat 0 mod ERA) with 0. change (remaining _) with newChainTotal.
    change (issued 0) with 0. lia. }
  cbn [issued]. rewrite GetMinerAmount_reward. cbn zeta in *. rewrite IH.
  assert (0 < ERA) as HE by (unfold ERA; lia).
  assert (0 ≤ Z.of_nat n / ERA) as Hq by (apply Z.div_pos; lia). set (q := Z.of_nat n / ERA) in *.
  pose proof (Z.div_mod (Z.of_nat n) ERA ltac:(lia)) as Hdm. fold q in Hdm.
  pose proof (Z.mod_pos_bound (Z.of_nat n) ERA HE) as Hr. set (r := Z.of_nat n mod ERA) in *.
  rewrite Nat2Z.inj_succ.
  destruct (decide (r + 1 < ERA)).
  - rewrite <- (Z.div_unique_pos (Z.succ (Z.of_nat n)) ERA q (r + 1)) by lia.
    rewrite <- (Z.mod_unique_pos (Z.succ (Z.of_nat n)) ERA q (r + 1)) by lia. lia.
  - rewrite <- (Z.div_unique_pos (Z.succ (Z.of_nat n)) ERA (q + 1) 0) by lia.
    rewrite <- (Z.mod_unique_pos (Z.succ (Z.of_nat n)) ERA (q + 1) 0) by lia.
    replace (Z.to_nat (q + 1)) with (S (Z.to_nat q)) by lia.
    destruct (era_spec (Z.to_nat q)) as (_ & _ & -> & _). replace r with (ERA - 1) by lia. lia.
Qed.

(** C40: the coinbase rewards of any number of blocks never add up to more than what the
    schedule starts with, so that with the old chain's balance the total of
    8 848 000 000 coins is never exceeded; after [k] eras of 3 153 600 blocks exactly
    [newChainTotal - remaining k] has been paid.  The reward is defined at every height
    from [InitHeight] on and panics below. *)
Theorem issuance_bounded (n : nat) :
  0 ≤ issued n ≤ newChainTotal ∧ newChainBalance + issued n ≤ ktoTotal ∧
  (∀ k, Z.of_nat n = Z.of_nat k * ERA → issued n = newChainTotal - remaining k) ∧
  (∃ a, GetMinerAmount (InitHeight + Z.of_nat n) = Ok a ∧ 0 ≤ a) ∧
  ∀ h, h < InitHeight → GetMinerAmount h = Panic.
Proof.
  pose proof (issued_eras n) as Hi. cbn zeta in Hi. set (q := Z.to_nat (Z.of_nat n / ERA)) in *.
  destruct (era_spec q) as (Hr & Hw & Hs & Hp). assert (0 < ERA) as HE by (unfold ERA; lia).
  pose proof (Z.mod_pos_bound (Z.of_nat n) ERA HE) as Hm. set (r := Z.of_nat n mod ERA) in *.
  assert (0 ≤ reward q) as Hw0 by (rewrite Hw; repeat apply Z.div_pos; lia).
  assert (0 ≤ issued n ≤ newChainTotal) as Hb by nia.
  split_and!; [lia|lia|unfold newChainTotal in Hb; lia| | |].
  - intros k Hk. assert (Z.of_nat n / ERA = Z.of_nat k) as Hq by (rewrite Hk; apply Z.div_mul; lia).
    assert (r = 0) as Hr0 by (unfold r; rewrite Hk; apply Z.mod_mul; lia).
    rewrite Hi, Hr0. unfold q. rewrite Hq, Nat2Z.id. lia.
  - rewrite GetMinerAmount_reward. by eexists.
  - intros h Hh. unfold GetMinerAmount. by rewrite decide_True.
Qed.

(** ** The circulating amount does not overflow *)

Lemma era_sum_spec k :
  let '(sum, total) := Nat.iter k era_sum (0, 100000000000) in
  0 ≤ total ≤ 100000000000 ∧ 0 ≤ sum ∧ sum + 2 * ERA * total ≤ 2 * ERA * 100000000000.
Proof.
  induction k as [|k IH]; [by vm_compute|]. cbn [Nat.iter nat_rect].
  change (nat_rect (λ _, (Z * Z)%type) (0, 100000000000) (λ _, era_sum) k)
    with (Nat.iter k era_sum (0, 100000000000)).
  destruct (Nat.iter k era_sum (0, 100000000000)) as [sum total]. unfold ERA in *. cbn [era_sum].
  unfold ERA. rewrite (mul64_small total), (mul64_small total), add64_small by (unfold MAXUINT64; lia).
  pose proof (Z.div_mod (total * 5) 10 ltac:(lia)). pose proof (Z.mod_pos_bound (total * 5) 10 ltac:(lia)). lia.
Qed.

(** The circulating amount never wraps around: at every height it lies between its
    starting value and 10.63 * 10^18, and the base pledge derived from it with no pledge
    is the maximum pledge. *)
Theorem wholeNetworkNum_bounds (h : Z) :
  0 ≤ h →
  10000000000000666666 ≤ wholeNetworkNum h ≤ 10000000000000666666 + 2 * ERA * 100000000000 ∧
  basePledge (wholeNetworkNum h) 0 = Ok maxPledge.
Proof.
  intros Hh. assert (0 < ERA) as HE by (unfold ERA; lia).
  pose proof (era_sum_spec (Z.to_nat (h / ERA))) as Hs.
  pose proof (Z.mod_pos_bound h ERA HE) as Hm.
  assert (10000000000000666666 ≤ wholeNetworkNum h ≤ 10000000000000666666 + 2 * ERA * 100000000000) as Hb.
  { unfold wholeNetworkNum. destruct (Nat.iter _ era_sum _) as [sum total].
    destruct Hs as (Ht & Hs0 & Hs).
    assert (0 ≤ total * (h mod ERA) ≤ ERA * total) as Hp by nia. set (m := h mod ERA) in *.
    clearbody m. unfold ERA in *. assert (0 ≤ total * m ≤ MAXUINT64) by (unfold MAXUINT64; lia).
    rewrite mul64_small by done. unfold MAXUINT64 in *. rewrite (add64_small (total * m)), add64_small by (unfold MAXUINT64; lia). lia. }
  split; [done|]. unfold basePledge. rewrite (decide_True (P := wholeNetworkNum h ≠ 0)) by lia. by rewrite Z.mul_0_l, Z.div_0_l by lia.
Qed.

Lemma wholeNetworkNum_bounds_witness :
  10000000000000666666 ≤ wholeNetworkNum 60350423 ∧ basePledge (wholeNetworkNum 60350423) 0 = Ok maxPledge.
Proof.
  destruct (wholeNetworkNum_bounds 60350423) as [[H _] H2]; [lia|]. split; [exact H|exact H2].
Defined.
