(* ===== verification/World.v ===== *)
(** The state of the blockchain component and what it reads and writes it with:
    the keys, getters and configuration of [pkg/blockchain/types.go] and
    [blockchain.go], the root of the account state ([pkg/blockchain/state.go]) and
    the virtual machine's configuration ([pkg/contract/evm/evm.go]).

    go-ethereum's state store and its EVM are the classes [StateStore] and
    [EvmRuntime]; JSON decoding of transaction indexes is the class [TxIndexJson]. *)

From stdpp Require Import pretty.
From S2P Require Import Prelude Misc Badger BgStore Cbor Address Transaction Block Ledger.

(** ** Keys *)

Definition SnapRootKey : bytes := bs "snapRoot".
Definition HeightKey : bytes := bs "height".
Definition SnapRootPrefix : bytes := bs "blockSnap".
Definition HeightPrefix : bytes := bs "blockheight".
Definition BindingKey : bytes := bs "binding".

Definition height_key (h : Z) : bytes := HeightPrefix ++ E64func h.
Definition snap_key (h : Z) : bytes := SnapRootPrefix ++ E64func h.

(** ** Reading *)

(** What [store.DB] and [store.Transaction] have in common for reading. *)
Class Reader (X : Type) := kv_Get : bytes → X → res bytes.

Class ReaderLaws (X : Type) `{!Reader X} := {
  contents : X → gmap bytes bytes;
  kv_Get_law k x : k ≠ [] →
    kv_Get k x = match contents x !! k with Some v => Ok v | None => Err NotExist end;
}.

#[global] Instance txn_reader {T} `{!Badger T} : Reader T := λ k t, (get k t).1.
#[global] Program Instance txn_reader_laws {T} `{!Badger T, !BadgerLaws T} : ReaderLaws T :=
  {| contents := view |}.
Next Obligation. intros T ? ? k t Hk. unfold kv_Get, txn_reader. by rewrite get_run. Qed.

(** A database is read through a transaction of its own. *)
Record dbase (D : Type) := Dbase { un_db : D }.
Arguments Dbase {D} un_db.
Arguments un_db {D} d.

#[global] Instance db_reader {D T} `{!Badger T, !BadgerDB D T} : Reader (dbase D) :=
  λ k d, (Store.Get k (un_db d)).1.
#[global] Program Instance db_reader_laws {D T} `{!Badger T, !BadgerDB D T, !BadgerLaws T, !BadgerDBLaws D T} :
  ReaderLaws (dbase D) := {| contents d := dbview (un_db d) |}.
Next Obligation.
  intros D T ? ? ? ? k d Hk. unfold kv_Get, db_reader, Store.Get, Store.read. cbn [fst].
  by rewrite get_run, begin_view.
Qed.

Lemma kv_Get_db {D T} `{!Badger T, !BadgerDB D T, !BadgerLaws T, !BadgerDBLaws D T} k (d : D) :
  k ≠ [] → kv_Get k (Dbase d) = match dbview d !! k with Some v => Ok v | None => Err NotExist end.
Proof. intros Hk. rewrite kv_Get_law by done. by unfold contents, db_reader_laws. Qed.
Lemma kv_Get_tx {T} `{!Badger T, !BadgerLaws T} k (t : T) :
  k ≠ [] → kv_Get k t = match view t !! k with Some v => Ok v | None => Err NotExist end.
Proof. intros Hk. rewrite kv_Get_law by done. by unfold contents, txn_reader_laws. Qed.

Section Getters.
Context {X : Type} `{!Reader X, !CborHeader}.
Implicit Types (x : X).

(** getMaxBlockHeight get maximum block height *)
Definition getMaxBlockHeight x : res Z :=
  match kv_Get HeightKey x with
  | Err NotExist => Ok 0
  | Err e => Err e
  | Ok heightBytes => D64func heightBytes
  | Panic => Panic
  end.

Definition getHash (height : Z) x : res bytes := kv_Get (height_key height) x.

Definition getBlockByHash (hash : bytes) x : res Block :=
  blockData ← kv_Get hash x;
  Deserialize blockData.

(** getBlockByHeight get the block corresponding to the block height *)
Definition getBlockByHeight (height : Z) x : res Block :=
  if decide (height < 1) then err "parameter error" else
  hash ← kv_Get (height_key height) x;
  blockData ← kv_Get hash x;
  Deserialize blockData.

(** Get  blockchain top *)
Definition Tip x : res Block :=
  h ← getMaxBlockHeight x;
  hash ← getHash h x;
  blockData ← kv_Get hash x;
  Deserialize blockData.

Definition IsMainChainBlock (hash : bytes) x : res bool :=
  block ← getBlockByHash hash x;
  mainChainHash ← getHash (Height block) x;
  Ok (bool_decide (hash = mainChainHash)).

(** The loop follows parents until it meets the main chain; [fuel] bounds the steps. *)
Fixpoint FindChainBranch (fuel : nat) (Hash : bytes) x : option (res Block) :=
  match fuel with
  | O => None
  | S fuel =>
      match IsMainChainBlock Hash x with
      | Ok true => Some (getBlockByHash Hash x)
      | Ok false =>
          match getBlockByHash Hash x with
          | Ok block => FindChainBranch fuel (PrevHash block) x
          | Err e => Some (Err e)
          | Panic => Some Panic
          end
      | Err e => Some (Err e)
      | Panic => Some Panic
      end
  end.

End Getters.

(** *** Transactions by hash *)

Record TxIndex := MkTxIndex { idx_Height : Z; idx_Index : Z }.

Definition quoted (s : string) : bytes := [Byte.x22] ++ bs s ++ [Byte.x22].

(** [json.Marshal(txindex)] *)
Definition TxIndex_Marshal (i : TxIndex) : bytes :=
  bs "{" ++ quoted "Height" ++ bs ":" ++ bs (pretty (idx_Height i)) ++ bs "," ++
  quoted "Index" ++ bs ":" ++ bs (pretty (idx_Index i)) ++ bs "}".

(** [json.Unmarshal] into a [TxIndex]. *)
Class TxIndexJson := TxIndex_Unmarshal : bytes → res TxIndex.
Class TxIndexJsonLaws `{!TxIndexJson} :=
  TxIndex_Unmarshal_Marshal i : is_u64 (idx_Height i) → is_u64 (idx_Index i) →
    TxIndex_Unmarshal (TxIndex_Marshal i) = Ok i.

Section TxLookup.
Context {X : Type} `{!Reader X, !CborHeader, !TxIndexJson}.

(** getTransactionByHash get the transaction corresponding to the transaction hash;
    the index is not checked against the block's length *)
Definition getTransactionByHash (hash : bytes) (x : X) : res FinishedTransaction :=
  Hi ← kv_Get hash x;
  txindex ← TxIndex_Unmarshal Hi;
  b ← getBlockByHeight (idx_Height txindex) x;
  match Transactions b !! Z.to_nat (idx_Index txindex) with
  | None => Panic
  | Some ft => Ok (FTx (ft_st ft) (GasUsed ft) (Height b))
  end.

End TxLookup.

(** ** go-ethereum's state store *)

(** Opening the account state at a root, and committing it: to the in-memory trie
    database ([Commit], which writes contract code to disk), and from there to disk. *)
Class StateStore (D S : Type) := {
  BytesToHash : bytes → bytes;
  state_New : bytes → D → res S;
  sdb_Commit : bool → stM (D * S) bytes;
  trie_Commit : bytes → stM (D * S) unit;
}.

(** The keys this component keeps in the database it shares with the trie: the trie's
    own keys are hashes, alone or behind a prefix. *)
Definition own_key (k : bytes) : Prop := (length k < 32)%nat.

Class StateStoreLaws (D S T : Type) `{!StateStore D S, !StateDB S, !Badger T, !BadgerDB D T, !BadgerLaws T,
    !BadgerDBLaws D T} := {
  BytesToHash_32 b : length b = 32%nat → BytesToHash (D := D) (S := S) b = b;
  Commit_frame del ds r ds' : sdb_Commit del ds = (r, ds') →
    r ≠ Panic ∧ (∀ k, own_key k → dbview ds'.1 !! k = dbview ds.1 !! k) ∧
    (∀ root, r = Ok root → length root = 32%nat);
  Commit_accounts del ds r ds' a : sdb_Commit del ds = (r, ds') →
    sdb_GetBalance a ds'.2 = sdb_GetBalance a ds.2 ∧ sdb_GetNonce a ds'.2 = sdb_GetNonce a ds.2;
  trie_Commit_frame root ds r ds' : trie_Commit root ds = (r, ds') →
    r ≠ Panic ∧ (∀ k, own_key k → dbview ds'.1 !! k = dbview ds.1 !! k) ∧ ds'.2 = ds.2;
}.

(** ** The virtual machine *)

(** [runtime.Config]; [cfg_Difficulty] is a pointer. *)
Record EvmCfg := Cfg {
  cfg_ChainId : Z; BlockNumber : Z; Coinbase : bytes; Time : Z; cfg_Difficulty : option Z;
  Value : Z; cfg_GasPrice : Z; cfg_GasLimit : Z; cfg_Origin : bytes;
}.

Class EvmRuntime (S : Type) := {
  (* what they return, the contract's address, the gas left, an error *)
  rt_Create : bytes → EvmCfg → S → (bytes * bytes * Z * option error) * S;
  rt_Call : bytes → bytes → EvmCfg → S → (bytes * Z * option error) * S;
  sdb_GetCode : bytes → S → bytes;
  sdb_SetCode : bytes → bytes → S → S;
  sdb_Prepare : bytes → Z → S → S;
  sdb_GetLogs : bytes → bytes → S → list EthLog;
}.

Record ChainConfig := ChainCfg { ChainId : Z; NetworkId : Z; CfgGasLimit : Z; CfgGasPrice : Z }.

(** [time.Now()] is the argument [now]; it is only the time of a configuration that no
    [SetBlockInfo] follows. *)
Definition NewEvm (now : Z) (cfg : ChainConfig) : EvmCfg :=
  Cfg (ChainId cfg) 0 (replicate 20 Byte.x00) now (Some 0) 0 (i64 (CfgGasPrice cfg)) (CfgGasLimit cfg)
    (replicate 20 Byte.x00).

Definition SetBlockInfo (num tm : Z) (miner : bytes) (difficulty : option Z) (e : EvmCfg) : EvmCfg :=
  Cfg (cfg_ChainId e) num miner tm difficulty (Value e) (cfg_GasPrice e) (cfg_GasLimit e) (cfg_Origin e).

Definition SetConfig (val price limit : Z) (origin : bytes) (e : EvmCfg) : EvmCfg :=
  Cfg (cfg_ChainId e) (BlockNumber e) (Coinbase e) (Time e) (cfg_Difficulty e) val price limit origin.

(** ** The blockchain *)

(** [Blockchain]: the database, the account state, and the virtual machine (whose state is
    always the account state).  The mutex makes every method one step. *)
Record chain (D S : Type) := Chain { db : D; sdb : S; evm : EvmCfg }.
Arguments Chain {D S} db sdb evm.
Arguments db {D S} c.
Arguments sdb {D S} c.
Arguments evm {D S} c.

(** The same while a method has the database transaction [w_tx] open. *)
Record world (D S T : Type) := World { w_db : D; w_sdb : S; w_tx : T; w_evm : EvmCfg }.
Arguments World {D S T} w_db w_sdb w_tx w_evm.
Arguments w_db {D S T} w.
Arguments w_sdb {D S T} w.
Arguments w_tx {D S T} w.
Arguments w_evm {D S T} w.

Section Parts.
Context {D S T : Type}.

Definition on_sdb {A} : stM S A → stM (world D S T) A :=
  zoom w_sdb (λ s w, World (w_db w) s (w_tx w) (w_evm w)).
Definition on_tx {A} : stM T A → stM (world D S T) A :=
  zoom w_tx (λ t w, World (w_db w) (w_sdb w) t (w_evm w)).
Definition on_evm {A} : stM EvmCfg A → stM (world D S T) A :=
  zoom w_evm (λ e w, World (w_db w) (w_sdb w) (w_tx w) e).
Definition on_store {A} : stM (D * S) A → stM (world D S T) A :=
  zoom (λ w, (w_db w, w_sdb w)) (λ ds w, World ds.1 ds.2 (w_tx w) (w_evm w)).

(** Reading the transaction, and the database behind it. *)
Definition from_tx {A} (f : T → res A) : stM (world D S T) A := λ w, (f (w_tx w), w).
Definition from_db {A} (f : dbase D → res A) : stM (world D S T) A := λ w, (f (Dbase (w_db w)), w).

End Parts.

Section Chain.
Context {D S T : Type} `{!Badger T, !BadgerDB D T, !StateStore D S}.

(** getSnapRoot Get the SnapRoot of the DB *)
Definition getSnapRoot {X} `{!Reader X} (x : X) : res bytes :=
  match kv_Get SnapRootKey x with
  | Err NotExist => Ok (replicate 32 Byte.x00)
  | Err e => Err e
  | Ok sr => Ok (BytesToHash (D := D) (S := S) sr)
  | Panic => Panic
  end.

(** factCommit writes the state to the underlying in-memory trie database *)
Definition factCommit (deleteEmptyObjects : bool) : stM (D * S) bytes :=
  ha ← sdb_Commit deleteEmptyObjects;
  trie_Commit ha ;;
  mret ha.

Definition fakeCommit1 (deleteEmptyObjects : bool) : stM (D * S) bytes := sdb_Commit deleteEmptyObjects.

(** The method does the same to the state of the blockchain. *)
Definition FactCommit (deleteEmptyObjects : bool) : stM (chain D S) bytes :=
  zoom (λ c, (db c, sdb c)) (λ ds c, Chain ds.1 ds.2 (evm c)) (factCommit deleteEmptyObjects).

(** A copy of the account state is committed. *)
Definition fakeCommit (deleteEmptyObjects : bool) : stM (D * S) bytes := λ ds,
  let '(r, ds') := factCommit deleteEmptyObjects ds in (r, (ds'.1, ds.2)).

Definition updateNewStateByRoot (root : bytes) (d : D) : res S := state_New root d.

Definition chain_db {A} : stM D A → stM (chain D S) A := zoom db (λ d c, Chain d (sdb c) (evm c)).

Definition open_state (root : bytes) : stM (chain D S) unit := λ c,
  match updateNewStateByRoot root (db c) with
  | Ok s => (Ok tt, Chain (db c) s (evm c))
  | Err e => (Err e, c)
  | Panic => (Panic, c)
  end.

(** The root is entered for the next height and as the last one, and the account state opened at it. *)
Definition updateNewState (root : bytes) : stM (chain D S) unit :=
  prevHeight ← chain_db (λ d, (getMaxBlockHeight (Dbase d), d));
  let height := prevHeight +₆₄ 1 in
  chain_db (Store.Set_ (snap_key height) root) ;;
  chain_db (Store.Del SnapRootKey) ;;
  chain_db (Store.Set_ SnapRootKey root) ;;
  open_state root.

Variable now : Z.
Variable cfg : ChainConfig.

(** New create blockchain object *)
Definition New (d : D) : res (chain D S) :=
  root ← getSnapRoot (Dbase d);
  stdb ← state_New root d;
  Ok (Chain d stdb (NewEvm now cfg)).

Definition rollState (rollroot : bytes) : stM (chain D S) unit := λ c,
  match updateNewStateByRoot rollroot (db c) with
  | Ok s => (Ok tt, Chain (db c) s (NewEvm now cfg))
  | Err e => (Err e, c)
  | Panic => (Panic, c)
  end.

(** [DBTransaction := bc.db.NewTransaction(); defer DBTransaction.Cancel()] *)
Definition with_txn {A} (m : stM (world D S T) A) : stM (chain D S) A := λ c,
  let '(r, w) := m (World (db c) (sdb c) (db_begin (db c)) (evm c)) in
  (r, Chain (w_db w) (w_sdb w) (w_evm w)).

Definition Commit : stM (world D S T) unit := λ w,
  let '(r, d) := db_commit (w_tx w) (w_db w) in (r, World d (w_sdb w) (w_tx w) (w_evm w)).

End Chain.

(** ** A concrete world

    The database of [MapTxn] with the account states that were committed to it; a state's
    root is its number. *)

Module MapWorld.

Record mdb := Mdb { kvs : gmap bytes bytes; states : list MapState.state }.

#[global] Instance state_eq_dec : EqDecision MapState.state.
Proof. solve_decision. Defined.

#[global] Instance mdb_badger : BadgerDB mdb MapTxn.txn := {
  db_begin d := db_begin (kvs d);
  db_commit t d := let '(r, kv) := db_commit t (kvs d) in (r, Mdb kv (states d));
}.

#[global] Program Instance mdb_laws : BadgerDBLaws mdb MapTxn.txn := {
  dbview d := dbview (T := MapTxn.txn) (kvs d);
}.
Next Obligation. intros d. apply (begin_view (kvs d)). Qed.
Next Obligation. intros d. apply (begin_base (kvs d)). Qed.
Next Obligation. intros d. apply (begin_room (kvs d)). Qed.
Next Obligation. intros d. apply (begin_writes (kvs d)). Qed.
Next Obligation.
  intros d t Hb. destruct (commit_law (kvs d) t Hb) as (kv & Hc & Hv). simpl in *.
  injection Hc as <-. by eexists.
Qed.
Next Obligation.
  intros d t d' Hc. simpl in Hc. injection Hc as <-. by apply (commit_merge (kvs d)).
Qed.
Next Obligation. by intros d t r d' [= <- <-] Hr. Qed.

Definition root_of (n : nat) : bytes := E64func (Z.of_nat n + 1) ++ replicate 24 Byte.x00.

Fixpoint index_of (s : MapState.state) (l : list MapState.state) : option nat :=
  match l with
  | [] => None
  | s' :: l => if decide (s = s') then Some 0%nat else Datatypes.S <$> index_of s l
  end.

#[global] Instance store : StateStore mdb MapState.state := {
  BytesToHash b := take 32 (b ++ replicate 32 Byte.x00);
  state_New root d :=
    if decide (root = replicate 32 Byte.x00) then Ok (MapState.State ∅ ∅) else
    match le_combine (take 8 root) with
    | n => match states d !! Z.to_nat (n - 1) with Some s => Ok s | None => err "missing trie node" end
    end;
  sdb_Commit _ ds :=
    match index_of ds.2 (states ds.1) with
    | Some n => (Ok (root_of n), ds)
    | None => (Ok (root_of (length (states ds.1))), (Mdb (kvs ds.1) (states ds.1 ++ [ds.2]), ds.2))
    end;
  trie_Commit _ ds := (Ok tt, ds);
}.

Lemma root_of_length n : length (root_of n) = 32%nat.
Proof. unfold root_of. by rewrite length_app, length_E64func. Qed.

#[global] Program Instance store_laws : StateStoreLaws mdb MapState.state MapTxn.txn.
Next Obligation.
  intros b Hb. unfold BytesToHash, store. by rewrite take_app_length' by done.
Qed.
Next Obligation.
  intros del ds r ds' Hc. simpl in Hc. destruct (index_of _ _); injection Hc as <- <-;
    (split; [done|]; split; [done|]); intros root [= <-]; apply root_of_length.
Qed.
Next Obligation.
  intros del ds r ds' a Hc. simpl in Hc. by destruct (index_of _ _); injection Hc as <- <-.
Qed.
Next Obligation. by intros root ds r ds' [= <- <-]. Qed.

(** A virtual machine on which every call succeeds and leaves all the gas. *)
#[global] Instance runtime : EvmRuntime MapState.state := {
  rt_Create code cfg s := ([], replicate 20 Byte.x00, cfg_GasLimit cfg, None, s);
  rt_Call to input cfg s := ([], cfg_GasLimit cfg, None, s);
  sdb_GetCode _ _ := [];
  sdb_SetCode _ _ s := s;
  sdb_Prepare _ _ s := s;
  sdb_GetLogs _ _ _ := [];
}.

End MapWorld.
