(* ===== verification/Apply.v ===== *)
(** Applying a block's transactions: the loop that [AddBlock], [AddTempBlock] and
    [AddSmallBlock] ([pkg/blockchain/blockchain.go], [addAndDel.go], [syncblock.go])
    each have a copy of, the index of transactions by address and hash, and contract
    transactions ([contract.go]). *)

From S2P Require Import Prelude Misc Badger BgStore Base58 Cbor Address Transaction Block Ledger World.

Definition ETHDECIMAL : Z := 10000000.
Definition MAXGASLIMIT : Z := 10000000000000.
Definition MINGASLIMIT : Z := 2100000.

(** ** The index *)

Section Index.
Context {T : Type} `{!Badger T, !CborHeader, !Crypto, !EthCommon}.

(** setTxbyaddrKV transaction data is stored by address and corresponding kV;
    the errors of both writes are ignored *)
Definition setTxbyaddrKV (addr hash : bytes) (height index : Z) : stM T unit :=
  ignore_err (mset addr hash []) tt ;;
  let txindex := MkTxIndex height index in
  ignore_err (set hash (TxIndex_Marshal txindex)) tt.

(** deleteTxbyaddrKV delete transaction data by address and corresponding kV *)
Definition deleteTxbyaddrKV (addr : bytes) (tx : FinishedTransaction) (index : Z) : stM T unit :=
  let txHash := Hash (ft_tx tx) in
  mdel addr txHash ;;
  del txHash.

(** binding kto address and eth address *)
Definition bindingAddress (ethaddr ktoaddr : bytes) : stM T unit := mset BindingKey ethaddr ktoaddr.

Definition getBindingKtoAddress (ethAddr : bytes) : stM T Address :=
  data ← mget BindingKey (HexToAddress ethAddr);
  st_lift (NewFromBytes data).

Definition GetBindingEthAddress (ktoAddr : Address) : stM T bytes :=
  ethAddr ← mget BindingKey (Bytes ktoAddr);
  mret (eth_Hex (BytesToAddress ethAddr)).

End Index.

(** ** Transactions *)

Section Apply.
Context {D S T : Type} `{!Badger T, !BadgerDB D T, !StateDB S, !StateStore D S, !EvmRuntime S}.
Context `{!CborHeader, !Crypto, !EthCommon, !EvmData}.
Variable g : globals.

Abbreviation M := (stM (world D S T)).

(** An error is logged with the text of some addresses before it is returned; the text
    of an address of no known protocol panics. *)
Fixpoint log_texts (l : list Address) : res unit :=
  match l with
  | [] => Ok tt
  | a :: l => String g a ≫= λ _, log_texts l
  end.
Definition logged {A} (l : list Address) (m : M A) : M A :=
  st_catch m (λ e, st_lift (log_texts l) ;; st_err e).

(** The binding that [setAccount] looks up in the database, not in the transaction. *)
Definition db_binding (d : D) (ethAddr : bytes) : res Address :=
  (getBindingKtoAddress ethAddr (db_begin (T := T) d)).1.

Definition set_account (tx : FinishedTransaction) : M unit := λ w,
  on_sdb (setAccount g (db_binding (w_db w)) tx None) w.

Definition set_gas (gas : Z) (tx : FinishedTransaction) : FinishedTransaction := FTx (ft_st tx) gas (BlockNum tx).
Definition set_input (input : bytes) (tx : FinishedTransaction) : FinishedTransaction :=
  let t := ft_tx tx in
  FTx (STx (Tx (Version t) (Type_ t) (From t) (To t) (Amount t) (Nonce t) (GasLimit t) (GasFeeCap t)
             (GasPrice t) input) (st_sig (ft_st tx))) (GasUsed tx) (BlockNum tx).

(** *** Contracts *)

Definition evm_Create (code origin : bytes) : M (bytes * bytes * Z * option error) := λ w,
  on_sdb (λ s, let '(r, s) := rt_Create code (w_evm w) s in (Ok r, s)) w.
Definition evm_Call (contAddr origin inputCode : bytes) : M (bytes * Z * option error) := λ w,
  on_sdb (λ s, let s := sdb_SetCode contAddr (sdb_GetCode contAddr s) s in
               let '(r, s) := rt_Call contAddr inputCode (w_evm w) s in (Ok r, s)) w.

(** handle contract transaction: what is left of the gas, and the transaction with the
    outcome in its input *)
Definition handleContractTransaction (block : Block) (tx : FinishedTransaction) (index : Z) :
    M (Z * FinishedTransaction) :=
  let t := ft_tx tx in
  let hash := BytesToHash (D := D) (S := S) in
  let gasLimit := GasLimit t *₆₄ GasPrice t in
  let gasLimit := if decide (gasLimit = 0) then MAXGASLIMIT else gasLimit in
  evmC ← st_lift (DecodeEvmData (Input t));
  eth_tx ← st_lift (DecodeEthData (EthData evmC));
  let TxValue := eth_Value eth_tx / ETHDECIMAL in
  on_evm (st_modify (SetConfig TxValue (GasPrice t) gasLimit (Origin evmC))) ;;
  on_sdb (st_modify (sdb_Prepare (hash (Hash t)) index)) ;;
  let raise gasLeft := if decide (gasLeft < MINGASLIMIT) then MINGASLIMIT else gasLeft in
  let finish gasLeft evmC :=
    logs ← on_sdb (st_gets (sdb_GetLogs (hash (Hash t)) (hash (BHash block))));
    let evmC := MkEvm (EthData evmC) (MsgHash evmC) (Operation evmC) (CreateCode evmC) (Origin evmC)
                  (ContractAddr evmC) (CallInput evmC) (Ret evmC) true logs in
    match EncodeEvmData evmC with
    | Ok input => mret (gasLeft, set_input input tx)
    | Err _ => mret (gasLeft, tx)
    | Panic => st_panic
    end in
  if decide (Operation evmC = bs "create" ∨ Operation evmC = bs "Create") then
    on_sdb (st_modify (sdb_SetNonce (Origin evmC) (Nonce t))) ;;
    '(ret, contractAddr, leftOver, err) ← evm_Create (CreateCode evmC) (Origin evmC);
    let gasLeft := raise leftOver in
    match err with
    | Some _ => mret (gasLeft, tx)
    | None =>
        finish gasLeft (MkEvm (EthData evmC) (MsgHash evmC) (Operation evmC) (CreateCode evmC) (Origin evmC)
                          contractAddr (CallInput evmC) (Ret evmC) (Status evmC) (Logs evmC))
    end
  else if decide (Operation evmC = bs "call" ∨ Operation evmC = bs "Call") then
    on_sdb (st_modify (sdb_SetNonce (Origin evmC) (Nonce t +₆₄ 1))) ;;
    '(ret, leftOver, err) ← evm_Call (ContractAddr evmC) (Origin evmC) (CallInput evmC);
    let gasLeft := raise leftOver in
    match err with
    | Some _ => mret (gasLeft, tx)
    | None =>
        finish gasLeft (MkEvm (EthData evmC) (MsgHash evmC) (Operation evmC) (CreateCode evmC) (Origin evmC)
                          (ContractAddr evmC) (CallInput evmC) (EncodeToString ret) (Status evmC) (Logs evmC))
    end
  else finish 0 evmC.

(** *** One transaction *)

(** The body of the loop; it returns the transaction with its gas, and its input, set. *)
Definition apply_tx (block : Block) (height index : Z) (tx : FinishedTransaction) : M FinishedTransaction :=
  let t := ft_tx tx in
  let txHash := Hash t in
  if IsCoinBaseTransaction t then
    on_tx (setTxbyaddrKV (Bytes (To t)) txHash height index) ;;
    let tx := set_gas (GasLimit t *₆₄ GasPrice t) tx in
    logged [Miner block] (on_sdb (setMinerFee g (Miner block) (GasUsed tx))) ;;
    logged [From t] (on_sdb (setToAccount g t)) ;;
    mret tx
  else if IsLockTransaction t || IsUnlockTransaction t then
    on_tx (setTxbyaddrKV (Bytes (From t)) txHash height index) ;;
    on_tx (setTxbyaddrKV (Bytes (To t)) txHash height index) ;;
    let nonce := Nonce t +₆₄ 1 in
    logged [From t; To t] (on_sdb (setNonce g (From t) nonce)) ;;
    let tx := set_gas (GasLimit t *₆₄ GasPrice t) tx in
    logged [Miner block] (on_sdb (setMinerFee g (Miner block) (GasUsed tx))) ;;
    logged [From t] (on_sdb (setFreezeAccount g (From t) (To t) (Amount t) (GasUsed tx)
                               (if IsLockTransaction t then 1 else 0))) ;;
    mret tx
  else if IsEvmContractTransaction t then
    on_tx (setTxbyaddrKV (Bytes (From t)) txHash height index) ;;
    '(gasLeft, tx) ← handleContractTransaction block tx index;
    limit ← on_evm (st_gets cfg_GasLimit);
    if decide (limit < gasLeft) then st_err (ErrMsg "evm gaslimit < gasLeft") else
    let tx := set_gas (limit -₆₄ gasLeft) tx in
    on_sdb (setMinerFee g (Miner block) (GasUsed tx)) ;;
    logged [From t; To t] (set_account tx) ;;
    mret tx
  else
    on_tx (setTxbyaddrKV (Bytes (From t)) txHash height index) ;;
    on_tx (setTxbyaddrKV (Bytes (To t)) txHash height index) ;;
    let nonce := Nonce t +₆₄ 1 in
    logged [From t; To t] (on_sdb (setNonce g (From t) nonce)) ;;
    let tx := set_gas (GasLimit t *₆₄ GasPrice t) tx in
    logged [Miner block] (on_sdb (setMinerFee g (Miner block) (GasUsed tx))) ;;
    logged [From t; To t] (set_account tx) ;;
    mret tx.

(** The loop.  [log] says whether every transaction is logged, with the text of its
    sender, before it is applied: [AddBlock] does.  It returns the transactions and the
    sum of their gas. *)
Fixpoint apply_txs (log : bool) (block : Block) (height index blockGasU : Z) (txs : list FinishedTransaction) :
    M (list FinishedTransaction * Z) :=
  match txs with
  | [] => mret ([], blockGasU)
  | tx :: txs =>
      (if log then st_lift (log_texts [From (ft_tx tx)]) else mret tt) ;;
      tx ← apply_tx block height index tx;
      '(txs, gas) ← apply_txs log block height (index + 1) (blockGasU +₆₄ GasUsed tx) txs;
      mret (tx :: txs, gas)
  end.

End Apply.
