(* ===== verification/Pledge.v ===== *)
(** Pledges and the locked part of mined coins ([pkg/blockchain/pledge.go], [distribute.go]).
    No code calls these functions.

    The amounts are balances of the account state under derived accounts, the terms of
    release records in maps of the database.  [encoding/json] writes exported fields only, of
    which the records have none, so that every record is written as an empty object, and
    reading one sets no field. *)

From S2P Require Import Prelude Misc Badger BgStore Base58 Cbor Address Transaction Block Ledger World Apply.

Definition PledgeKey : bytes := bs "PledgeInfo".
Definition TotalPledgeKey : bytes := bs "TotalPledgeKey".
Definition MinedKey : bytes := bs "MinedKey".
Definition TotalMinedKey : bytes := bs "TotalMinedKey".

Definition PledgeCycle : Z := 120.
Definition DayMinedBlocks : Z := 8640.
Definition CycleMax : Z := PledgeCycle * DayMinedBlocks.

Record NodeKeyPledge := MkNodeKeyPledge { node : bytes; startCycleHeight : Z }.
(** [NodeValuePledge] and [DistriValueInfo] have the same fields. *)
Record NodeValuePledge := MkNodeValuePledge { releaseValue : Z; startReleaseHeight : Z; stopReleaseHeight : Z }.
Record DistriKeyInfo := MkDistriKeyInfo { blockMiner : bytes; minedHeight : Z }.

(** [json.Marshal] of any of the records. *)
Definition json_Marshal {A} (record : A) : bytes := bs "{}".

Section Pledge.
Context {D S T : Type} `{!Badger T, !BadgerDB D T, !StateDB S, !EthCommon}.
Variable g : globals.
(** [json.Unmarshal] of a list of records: whether each is an object, which makes it a record of
    zero values, or a null. *)
Variable json_list : bytes → option (list bool).
Implicit Types (block : Block).

Abbreviation M := (stM (world D S T)).

Definition BytesSha1Address (addr : bytes) : bytes := HexToAddress (EncodeToString (sha1_Sum addr)).

(** ** Amounts *)

Definition setTotalPledge (addr pledge : bytes) : stM S unit :=
  let addrress := BytesSha1Address (EMapKey TotalPledgeKey addr) in
  bigPlg ← st_lift (D64func pledge);
  st_modify (sdb_SetBalance addrress bigPlg).

Definition getTotalPledge (address : bytes) : stM S Z :=
  read_balance (BytesSha1Address (EMapKey TotalPledgeKey address)).

Definition GetTotalPledge (address : bytes) : stM (chain D S) Z :=
  zoom sdb (λ s c, Chain (db c) s (evm c)) (getTotalPledge address).

Definition setTotalMined (addr minedVal : bytes) : stM S unit :=
  let addrress := BytesSha1Address (EMapKey TotalMinedKey addr) in
  bigMind ← st_lift (D64func minedVal);
  st_modify (sdb_SetBalance addrress bigMind).

Definition getTotalMined (address : bytes) : stM S Z :=
  read_balance (BytesSha1Address (EMapKey TotalMinedKey address)).

Definition GetTotalMined (address : Address) : stM (chain D S) Z :=
  zoom sdb (λ s c, Chain (db c) s (evm c)) (getTotalMined (Bytes address)).

(** ** Records *)

Definition setPledgeInfo (nodeKP : NodeKeyPledge) (nodeVP : NodeValuePledge) : stM T unit :=
  mset PledgeKey (json_Marshal nodeKP) (json_Marshal nodeVP).

Definition getPledgeKVsInfo (prefix : bytes) : stM T (list bytes * list bytes) := mkvs prefix.

Definition getPledgeValueInfo (nodeKP : NodeKeyPledge) : stM T bytes := mget PledgeKey (json_Marshal nodeKP).

Definition setDistriInfo (dki : DistriKeyInfo) (dvi : NodeValuePledge) : stM T unit :=
  mset MinedKey (json_Marshal dki) (json_Marshal dvi).

(** [for _, k := range ks { json.Unmarshal(k, &l) }]: every document replaces the list that the one
    before it was read into, and the first that is none ends the loop. *)
Fixpoint read_records {A} (zero : A) (ks : list bytes) (l : list (option A)) : res (list (option A)) :=
  match ks with
  | [] => Ok l
  | k :: ks =>
      match json_list k with
      | None => err "json: cannot unmarshal"
      | Some objects => read_records zero ks ((λ o : bool, if o then Some zero else None) <$> objects)
      end
  end.

Definition zero_key : NodeKeyPledge := MkNodeKeyPledge [] 0.
Definition zero_value : NodeValuePledge := MkNodeValuePledge 0 0 0.
Definition zero_mined : DistriKeyInfo := MkDistriKeyInfo [] 0.

(** ** Pledging *)

(** handle pledge transaction *)
Definition handlePledgeTransaction block (tx : Transaction) : M unit :=
  totPledge ← on_sdb (getTotalPledge (Bytes (From tx)));
  (if decide (totPledge = 0) then
     let startCycleHeight := Height block in
     let startReleaseHeight := startCycleHeight +₆₄ 1 +₆₄ CycleMax in
     let stopReleaseHeight := startReleaseHeight -₆₄ 1 +₆₄ CycleMax in
     node ← st_lift (String g (From tx));
     on_tx (setPledgeInfo (MkNodeKeyPledge node startCycleHeight)
              (MkNodeValuePledge 0 startReleaseHeight stopReleaseHeight))
   else mret tt) ;;
  let totPledge := totPledge +₆₄ Amount tx in
  on_sdb (setTotalPledge (Bytes (From tx)) (E64func totPledge)).

Definition DIVID : Z := 7.
Definition DIVIDEND : Z := 10.

(** pledge 70% mined *)
Definition handleMinedPledge block (to : Address) (amount : Z) : M unit :=
  totMinedPledge ← on_sdb (getTotalMined (Bytes to));
  if decide (Miner block = to) then
    let minedPledge := (amount *₆₄ DIVID) / DIVIDEND in
    let totMinedPledge := totMinedPledge +₆₄ minedPledge in
    on_sdb (setTotalMined (Bytes to) (E64func totMinedPledge)) ;;
    blockMiner ← st_lift (String g (Miner block));
    let minedHeight := Height block in
    on_tx (setDistriInfo (MkDistriKeyInfo blockMiner minedHeight)
             (MkNodeValuePledge (minedPledge / CycleMax) (minedHeight +₆₄ CycleMax) (minedHeight +₆₄ 2 * CycleMax)))
  else mret tt.

(** ** Releasing *)

(** What is released of one pledge in a block; the total is written under the text of the
    address, and read under its bytes. *)
Definition release_pledge block (k : NodeKeyPledge) (v : NodeValuePledge) (totPledge : Z) : M unit :=
  '(v, relValue) ← (if decide (Height block = startReleaseHeight v ∧ releaseValue v = 0) then
      let v := MkNodeValuePledge (totPledge / CycleMax) (startReleaseHeight v) (stopReleaseHeight v) in
      on_tx (setPledgeInfo k v) ;; mret (v, releaseValue v)
    else mret (v, releaseValue v));
  let totPledge := if decide (totPledge >= relValue) then totPledge -₆₄ relValue else totPledge in
  let totPledge := if decide (totPledge < relValue ∧ totPledge > 0) then 0 else totPledge in
  on_sdb (setTotalPledge (node k) (E64func totPledge)) ;;
  if decide (Height block = stopReleaseHeight v) then
    on_tx (ignore_err (mdel PledgeKey (json_Marshal k)) tt) ;;
    let k := MkNodeKeyPledge (node k) (Height block) in
    let start := stopReleaseHeight v +₆₄ 1 in
    let v := MkNodeValuePledge (releaseValue v) start (start -₆₄ 1 +₆₄ CycleMax) in
    on_tx (setPledgeInfo k v)
  else mret tt.

(** The loop over the pledges; [vs] are the values from the same index on. *)
Fixpoint release_loop block (ks : list (option NodeKeyPledge)) (vs : list (option NodeValuePledge)) : M unit :=
  match ks with
  | [] => mret tt
  | k :: ks =>
      match vs with
      | [] => st_panic
      | v :: vs =>
          (match k with
           | None => st_panic
           | Some k =>
               match NewAddrFromString g (node k) with
               | Panic => st_panic
               | Err _ => mret tt
               | Ok addr =>
                   totPledge ← on_sdb (getTotalPledge (Bytes addr));
                   if decide (totPledge > 0 ∧ Height block > startCycleHeight k) then
                     match v with
                     | None => st_panic
                     | Some v =>
                         if decide (startReleaseHeight v <= Height block <= stopReleaseHeight v)
                         then release_pledge block k v totPledge else mret tt
                     end
                   else mret tt
               end
           end) ;;
          release_loop block ks vs
      end
  end.

(** release pledge if need *)
Definition releasePlege block : M unit :=
  '(ks, vs) ← on_tx (getPledgeKVsInfo PledgeKey);
  pledgeKs ← st_lift (read_records zero_key ks []);
  pledgeVs ← st_lift (read_records zero_value vs []);
  release_loop block pledgeKs pledgeVs.

Definition release_part block (k : DistriKeyInfo) (v : NodeValuePledge) (totMinedPledge : Z) : M unit :=
  let totMinedPledge := if decide (totMinedPledge >= releaseValue v) then totMinedPledge -₆₄ releaseValue v else 0 in
  on_sdb (setTotalMined (blockMiner k) (E64func totMinedPledge)) ;;
  if decide (Height block = stopReleaseHeight v) then
    on_tx (ignore_err (mdel MinedKey (json_Marshal k)) tt)
  else mret tt.

Fixpoint mined_loop block (ks : list (option DistriKeyInfo)) (vs : list (option NodeValuePledge)) : M unit :=
  match ks with
  | [] => mret tt
  | None :: _ => st_panic
  | Some k :: ks =>
      (if decide (Height block > minedHeight k) then
         addr ← st_lift (NewAddrFromString g (blockMiner k));
         totMinedPledge ← on_sdb (getTotalMined (Bytes addr));
         match vs with
         | [] => st_panic
         | v :: _ =>
             if decide (totMinedPledge > 0) then
               match v with
               | None => st_panic
               | Some v =>
                   if decide (startReleaseHeight v <= Height block <= stopReleaseHeight v)
                   then release_part block k v totMinedPledge else mret tt
               end
             else mret tt
         end
       else mret tt) ;;
      mined_loop block ks (tail vs)
  end.

(** release mined pledge *)
Definition releaseMined block : M unit :=
  '(ks, vs) ← on_tx (getPledgeKVsInfo MinedKey);
  mdKs ← st_lift (read_records zero_mined ks []);
  mdVs ← st_lift (read_records zero_value vs []);
  mined_loop block mdKs mdVs.

End Pledge.

(** ** What becomes of a pledge *)

Section Facts.
Context {D S T : Type} `{!Badger T, !BadgerDB D T, !StateDB S, !EthCommon}.
Context `{!BadgerLaws T, !StateDBLaws S}.
Variables (g : globals) (json_list : bytes → option (list bool)).
Implicit Types (block : Block) (w : world D S T).

(** A record that was read is a null or has zeros in all its fields. *)
Definition blank {A} (zero : A) (l : list (option A)) : Prop := Forall (λ o, o = None ∨ o = Some zero) l.

Lemma read_records_blank {A} (zero : A) ks l l' : blank zero l → read_records json_list zero ks l = Ok l' → blank zero l'.
Proof.
  revert l. induction ks as [|k ks IH]; intros l Hl; cbn [read_records]; [by intros [= <-]|].
  destruct (json_list k) as [os|]; [|done]. apply IH. apply Forall_fmap, Forall_forall. intros [] _; [by right|by left].
Qed.

(** A document that is no list makes the reading fail. *)
Lemma read_records_bad {A} (zero : A) ks l k : k ∈ ks → json_list k = None → ∃ e, read_records json_list zero ks l = Err e.
Proof.
  revert l. induction ks as [|k' ks IH]; intros l Hin Hk; [by apply elem_of_nil in Hin|]. cbn [read_records].
  apply elem_of_cons in Hin as [<-|Hin]; [rewrite Hk; by eexists|]. destruct (json_list k'); [by apply IH|by eexists].
Qed.

Lemma no_node : ∃ e, NewAddrFromString g [] = Err e.
Proof. eexists. unfold NewAddrFromString, decode. by rewrite decide_True by (vm_compute; lia). Qed.

Lemma release_loop_blank block ks vs w : blank zero_key ks → ∃ r, release_loop g block ks vs w = (r, w).
Proof.
  intros Hks. revert vs. induction Hks as [|k ks Hk _ IH]; intros vs; cbn [release_loop]; [by eexists|].
  destruct vs as [|v vs]; [by eexists|]. destruct Hk as [-> | ->]; [by eexists|].
  cbn [node zero_key]. destruct no_node as [e ->]. apply IH.
Qed.

Lemma mined_loop_blank block ks vs w : blank zero_mined ks → ∃ r, mined_loop g block ks vs w = (r, w).
Proof.
  intros Hks. revert vs. induction Hks as [|k ks Hk _ IH]; intros vs; cbn [mined_loop]; [by eexists|].
  destruct Hk as [-> | ->]; [by eexists|]. cbn [minedHeight blockMiner zero_mined]. unfold st_lift.
  destruct no_node as [e He]. rewrite He. unfold mbind at 1, stM_bind at 1. case_decide; [by eexists|]. apply IH.
Qed.

(** Reading a map of the transaction changes nothing. *)
Lemma getPledgeKVsInfo_run prefix w : ∃ r, on_tx (getPledgeKVsInfo prefix) w = (r, w).
Proof.
  unfold on_tx, zoom, getPledgeKVsInfo, mkvs, scan, st_gets, st_lift. unfold mbind, stM_bind.
  destruct w. by eexists.
Qed.

Lemma releasePlege_run block w : ∃ r, releasePlege g json_list block w = (r, w).
Proof.
  unfold releasePlege. destruct (getPledgeKVsInfo_run PledgeKey w) as [[[ks vs]|e|] Hr]; unfold mbind at 1, stM_bind at 1; rewrite Hr; [|by eexists..].
  unfold st_lift. destruct (read_records json_list zero_key ks []) as [pks|e|] eqn:Ek; unfold mbind at 1, stM_bind at 1; [|by eexists..].
  destruct (read_records json_list zero_value vs []) as [pvs|e|]; unfold mbind at 1, stM_bind at 1; [|by eexists..].
  apply release_loop_blank. by eapply read_records_blank; [constructor|].
Qed.

Lemma releaseMined_run block w : ∃ r, releaseMined g json_list block w = (r, w).
Proof.
  unfold releaseMined. destruct (getPledgeKVsInfo_run MinedKey w) as [[[ks vs]|e|] Hr]; unfold mbind at 1, stM_bind at 1; rewrite Hr; [|by eexists..].
  unfold st_lift. destruct (read_records json_list zero_mined ks []) as [pks|e|] eqn:Ek; unfold mbind at 1, stM_bind at 1; [|by eexists..].
  destruct (read_records json_list zero_value vs []) as [pvs|e|]; unfold mbind at 1, stM_bind at 1; [|by eexists..].
  apply mined_loop_blank. by eapply read_records_blank; [constructor|].
Qed.

(** With one record in the database that is an empty object, releasing fails. *)
Lemma releasePlege_blocked block w : json_list (bs "{}") = None →
  is_Some (map_entry (view (w_tx w)) PledgeKey (bs "{}")) → ∃ e, releasePlege g json_list block w = (Err e, w).
Proof.
  intros Hj [v Hv]. unfold map_entry in Hv.
  destruct (scan_run (prefix_key (bs "m") PledgeKey) (prefix_key (bs "m") PledgeKey) (w_tx w)) as (l & Hl & Hlist); [done|].
  assert (on_tx (getPledgeKVsInfo PledgeKey) w = (Ok (l.*1, l.*2), w)) as Hm.
  { unfold on_tx. rewrite (zoom_run _ _ _ w (Ok (l.*1, l.*2)) (w_tx w)); [by destruct w|]. unfold getPledgeKVsInfo, mkvs. rewrite eMapKey_nil.
    erewrite st_bind_eq by exact Hl. unfold st_lift. by rewrite kvs_of_items. }
  assert (bs "{}" ∈ l.*1) as Hin.
  { apply list_elem_of_fmap. exists (bs "{}", v). split; [done|]. apply (listing_all _ _ _ Hlist).
    by unfold eMapKey in Hv. }
  destruct (read_records_bad zero_key _ [] _ Hin Hj) as [e He].
  exists e. unfold releasePlege. rewrite (st_bind_eq _ _ _ _ _ Hm). unfold st_lift, mbind, stM_bind. by rewrite He.
Qed.

(** The account of the total of [a], and the total. *)
Definition pledge_account (a : Address) : bytes := BytesSha1Address (EMapKey TotalPledgeKey (Bytes a)).
Definition total_of (a : Address) (s : S) : Z := u64 (Z.abs (sdb_GetBalance (pledge_account a) s)).

Lemma setTotalPledge_run a n (s : S) : is_u64 n →
  setTotalPledge (Bytes a) (E64func n) s = (Ok tt, sdb_SetBalance (pledge_account a) n s).
Proof. intros Hn. unfold setTotalPledge, st_lift. by rewrite D64_E64. Qed.

Lemma setPledgeInfo_run k v (t : T) : room t ≠ 0%nat →
  ∃ t', setPledgeInfo k v t = (Ok tt, t') ∧ is_Some (map_entry (view t') PledgeKey (bs "{}")).
Proof.
  intros Hr. unfold setPledgeInfo, mset, json_Marshal.
  destruct (set_run (eMapKey PledgeKey (bs "{}")) (bs "{}") t) as (t' & Hs & Hv & _); [|vm_compute; discriminate|done|].
  - split; [done|]. split; [by intros [k' [=]]|vm_compute; discriminate].
  - exists t'. split; [done|]. unfold map_entry. rewrite Hv, lookup_insert_eq. by eexists.
Qed.

(** A pledge is added to the total of its sender, and stays there: the record of the first pledge of
    a node is an empty object, which is no list, and from then on every attempt to release
    pledges in this transaction fails. *)
Theorem pledge_kept block tx w w' : json_list (bs "{}") = None → room (w_tx w) ≠ 0%nat →
  handlePledgeTransaction g block tx w = (Ok tt, w') →
  w_sdb w' = sdb_SetBalance (pledge_account (From tx)) (total_of (From tx) (w_sdb w) +₆₄ Amount tx) (w_sdb w) ∧
  (total_of (From tx) (w_sdb w) = 0 → ∀ block', ∃ e, releasePlege g json_list block' w' = (Err e, w')).
Proof.
  intros Hj Hr Hh. unfold handlePledgeTransaction in Hh.
  apply stM_bind_Ok in Hh as (tot & w1 & Ht & Hh). injection Ht as <- <-.
  change (u64 (Z.abs _)) with (total_of (From tx) (w_sdb w)) in Hh.
  apply stM_bind_Ok in Hh as ([] & w1 & Hp & Hh). unfold on_sdb, zoom in Hh.
  rewrite setTotalPledge_run in Hh by apply u64_range. injection Hh as <-. cbn [w_sdb].
  case_decide as H0.
  - apply stM_bind_Ok in Hp as (nd & w2 & Hn & Hp). unfold st_lift in Hn. injection Hn as Hn <-.
    unfold on_tx, zoom in Hp. cbn [w_tx] in Hp.
    match type of Hp with context [setPledgeInfo ?k ?v _] => destruct (setPledgeInfo_run k v (w_tx w) Hr) as (t' & Hset & Hin) end.
    rewrite Hset in Hp. injection Hp as <-. cbn [w_sdb]. split; [done|]. intros _ block'. by apply releasePlege_blocked.
  - injection Hp as <-. by split.
Qed.

(** Releasing never changes anything, whatever is recorded and pledged: neither the amounts nor the
    records of pledges and of mined coins. *)
Theorem never_released block w :
  (∃ r, releasePlege g json_list block w = (r, w)) ∧ (∃ r, releaseMined g json_list block w = (r, w)).
Proof. split; [apply releasePlege_run|apply releaseMined_run]. Qed.

End Facts.

Module PledgeSample.
Import MapState.

(** A stand-in for SHA-1 that tells the ends of texts apart. *)
#[local] Instance eth_ends : EthCommon := {
  BytesToAddress := EthInstance.fit20;
  HexToAddress := HexToAddress (EthCommon := EthInstance.eth);
  eth_Hex := eth_Hex (EthCommon := EthInstance.eth);
  PubkeyToEthAddress := PubkeyToEthAddress (EthCommon := EthInstance.eth);
  sha1_Sum b := EthInstance.fit20 (b ++ [Byte.x00]);
}.

(** A reader of lists of empty objects. *)
Definition read_list (b : bytes) : option (list bool) :=
  if decide (b = bs "[{}]") then Some [true] else if decide (b = bs "[null]") then Some [false] else None.

Definition w0 : world (gmap bytes bytes) state MapTxn.txn :=
  World ∅ Sample.s0 (MapTxn.Txn ∅ 9 ∅) (NewEvm 0 (ChainCfg 1 1 0 0)).
Definition pledge (amount : Z) : Transaction := ft_tx (Sample.tx_of PledgeTrasnaction amount).
Definition at_height (h : Z) : Block := MkBlock h [] [] [] [] [] 1 0 0 Sample.bob None None 0 0 0.

(** Two pledges of one node add up, one record is kept, and nothing can be released at the height
    where releasing should begin. *)
Definition after : world (gmap bytes bytes) state MapTxn.txn :=
  ((handlePledgeTransaction Sample.g (at_height 1) (pledge 1000000000) ;;
    handlePledgeTransaction Sample.g (at_height 2) (pledge 500)) w0).2.
Example pledged : (getTotalPledge (Bytes Sample.alice) (w_sdb after)).1 = Ok 1000000500.
Proof. vm_compute. reflexivity. Qed.
Example blocked : (releasePlege Sample.g read_list (at_height (2 + CycleMax)) after).1 = err "json: cannot unmarshal".
Proof. vm_compute. reflexivity. Qed.

(** With a record in the database as the code means it, a release would be written under the text of
    the address, where it is not looked for. *)
Definition release_run : res unit * world (gmap bytes bytes) state MapTxn.txn :=
  release_loop Sample.g (at_height (2 + CycleMax))
    [Some (MkNodeKeyPledge (match String Sample.g Sample.alice with Ok s => s | _ => [] end) 1)]
    [Some (MkNodeValuePledge 0 (2 + CycleMax) (1 + 2 * CycleMax))] after.
Example not_released : release_run.1 = Ok tt ∧ (getTotalPledge (Bytes Sample.alice) (w_sdb release_run.2)).1 = Ok 1000000500.
Proof. split; vm_compute; reflexivity. Qed.

End PledgeSample.

Lemma pledge_kept_witness :
  ∃ w', handlePledgeTransaction Sample.g (PledgeSample.at_height 1) (PledgeSample.pledge 1000) PledgeSample.w0 = (Ok tt, w') ∧
  ∀ block', ∃ e, releasePlege Sample.g PledgeSample.read_list block' w' = (Err e, w').
Proof.
  assert (handlePledgeTransaction Sample.g (PledgeSample.at_height 1) (PledgeSample.pledge 1000) PledgeSample.w0 =
    (Ok tt, (handlePledgeTransaction Sample.g (PledgeSample.at_height 1) (PledgeSample.pledge 1000) PledgeSample.w0).2)) as Hh by by_run.
  eexists. split; [exact Hh|]. refine (proj2 (pledge_kept _ _ _ _ _ _ _ _ Hh) _); [reflexivity|discriminate|vm_compute; reflexivity].
Defined.
