(* ===== verification/Chain.v ===== *)
(** The blockchain's operations: checking, adding, deleting and reorganizing blocks
    ([pkg/blockchain/blockchain.go], [checkblock.go], [addAndDel.go],
    [syncblock.go]).

    SHA3-256 and the proof-of-work hash of [pkg/util/difficulty/hash] are arguments. *)

From S2P Require Import Prelude Misc Badger BgStore Base58 Cbor Address Transaction Block.
From S2P Require Import Ledger Difficulty Economics World Apply.

Section Chain.
Context {D SD T : Type} `{!Badger T, !BadgerDB D T, !StateDB SD, !StateStore D SD, !EvmRuntime SD}.
Context `{!CborHeader, !Crypto, !EthCommon, !EvmData}.
Variables (g : globals) (now : Z) (cfg : ChainConfig).
Variables (sha3_Sum256 diffhash_Hash : bytes → bytes).

Abbreviation M := (stM (world D SD T)).
Abbreviation C := (stM (chain D SD)).

(** ** Checking a block *)

Section Check.
Implicit Types (tx : T).

(** [for i := 0; i < 10; i++ { subTime += getBlockByHeight(height-i).UsedTime }] *)
Fixpoint sub_time (n : nat) (height subTime : Z) tx : res Z :=
  match n with
  | O => Ok subTime
  | S n =>
      tmp ← getBlockByHeight height tx;
      sub_time n (height -₆₄ 1) (subTime +₆₄ UsedTime tmp) tx
  end.

Definition updateDifficulty (height : Z) tx : res (option Z) :=
  h ← getMaxBlockHeight tx;
  b ← getBlockByHeight h tx;
  if decide (Height b ≠ height) then err "height error" else
  if decide (height ≠ 1 ∧ height mod 10 = 1) then
    subTime ← sub_time 10 height 0 tx;
    oldGlobalDifficultyBits ← BigToCompact (GlobalDifficulty b);
    newGlobalDifficultyBits ← CalcNextGlobalRequiredDifficulty 0 (i64 subTime) oldGlobalDifficultyBits;
    Ok (Some (CompactToBig newGlobalDifficultyBits))
  else Ok (GlobalDifficulty b).

Definition getWholeNetworkNum tx : res Z :=
  h ← getMaxBlockHeight tx;
  Ok (wholeNetworkNum h).

(** The pledge is always 0. *)
Definition getWholeNetworkPledgeAndNum tx : res (Z * Z) :=
  num ← getWholeNetworkNum tx;
  Ok (num, 0).

Definition getBasePledge tx : res Z :=
  '(total, pledgeTotal) ← getWholeNetworkPledgeAndNum tx;
  basePledge total pledgeTotal.

Definition difficultDetection (b : Block) (d : D) tx : res unit :=
  gd ← updateDifficulty (Height b -₆₄ 1) tx;
  c1 ← BigToCompact gd;
  c2 ← BigToCompact (GlobalDifficulty b);
  if decide (c1 ≠ c2) then err "inconsistent global difficulty" else
  root ← getSnapRoot (D := D) (S := SD) tx;
  stdb ← state_New (S := SD) root d;
  basePledge ← getBasePledge tx;
  minerTarget ← (match gd with Some gd => NextMinerDifficulty gd 0 basePledge | None => Panic end);
  c1 ← BigToCompact (Some minerTarget);
  c2 ← BigToCompact (Difficulty b);
  if decide (c1 ≠ c2) then err "inconsistent miner difficulty" else
  let newbig := HashToBig (diffhash_Hash (MinerHash sha3_Sum256 b)) in
  match Difficulty b with
  | None => Panic
  | Some d => if decide (newbig >= d) then err "incorrect difficulty" else Ok tt
  end.

Definition checkGas (gasLimit gasPrice : Z) : res unit :=
  if decide (gasLimit *₆₄ gasPrice < MINGASLIMIT ∨ gasLimit *₆₄ gasPrice > MAXGASLIMIT)
  then err "gas is too small or too big" else Ok tt.

Fixpoint check_gas_all (txs : list FinishedTransaction) : res unit :=
  match txs with
  | [] => Ok tt
  | ft :: txs =>
      let t := ft_tx ft in
      if IsCoinBaseTransaction t then check_gas_all txs
      else checkGas (GasLimit t) (GasPrice t) ≫= λ _, check_gas_all txs
  end.

Definition checkBlockRegular (b : Block) (d : D) tx : res unit :=
  if decide (101 < length (Transactions b))%nat then err "Too many transactions" else
  difficultDetection b d tx ≫= λ _, check_gas_all (Transactions b).

End Check.

Definition CheckBlockRegular (b : Block) (c : chain D SD) : res unit :=
  checkBlockRegular b (db c) (db_begin (db c)).
Definition DifficultDetection (b : Block) (c : chain D SD) : res unit :=
  difficultDetection b (db c) (db_begin (db c)).

(** ** Adding a block *)

(** A block's miner in the virtual machine, the zero address if it has none. *)
Definition miner_of (block : Block) : M bytes := λ w,
  (match NewCommonAddr g (Miner block) with
   | Ok a => Ok a | Err _ => Ok (replicate 20 Byte.x00) | Panic => Panic end, w).

(** A new virtual machine that runs at [block]. *)
Definition set_block_evm (block : Block) : M unit :=
  on_evm (st_put (NewEvm now cfg)) ;;
  miner ← miner_of block;
  on_evm (st_modify (SetBlockInfo (Height block) (Timestamp block) miner (Difficulty block))).

(** Whether committing the account state yields the recorded root. *)
Definition root_unchanged (commit : stM (D * SD) bytes) : M bool :=
  SnapRoothash ← from_tx (kv_Get SnapRootKey);
  startHash ← on_store commit;
  mret (bool_decide (SnapRoothash = startHash)).

(** The block's root must be the new one, or the old one, which the new one replaces. *)
Definition settle_root (comHash : bytes) (block : Block) : M Block :=
  oldSnapRootkey ← from_tx (kv_Get SnapRootKey);
  if decide (oldSnapRootkey = SnapRoot block) then mret (with_snapRoot comHash block)
  else if decide (comHash ≠ SnapRoot block) then st_err (ErrMsg "SnapRoot not equal")
  else mret block.

Definition settle_root_init (comHash : bytes) (block : Block) : M Block :=
  if decide (Height block > InitHeight + 1) then settle_root comHash block
  else if decide (Height block = InitHeight + 1) then mret (with_snapRoot comHash block)
  else st_err (ErrMsg "block.height<initheight").

(** The deferred logging, which panics on a nil difficulty. *)
Definition deferred_log (block : Block) : res unit :=
  BigToCompact (Difficulty block) ≫= λ _, BigToCompact (GlobalDifficulty block) ≫= λ _, Ok tt.
Definition deferred {W A} (block : Block) (m : stM W A) : stM W A := λ w,
  let '(r, w) := m w in (match deferred_log block with Ok _ => r | _ => Panic end, w).

(** [DBTransaction.Set(k, v)] with its error dropped. *)
Definition set_unchecked (k v : bytes) : M unit := on_tx (ignore_err (set k v) tt).

(** [AddBlock] between opening the transaction and reverting. *)
Definition AddBlock_body (block : Block) : M Block :=
  prevHeight ← from_db getMaxBlockHeight;
  (if decide (Height block > InitHeight + 1) then
     same ← root_unchanged (factCommit true);
     if (same : bool) then mret tt else st_err (ErrMsg "snaproot not equal")
   else mret tt) ;;
  let height := prevHeight +₆₄ 1 in
  if decide (Height block ≠ height) then st_err (ErrMsg "height error") else
  let hash := BHash block in
  on_tx (set (height_key height) hash) ;;
  set_unchecked HeightKey (E64func height) ;;
  set_block_evm block ;;
  '(txs, blockGasU) ← apply_txs g true block height 0 0 (Transactions block);
  comHash ← on_store (factCommit true);
  block ← settle_root_init comHash (with_txs txs block);
  let block := with_gasUsed blockGasU block in
  data ← st_lift (Serialize block);
  on_tx (set hash data) ;;
  on_tx (set (snap_key height) comHash) ;;
  set_unchecked SnapRootKey comHash ;;
  Commit ;;
  mret block.

(** On an error, whatever it is, the state is rolled back to [rollroot]. *)
Definition reverting {A} (rollroot : bytes) (m : C A) : C A := λ c,
  match m c with
  | (Err e, c) => (Err e, (rollState now cfg rollroot c).2)
  | r => r
  end.

(** AddBlock add blocks to blockchain; it returns the block as it leaves the caller's. *)
Definition AddBlock (block : Block) : C Block := λ c,
  match getSnapRoot (D := D) (S := SD) (Dbase (db c)) with
  | Ok rollroot => reverting rollroot (deferred block (with_txn (AddBlock_body block))) c
  | Err e => (Err e, c)
  | Panic => (Panic, c)
  end.

(** AddTempBlock, on the transaction of a reorganization.  When the recorded root is not
    the state's, it returns [err], which is nil there. *)
Definition AddTempBlock (block : Block) : M unit :=
  same ← (if decide (Height block ≠ 1) then root_unchanged (factCommit true) else mret true);
  if negb same then mret tt else
  prevHeight ← from_tx getMaxBlockHeight;
  let height := prevHeight +₆₄ 1 in
  if decide (Height block ≠ height) then st_err (ErrMsg "height error") else
  let hash := BHash block in
  on_tx (set (height_key height) hash) ;;
  on_tx (ignore_err (del HeightKey) tt) ;;
  set_unchecked HeightKey (E64func height) ;;
  set_block_evm block ;;
  '(txs, blockGasU) ← apply_txs g false block height 0 0 (Transactions block);
  comHash ← on_store (factCommit true);
  block ← (if decide (Height block ≠ 1) then settle_root comHash (with_txs txs block)
           else mret (with_snapRoot comHash (with_txs txs block)));
  let block := with_gasUsed blockGasU block in
  data ← st_lift (Serialize block);
  on_tx (set hash data) ;;
  comHashWrite ← on_store (factCommit true);
  on_tx (set (snap_key height) comHashWrite) ;;
  on_tx (ignore_err (del SnapRootKey) tt) ;;
  set_unchecked SnapRootKey comHashWrite.

(** The virtual machine of [AddSmallBlock] runs at the previous block. *)
Definition set_parent_evm (prevHeight : Z) : M unit :=
  on_evm (st_put (NewEvm now cfg)) ;;
  if decide (prevHeight > 0) then
    cuurB ← from_tx (getBlockByHeight prevHeight);
    miner ← miner_of cuurB;
    on_evm (st_modify (SetBlockInfo (Height cuurB) (Timestamp cuurB) miner (Difficulty cuurB)))
  else mret tt.

Definition AddSmallBlock (block : Block) : M unit := deferred block (
  prevHeight ← from_tx getMaxBlockHeight;
  (if decide (Height block > InitHeight + 1) then
     same ← root_unchanged (fakeCommit1 true);
     if (same : bool) then mret tt else st_err (ErrMsg "snaproot not equal")
   else mret tt) ;;
  let height := prevHeight +₆₄ 1 in
  if decide (Height block ≠ height) then st_err (ErrMsg "height error") else
  let hash := BHash block in
  on_tx (set (height_key height) hash) ;;
  on_tx (set HeightKey (E64func height)) ;;
  set_parent_evm prevHeight ;;
  '(txs, blockGasU) ← apply_txs g false block height 0 0 (Transactions block);
  comHash ← on_store (fakeCommit1 true);
  block ← settle_root_init comHash (with_txs txs block);
  let block := with_gasUsed blockGasU block in
  data ← st_lift (Serialize block);
  on_tx (set hash data) ;;
  on_tx (set (snap_key height) comHash) ;;
  on_tx (set SnapRootKey comHash)).

(** The failing commit logs the height of the last block, and indexes it. *)
Definition AddBlocks (blocks : list Block) : C unit := λ c,
  match getSnapRoot (D := D) (S := SD) (Dbase (db c)) with
  | Ok rollroot =>
      reverting rollroot (with_txn (
        st_iter AddSmallBlock blocks ;;
        on_store (factCommit true) ;;
        st_catch Commit (λ e, if decide (blocks = []) then st_panic else st_err e))) c
  | Err e => (Err e, c)
  | Panic => (Panic, c)
  end.

(** AddUncleBlock add uncle blocks to blockchain; a failing commit is only logged *)
Definition AddUncleBlock (block : Block) : C unit := with_txn (T := T) (
  data ← st_lift (Serialize block);
  on_tx (set (BHash block) data) ;;
  ignore_err Commit tt).

(** DeleteUncleBlock delete uncle blocks to blockchain *)
Definition DeleteUncleBlock (block : Block) : C unit := with_txn (T := T) (
  on_tx (del (BHash block)) ;;
  ignore_err Commit tt).

(** ** Deleting blocks *)

Definition pKey (id : bytes) : bytes := bs "p" ++ bs "/" ++ id.

Definition delTokenKey (tokenId : bytes) : stM T unit :=
  del tokenId ;;
  del (pKey tokenId).

(** [strings.Split] at double quotes: never empty. *)
Fixpoint split_quote (s : bytes) : bytes * list bytes :=
  match s with
  | [] => ([], [])
  | c :: s =>
      let '(h, l) := split_quote s in
      if decide (c = Byte.x22) then ([], h :: l) else (c :: h, l)
  end.

(** The loop over a deleted block's transactions, which both deletions have a copy of. *)
Definition delete_tx (index : Z) (tx : FinishedTransaction) : stM T unit :=
  let t := ft_tx tx in
  if IsCoinBaseTransaction t then deleteTxbyaddrKV (Bytes (To t)) tx index
  else if IsPledgeTrasnaction t || IsPledgeBreakTransaction t then deleteTxbyaddrKV (Bytes (From t)) tx index
  else if IsEvmContractTransaction t then deleteTxbyaddrKV (Bytes (From t)) tx index
  else
    let '(spilt0, spilt) := split_quote (Input t) in
    (if decide (spilt0 = bs "new ") then
       match spilt with
       | [] => st_panic
       | spilt1 :: _ => delTokenKey spilt1
       end
     else mret tt) ;;
    deleteTxbyaddrKV (Bytes (From t)) tx index ;;
    deleteTxbyaddrKV (Bytes (To t)) tx index.

(** The addresses whose text the error message has. *)
Definition delete_texts (tx : FinishedTransaction) : list Address := [From (ft_tx tx); To (ft_tx tx)].

Fixpoint delete_txs (index : Z) (txs : list FinishedTransaction) : M unit :=
  match txs with
  | [] => mret tt
  | tx :: txs =>
      logged g (delete_texts tx) (on_tx (delete_tx index tx)) ;;
      delete_txs (index + 1) txs
  end.

(** One round of [DeleteBlock], with a transaction of its own; the virtual machine is
    moved back to the block below, which must exist. *)
Definition DeleteBlock_at (dH : Z) : M unit :=
  block ← from_db (getBlockByHeight dH);
  delete_txs 0 (Transactions block) ;;
  sn ← from_tx (kv_Get (snap_key (Height block -₆₄ 1)));
  on_tx (del (snap_key (Height block))) ;;
  on_tx (del (height_key (Height block))) ;;
  on_tx (del (BHash block)) ;;
  previousBlock ← from_db (getBlockByHeight (dH -₆₄ 1));
  previousMiner ← miner_of previousBlock;
  on_evm (st_modify (SetBlockInfo (Height previousBlock) (Timestamp previousBlock) previousMiner
                       (Difficulty previousBlock))) ;;
  set_unchecked SnapRootKey sn ;;
  set_unchecked HeightKey (E64func (dH -₆₄ 1)) ;;
  Commit.

(** [for dH := dbHeight; dH >= height; dH--]: [n] rounds.  A height of 0 makes the
    condition true for ever, but the round at height 0 fails. *)
Fixpoint delete_rounds {W} (round : Z → stM W unit) (n : nat) (dH : Z) : stM W unit :=
  match n with
  | O => mret tt
  | S n => round dH ;; delete_rounds round n (dH - 1)
  end.

(** DeleteBlock(10): delete block data larger than 10, including 10 *)
Definition DeleteBlock (height : Z) : C unit :=
  dbHeight ← (λ c, (getMaxBlockHeight (Dbase (db c)), c));
  if decide (height > dbHeight) then mret tt else
  delete_rounds (λ dH, with_txn (DeleteBlock_at dH)) (Z.to_nat (dbHeight - height + 1)) dbHeight ;;
  root ← (λ c, (getSnapRoot (D := D) (S := SD) (Dbase (db c)), c));
  rollState now cfg root.

(** One round of [DeleteTempBlockTest]: the blocks themselves are kept. *)
Definition DeleteTempBlock_at (dH : Z) : M unit :=
  block ← from_db (getBlockByHeight dH);
  delete_txs 0 (Transactions block) ;;
  sn ← from_tx (kv_Get (snap_key (Height block -₆₄ 1)));
  on_tx (del (snap_key (Height block))) ;;
  on_tx (del (height_key (Height block))) ;;
  set_unchecked SnapRootKey sn ;;
  set_unchecked HeightKey (E64func (dH -₆₄ 1)) ;;
  previousBlock ← from_db (getBlockByHeight (dH -₆₄ 1));
  previousMiner ← st_lift (NewCommonAddr g (Miner previousBlock));
  on_evm (st_modify (SetBlockInfo (Height previousBlock) (Timestamp previousBlock) previousMiner
                       (Difficulty previousBlock))).

(** Reopening the state at a root. *)
Definition reopen (root : bytes) : M unit := λ w,
  match updateNewStateByRoot root (w_db w) with
  | Ok s => (Ok tt, World (w_db w) s (w_tx w) (NewEvm now cfg))
  | Err e => (Err e, w)
  | Panic => (Panic, w)
  end.

Definition DeleteTempBlockTest (height : Z) : M unit :=
  dbHeight ← from_db getMaxBlockHeight;
  if decide (height > dbHeight) then st_err (ErrMsg "Wrong height to delete") else
  delete_rounds DeleteTempBlock_at (Z.to_nat (dbHeight - height + 1)) dbHeight ;;
  root ← from_tx (kv_Get SnapRootKey);
  reopen (BytesToHash (D := D) (S := SD) root).

(** ** Reorganizing *)

(** One block of the branch, read from the database. *)
Definition reconnect (hash : bytes) : M unit :=
  block ← from_db (getBlockByHash hash);
  (λ w, (checkBlockRegular block (w_db w) (w_tx w), w)) ;;
  AddTempBlock block.

(** ReorganizeChain: the branch's blocks, last hash first, replace those from
    [delHeight] on. *)
Definition ReorganizeChain (hashs : list bytes) (delHeight : Z) : C unit := λ c,
  match getSnapRoot (D := D) (S := SD) (Dbase (db c)) with
  | Ok root =>
      reverting root (with_txn (
        DeleteTempBlockTest delHeight ;;
        st_iter reconnect (rev hashs) ;;
        Commit)) c
  | Err e => (Err e, c)
  | Panic => (Panic, c)
  end.

End Chain.
