(* ===== verification/Frames.v ===== *)
(** What the block operations leave alone: the keys of the database transaction they do
    not write, and the component's own keys in the database. *)

From S2P Require Import Prelude Misc Badger BgStore Base58 Cbor Address Transaction Block.
From S2P Require Import Ledger Difficulty Economics World Apply Chain.

Section Frames.
Context {D SD T : Type} `{!Badger T, !BadgerDB D T, !StateDB SD, !StateStore D SD, !EvmRuntime SD}.
Context `{!CborHeader, !Crypto, !EthCommon, !EvmData}.
Context `{!BadgerLaws T, !BadgerDBLaws D T, !StateStoreLaws D SD T, !CryptoLaws}.
Variable g : globals.
Implicit Types (w : world D SD T) (t : T) (k v : bytes).

(** ** Properties of the transaction *)

(** A property of the open transaction, and one of the database. *)
Definition of_tx (Q : T → Prop) w : Prop := Q (w_tx w).
Definition of_db (R : D → Prop) w : Prop := R (w_db w).

Lemma on_tx_of_tx {A} Q (m : stM T A) : preserves Q m → preserves (of_tx Q) (on_tx (D := D) (S := SD) m).
Proof. intros. by eapply preserves_zoom. Qed.
Lemma on_sdb_of_tx {A} Q (m : stM SD A) : preserves (of_tx Q) (on_sdb m).
Proof. apply (preserves_zoom _ (λ _, True)); done. Qed.
Lemma on_evm_of_tx {A} Q (m : stM EvmCfg A) : preserves (of_tx Q) (on_evm m).
Proof. apply (preserves_zoom _ (λ _, True)); done. Qed.
Lemma on_store_of_tx {A} Q (m : stM (D * SD) A) : preserves (of_tx Q) (on_store m).
Proof. apply (preserves_zoom _ (λ _, True)); done. Qed.
Lemma from_tx_pres {A} P (f : T → res A) : preserves P (from_tx (D := D) (S := SD) f).
Proof. by intros w r w' HP [= <- <-]. Qed.
Lemma from_db_pres {A} P (f : dbase D → res A) : preserves P (from_db (S := SD) (T := T) f).
Proof. by intros w r w' HP [= <- <-]. Qed.
Lemma Commit_of_tx Q : preserves (of_tx Q) (Commit (D := D) (S := SD) (T := T)).
Proof. intros w r w' HP. unfold Commit. destruct (db_commit _ _). by intros [= <- <-]. Qed.

Lemma on_tx_of_db {A} R (m : stM T A) : preserves (of_db R) (on_tx (D := D) (S := SD) m).
Proof. apply (preserves_zoom _ (λ _, True)); done. Qed.
Lemma on_sdb_of_db {A} R (m : stM SD A) : preserves (of_db R) (on_sdb m).
Proof. apply (preserves_zoom _ (λ _, True)); done. Qed.
Lemma on_evm_of_db {A} R (m : stM EvmCfg A) : preserves (of_db R) (on_evm m).
Proof. apply (preserves_zoom _ (λ _, True)); done. Qed.

(** The key [k] has been written, and holds [v]. *)
Definition kept k v t : Prop := view t !! k = Some v ∧ k ∈ writes t.
(** The key [k] has not been written. *)
Definition unwritten k t : Prop := k ∉ writes t.

Lemma set_kept k v k' v' : k ≠ k' → preserves (kept k v) (set k' v').
Proof.
  intros Hne t r t' [Hv Hw] Hs. destruct (Set_inv _ _ _ _ _ Hs) as [(_ & Hvw & Hwr)|(_ & _ & Hvw & Hwr)].
  - split; [|set_solver]. by rewrite Hvw, lookup_insert_ne by done.
  - split; [by rewrite Hvw|by rewrite Hwr].
Qed.
Lemma del_kept k v k' : k ≠ k' → preserves (kept k v) (del k').
Proof.
  intros Hne t r t' [Hv Hw] Hs. destruct (Delete_inv _ _ _ _ Hs) as [(_ & Hvw & Hwr)|(_ & _ & Hvw & Hwr)].
  - split; [|set_solver]. by rewrite Hvw, lookup_delete_ne by done.
  - split; [by rewrite Hvw|by rewrite Hwr].
Qed.
Lemma set_unwritten k k' v' : k ≠ k' → preserves (unwritten k) (set k' v').
Proof.
  intros Hne t r t' Hv Hs. unfold unwritten in *.
  destruct (Set_inv _ _ _ _ _ Hs) as [(_ & _ & ->)|(_ & _ & _ & ->)]; set_solver.
Qed.
Lemma del_unwritten k k' : k ≠ k' → preserves (unwritten k) (del k').
Proof.
  intros Hne t r t' Hv Hs. unfold unwritten in *.
  destruct (Delete_inv _ _ _ _ Hs) as [(_ & _ & ->)|(_ & _ & _ & ->)]; set_solver.
Qed.

Lemma set_Ok_kept k v t t' : set k v t = (Ok tt, t') → kept k v t'.
Proof.
  intros Hs. destruct (Set_inv _ _ _ _ _ Hs) as [(_ & Hvw & Hwr)|(Hn & _)]; [|done].
  split; [by rewrite Hvw, lookup_insert_eq|set_solver].
Qed.

Lemma logged_pres {A} P l (m : stM (world D SD T) A) : preserves P m → preserves P (logged g l m).
Proof.
  intros Hm. apply preserves_catch; [done|]. intros e.
  apply preserves_bind; [apply preserves_lift|intros; apply preserves_err].
Qed.
(** An operation on the state that also reads the world. *)
Lemma on_sdb_read_of_tx {A} Q (f : world D SD T → stM SD A) : preserves (of_tx Q) (λ w, on_sdb (f w) w).
Proof. intros w. apply (on_sdb_of_tx Q (f w)). Qed.
Lemma on_sdb_read_of_db {A} R (f : world D SD T → stM SD A) : preserves (of_db R) (λ w, on_sdb (f w) w).
Proof. intros w. apply (on_sdb_of_db R (f w)). Qed.
Lemma preserves_pure {W A} (P : W → Prop) (f : W → res A) : preserves P (λ x, (f x, x)).
Proof. by intros x r x' HP [= <- <-]. Qed.

End Frames.

(** Solve a [preserves] goal by following the program text; what is left are the steps that
    could write. *)
Ltac pres_step :=
  first
  [ apply preserves_ret | apply preserves_lift | apply preserves_gets | apply preserves_err
  | apply preserves_panic | apply from_tx_pres | apply from_db_pres
  | apply on_sdb_of_tx | apply on_evm_of_tx | apply on_store_of_tx | apply Commit_of_tx
  | apply on_tx_of_db | apply on_sdb_of_db | apply on_evm_of_db
  | apply logged_pres | apply preserves_ignore
  | apply preserves_pure | apply on_sdb_read_of_tx | apply on_sdb_read_of_db
  | apply preserves_bind; [|intros ?]
  | progress cbn zeta
  | match goal with |- preserves _ (match ?x with _ => _ end) => destruct x end
  | assumption ].
Ltac pres := repeat pres_step.

(** ** Applying transactions *)

Section Apply.
Context {D SD T : Type} `{!Badger T, !BadgerDB D T, !StateDB SD, !StateStore D SD, !EvmRuntime SD}.
Context `{!CborHeader, !Crypto, !EthCommon, !EvmData}.
Context `{!BadgerLaws T, !BadgerDBLaws D T, !StateStoreLaws D SD T, !CryptoLaws}.
Variable g : globals.
Implicit Types (w : world D SD T) (t : T) (k v : bytes).
Lemma eMapKey_length m k : (length k ≤ length (eMapKey m k))%nat.
Proof. unfold eMapKey. rewrite length_app. lia. Qed.

Lemma own_key_not_hash k b : own_key k → k ≠ sha256_Sum256 b.
Proof. unfold own_key. intros Hk ->. rewrite sha256_length in Hk. lia. Qed.
Lemma own_key_not_map k m b : own_key k → k ≠ eMapKey m (sha256_Sum256 b).
Proof.
  unfold own_key. intros Hk ->. pose proof (eMapKey_length m (sha256_Sum256 b)) as Hlen.
  rewrite sha256_length in Hlen. lia.
Qed.

(** [Q] is not affected by writes to other keys than [k]. *)
Class Frame k (Q : T → Prop) : Prop := {
  frame_set k' v : k ≠ k' → preserves Q (set k' v);
  frame_del k' : k ≠ k' → preserves Q (del k');
}.
#[global] Instance kept_frame k v : Frame k (kept k v).
Proof. split; intros; [by apply set_kept|by apply del_kept]. Qed.
#[global] Instance unwritten_frame k : Frame k (unwritten k).
Proof. split; intros; [by apply set_unwritten|by apply del_unwritten]. Qed.

Section Txs.
Context (k : bytes) (Q : T → Prop) `{!Frame k Q}.
Hypothesis (Hk : own_key k).

Lemma setTxbyaddrKV_frame addr tx h i : preserves Q (setTxbyaddrKV addr (Hash tx) h i).
Proof.
  unfold setTxbyaddrKV. apply preserves_bind; [apply preserves_ignore|intros _; apply preserves_ignore].
  - by apply frame_set, own_key_not_map.
  - by apply frame_set, own_key_not_hash.
Qed.




Ltac txs := repeat first [apply on_tx_of_tx; apply setTxbyaddrKV_frame | pres_step].

Lemma handle_frame b tx i : preserves (of_tx Q) (handleContractTransaction (D := D) (S := SD) (T := T) b tx i).
Proof.
  unfold handleContractTransaction, evm_Create, evm_Call. txs.
Qed.

Lemma set_account_frame tx : preserves (of_tx Q) (set_account (D := D) (S := SD) (T := T) g tx).
Proof. unfold set_account. txs. Qed.

Lemma apply_tx_frame b h i tx : preserves (of_tx Q) (apply_tx (D := D) (S := SD) (T := T) g b h i tx).
Proof. unfold apply_tx. repeat first [apply handle_frame | apply set_account_frame | progress txs]. Qed.

Lemma apply_txs_frame log b h txs : ∀ i gas,
  preserves (of_tx Q) (apply_txs (D := D) (S := SD) (T := T) g log b h i gas txs).
Proof.
  induction txs as [|tx txs IH]; intros i gas; simpl; [apply preserves_ret|].
  repeat first [apply apply_tx_frame | apply IH | pres_step].
Qed.

End Txs.

(** ** The database *)

Lemma apply_tx_of_db R b h i tx : preserves (of_db R) (apply_tx (D := D) (S := SD) (T := T) g b h i tx).
Proof. unfold apply_tx, handleContractTransaction, evm_Create, evm_Call, set_account. pres. Qed.

Lemma apply_txs_of_db R log b h txs : ∀ i gas,
  preserves (of_db R) (apply_txs (D := D) (S := SD) (T := T) g log b h i gas txs).
Proof.
  induction txs as [|tx txs IH]; intros i gas; simpl; [apply preserves_ret|].
  repeat first [apply apply_tx_of_db | apply IH | pres_step].
Qed.

(** The component's own keys hold what they hold in [d0]. *)
Definition keeps (d0 d : D) : Prop := ∀ k, own_key k → dbview d !! k = dbview d0 !! k.

Lemma factCommit_keeps d0 del :
  preserves (of_db (keeps d0)) (on_store (D := D) (S := SD) (T := T) (factCommit del)).
Proof.
  apply (preserves_zoom _ (λ ds, keeps d0 ds.1)); [|done..]. unfold factCommit.
  assert (preserves (λ ds : D * SD, keeps d0 ds.1) (sdb_Commit del)) as Hsc.
  { intros ds r ds' HP Hc. destruct (Commit_frame _ _ _ _ Hc) as (_ & Hf & _). intros k Hk.
    rewrite Hf by done. by apply HP. }
  assert (∀ root, preserves (λ ds : D * SD, keeps d0 ds.1) (trie_Commit root)) as Htc.
  { intros root ds r ds' HP Hc. destruct (trie_Commit_frame _ _ _ _ Hc) as (_ & Hf & _). intros k Hk.
    rewrite Hf by done. by apply HP. }
  apply preserves_bind; [done|]. intros root. apply preserves_bind; [done|]. intros. apply preserves_ret.
Qed.

Lemma fakeCommit1_keeps d0 del :
  preserves (of_db (keeps d0)) (on_store (D := D) (S := SD) (T := T) (fakeCommit1 del)).
Proof.
  apply (preserves_zoom _ (λ ds, keeps d0 ds.1)); [|done..].
  intros ds r ds' HP Hc. destruct (Commit_frame _ _ _ _ Hc) as (_ & Hf & _). intros k Hk.
  rewrite Hf by done. by apply HP.
Qed.

Lemma root_unchanged_keeps d0 (commit : stM (D * SD) bytes) :
  preserves (of_db (keeps d0)) (on_store (T := T) commit) →
  preserves (of_db (keeps d0)) (root_unchanged (T := T) commit).
Proof. intros. unfold root_unchanged. pres. Qed.

End Apply.
