(* ===== verification/ChainFacts.v ===== *)
(** What adding a block does, and what a failing operation leaves behind. *)

From S2P Require Import Prelude Misc Badger BgStore Base58 Cbor Address Transaction Block.
From S2P Require Import Ledger Difficulty Economics World Apply Chain Frames.

(** ** Keys *)

Lemma own_height_key h : own_key (height_key h).
Proof. unfold own_key, height_key. rewrite length_app, length_E64func. vm_compute. lia. Qed.
Lemma own_snap_key h : own_key (snap_key h).
Proof. unfold own_key, snap_key. rewrite length_app, length_E64func. vm_compute. lia. Qed.
Lemma own_HeightKey : own_key HeightKey.
Proof. unfold own_key. vm_compute. lia. Qed.
Lemma own_SnapRootKey : own_key SnapRootKey.
Proof. unfold own_key. vm_compute. lia. Qed.
#[export] Hint Resolve own_height_key own_snap_key own_HeightKey own_SnapRootKey : keys.

(** Keys of different lengths differ. *)
Lemma length_ne (a b : bytes) : length a ≠ length b → a ≠ b.
Proof. by intros Hl ->. Qed.
Ltac key_ne :=
  solve [ apply length_ne; unfold height_key, snap_key; rewrite ?length_app, ?length_E64func;
          repeat match goal with H : length _ = 32%nat |- _ => rewrite H end; vm_compute; discriminate ].

Lemma key_ok_own c k : c ≠ Byte.x21 → own_key (c :: k) → key_ok (c :: k).
Proof.
  unfold own_key. intros Hc Hl. apply key_ok_cons; [done|]. simpl in Hl. lia.
Qed.

(** [apply stM_bind_Ok] on a run, naming the step, its result and its end state. *)
Tactic Notation "step" hyp(H) "as" ident(a) ident(w) ident(Ha) :=
  apply stM_bind_Ok in H as (a & w & Ha & H); cbn beta iota zeta in H.

(** Carry what is known of the transaction over a step. *)
Ltac frame :=
  repeat first
  [ apply on_tx_of_tx; first [apply frame_set; key_ne | apply frame_del; key_ne
                             | apply preserves_ignore; first [apply frame_set; key_ne | apply frame_del; key_ne]]
  | lazymatch goal with
    | |- preserves (of_tx (kept ?k _)) _ => apply (apply_txs_frame _ k _); auto with keys
    | |- preserves (of_tx (unwritten ?k)) _ => apply (apply_txs_frame _ k _); auto with keys
    end
  | apply factCommit_keeps | apply fakeCommit1_keeps | apply apply_txs_of_db
  | progress unfold set_unchecked, set_block_evm, root_unchanged, settle_root_init, settle_root, miner_of
  | pres_step ].
Ltac carry H :=
  repeat lazymatch type of H with
  | ?m ?w = (_, _) =>
      match goal with
      | K : of_tx ?Q w |- _ =>
          let K' := fresh "K" in
          assert (preserves (of_tx Q) m) as K' by frame; specialize (K' _ _ _ K H); clear K; rename K' into K
      | K : of_db ?R w |- _ =>
          let K' := fresh "K" in
          assert (preserves (of_db R) m) as K' by frame; specialize (K' _ _ _ K H); clear K; rename K' into K
      end
  end.

Section Facts.
Context {D SD T : Type} `{!Badger T, !BadgerDB D T, !StateDB SD, !StateStore D SD, !EvmRuntime SD}.
Context `{!CborHeader, !Crypto, !EthCommon, !EvmData}.
Context `{!BadgerLaws T, !BadgerDBLaws D T, !StateStoreLaws D SD T, !CryptoLaws}.
Variables (g : globals) (now : Z) (cfg : ChainConfig).
Implicit Types (w : world D SD T) (b : Block).

(** ** Single steps *)

Lemma zoom_inv {W X A} (get : W → X) put (m : stM X A) s r s' :
  zoom get put m s = (r, s') → ∃ x, m (get s) = (r, x) ∧ s' = put x s.
Proof. unfold zoom. destruct (m (get s)) as [r0 x]. intros [= <- <-]. by exists x. Qed.

Lemma on_tx_inv {A} (m : stM T A) w r w' :
  on_tx (D := D) (S := SD) m w = (r, w') →
  m (w_tx w) = (r, w_tx w') ∧ w_db w' = w_db w ∧ w_sdb w' = w_sdb w ∧ w_evm w' = w_evm w.
Proof. intros (t & Hm & ->)%zoom_inv. done. Qed.

Lemma set_unchecked_cases k v w r w' :
  set_unchecked (D := D) (SD := SD) (T := T) k v w = (r, w') →
  w_db w' = w_db w ∧ r = Ok tt ∧ (kept k v (w_tx w') ∨ w_tx w' = w_tx w ∨
    view (w_tx w') = view (w_tx w) ∧ writes (w_tx w') = writes (w_tx w)).
Proof.
  intros (Hm & Hdb & _)%on_tx_inv. unfold ignore_err, st_catch in Hm.
  destruct (set k v (w_tx w)) as [[[]|e|] t1] eqn:E.
  - injection Hm as <- <-. split_and!; [done..|]. left. by eapply set_Ok_kept.
  - injection Hm as <- Ht. split_and!; [done..|].
    destruct (Set_inv _ _ _ _ _ E) as [(? & _)|(_ & _ & Hv & Hw)]; [done|]. right; right.
    rewrite <- Ht. done.
  - destruct (Set_inv _ _ _ _ _ E) as [(? & _)|(_ & Hp & _)]; done.
Qed.

(** With room left, the write succeeds. *)
Lemma set_unchecked_room k v w r w' :
  key_ok k → val_ok v → room (w_tx w) ≠ 0%nat →
  set_unchecked (D := D) (SD := SD) (T := T) k v w = (r, w') → kept k v (w_tx w').
Proof.
  intros Hk Hv Hr (Hm & _)%on_tx_inv. destruct (set_run k v (w_tx w) Hk Hv Hr) as (t' & Hs & _).
  unfold ignore_err, st_catch in Hm. rewrite Hs in Hm. injection Hm as <- <-. by eapply set_Ok_kept.
Qed.

Lemma Commit_kept w w' k v :
  Commit (D := D) (S := SD) (T := T) w = (Ok tt, w') → kept k v (w_tx w) → dbview (w_db w') !! k = Some v.
Proof.
  unfold Commit. destruct (db_commit (w_tx w) (w_db w)) as [r d'] eqn:E. intros [= -> <-] [Hv Hw].
  simpl. rewrite (commit_merge _ _ _ E), decide_True by done. done.
Qed.
Lemma Commit_unwritten w w' k :
  Commit (D := D) (S := SD) (T := T) w = (Ok tt, w') → unwritten k (w_tx w) →
  dbview (w_db w') !! k = dbview (w_db w) !! k.
Proof.
  unfold Commit. destruct (db_commit (w_tx w) (w_db w)) as [r d'] eqn:E. intros [= -> <-] Hw.
  simpl. rewrite (commit_merge _ _ _ E), decide_False by done. done.
Qed.

Lemma factCommit_length del w r w' root :
  on_store (D := D) (S := SD) (T := T) (factCommit del) w = (r, w') → r = Ok root → length root = 32%nat.
Proof.
  intros (ds & Hm & _)%zoom_inv ->. unfold factCommit in Hm.
  apply stM_bind_Ok in Hm as (ha & ds1 & Hc & Hm). apply stM_bind_Ok in Hm as ([] & ds2 & _ & [= <- _]).
  destruct (Commit_frame _ _ _ _ Hc) as (_ & _ & Hl). by apply Hl.
Qed.

Lemma getMaxBlockHeight_range {X} `{!Reader X} (x : X) h : getMaxBlockHeight x = Ok h → is_u64 h.
Proof.
  unfold getMaxBlockHeight. destruct (kv_Get HeightKey x) as [a|[]|]; try done; [|by intros [= <-]].
  unfold D64func. rewrite dec_le_Ok. intros [_ Hr]. unfold is_u64, MAXUINT64. simpl in Hr. lia.
Qed.

(** The fields that adding a block does not set. *)
Definition same_header b b' : Prop :=
  Height b' = Height b ∧ BHash b' = BHash b ∧ PrevHash b' = PrevHash b ∧ Root b' = Root b ∧
  Timestamp b' = Timestamp b ∧ Miner b' = Miner b ∧ Difficulty b' = Difficulty b ∧
  GlobalDifficulty b' = GlobalDifficulty b ∧ BNonce b' = BNonce b.

Lemma settle_root_Ok comHash b w b' w' :
  settle_root (D := D) (SD := SD) (T := T) comHash b w = (Ok b', w') →
  w' = w ∧ SnapRoot b' = comHash ∧ same_header b b' ∧ Transactions b' = Transactions b.
Proof.
  intros H'. step H' as old w1 Hg. injection Hg as _ <-.
  case_decide; [by injection H' as <- <-|]. case_decide as Hr; [done|]. injection H' as <- <-.
  done.
Qed.

Lemma settle_root_init_Ok comHash b w b' w' :
  settle_root_init (D := D) (SD := SD) (T := T) comHash b w = (Ok b', w') →
  w' = w ∧ SnapRoot b' = comHash ∧ same_header b b' ∧ Transactions b' = Transactions b ∧ InitHeight < Height b.
Proof.
  unfold settle_root_init. case_decide as H'; [|case_decide; [|done]].
  - intros (-> & ? & ? & ?)%settle_root_Ok. split_and!; try done; lia.
  - intros [= <- <-]. split_and!; done || lia.
Qed.

(** ** AddBlock *)

Lemma AddBlock_body_Ok b b' w w' :
  length (BHash b) = 32%nat → (2 ≤ room (w_tx w))%nat → writes (w_tx w) = ∅ →
  AddBlock_body g now cfg b w = (Ok b', w') →
  InitHeight < Height b ∧ is_u64 (Height b) ∧ getMaxBlockHeight (Dbase (w_db w)) = Ok (Height b - 1) ∧
  same_header b b' ∧ length (SnapRoot b') = 32%nat ∧
  dbview (w_db w') !! HeightKey = Some (E64func (Height b)) ∧
  dbview (w_db w') !! height_key (Height b) = Some (BHash b) ∧
  dbview (w_db w') !! snap_key (Height b) = Some (SnapRoot b') ∧
  (∃ data, Serialize b' = Ok data ∧ dbview (w_db w') !! BHash b = Some data) ∧
  (dbview (w_db w') !! SnapRootKey = Some (SnapRoot b') ∨
   dbview (w_db w') !! SnapRootKey = dbview (w_db w) !! SnapRootKey).
Proof.
  intros Hlen Hroom Hwr H'. unfold AddBlock_body in H'.
  step H' as prev w1 H1'. injection H1' as Hprev <-.
  assert (of_db (keeps (w_db w)) w) as Kdb by by intros k.
  assert (of_tx (unwritten SnapRootKey) w) as Kur by (unfold of_tx, unwritten; set_solver).
  assert (of_tx (λ t, t = w_tx w) w) as Ktx by done.
  step H' as u1 w1 Hroot. carry Hroot.
  case_decide as Hh; [done|]. pose proof (getMaxBlockHeight_range _ _ Hprev) as Hpr.
  rewrite <- Hh in H'.
  step H' as u2 w2 Hs1. destruct u2.
  assert (kept (height_key (Height b)) (BHash b) (w_tx w2) ∧ room (w_tx w2) ≠ 0%nat) as [Kh Hr2].
  { destruct (on_tx_inv _ _ _ _ Hs1) as (Hset & _). split; [by eapply set_Ok_kept|].
    destruct (set_run (height_key (Height b)) (BHash b) (w_tx w1)) as (t' & Hs & _ & Hr & _).
    - apply key_ok_own; [done|]. apply own_height_key.
    - unfold val_ok. lia.
    - unfold of_tx in Ktx. rewrite Ktx. lia.
    - rewrite Hset in Hs. injection Hs as ->. unfold of_tx in Ktx. rewrite Hr, Ktx. lia. }
  clear Ktx. carry Hs1. change (of_tx (kept (height_key (Height b)) (BHash b)) w2) in Kh.
  step H' as u3 w3 Hs2. carry Hs2.
  assert (of_tx (kept HeightKey (E64func (Height b))) w3) as Khk.
  { eapply set_unchecked_room; [| |exact Hr2|exact Hs2]; [apply key_ok_own; [done|apply own_HeightKey]|].
    unfold val_ok. rewrite length_E64func. lia. }
  step H' as u4 w4 Hevm. carry Hevm.
  step H' as tg w5 Htxs. carry Htxs. destruct tg as [txs gas].
  step H' as comHash w6 Hcom. carry Hcom. pose proof (factCommit_length _ _ _ _ _ Hcom eq_refl) as Hcl.
  step H' as b2 w7 Hset. apply settle_root_init_Ok in Hset as (-> & Hsr & Hhd & Htx & Hinit).
  change (InitHeight < Height b) in Hinit.
  step H' as data w8 Hser. injection Hser as Hser <-.
  step H' as u5 w9 Hs3. carry Hs3. destruct u5.
  assert (of_tx (kept (BHash b) data) w9) as Kd
    by (destruct (on_tx_inv _ _ _ _ Hs3) as (Hset & _); by eapply set_Ok_kept).
  step H' as u6 w10 Hs4. carry Hs4. destruct u6.
  assert (of_tx (kept (snap_key (Height b)) comHash) w10) as Ks
    by (destruct (on_tx_inv _ _ _ _ Hs4) as (Hset & _); by eapply set_Ok_kept).
  step H' as u7 w11 Hs5.
  destruct (set_unchecked_cases _ _ _ _ _ Hs5) as (Hdb11 & _ & Hur).
  assert (of_tx (kept SnapRootKey comHash) w11 ∨ of_tx (unwritten SnapRootKey) w11) as Ksr.
  { unfold of_tx, unwritten in *. destruct Hur as [?|[->|[_ ->]]]; auto. }
  clear Kur. carry Hs5.
  step H' as u8 w12 Hcm. destruct u8. injection H' as <- <-.
  assert (getMaxBlockHeight (Dbase (w_db w)) = Ok (Height b - 1)) as Hmax.
  { rewrite Hprev. f_equal. unfold InitHeight in Hinit. unfold is_u64 in Hpr.
    destruct (decide (prev = MAXUINT64)) as [->|]; [by rewrite Hh in Hinit|].
    rewrite Hh, add64_small; lia. }
  assert (SnapRoot (with_gasUsed gas b2) = comHash) as Hsr' by exact Hsr.
  split_and!; try done.
  - rewrite Hh. apply add64_range.
  - by rewrite Hsr'.
  - by eapply Commit_kept.
  - by eapply Commit_kept.
  - rewrite Hsr'. by eapply Commit_kept.
  - exists data. split; [done|]. by eapply Commit_kept.
  - rewrite Hsr'. destruct Ksr as [Ksr|Ksr]; [left; by eapply Commit_kept|right].
    rewrite (Commit_unwritten _ _ _ Hcm Ksr). apply Kdb, own_SnapRootKey.
Qed.
(** ** Failing operations *)

(** [P] survives every outcome but success. *)
Definition fail_keeps {W A} (P : W → Prop) (m : stM W A) : Prop :=
  ∀ s r s', P s → m s = (r, s') → is_Ok r ∨ P s'.

Lemma fail_keeps_of {W A} (P : W → Prop) (m : stM W A) : preserves P m → fail_keeps P m.
Proof. intros Hm s r s' HP H'. right. by eapply Hm. Qed.
Lemma fail_keeps_bind {W A B} (P : W → Prop) (m : stM W A) (f : A → stM W B) :
  preserves P m → (∀ a, fail_keeps P (f a)) → fail_keeps P (m ≫= f).
Proof.
  intros Hm Hf s r s' HP. unfold mbind, stM_bind. destruct (m s) as [[a|e|] s1] eqn:E.
  - apply Hf. by eapply Hm.
  - intros [= <- <-]. right. by eapply Hm.
  - intros [= <- <-]. right. by eapply Hm.
Qed.

Lemma Commit_fails d0 : fail_keeps (of_db (keeps d0)) (Commit (D := D) (S := SD) (T := T)).
Proof.
  intros w r w' HP. unfold Commit. destruct (db_commit _ _) as [r1 d'] eqn:E. intros [= <- <-].
  destruct (decide (r1 = Ok tt)) as [->|Hr]; [left; by eexists|right].
  destruct (commit_fail _ _ _ _ E Hr) as [_ Hv]. intros k Hk. simpl. rewrite Hv. by apply HP.
Qed.

Lemma Commit_fail d0 {B} (b : B) :
  fail_keeps (of_db (keeps d0)) (Commit (D := D) (S := SD) (T := T) ;; mret b).
Proof.
  intros w r w' HP. unfold mbind, stM_bind. destruct (Commit w) as [r1 w1] eqn:E.
  destruct (Commit_fails d0 _ _ _ HP E) as [[[] ->]|Hk]; [intros [= <- <-]; left; by eexists|].
  destruct r1 as [?|?|]; intros H'; [injection H' as <- <-; left; by eexists|injection H' as _ <-; by right..].
Qed.

Lemma Commit_alone_fail d0 (h : error → stM (world D SD T) unit) :
  (∀ e, preserves (of_db (keeps d0)) (h e)) → (∀ e w, ¬ is_Ok (h e w).1) →
  fail_keeps (of_db (keeps d0)) (st_catch Commit h).
Proof.
  intros Hh Hne w r w' HP. unfold st_catch, Commit. destruct (db_commit _ _) as [r1 d'] eqn:E.
  assert (r1 ≠ Ok tt → keeps d0 d') as Hk.
  { intros Hr k Hk. destruct (commit_fail _ _ _ _ E Hr) as [_ Hv]. rewrite Hv. by apply HP. }
  destruct r1 as [[]|e|].
  - intros [= <- <-]. left. by eexists.
  - intros H'. right. eapply Hh; [|exact H']. by apply Hk.
  - intros [= <- <-]. right. by apply Hk.
Qed.

Lemma st_iter_pres {W A} (P : W → Prop) (f : A → stM W unit) l :
  (∀ x, preserves P (f x)) → preserves P (st_iter f l).
Proof. intros Hf. induction l as [|x l IH]; simpl; [apply preserves_ret|]. apply preserves_bind; auto. Qed.

Lemma deferred_pres {W A} (P : W → Prop) b (m : stM W A) : preserves P m → preserves P (deferred b m).
Proof.
  intros Hm w r w' HP. unfold deferred. destruct (m w) as [r1 w1] eqn:E. intros [= <- <-]. by eapply Hm.
Qed.

Lemma reopen_keeps d0 root :
  preserves (of_db (keeps d0)) (reopen (D := D) (SD := SD) (T := T) now cfg root).
Proof. intros w r w' HP. unfold reopen. by destruct (updateNewStateByRoot _ _); intros [= <- <-]. Qed.

Lemma delete_txs_keeps d0 txs : ∀ i,
  preserves (of_db (keeps d0)) (delete_txs (D := D) (SD := SD) (T := T) g i txs).
Proof. induction txs as [|tx txs IH]; intros i; simpl; repeat first [apply IH | pres_step]. Qed.

Lemma rounds_keeps {W} (P : W → Prop) (round : Z → stM W unit) n : ∀ dH,
  (∀ x, preserves P (round x)) → preserves P (delete_rounds round n dH).
Proof.
  induction n as [|n IH]; intros dH Hr; simpl; [apply preserves_ret|]. apply preserves_bind; auto.
Qed.

Lemma DeleteTempBlockTest_keeps d0 h :
  preserves (of_db (keeps d0)) (DeleteTempBlockTest (D := D) (SD := SD) (T := T) g now cfg h).
Proof.
  unfold DeleteTempBlockTest, DeleteTempBlock_at, miner_of, set_unchecked.
  repeat first [apply reopen_keeps | apply rounds_keeps; intros ? | apply delete_txs_keeps | pres_step].
Qed.

Lemma AddSmallBlock_keeps d0 b :
  preserves (of_db (keeps d0)) (AddSmallBlock (D := D) (SD := SD) (T := T) g now cfg b).
Proof. unfold AddSmallBlock. apply deferred_pres. unfold set_parent_evm. frame. Qed.

Variables (sha3 diffhash : bytes → bytes).

Lemma reconnect_keeps d0 hash :
  preserves (of_db (keeps d0)) (reconnect (D := D) (SD := SD) (T := T) g now cfg sha3 diffhash hash).
Proof. unfold reconnect, AddTempBlock. frame. Qed.

Lemma AddBlock_body_fail d0 b :
  fail_keeps (of_db (keeps d0)) (AddBlock_body (D := D) (SD := SD) (T := T) g now cfg b).
Proof.
  unfold AddBlock_body.
  repeat first
    [ apply Commit_fail
    | apply fail_keeps_bind; [solve [frame]|intros ?]
    | progress cbn zeta
    | match goal with |- fail_keeps _ (match ?x with _ => _ end) => destruct x end
    | apply fail_keeps_of; solve [frame] ].
Qed.

(** A failing operation inside [reverting] and [with_txn]. *)
Lemma reverting_fail {A} root (m : stM (world D SD T) A) (n : stM (chain D SD) A) (c c' : chain D SD) e :
  fail_keeps (of_db (keeps (db c))) m → (∀ c1, n c = (Err e, c1) → with_txn m c = (Err e, c1)) →
  reverting now cfg root n c = (Err e, c') →
  keeps (db c) (db c') ∧ ∀ s, state_New root (db c') = Ok s → sdb c' = s ∧ evm c' = NewEvm now cfg.
Proof.
  intros Hm Hn H'. unfold reverting in H'. destruct (n c) as [[a|e'|] c1] eqn:En; [done| |done].
  injection H' as -> <-. specialize (Hn _ eq_refl). unfold with_txn in Hn.
  destruct (m (World (db c) (sdb c) (db_begin (db c)) (evm c))) as [r w] eqn:E. injection Hn as -> <-.
  assert (of_db (keeps (db c)) (World (db c) (sdb c) (db_begin (T := T) (db c)) (evm c))) as H0' by by intros k.
  destruct (Hm _ _ _ H0' E) as [[a Ha]|Hk]; [done|].
  unfold rollState, updateNewStateByRoot. cbn [db].
  destruct (state_New root (w_db w)) as [s|e'|] eqn:Es; cbn [snd db sdb evm];
    (split; [done|]); intros s' Hs; rewrite Es in Hs; by simplify_eq.
Qed.

Lemma deferred_Err {W A} b (m : stM W A) x e x' : deferred b m x = (Err e, x') → m x = (Err e, x').
Proof.
  unfold deferred. destruct (m x) as [r x1]. destruct (deferred_log b); intros [= -> <-]; done.
Qed.

Lemma deferred_Ok {W A} b (m : stM W A) x a x' : deferred b m x = (Ok a, x') → m x = (Ok a, x').
Proof.
  unfold deferred. destruct (m x) as [r x1]. destruct (deferred_log b); intros [= -> <-]; done.
Qed.

(** The operations that add blocks. *)
Inductive add_op :=
  | OpAddBlock (b : Block)
  | OpAddBlocks (bs : list Block)
  | OpReorganize (hashs : list bytes) (delHeight : Z).

Definition run_op (o : add_op) : stM (chain D SD) unit :=
  match o with
  | OpAddBlock b => AddBlock (T := T) g now cfg b ;; mret tt
  | OpAddBlocks bs => AddBlocks (T := T) g now cfg bs
  | OpReorganize hashs h => ReorganizeChain (T := T) g now cfg sha3 diffhash hashs h
  end.

Lemma getters_keep (d d' : D) : keeps d d' →
  getMaxBlockHeight (Dbase d') = getMaxBlockHeight (Dbase d) ∧
  (∀ h, getHash h (Dbase d') = getHash h (Dbase d)) ∧
  (∀ h, kv_Get (snap_key h) (Dbase d') = kv_Get (snap_key h) (Dbase d)) ∧
  getSnapRoot (D := D) (S := SD) (Dbase d') = getSnapRoot (D := D) (S := SD) (Dbase d).
Proof.
  intros Hk. assert (∀ k, k ≠ [] → own_key k → kv_Get k (Dbase d') = kv_Get k (Dbase d)) as Hg.
  { intros k Hne Ho. rewrite !kv_Get_db by done. by rewrite Hk. }
  unfold getMaxBlockHeight, getHash, getSnapRoot.
  rewrite !Hg by (done || auto with keys). split_and!; [done| | |done]; intros h; apply Hg; done || auto with keys.
Qed.

(** A failing operation keeps the component's own keys and reopens the state. *)
Lemma run_op_fails (o : add_op) (c c' : chain D SD) (e : error) :
  run_op o c = (Err e, c') →
  keeps (db c) (db c') ∧ ∀ root s, getSnapRoot (D := D) (S := SD) (Dbase (db c)) = Ok root →
    state_New root (db c') = Ok s → sdb c' = s ∧ evm c' = NewEvm now cfg.
Proof.
  intros H'.
  destruct o as [b|bs|hashs h]; simpl in H'.
  - assert (AddBlock (T := T) g now cfg b c = (Err e, c')) as H1'.
    { unfold mbind, stM_bind in H'.
      destruct (AddBlock g now cfg b c) as [[?|?|] ?]; unfold mret, stM_ret in H'; congruence. }
    clear H'. unfold AddBlock in H1'.
    destruct (getSnapRoot (Dbase (db c))) as [root|e'|] eqn:Er; [|by injection H1' as -> <-; split|done].
    apply (reverting_fail _ (AddBlock_body g now cfg b)) in H1' as [Hk Hs];
      [|apply AddBlock_body_fail|apply deferred_Err]. split; [done|]. intros ? s [= <-]; apply Hs.
  - unfold AddBlocks in H'.
    destruct (getSnapRoot (Dbase (db c))) as [root|e'|] eqn:Er; [|by injection H' as -> <-; split|done].
    eapply reverting_fail in H' as [Hk Hs]; [split; [done|]; intros ? s [= <-]; apply Hs| |done].
    apply fail_keeps_bind; [apply st_iter_pres; intros; apply AddSmallBlock_keeps|intros _].
    apply fail_keeps_bind; [apply factCommit_keeps|intros _]. apply Commit_alone_fail.
    + intros e0. case_decide; [apply preserves_panic|apply preserves_err].
    + intros e0 w. case_decide; by intros [? ?].
  - unfold ReorganizeChain in H'.
    destruct (getSnapRoot (Dbase (db c))) as [root|e'|] eqn:Er; [|by injection H' as -> <-; split|done].
    eapply reverting_fail in H' as [Hk Hs]; [split; [done|]; intros ? s [= <-]; apply Hs| |done].
    apply fail_keeps_bind; [apply DeleteTempBlockTest_keeps|intros _].
    apply fail_keeps_bind; [apply st_iter_pres; intros; apply reconnect_keeps|intros _].
    apply Commit_fails.
Qed.

(** C1: a failing block operation changes nothing: when [AddBlock], [AddBlocks] or
    [ReorganizeChain] returns an error, whichever step it comes from, the recorded height,
    the hash and the state root of every height and the current root are what they were,
    and the account state has been reopened at the current root, so that no balance or
    nonce set on the way survives. *)
Theorem failure_atomic (o : add_op) (c c' : chain D SD) (e : error) :
  run_op o c = (Err e, c') →
  getMaxBlockHeight (Dbase (db c')) = getMaxBlockHeight (Dbase (db c)) ∧
  (∀ h, getHash h (Dbase (db c')) = getHash h (Dbase (db c))) ∧
  (∀ h, kv_Get (snap_key h) (Dbase (db c')) = kv_Get (snap_key h) (Dbase (db c))) ∧
  getSnapRoot (D := D) (S := SD) (Dbase (db c')) = getSnapRoot (D := D) (S := SD) (Dbase (db c)) ∧
  ∀ root s, getSnapRoot (D := D) (S := SD) (Dbase (db c)) = Ok root → state_New root (db c') = Ok s →
    sdb c' = s ∧ evm c' = NewEvm now cfg.
Proof.
  intros [Hk Hs]%run_op_fails. destruct (getters_keep _ _ Hk) as (? & ? & ? & ?). split_and!; done.
Qed.

(** ** A block that was added *)

(** C2: a block that [AddBlock] accepts is on the chain: it extends the recorded height by
    one, the new height, its hash, its state root and its serialization can be read back,
    it is the new tip with every transaction (when its fields are in range), and its
    header is the one that was given.  The state root key is the block's root, or, when
    its unchecked write did not fit the transaction, still the old one. *)
Theorem AddBlock_adds (b b' : Block) (c c' : chain D SD) :
  length (BHash b) = 32%nat → AddBlock (T := T) g now cfg b c = (Ok b', c') →
  let before := Dbase (db c) in
  let after := Dbase (db c') in
  InitHeight < Height b ∧ same_header b b' ∧
  getMaxBlockHeight before = Ok (Height b - 1) ∧ getMaxBlockHeight after = Ok (Height b) ∧
  getHash (Height b) after = Ok (BHash b) ∧
  kv_Get (snap_key (Height b)) after = Ok (SnapRoot b') ∧
  (kv_Get SnapRootKey after = Ok (SnapRoot b') ∨ kv_Get SnapRootKey after = kv_Get SnapRootKey before) ∧
  (∀ d gd, Difficulty b = Some d → GlobalDifficulty b = Some gd → 0 ≤ d → 0 ≤ gd →
   block_ok b' → short_bytes (big_Bytes d) → short_bytes (big_Bytes gd) → CborHeaderLaws →
   getBlockByHash (BHash b) after = Ok b' ∧ getBlockByHeight (Height b) after = Ok b' ∧ Tip after = Ok b').
Proof.
  intros Hlen H' before after. unfold AddBlock in H'.
  destruct (getSnapRoot (Dbase (db c))) as [root|e|] eqn:Er; [|done|done].
  assert (AddBlock_body g now cfg b (World (db c) (sdb c) (db_begin (T := T) (db c)) (evm c)) =
    (Ok b', World (db c') (sdb c') (w_tx (AddBlock_body g now cfg b
       (World (db c) (sdb c) (db_begin (T := T) (db c)) (evm c))).2) (evm c'))) as Hb.
  { unfold reverting, deferred, with_txn in H'.
    destruct (AddBlock_body g now cfg b _) as [r w]. destruct (deferred_log b) as [[]|e|]; [|done..].
    destruct r as [b2|e|]; [|done..]. injection H' as -> <-. by destruct w. }
  apply AddBlock_body_Ok in Hb as (H1'&Hu&H2'&H3'&H4'&H5'&H6'&H7'&(data&H8'&H9')&H10');
    [|done|simpl; pose proof (begin_room (db c)); lia|apply begin_writes].
  cbn [w_db] in *.
  assert (∀ k v, k ≠ [] → dbview (db c') !! k = Some v → kv_Get k after = Ok v) as Hget.
  { intros k v Hk Hv. unfold after. rewrite kv_Get_db by done. by rewrite Hv. }
  assert (BHash b ≠ []) as Hne by (by intros Hn; rewrite Hn in Hlen).
  assert (getMaxBlockHeight after = Ok (Height b)) as Hmax.
  { unfold getMaxBlockHeight. rewrite (Hget HeightKey _ ltac:(done) H5'). by apply D64_E64. }
  split_and!; try done.
  - by apply Hget.
  - by apply Hget.
  - destruct H10' as [Hs|Hs]; [left; by apply Hget|right].
    unfold before, after. rewrite !kv_Get_db by done. by rewrite Hs.
  - intros d gd Hd Hgd Hd0 Hgd0 Hok Hs1 Hs2 Hlaws. destruct H3' as (_&Hbh&_&_&_&_&Hed&Hegd&_).
    rewrite Hd in Hed. rewrite Hgd in Hegd.
    destruct (block_decode b' d gd [] Hok Hed Hegd Hs1 Hs2) as (data' & Hser & Hdec).
    rewrite H8' in Hser. injection Hser as <-. rewrite app_nil_r, !Z.abs_eq in Hdec by done.
    assert (with_difficulties (Some d) (Some gd) b' = b') as Hb'
      by (rewrite <- Hed, <- Hegd; by destruct b').
    rewrite Hb' in Hdec.
    assert (getBlockByHash (BHash b) after = Ok b') as Hbyhash.
    { unfold getBlockByHash. by rewrite (Hget _ _ Hne H9'). }
    split_and!; [done| |].
    + unfold getBlockByHeight. rewrite decide_False by (unfold InitHeight in *; lia).
      rewrite (Hget (height_key (Height b)) _ ltac:(done) H6'). exact Hbyhash.
    + unfold Tip, getHash. rewrite Hmax. cbn [mbind res_bind]. rewrite (Hget (height_key (Height b)) _ ltac:(done) H6').
      exact Hbyhash.
Qed.

(** ** The block that contracts see *)

(** [w1] is the world in which the block's transactions are applied, with success. *)
Definition applies (log : bool) b (w1 : world D SD T) : Prop :=
  ∃ out w2, apply_txs g log b (Height b) 0 0 (Transactions b) w1 = (Ok out, w2).

Lemma on_evm_inv {A} (m : stM EvmCfg A) w r w' :
  on_evm (D := D) (S := SD) (T := T) m w = (r, w') → ∃ e, m (w_evm w) = (r, e) ∧ w_evm w' = e ∧ w_tx w' = w_tx w.
Proof. intros (e & Hm & ->)%zoom_inv. by exists e. Qed.

Lemma root_check_tx b (commit : stM (D * SD) bytes) w r w' :
  (if decide (Height b > InitHeight + 1) then
     same ← root_unchanged (T := T) commit;
     if (same : bool) then mret tt else st_err (ErrMsg "snaproot not equal")
   else mret tt) w = (r, w') → w_tx w' = w_tx w.
Proof.
  intros H'. refine ((_ : preserves (of_tx (λ t, t = w_tx w)) _) _ _ _ eq_refl H'). frame.
Qed.

(** Contracts in the same block run at different heights on different nodes: a node
    that adds the block with [AddBlock] runs them at the block's own height and time, and
    one that synchronizes it with [AddSmallBlock] at those of the previous block. *)
Theorem contract_block_info (b b' : Block) (w w' : world D SD T) :
  (AddBlock_body g now cfg b w = (Ok b', w') →
   ∃ w1, applies true b w1 ∧ BlockNumber (w_evm w1) = Height b ∧ Time (w_evm w1) = Timestamp b) ∧
  (AddSmallBlock g now cfg b w = (Ok tt, w') →
   ∃ w1 p, applies false b w1 ∧ getBlockByHeight (Height b - 1) (w_tx w1) = Ok p ∧
     BlockNumber (w_evm w1) = Height p ∧ Time (w_evm w1) = Timestamp p).
Proof.
  split; intros H'.
  - unfold AddBlock_body in H'. step H' as prev w1 H1'. step H' as u1 w2 Hroot.
    case_decide as Hh; [done|]. rewrite <- Hh in H'.
    step H' as u2 w3 Hs1. step H' as u3 w4 Hs2. step H' as u4 w5 Hevm. step H' as tg w6 Htxs.
    exists w5. split; [by eexists _, _|]. unfold set_block_evm in Hevm.
    step Hevm as u5 w7 He1. step Hevm as m w8 Hm. unfold miner_of in Hm. injection Hm as _ <-.
    apply on_evm_inv in Hevm as (e & He & -> & _). by injection He as _ <-.
  - apply deferred_Ok in H'. step H' as prev w1 H1'. injection H1' as Hprev <-.
    step H' as u1 w2 Hroot. apply root_check_tx in Hroot.
    case_decide as Hh; [done|]. rewrite <- Hh in H'.
    step H' as u2 w3 Hs1. step H' as u3 w4 Hs2. step H' as u4 w5 Hevm. step H' as tg w6 Htxs.
    destruct tg as [txs gas]. step H' as comHash w7 Hcom.
    step H' as b2 w8 Hset. apply settle_root_init_Ok in Hset as (-> & _ & _ & _ & Hinit).
    change (InitHeight < Height b) in Hinit. pose proof (getMaxBlockHeight_range _ _ Hprev) as Hpr.
    assert (prev = Height b - 1) as ->.
    { unfold InitHeight, is_u64 in *. destruct (decide (prev = MAXUINT64)) as [->|]; [by rewrite Hh in Hinit|].
      rewrite Hh, add64_small; lia. }
    unfold set_parent_evm in Hevm. step Hevm as u5 w9 He1.
    rewrite decide_True in Hevm by (unfold InitHeight in *; lia).
    step Hevm as p w10 Hp. injection Hp as Hp <-.
    step Hevm as m w11 Hm. unfold miner_of in Hm. injection Hm as _ <-.
    apply on_evm_inv in Hevm as (e & He & Hev & Htx). injection He as _ <-.
    exists w5, p. split; [by eexists _, _|]. rewrite Htx, Hev. done.
Qed.

End Facts.

(** ** Witnesses *)

Module ChainSample.
Import MapTxn MapState MapWorld CryptoInstance.

Definition cfg : ChainConfig := ChainCfg 1 1 30000000 1.

(** A coinbase of 1000, and the first block, with a transfer and the coinbase. *)
Definition coinbase : FinishedTransaction :=
  FTx (STx (Tx 1 CoinBaseTransaction ZeroAddress Sample.bob 1000 60350423 0 0 0 []) (Sig TypeSecp256k1 [])) 0 0.
Definition b0 : Block :=
  MkBlock (InitHeight + 1) (replicate 32 Byte.x01) (replicate 32 Byte.x02)
    [Sample.tx_of TransferTransaction 300; coinbase] (replicate 32 Byte.x03) (replicate 32 Byte.x04) 1
    1600000000 12 Sample.bob (Some 5) (Some 70000) 9 100 0.
Definition c0 : chain mdb state :=
  Chain (Mdb {[ HeightKey := E64func InitHeight ]} []) Sample.s0 (NewEvm 0 cfg).

Definition add (b : Block) (c : chain mdb state) : res Block * chain mdb state :=
  AddBlock (T := MapTxn.txn) Sample.g 0 cfg b c.

Definition b1 : Block := Eval vm_compute in match (add b0 c0).1 with Ok b => b | _ => b0 end.
Definition c1 : chain mdb state := (add b0 c0).2.

Lemma added : add b0 c0 = (Ok b1, c1).
Proof. unfold c1. by_run. Qed.

Lemma b1_ok : block_ok b1.
Proof.
  unfold block_ok. repeat match goal with |- _ ∧ _ => split end;
    lazymatch goal with
    | |- Forall _ _ => repeat constructor; try (vm_compute; first [discriminate | reflexivity | lia]); right; left; reflexivity
    | |- enc_ok _ => split; [vm_compute; lia|vm_compute; discriminate]
    | |- _ => vm_compute; first [discriminate | split; discriminate]
    end.
Qed.

(** The synchronization of the same block, whose parent is stored. *)
Definition parent : Block := with_txs [] (MkBlock InitHeight (replicate 32 Byte.x01) (replicate 32 Byte.x07)
    [] (replicate 32 Byte.x03) (replicate 32 Byte.x04) 1 1500000000 12 Sample.bob (Some 5) (Some 70000) 9 100 0).
Definition w0 : world mdb state txn :=
  let d := Mdb {[ HeightKey := E64func InitHeight; height_key InitHeight := BHash parent;
                  BHash parent := match Serialize parent with Ok x => x | _ => [] end ]} [] in
  World d Sample.s0 (db_begin d) (NewEvm 0 cfg).

End ChainSample.

Lemma failure_atomic_witness :
  ∃ e c', run_op (T := MapTxn.txn) Sample.g 0 ChainSample.cfg id id
    (OpAddBlock ChainSample.b0) ChainSample.c1 = (Err e, c') ∧
  getMaxBlockHeight (Dbase (db c')) = Ok 60350423.
Proof.
  assert (run_op (T := MapTxn.txn) Sample.g 0 ChainSample.cfg id id
    (OpAddBlock ChainSample.b0) ChainSample.c1 = (Err (ErrMsg "height error"),
      (run_op (T := MapTxn.txn) Sample.g 0 ChainSample.cfg id id (OpAddBlock ChainSample.b0) ChainSample.c1).2)) as H
    by (by_run).
  revert H. generalize (run_op (T := MapTxn.txn) Sample.g 0 ChainSample.cfg id id
    (OpAddBlock ChainSample.b0) ChainSample.c1).2. intros c' H. exists (ErrMsg "height error"), c'.
  split; [exact H|]. rewrite (proj1 (failure_atomic Sample.g 0 ChainSample.cfg id id
    (OpAddBlock ChainSample.b0) ChainSample.c1 c' (ErrMsg "height error") H)).
  vm_compute. reflexivity.
Defined.

Lemma AddBlock_adds_witness :
  ChainSample.add ChainSample.b0 ChainSample.c0 = (Ok ChainSample.b1, ChainSample.c1) ∧
  Tip (Dbase (db ChainSample.c1)) = Ok ChainSample.b1.
Proof.
  split; [exact ChainSample.added|].
  destruct (AddBlock_adds Sample.g 0 ChainSample.cfg ChainSample.b0 ChainSample.b1 ChainSample.c0
    ChainSample.c1 eq_refl ChainSample.added) as (_&_&_&_&_&_&_&H).
  refine (proj2 (proj2 (H 5 70000 eq_refl eq_refl _ _ ChainSample.b1_ok _ _ _)));
    first [lia | vm_compute; discriminate | exact _].
Defined.

Lemma contract_block_info_witness :
  (∃ w1, applies (T := MapTxn.txn) Sample.g true ChainSample.b0 w1 ∧ BlockNumber (w_evm w1) = 60350423) ∧
  (∃ w1 p, applies (T := MapTxn.txn) Sample.g false ChainSample.b0 w1 ∧
     getBlockByHeight InitHeight (w_tx w1) = Ok p ∧ Time (w_evm w1) = Timestamp p).
Proof.
  destruct (contract_block_info (T := MapTxn.txn) Sample.g 0 ChainSample.cfg ChainSample.b0
      (match (AddBlock_body (T := MapTxn.txn) Sample.g 0 ChainSample.cfg ChainSample.b0 ChainSample.w0).1 with
       | Ok b => b | _ => ChainSample.b0 end) ChainSample.w0
      (AddBlock_body (T := MapTxn.txn) Sample.g 0 ChainSample.cfg ChainSample.b0 ChainSample.w0).2) as [Hadd _].
  destruct (contract_block_info (T := MapTxn.txn) Sample.g 0 ChainSample.cfg ChainSample.b0 ChainSample.b0
      ChainSample.w0
      (AddSmallBlock (T := MapTxn.txn) Sample.g 0 ChainSample.cfg ChainSample.b0 ChainSample.w0).2) as [_ Hsmall].
  split.
  - destruct Hadd as (w1 & H1 & H2 & _); [by_run|].
    exists w1. split; [exact H1|exact H2].
  - destruct Hsmall as (w1 & p & H1 & H2 & _ & H3); [by_run|].
    exists w1, p. split; [exact H1|]. split; [exact H2|exact H3].
Defined.
