(* ===== verification/Supply.v ===== *)
(** What applying a block's transactions does to the sum of the balances, and the nonces of
    the transactions that blocks apply. *)

From S2P Require Import Prelude Misc Badger BgStore Base58 Cbor Address Transaction Block.
From S2P Require Import Ledger World Apply Difficulty Economics Chain Frames ChainFacts.

(** ** Sums of balances *)

Section Total.
Context {S : Type} `{!StateDB S, !StateDBLaws S}.
Implicit Types (s : S) (L : list bytes) (a : bytes).

(** The sum of the balances of the accounts [L]. *)
Definition total L s : Z := foldr (λ a acc, sdb_GetBalance a s + acc) 0 L.

Lemma total_ext L s s' : (∀ a, a ∈ L → sdb_GetBalance a s' = sdb_GetBalance a s) → total L s' = total L s.
Proof.
  induction L as [|a L IH]; simpl; intros He; [done|].
  rewrite He, IH by set_solver. done.
Qed.

Lemma total_set L s a v :
  NoDup L → a ∈ L → total L (sdb_SetBalance a v s) = total L s - sdb_GetBalance a s + v.
Proof.
  induction 1 as [|b L Hb Hnd IH]; [by intros ?%not_elem_of_nil|]. simpl. rewrite balance_SetBalance.
  intros [->|Ha]%elem_of_cons.
  - rewrite decide_True by done. rewrite (total_ext L s); [unfold total; lia|].
    intros c Hc. rewrite balance_SetBalance, decide_False; [done|]. by intros ->.
  - rewrite decide_False by (by intros ->). fold (total L (sdb_SetBalance a v s)). rewrite IH by done.
    unfold total. lia.
Qed.

Lemma total_SetNonce L s a n : total L (sdb_SetNonce a n s) = total L s.
Proof. apply total_ext. intros. apply balance_SetNonce. Qed.

Lemma total_cons a L s : total (a :: L) s = sdb_GetBalance a s + total L s.
Proof. done. Qed.

Lemma total_nonneg L s : balances_ok s → 0 ≤ total L s.
Proof.
  intros Hok. induction L as [|a L IH]; [done|]. rewrite total_cons. pose proof (Hok a) as Ha.
  unfold is_u64 in Ha. lia.
Qed.

Lemma balance_le_total L s a : balances_ok s → a ∈ L → 0 ≤ sdb_GetBalance a s ≤ total L s.
Proof.
  intros Hok Ha. split; [apply Hok|]. induction L as [|b L IH]; [by apply not_elem_of_nil in Ha|].
  rewrite total_cons. pose proof (total_nonneg L s Hok) as Hnn. pose proof (Hok b) as Hb. unfold is_u64 in Hb.
  apply elem_of_cons in Ha as [->|Ha]; [lia|]. specialize (IH Ha). lia.
Qed.

Lemma balances_ok_SetNonce s a n : balances_ok s → balances_ok (sdb_SetNonce a n s).
Proof. intros Hok c. rewrite balance_SetNonce. apply Hok. Qed.
End Total.

(** ** Crediting and moving *)

Section Effects.
Context {S : Type} `{!StateDB S, !StateDBLaws S, !EthCommon} (g : globals).
Context (L : list bytes) (HL : NoDup L).
Implicit Types (s : S) (a from to : Address) (c : bytes).

(** [s'] has sound balances and a total that is greater by [delta]. *)
Definition changes (delta : Z) s s' : Prop := balances_ok s' ∧ total L s' = total L s + delta.

(** The account of [a] is one of [L]. *)
Definition listed a : Prop := ∃ c, NewCommonAddr g a = Ok c ∧ c ∈ L.

Lemma setNonce_effect a n s s' :
  balances_ok s → setNonce g a n s = (Ok tt, s') → changes 0 s s'.
Proof.
  intros Hok H'. unfold setNonce in H'. apply stM_bind_Ok in H' as (c & s1 & Hc & H').
  unfold common, st_lift in Hc. injection Hc as Hc <-.
  apply stM_bind_Ok in H' as (n0 & s1 & [= <- <-] & H'). cbn zeta in H'. case_decide; [done|].
  injection H' as <-. split; [by apply balances_ok_SetNonce|]. rewrite total_SetNonce. lia.
Qed.

Lemma credit_effect (gas : Z) a s s' :
  balances_ok s → is_u64 gas → listed a → setMinerFee g a gas s = (Ok tt, s') → changes gas s s'.
Proof.
  intros Hok Hg (c & Hc & Hin) H'. rewrite (setMinerFee_run g a c) in H' by done.
  case_decide; [|done]. injection H' as <-. pose proof (Hok c) as Hb. unfold is_u64 in *. split.
  - apply balances_ok_set; [done|]. unfold is_u64. lia.
  - rewrite total_set by done. lia.
Qed.

Lemma pay_effect t s s' :
  balances_ok s → is_u64 (Amount t) → listed (To t) → setToAccount g t s = (Ok tt, s') → changes (Amount t) s s'.
Proof.
  intros Hok Hg (c & Hc & Hin) H'. rewrite (setToAccount_run g t c) in H' by done.
  case_decide; [|done]. injection H' as <-. pose proof (Hok c) as Hb. unfold is_u64 in *. split.
  - apply balances_ok_set; [done|]. unfold is_u64. lia.
  - rewrite total_set by done. lia.
Qed.

(** A transfer to oneself costs the gas. *)
Lemma setAccount_self (binding : bytes → res Address) tx d c s s' :
  let t := ft_tx tx in
  balances_ok s → is_u64 (GasUsed tx) → is_move t → NewCommonAddr g (From t) = Ok c → From t = To t →
  setAccount g binding tx d s = (Ok tt, s') →
  GasUsed tx ≤ sdb_GetBalance c s ∧ s' = sdb_SetBalance c (sdb_GetBalance c s - GasUsed tx) s.
Proof.
  intros t Hok Hg Hty Hc Heq H'. pose proof (Hok c) as Hb. unfold is_u64 in *.
  assert (Type_ t ≠ WithdrawToEthTransaction) as Hw by (unfold is_move in Hty; set_solver).
  unfold setAccount in H'. fold t in H'. cbn zeta in H'. rewrite decide_False in H' by done.
  rewrite bool_decide_eq_true_2 in H' by by rewrite Heq. cbn [orb] in H'.
  apply stM_bind_Ok in H' as (u & s1 & Hpre & H').
  assert (s1 = s) as ->.
  { case_decide; [|by injection Hpre]. apply stM_bind_Ok in Hpre as (av & s2 & Hav & Hpre).
    rewrite (getAvailableBalance_run g _ c) in Hav by done. injection Hav as _ <-.
    case_decide; [done|]. by injection Hpre. }
  erewrite st_bind_eq in H' by by apply getBalance_run.
  case_decide; [done|]. case_decide; [done|]. rewrite (setBalance_run g _ c) in H' by done.
  injection H' as <-. split; [lia|]. by rewrite sub64_small by lia.
Qed.

(** Two listed accounts are the same only for the same address. *)
Definition separate from to : Prop :=
  ∀ c, NewCommonAddr g from = Ok c → NewCommonAddr g to = Ok c → from = to.

Lemma setAccount_effect (binding : bytes → res Address) tx d s s' :
  let t := ft_tx tx in
  balances_ok s → is_u64 (Amount t) → is_u64 (GasUsed tx) → is_move t → listed (From t) → listed (To t) →
  separate (From t) (To t) → total L s + GasUsed tx ≤ MAXUINT64 →
  setAccount g binding tx d s = (Ok tt, s') → changes (- GasUsed tx) s s'.
Proof.
  intros t Hok Ha Hg Hty (cf & Hcf & Hf) (ct & Hct & Ht) Hsep Hmax H'.
  pose proof (Hok cf) as Hb. pose proof (balance_le_total L s ct Hok Ht) as Hct'.
  pose proof (balance_le_total L s cf Hok Hf) as Hcf'.
  destruct (decide (From t = To t)) as [Heq|Hne].
  - eapply setAccount_self in H' as [Hle ->]; [|done..|exact Hcf|done].
    unfold is_u64 in *. split; [apply balances_ok_set; [done|]; unfold is_u64; lia|].
    rewrite total_set by done. lia.
  - assert (cf ≠ ct) as Hc by (intros ->; by apply Hne, (Hsep ct)).
    pose proof (Hok (frozen_acct cf)) as Hfz.
    destruct (setAccount_move g binding tx d cf ct s Hok Ha Hg Hty Hcf Hct Hc) as [Hyes Hno]; [lia|].
    match type of Hno with (¬ ?P → _) => destruct (decide P) as [Hcov|Hncov] end.
    + rewrite Hyes in H' by done. injection H' as <-. destruct Hcov as [Hcov1 Hcov2].
      unfold t, is_u64 in *. split.
      * apply balances_ok_set; [apply balances_ok_set; [done|]|]; unfold is_u64; lia.
      * rewrite total_set, total_set by done. rewrite balance_SetBalance, decide_False by done. lia.
    + destruct (Hno Hncov) as [e He]. rewrite He in H'. done.
Qed.

End Effects.

(** ** The transaction loop *)

Section Loop.
Context {D S T : Type} `{!Badger T, !BadgerDB D T, !StateDB S, !StateDBLaws S, !StateStore D S, !EvmRuntime S}.
Context `{!CborHeader, !Crypto, !EthCommon, !EvmData}.
Variable g : globals.
Context (L : list bytes) (HL : NoDup L).
Implicit Types (w : world D S T).

(** The gas of a transaction that is not a contract call, and what a coinbase mints: its
    amount and its gas, which is credited to the miner and paid by nobody. *)
Definition gas_of (tx : FinishedTransaction) : Z := GasLimit (ft_tx tx) *₆₄ GasPrice (ft_tx tx).
Definition minted (tx : FinishedTransaction) : Z :=
  if IsCoinBaseTransaction (ft_tx tx) then Amount (ft_tx tx) + gas_of tx else 0.
Definition minted_all (txs : list FinishedTransaction) : Z := foldr (λ tx acc, minted tx + acc) 0 txs.

(** A coinbase, or a transfer-like transaction between listed accounts. *)
Definition plain (tx : FinishedTransaction) : Prop :=
  let t := ft_tx tx in
  is_u64 (Amount t) ∧ gas_of tx ≤ MAXGASLIMIT ∧ listed g L (To t) ∧
  (Type_ t = CoinBaseTransaction ∨
   is_move t ∧ Type_ t ≠ LockTransaction ∧ Type_ t ≠ UnlockTransaction ∧ listed g L (From t) ∧
   separate g (From t) (To t)).

Lemma logged_Ok {A} l (m : stM (world D S T) A) w a w' : logged g l m w = (Ok a, w') → m w = (Ok a, w').
Proof.
  unfold logged, st_catch. destruct (m w) as [[x|e|] w1]; [done| |done].
  unfold mbind, stM_bind, st_lift. by destruct (log_texts g l).
Qed.

Lemma on_sdb_Ok {A} (m : stM S A) w a w' :
  on_sdb (D := D) (T := T) m w = (Ok a, w') → m (w_sdb w) = (Ok a, w_sdb w').
Proof. unfold on_sdb, zoom. destruct (m (w_sdb w)) as [r s]. by intros [= -> <-]. Qed.

Lemma on_tx_sdb {A} (m : stM T A) w r w' :
  on_tx (D := D) (S := S) m w = (r, w') → w_sdb w' = w_sdb w.
Proof. unfold on_tx, zoom. destruct (m (w_tx w)) as [r1 t]. by intros [= _ <-]. Qed.

Lemma changes_trans d1 d2 (s1 s2 s3 : S) :
  changes L d1 s1 s2 → changes L d2 s2 s3 → changes L (d1 + d2) s1 s3.
Proof. intros [_ E1] [E2 E3]. split; [done|]. lia. Qed.

Lemma apply_coinbase_effect b h i tx tx' w w' :
  balances_ok (w_sdb w) → plain tx → IsCoinBaseTransaction (ft_tx tx) = true → listed g L (Miner b) →
  apply_tx g b h i tx w = (Ok tx', w') → changes L (minted tx) (w_sdb w) (w_sdb w').
Proof.
  intros Hok (Ha & Hgas & Hto & _) Hcb Hm H'. unfold apply_tx in H'. unfold minted. rewrite Hcb in *.
  apply stM_bind_Ok in H' as (u1 & w1 & E1 & H'). apply on_tx_sdb in E1. cbn zeta in H'.
  apply stM_bind_Ok in H' as ([] & w2 & E2%logged_Ok%on_sdb_Ok & H').
  apply stM_bind_Ok in H' as ([] & w3 & E3%logged_Ok%on_sdb_Ok & H'). injection H' as _ <-.
  rewrite E1 in E2. apply (credit_effect g L HL) in E2; [|done|apply mul64_range|done].
  apply (pay_effect g L HL) in E3; [|apply E2|done|done].
  rewrite Z.add_comm. by eapply changes_trans.
Qed.

Lemma apply_move_effect b h i tx tx' w w' :
  balances_ok (w_sdb w) → plain tx → IsCoinBaseTransaction (ft_tx tx) = false → listed g L (Miner b) →
  total L (w_sdb w) + 2 * MAXGASLIMIT ≤ MAXUINT64 →
  apply_tx g b h i tx w = (Ok tx', w') → changes L 0 (w_sdb w) (w_sdb w').
Proof.
  intros Hok (Ha & Hgas & Hto & Hkind) Hcb Hm Hmax H'. unfold apply_tx in H'. rewrite Hcb in H'.
  assert (Type_ (ft_tx tx) ≠ CoinBaseTransaction) as Hncb by by apply bool_decide_eq_false_1 in Hcb.
  destruct Hkind as [?|(Hmv & Hl & Hul & Hfrom & Hsep)]; [done|].
  assert (IsEvmContractTransaction (ft_tx tx) = false) as He
    by (apply bool_decide_eq_false_2; unfold is_move in Hmv; set_solver).
  assert (IsLockTransaction (ft_tx tx) || IsUnlockTransaction (ft_tx tx) = false) as Hlk
    by (unfold IsLockTransaction, IsUnlockTransaction; by rewrite !bool_decide_eq_false_2).
  rewrite Hlk, He in H'. cbn zeta in H'. clear Hlk He.
  apply stM_bind_Ok in H' as (u1 & w1 & E1%on_tx_sdb & H').
  apply stM_bind_Ok in H' as (u2 & w2 & E2%on_tx_sdb & H').
  apply stM_bind_Ok in H' as ([] & w3 & E3%logged_Ok%on_sdb_Ok & H').
  apply stM_bind_Ok in H' as ([] & w4 & E4%logged_Ok%on_sdb_Ok & H').
  apply stM_bind_Ok in H' as ([] & w5 & E5%logged_Ok & H'). injection H' as _ <-.
  unfold set_account in E5. apply on_sdb_Ok in E5.
  rewrite E2, E1 in E3. apply (setNonce_effect g L) in E3; [|done].
  apply (credit_effect g L HL) in E4; [|apply E3|apply mul64_range|done].
  pose proof (changes_trans _ _ _ _ _ E3 E4) as E34. pose proof E34 as [Hok4 Ht4].
  fold (gas_of tx) in *. cbn [GasUsed set_gas] in *.
  apply (setAccount_effect g L HL) in E5; cbn [GasUsed set_gas ft_tx ft_st] in *; try done.
  - pose proof (changes_trans _ _ _ _ _ E34 E5) as Hall. by replace (0 + gas_of tx + - gas_of tx) with 0 in Hall by lia.
  - apply mul64_range.
  - lia.
Qed.

(** C3: money is conserved by the transactions that only move it: when the transactions of a
    block are coinbases and transactions that [setAccount] treats as transfers ([plain]), the
    sum of the balances of all the accounts it touches grows by exactly what its coinbases
    mint, their amounts and their gas; the transfers and their gas only move money.  Blocks
    with other transactions are left out, because there it need not hold: a withdrawal loses
    the frozen part of a balance ([Ledger.withdraw_effect]), a lock can wrap a balance around
    ([Ledger.freeze_effect]), and a contract does what it wants.
    This needs the supply to stay [2 * MAXGASLIMIT] below 2^64 and the gas of each
    transaction at most [MAXGASLIMIT].  Nothing in the code bounds what is minted: any
    number of coinbases, of any amount, is applied. *)
Theorem supply_conserved (log : bool) (b : Block) (h i gas gas' : Z) (txs txs' : list FinishedTransaction)
    (w w' : world D S T) :
  balances_ok (w_sdb w) → listed g L (Miner b) → Forall plain txs →
  total L (w_sdb w) + minted_all txs + 2 * MAXGASLIMIT ≤ MAXUINT64 →
  apply_txs g log b h i gas txs w = (Ok (txs', gas'), w') →
  balances_ok (w_sdb w') ∧ total L (w_sdb w') = total L (w_sdb w) + minted_all txs.
Proof.
  intros Hok Hm Hall. revert i gas txs' w Hok. induction Hall as [|tx txs Htx Htxs IH];
    intros i gas txs' w Hok Hmax H'; simpl in H'.
  { injection H' as _ _ <-. split; [done|]. simpl. lia. }
  assert (∀ l, Forall plain l → 0 ≤ minted_all l) as Hnn.
  { clear. induction 1 as [|x l [Hx _] _ IH]; [done|].
    change (minted_all (x :: l)) with (minted x + minted_all l). enough (0 ≤ minted x) by lia.
    unfold minted, gas_of. pose proof (mul64_range (GasLimit (ft_tx x)) (GasPrice (ft_tx x))) as Hr.
    unfold is_u64 in *. destruct (IsCoinBaseTransaction (ft_tx x)); lia. }
  change (minted_all (tx :: txs)) with (minted tx + minted_all txs) in *.
  pose proof (Hnn txs Htxs) as Hn1.
  apply stM_bind_Ok in H' as (u & w1 & Hlog & H').
  assert (w1 = w) as -> by (destruct log; [unfold st_lift in Hlog|]; by injection Hlog).
  apply stM_bind_Ok in H' as (tx' & w2 & Hap & H').
  assert (changes L (minted tx) (w_sdb w) (w_sdb w2)) as [Hok2 Ht2].
  { destruct (IsCoinBaseTransaction (ft_tx tx)) eqn:Hcb; [by eapply apply_coinbase_effect|].
    assert (minted tx = 0) as Hz by (unfold minted; by rewrite Hcb). rewrite Hz in *.
    eapply apply_move_effect; try done. lia. }
  apply stM_bind_Ok in H' as ([txs2 gas2] & w3 & Hrec & H'). injection H' as <- <- <-.
  destruct (IH _ _ _ _ Hok2 ltac:(lia) Hrec) as [Hok3 Ht3]. split; [done|]. lia.
Qed.

End Loop.

(** ** Nonces *)

Section Nonces.
Context {D S T : Type} `{!Badger T, !BadgerDB D T, !StateDB S, !StateDBLaws S, !StateStore D S, !EvmRuntime S}.
Context `{!CborHeader, !Crypto, !EthCommon, !EvmData}.
Variable g : globals.
Implicit Types (w : world D S T) (s : S) (c : bytes).

(** The nonces of a state are those of [f]. *)
Definition nonces (f : bytes → Z) s : Prop := ∀ c, sdb_GetNonce c s = f c.
Definition world_nonces (f : bytes → Z) w : Prop := nonces f (w_sdb w).

Lemma next_nonce_ext c s s' : nonces (λ c, sdb_GetNonce c s) s' → next_nonce c s' = next_nonce c s.
Proof. intros Hn. unfold next_nonce. by rewrite (Hn c). Qed.

(** Nothing but [setNonce] writes a nonce. *)
Lemma setBalance_nonces f a v : preserves (nonces f) (setBalance g a v).
Proof.
  apply preserves_bind; [apply preserves_lift|]. intros c s r s' Hs [= <- <-] d. by rewrite nonce_SetBalance.
Qed.
Lemma modify_balance_nonces f a v : preserves (nonces f) (st_modify (sdb_SetBalance a v)).
Proof. intros s r s' Hs [= <- <-] d. by rewrite nonce_SetBalance. Qed.

Ltac keeps_nonces := repeat first
  [ apply preserves_ret | apply preserves_lift | apply preserves_gets | apply preserves_err | apply preserves_panic
  | apply setBalance_nonces | apply modify_balance_nonces
  | apply preserves_ignore | apply preserves_catch; [|intros ?] | apply preserves_bind; [|intros ?]
  | progress cbn zeta
  | match goal with |- preserves _ (match ?x with _ => _ end) => destruct x end ].

Lemma setMinerFee_nonces f a gas : preserves (nonces f) (setMinerFee g a gas).
Proof. unfold setMinerFee, getBalance, common, read_balance. keeps_nonces. Qed.
Lemma setToAccount_nonces f t : preserves (nonces f) (setToAccount g t).
Proof. unfold setToAccount, getBalance, common, read_balance. keeps_nonces. Qed.
Lemma setFreezeAccount_nonces f a b v gas k : preserves (nonces f) (setFreezeAccount g a b v gas k).
Proof.
  unfold setFreezeAccount, getSingleFreezeBalance, getAvailableBalance, getAllFreezeBalance, setSingleFreezeBalance,
    setAllFreezeBalance, getBalance, common, read_balance. keeps_nonces.
Qed.
Lemma setAccount_nonces f binding tx d : preserves (nonces f) (setAccount g binding tx d).
Proof.
  unfold setAccount, move, getAvailableBalance, getAllFreezeBalance, getBalance, common, read_balance. keeps_nonces.
Qed.

Lemma on_sdb_nonces {A} f (m : stM S A) :
  preserves (nonces f) m → preserves (world_nonces f) (on_sdb (D := D) (T := T) m).
Proof. intros Hm. by eapply preserves_zoom. Qed.

Lemma logged_on_sdb_nonces {A} f l (m : stM S A) :
  preserves (nonces f) m → preserves (world_nonces f) (logged g l (on_sdb (D := D) (T := T) m)).
Proof.
  intros Hm. apply preserves_catch; [by apply on_sdb_nonces|].
  intros e. apply preserves_bind; [apply preserves_lift|intros; apply preserves_err].
Qed.

(** A successful step from a state keeps its nonces. *)
Lemma same_nonces {A} (m : stM (world D S T) A) w r w' :
  (∀ f, preserves (world_nonces f) m) → m w = (r, w') → ∀ c, next_nonce c (w_sdb w') = next_nonce c (w_sdb w).
Proof. intros Hm Hr c. apply next_nonce_ext. exact (Hm (λ c, sdb_GetNonce c (w_sdb w)) w r w' (λ c, eq_refl) Hr). Qed.

Lemma setNonce_Ok a n s s' : setNonce g a n s = (Ok tt, s') →
  ∃ c, NewCommonAddr g a = Ok c ∧ n = next_nonce c s +₆₄ 1 ∧ s' = sdb_SetNonce c n s.
Proof.
  intros H'. pose proof H' as Hrun. unfold setNonce in Hrun. apply stM_bind_Ok in Hrun as (c & s1 & Hc & _).
  unfold common, st_lift in Hc. injection Hc as Hc _. exists c. split; [done|].
  rewrite (setNonce_run g a c) in H' by done. case_decide; [|done]. by injection H' as <-.
Qed.

(** The transactions that use a nonce of the account [c]: its own, but for coinbases. *)
Definition uses c (tx : FinishedTransaction) : bool :=
  negb (IsCoinBaseTransaction (ft_tx tx)) &&
  match NewCommonAddr g (From (ft_tx tx)) with Ok a => bool_decide (a = c) | _ => false end.
Definition nonces_of c (txs : list FinishedTransaction) : list Z := (λ tx, Nonce (ft_tx tx)) <$> filter (uses c) txs.
(** Transactions that are no contract calls. *)
Definition no_contract (tx : FinishedTransaction) : Prop :=
  IsEvmContractTransaction (ft_tx tx) = false ∧ is_u64 (Nonce (ft_tx tx)).

(** The step of a nonce inside of a transaction. *)
Lemma nonce_step c (t : Transaction) l w w' :
  is_u64 (Nonce t) → logged g l (on_sdb (setNonce g (From t) (Nonce t +₆₄ 1))) w = (Ok tt, w') →
  match NewCommonAddr g (From t) with Ok a => bool_decide (a = c) | _ => false end = true →
  next_nonce c (w_sdb w) < MAXUINT64 → Nonce t = next_nonce c (w_sdb w) ∧ next_nonce c (w_sdb w') = Nonce t + 1.
Proof.
  intros Hn (a & Ha & Heq & Hw)%logged_Ok%on_sdb_Ok%setNonce_Ok Hu Hlt. rewrite Ha in Hu.
  apply bool_decide_eq_true_1 in Hu as ->.
  assert (0 < next_nonce c (w_sdb w)) as Hpos.
  { pose proof (nonce_range c (w_sdb w)) as Hr. unfold is_u64 in Hr. unfold next_nonce. case_decide; lia. }
  rewrite (add64_small (next_nonce c (w_sdb w))) in Heq by lia.
  assert (Nonce t = next_nonce c (w_sdb w)) as Hnn.
  { clear - Hn Heq Hlt Hpos. unfold is_u64 in Hn. unfold_words. Z.to_euclidean_division_equations; lia. }
  split; [done|]. assert (sdb_GetNonce c (w_sdb w') = Nonce t + 1) as He.
  { rewrite Hw, nonce_SetNonce by apply add64_range. rewrite decide_True by done. by rewrite add64_small by lia. }
  unfold next_nonce at 1. rewrite He, decide_False; lia.
Qed.
Lemma nonce_step_other c (t : Transaction) n l w w' :
  logged g l (on_sdb (setNonce g (From t) (n +₆₄ 1))) w = (Ok tt, w') →
  match NewCommonAddr g (From t) with Ok a => bool_decide (a = c) | _ => false end = false →
  next_nonce c (w_sdb w') = next_nonce c (w_sdb w).
Proof.
  intros (a & Ha & Heq & Hw)%logged_Ok%on_sdb_Ok%setNonce_Ok Hu. rewrite Ha in Hu.
  apply bool_decide_eq_false_1 in Hu. unfold next_nonce.
  assert (sdb_GetNonce c (w_sdb w') = sdb_GetNonce c (w_sdb w)) as ->; [|done].
  rewrite Hw, nonce_SetNonce by apply add64_range. by rewrite (decide_False (P := c = a)) by congruence.
Qed.

(** One transaction of a block. *)
Lemma apply_tx_nonces c b h i tx tx' w w' :
  no_contract tx → apply_tx g b h i tx w = (Ok tx', w') →
  if uses c tx
  then next_nonce c (w_sdb w) < MAXUINT64 →
       Nonce (ft_tx tx) = next_nonce c (w_sdb w) ∧ next_nonce c (w_sdb w') = next_nonce c (w_sdb w) + 1
  else next_nonce c (w_sdb w') = next_nonce c (w_sdb w).
Proof.
  intros [He Hn] H'. unfold apply_tx in H'. rewrite He in H'. unfold uses.
  destruct (IsCoinBaseTransaction (ft_tx tx)); cbn [negb andb] in *; cbn zeta in H'.
  { apply stM_bind_Ok in H' as (u1 & w1 & E1%on_tx_sdb & H').
    apply stM_bind_Ok in H' as ([] & w2 & E2 & H'). apply stM_bind_Ok in H' as ([] & w3 & E3 & H').
    injection H' as _ <-. rewrite <- E1.
    rewrite (same_nonces _ _ _ _ (λ f, logged_on_sdb_nonces f _ _ (setToAccount_nonces f _)) E3).
    exact (same_nonces _ _ _ _ (λ f, logged_on_sdb_nonces f _ _ (setMinerFee_nonces f _ _)) E2 c). }
  assert (∃ l w1 w2, w_sdb w1 = w_sdb w ∧
    logged g l (on_sdb (setNonce g (From (ft_tx tx)) (Nonce (ft_tx tx) +₆₄ 1))) w1 = (Ok tt, w2) ∧
    next_nonce c (w_sdb w') = next_nonce c (w_sdb w2)) as (l & w1 & w2 & E1 & E2 & E3).
  { destruct (_ || _); apply stM_bind_Ok in H' as (u1 & w1 & E1%on_tx_sdb & H');
      apply stM_bind_Ok in H' as (u2 & w2 & E2%on_tx_sdb & H');
      apply stM_bind_Ok in H' as ([] & w3 & E3 & H'); apply stM_bind_Ok in H' as ([] & w4 & E4 & H');
      apply stM_bind_Ok in H' as ([] & w5 & E5 & H'); injection H' as _ <-;
      exists [From (ft_tx tx); To (ft_tx tx)], w2, w3; (split; [congruence|]); (split; [exact E3|]);
      rewrite <- (same_nonces _ _ _ _ (λ f, logged_on_sdb_nonces f _ _ (setMinerFee_nonces f _ _)) E4).
    - exact (same_nonces _ _ _ _ (λ f, logged_on_sdb_nonces f _ _ (setFreezeAccount_nonces f _ _ _ _ _)) E5 c).
    - apply logged_Ok in E5. exact (same_nonces (on_sdb _) _ _ _ (λ f, on_sdb_nonces f _ (setAccount_nonces f _ _ _)) E5 c). }
  rewrite E3, <- E1. destruct (match NewCommonAddr g _ with Ok _ => _ | _ => _ end) eqn:Eu.
  - intros Hlt. destruct (nonce_step c _ _ _ _ Hn E2 Eu Hlt) as [Hnn Hnext]. by rewrite <- Hnn.
  - by eapply nonce_step_other.
Qed.

Lemma nonces_of_cons c tx txs :
  nonces_of c (tx :: txs) = (if uses c tx then [Nonce (ft_tx tx)] else []) ++ nonces_of c txs.
Proof.
  unfold nonces_of. rewrite filter_cons. by destruct (uses c tx); [rewrite decide_True|rewrite decide_False by tauto].
Qed.

(** The transactions of a block. *)
Lemma apply_txs_nonces c log b h i gas gas' txs txs' w w' :
  Forall no_contract txs → apply_txs g log b h i gas txs w = (Ok (txs', gas'), w') →
  next_nonce c (w_sdb w) + Z.of_nat (length (nonces_of c txs)) ≤ MAXUINT64 →
  nonces_of c txs = seqZ (next_nonce c (w_sdb w)) (Z.of_nat (length (nonces_of c txs))) ∧
  next_nonce c (w_sdb w') = next_nonce c (w_sdb w) + Z.of_nat (length (nonces_of c txs)).
Proof.
  intros Hall. revert i gas gas' txs' w. induction Hall as [|tx txs Htx Htxs IH]; intros i gas gas' txs' w H' Hmax; simpl in H'.
  { injection H' as _ _ <-. split; [done|]. unfold nonces_of. simpl. lia. }
  apply stM_bind_Ok in H' as (u & w1 & Hlog & H').
  assert (w1 = w) as -> by (destruct log; [unfold st_lift in Hlog|]; by injection Hlog).
  apply stM_bind_Ok in H' as (tx' & w2 & Hap & H').
  apply stM_bind_Ok in H' as ([txs2 gas2] & w3 & Hrec & H'). injection H' as _ _ <-.
  apply (apply_tx_nonces c) in Hap; [|done]. rewrite nonces_of_cons in *.
  destruct (uses c tx); cbn [app length] in *.
  - destruct Hap as [Hn Hn2]; [lia|]. destruct (IH _ _ _ _ _ Hrec) as [IH1 IH2]; [lia|].
    split; [|lia]. rewrite seqZ_cons by lia. rewrite Hn. f_equal. rewrite IH1 at 1. f_equal; lia.
  - destruct (IH _ _ _ _ _ Hrec) as [IH1 IH2]; [lia|]. rewrite Hap in *. by split.
Qed.

(** *** Over many blocks *)

(** Blocks whose transactions were applied one after the other, each to the state that the
    one before left. *)
Inductive blocks_applied : S → list FinishedTransaction → S → Prop :=
  | no_block s : blocks_applied s [] s
  | one_block log b h i gas gas' txs txs' w w' rest s' :
      apply_txs (D := D) (T := T) g log b h i gas txs w = (Ok (txs', gas'), w') →
      blocks_applied (w_sdb w') rest s' → blocks_applied (w_sdb w) (txs ++ rest) s'.

Lemma nonces_of_app c txs txs2 : nonces_of c (txs ++ txs2) = nonces_of c txs ++ nonces_of c txs2.
Proof. unfold nonces_of. by rewrite filter_app, fmap_app. Qed.

Lemma blocks_nonces c s txs s' :
  blocks_applied s txs s' → Forall no_contract txs → next_nonce c s + Z.of_nat (length (nonces_of c txs)) ≤ MAXUINT64 →
  nonces_of c txs = seqZ (next_nonce c s) (Z.of_nat (length (nonces_of c txs))) ∧
  next_nonce c s' = next_nonce c s + Z.of_nat (length (nonces_of c txs)).
Proof.
  induction 1 as [s|log b h i gas gas' txs txs' w w' rest s' Hrun _ IH]; intros Hall Hmax.
  { split; [done|]. unfold nonces_of. simpl. lia. }
  apply Forall_app in Hall as [Hall Hrest]. rewrite nonces_of_app in *. rewrite length_app in *.
  destruct (apply_txs_nonces c _ _ _ _ _ _ _ _ _ _ Hall Hrun) as [E1 E2]; [lia|].
  destruct (IH Hrest) as [E3 E4]; [lia|]. split; [|lia].
  rewrite Nat2Z.inj_add, seqZ_app by lia. f_equal; [exact E1|]. by rewrite E3, E2 at 1.
Qed.

(** C25: nonces are used in sequence and never twice: whatever blocks without contract calls are
    applied, the nonces of an account's transactions, over all of the blocks and in their
    order, are the account's next nonce and the numbers that follow it, none missing and none
    twice; and then the next transaction of the account is refused unless it has the nonce
    after them.  Coinbases use no nonce.  Contract calls are left out because they set the
    nonce of an address of their choice to any value, unchecked; after one, nonces can be used
    again.  The nonces must not reach 2^64. *)
Theorem nonces_sequential c s txs s' :
  blocks_applied s txs s' → Forall no_contract txs → next_nonce c s + Z.of_nat (length (nonces_of c txs)) < MAXUINT64 →
  nonces_of c txs = seqZ (next_nonce c s) (Z.of_nat (length (nonces_of c txs))) ∧ NoDup (nonces_of c txs) ∧
  ∀ b h i tx tx' w w', w_sdb w = s' → no_contract tx → uses c tx = true →
    apply_tx (D := D) (T := T) g b h i tx w = (Ok tx', w') →
    Nonce (ft_tx tx) = next_nonce c s + Z.of_nat (length (nonces_of c txs)) ∧ Nonce (ft_tx tx) ∉ nonces_of c txs.
Proof.
  intros Hb Hall Hmax. destruct (blocks_nonces c s txs s' Hb Hall) as [E1 E2]; [lia|].
  split_and!; [done|rewrite E1; apply NoDup_seqZ|].
  intros b h i tx tx' w w' <- Htx Hu Hap. apply (apply_tx_nonces c) in Hap; [|done]. rewrite Hu in Hap.
  destruct Hap as [Hn _]; [lia|]. split; [lia|]. rewrite E1, elem_of_seqZ. lia.
Qed.
End Nonces.

(** The block of [ChainSample]: a transfer of 300 and a coinbase of 1000. *)
Lemma supply_conserved_witness :
  ∃ out w', apply_txs (T := MapTxn.txn) Sample.g true ChainSample.b0 60350423 0 0
      (Transactions ChainSample.b0) ChainSample.w0 = (Ok out, w') ∧
    total [Sample.ca; Sample.cb] (w_sdb w') = 5000007 + 1000.
Proof.
  assert (listed Sample.g [Sample.ca; Sample.cb] Sample.alice) as Ha
    by (exists Sample.ca; split; [exact Sample.alice_ca|left]).
  assert (listed Sample.g [Sample.ca; Sample.cb] Sample.bob) as Hb
    by (exists Sample.cb; split; [exact Sample.bob_cb|right; left]).
  assert (∃ out w', apply_txs (T := MapTxn.txn) Sample.g true ChainSample.b0 60350423 0 0
      (Transactions ChainSample.b0) ChainSample.w0 = (Ok out, w')) as ([txs' gas'] & w' & Hrun)
    by (eexists _, _; by_run).
  exists (txs', gas'), w'. split; [exact Hrun|].
  assert (NoDup [Sample.ca; Sample.cb]) as Hnd by (apply (bool_decide_unpack _); vm_compute; exact I).
  destruct (supply_conserved Sample.g [Sample.ca; Sample.cb] Hnd true ChainSample.b0 60350423 0 0 gas'
    (Transactions ChainSample.b0) txs' ChainSample.w0 w' Sample.s0_ok Hb) as [_ Ht].
  - constructor; [|constructor; [|constructor]].
    + split; [vm_compute; split; discriminate|]. split; [vm_compute; discriminate|]. split; [exact Hb|right].
      split; [apply (bool_decide_unpack _); vm_compute; exact I|]. split; [discriminate|].
      split; [discriminate|]. split; [exact Ha|].
      intros c H1 H2. exfalso. cbn in H1, H2. change (From _) with Sample.alice in H1.
      change (To _) with Sample.bob in H2. rewrite Sample.alice_ca in H1. rewrite Sample.bob_cb in H2.
      apply Sample.ca_cb. congruence.
    + split; [vm_compute; split; discriminate|]. split; [vm_compute; discriminate|]. split; [exact Hb|].
      left. reflexivity.
  - vm_compute. discriminate.
  - exact Hrun.
  - rewrite Ht. vm_compute. reflexivity.
Defined.

(** Two blocks: the one of [ChainSample], and one with alice's next transfer. *)
Definition second_transfer : FinishedTransaction :=
  FTx (STx (Tx 1 TransferTransaction Sample.alice Sample.bob 200 2 21000 0 100 []) (Sig TypeSecp256k1 [])) 2100000 1.

Lemma nonces_sequential_witness :
  ∃ s', blocks_applied (D := MapWorld.mdb) (T := MapTxn.txn) Sample.g (w_sdb ChainSample.w0)
      (Transactions ChainSample.b0 ++ [second_transfer]) s' ∧
    nonces_of Sample.g Sample.ca (Transactions ChainSample.b0 ++ [second_transfer]) = [1; 2] ∧ NoDup [1; 2].
Proof.
  assert (∃ out w1, apply_txs (T := MapTxn.txn) Sample.g true ChainSample.b0 60350423 0 0
      (Transactions ChainSample.b0) ChainSample.w0 = (Ok out, w1) ∧
    ∃ out2 w2, apply_txs (T := MapTxn.txn) Sample.g true ChainSample.b0 60350424 0 0
      [second_transfer] w1 = (Ok out2, w2)) as ([txs1 gas1] & w1 & Hrun1 & [txs2 gas2] & w2 & Hrun2).
  { eexists _, _. split; [by_run|]. eexists _, _. by_run. }
  assert (blocks_applied (D := MapWorld.mdb) (T := MapTxn.txn) Sample.g (w_sdb ChainSample.w0)
    (Transactions ChainSample.b0 ++ [second_transfer]) (w_sdb w2)) as Hb.
  { eapply one_block; [exact Hrun1|]. rewrite <- (app_nil_r [second_transfer]).
    eapply one_block; [exact Hrun2|]. apply no_block. }
  exists (w_sdb w2). split; [exact Hb|].
  assert (nonces_of Sample.g Sample.ca (Transactions ChainSample.b0 ++ [second_transfer]) = [1; 2]) as Hn
    by (vm_compute; reflexivity).
  destruct (nonces_sequential Sample.g Sample.ca _ _ _ Hb) as (_ & Hnd & _).
  - constructor; [|constructor; [|constructor; [|constructor]]];
      (split; [vm_compute; reflexivity|split; vm_compute; discriminate]).
  - vm_compute. reflexivity.
  - split; [exact Hn|]. exact (eq_ind _ NoDup Hnd _ Hn).
Defined.
