(* ===== verification/Consensus.v ===== *)
(** Consensus ([pkg/consensus]): accepting blocks on the main chain, on branches and as
    orphans, and choosing the branch to reorganize to.

    The chain is used through the interface [blockchain.Blockchains]: the class
    [Blockchains], whose laws say which of its operations leave the recorded chain alone.
    [ConsensusChain.v] shows that the chain of [Chain.v] has them. *)

From S2P Require Import Prelude Address Block Economics.

(** ** The chain *)

(** The methods of [blockchain.Blockchains] that this package calls. *)
Class Blockchains (BC : Type) := {
  bc_GetBlockByHash : bytes → BC → res Block;
  bc_GetMaxBlockHeight : BC → res Z;
  bc_Tip : BC → res Block;
  bc_GetNonce : Address → BC → res Z;
  bc_CheckBlockRegular : Block → BC → res unit;
  bc_AddBlock : Block → stM BC unit;
  bc_AddUncleBlock : Block → stM BC unit;
  bc_DeleteUncleBlock : Block → stM BC unit;
  bc_ReorganizeChain : list bytes → Z → stM BC unit;
}.

(** [same_chain c c']: the recorded chain, its height and the hash and state root of every
    height, is in [c'] what it is in [c]. *)
Class BlockchainsLaws (BC : Type) `{!Blockchains BC} := {
  same_chain :: relation BC;
  same_chain_preorder :: PreOrder same_chain;
  AddBlock_Err b c e c' : bc_AddBlock b c = (Err e, c') → same_chain c c';
  ReorganizeChain_Err hs h c e c' : bc_ReorganizeChain hs h c = (Err e, c') → same_chain c c';
  AddUncleBlock_same b c r c' : length (BHash b) = 32%nat → bc_AddUncleBlock b c = (r, c') → same_chain c c';
  DeleteUncleBlock_same b c r c' :
    length (BHash b) = 32%nat → bc_DeleteUncleBlock b c = (r, c') → same_chain c c';
}.

(** ** Data *)

Definition HashSize : nat := 32.
Definition MaxEqealBlockWeight : nat := 10.
Definition MaxExpiration : Z := 3600.

(** [Hash] is an array of 32 bytes; its zero value stands for bytes of another length. *)
Definition zero_hash : bytes := replicate HashSize Byte.x00.
Definition BytesToHash (b : bytes) : bytes := if decide (length b ≠ HashSize) then zero_hash else b.

(** Times are seconds.  The code shares [OrphanBlock]s by pointer and never changes one. *)
Record OrphanBlock := MkOrphan { OBlock : Block; Expiration : Z }.

Definition ohash (o : OrphanBlock) : bytes := BytesToHash (BHash (OBlock o)).
Definition oprev (o : OrphanBlock) : bytes := BytesToHash (PrevHash (OBlock o)).

Record BlockChain (BC : Type) := MkBlockChain {
  Bc : BC;
  Oranphs : gmap bytes OrphanBlock;
  PrevOrphans : gmap bytes (list OrphanBlock);
  oldestOrphan : option OrphanBlock;
}.
Arguments MkBlockChain {BC} Bc Oranphs PrevOrphans oldestOrphan.
Arguments Bc {BC} b.
Arguments Oranphs {BC} b.
Arguments PrevOrphans {BC} b.
Arguments oldestOrphan {BC} b.

Section Consensus.
Context {BC : Type} `{!Blockchains BC}.
Implicit Types (s : BlockChain BC) (b : Block) (o : OrphanBlock).

Abbreviation M := (stM (BlockChain BC)).

Definition New (bc : BC) : BlockChain BC := MkBlockChain bc ∅ ∅ None.

Definition on_bc {A} : stM BC A → M A :=
  zoom Bc (λ c s, MkBlockChain c (Oranphs s) (PrevOrphans s) (oldestOrphan s)).
Definition from_bc {A} (f : BC → res A) : M A := λ s, (f (Bc s), s).

(** judge block by hash exist *)
Definition BlockExists (hash : bytes) : M bool :=
  or_return (from_bc (bc_GetBlockByHash hash)) false (λ _, mret true).

(** ** Orphans *)

Definition OrphanBlockIsExist (hash : bytes) s : option Block :=
  OBlock <$> Oranphs s !! BytesToHash hash.

(** The loop that removes from a slice every orphan with the hash. *)
Fixpoint remove_hash (orphanHash : bytes) (orphans : list OrphanBlock) : list OrphanBlock :=
  match orphans with
  | [] => []
  | o :: orphans =>
      if decide (orphanHash = ohash o) then remove_hash orphanHash orphans
      else o :: remove_hash orphanHash orphans
  end.

(** delete orphan block data *)
Definition removeOrphanBlock o s : BlockChain BC :=
  let orphans := remove_hash (ohash o) (default [] (PrevOrphans s !! oprev o)) in
  MkBlockChain (Bc s) (delete (ohash o) (Oranphs s))
    (if decide (orphans = []) then delete (oprev o) (PrevOrphans s) else <[oprev o := orphans]> (PrevOrphans s))
    (oldestOrphan s).

(** One round of the loop over the orphans. *)
Definition expire (now : Z) o s : BlockChain BC :=
  if decide (now > Expiration o) then removeOrphanBlock o s
  else
    if match oldestOrphan s with None => true | Some oldest => bool_decide (Expiration o < Expiration oldest) end
    then MkBlockChain (Bc s) (Oranphs s) (PrevOrphans s) (Some o)
    else s.

(** [for _, orphan := range b.Oranphs]: the keys come in any order; one that is deleted
    before it is reached is skipped. *)
Fixpoint expire_all (now : Z) (order : list bytes) s : BlockChain BC :=
  match order with
  | [] => s
  | h :: order =>
      expire_all now order (match Oranphs s !! h with Some o => expire now o s | None => s end)
  end.

(** add block  to orphan pool,According to the expiration time to
    determine whether to retain.  [now] is [time.Now()], [order] the order of the map. *)
Definition AddOrphanBlock (now : Z) (order : list bytes) b s : BlockChain BC :=
  let oBlock := MkOrphan b (now + MaxExpiration) in
  let s := expire_all now order s in
  match Oranphs s !! ohash oBlock with
  | Some _ => s
  | None =>
      MkBlockChain (Bc s) (<[ohash oBlock := oBlock]> (Oranphs s))
        (<[oprev oBlock := default [] (PrevOrphans s !! oprev oBlock) ++ [oBlock]]> (PrevOrphans s))
        (oldestOrphan s)
  end.

(** ** Branches *)

(** Finds a block where two chains intersect: the hashes of the branch down to it, and
    the height of the branch's lowest block.  [fuel] bounds the steps of both walks. *)
Fixpoint FindBranchPoint_loop (fuel : nat) (mainhash branchchainhash : bytes) (hashs : list bytes) (height : Z)
    (c : BC) : option (res (list bytes * Z)) :=
  if decide (mainhash = branchchainhash) then Some (Ok (hashs, height)) else
  match fuel with
  | O => None
  | S fuel =>
      let hashs := hashs ++ [branchchainhash] in
      match bc_GetBlockByHash mainhash c with
      | Ok mblock =>
          match bc_GetBlockByHash branchchainhash c with
          | Ok bblock => FindBranchPoint_loop fuel (PrevHash mblock) (PrevHash bblock) hashs (Height bblock) c
          | Err e => Some (Err e)
          | Panic => Some Panic
          end
      | Err e => Some (Err e)
      | Panic => Some Panic
      end
  end.

Definition FindBranchPoint (fuel : nat) (prevhash tiphash : bytes) (c : BC) : option (res (list bytes * Z)) :=
  FindBranchPoint_loop fuel tiphash prevhash [] 0 c.

(** A result [None] is a walk that has not ended within [fuel] steps. *)
Definition maybeAcceptBlock (fuel : nat) b : M (option (bool * bool)) :=
  let bad := Some (false, false) in
  or_return (from_bc bc_Tip) bad (λ tipblock,
  if decide (PrevHash b = BHash tipblock) then
    easy ← (if decide (Height b mod 10 ≠ 2 ∧ Height b > InitHeight + 1) then
              match GlobalDifficulty tipblock, GlobalDifficulty b with
              | Some x, Some y => mret (bool_decide (x < y))
              | _, _ => st_panic
              end
            else mret false);
    if (easy : bool) then mret bad else
    or_return (if decide (Height b ≠ 1) then from_bc (bc_CheckBlockRegular b) else mret tt) bad (λ _,
    or_return (on_bc (bc_AddBlock b)) bad (λ _,
    mret (Some (true, true))))
  else
    or_return (from_bc (bc_GetBlockByHash (PrevHash b))) bad (λ parent,
    if decide (Height parent = Height tipblock) then
      or_return (on_bc (bc_AddUncleBlock b)) bad (λ _,
      c ← st_gets Bc;
      match FindBranchPoint fuel (BHash parent) (BHash tipblock) c with
      | None => mret None
      | Some found =>
          or_return (st_lift found) bad (λ '(branchhash, delHeight),
          let hashList := [BHash b] ++ branchhash in
          ok ← or_return (on_bc (bc_ReorganizeChain hashList delHeight)) false (λ _, mret true);
          if (ok : bool) then mret (Some (true, true))
          else ignore_err (on_bc (bc_DeleteUncleBlock b)) tt ;; mret bad)
      end)
    else if decide (Height parent < Height tipblock) then
      or_return (on_bc (bc_AddUncleBlock b)) bad (λ _, mret (Some (true, false)))
    else mret bad)).

(** ** Adopting orphans *)

(** The two loops of [ProcessOrphan] as one: the children of the first hash are adopted
    one after the other (removing an orphan moves the index back, so that the inner loop
    always looks at the first one), and the hashes of the adopted blocks queue up.
    [fuel] bounds the rounds. *)
Fixpoint orphan_loop (ffuel fuel : nat) (prevhashs : list bytes) (main : bool) : M (option bool) := λ s,
  match prevhashs with
  | [] => (Ok (Some main), s)
  | prevhash :: rest =>
      match fuel with
      | O => (Ok None, s)
      | S fuel =>
          match default [] (PrevOrphans s !! prevhash) with
          | [] => orphan_loop ffuel fuel rest main s
          | orphan :: _ =>
              (acc ← maybeAcceptBlock ffuel (OBlock orphan);
               match acc with
               | None => mret None
               | Some (ok, main) =>
                   if (ok : bool) then orphan_loop ffuel fuel (prevhash :: rest ++ [ohash orphan]) main
                   else mret (Some main)
               end) (removeOrphanBlock orphan s)
          end
      end
  end.

(** ProcessOrphan   if block prevhash is exist in orphan pool ,
    move all matched orphan blcoks to mainchain.  The queue starts with the block's hash
    and nine zero hashes. *)
Definition ProcessOrphan (ffuel fuel : nat) b : M (option bool) :=
  orphan_loop ffuel fuel (BytesToHash (BHash b) :: replicate (MaxEqealBlockWeight - 1) zero_hash) false.

(** Rounds that are enough: each adopts an orphan or drops a hash from the queue. *)
Definition orphan_fuel s : nat := 2 * size (Oranphs s) + MaxEqealBlockWeight.

(** ProcessBlock is the main workhorse for handling insertion of new blocks into
    the block chain. *)
Definition ProcessBlock (ffuel : nat) (now : Z) (order : list bytes) (newblock : Block) : M (option bool) :=
  exist ← BlockExists (BHash newblock);
  if (exist : bool) then mret (Some false) else
  known ← st_gets (λ s, bool_decide (is_Some (Oranphs s !! BytesToHash (BHash newblock))));
  if (known : bool) then mret (Some false) else
  or_return (from_bc bc_GetMaxBlockHeight) (Some false) (λ maxHeight,
  if decide (maxHeight = InitHeight) then
    or_return (on_bc (bc_AddBlock newblock)) (Some false) (λ _, mret (Some true))
  else
  parent ← BlockExists (PrevHash newblock);
  if negb parent then st_modify (AddOrphanBlock now order newblock) ;; mret (Some false) else
  acc ← maybeAcceptBlock ffuel newblock;
  match acc with
  | None => mret None
  | Some (succ, mainChain) =>
      if negb succ then mret (Some false) else
      fuel ← st_gets orphan_fuel;
      ok ← ProcessOrphan ffuel fuel newblock;
      match ok with
      | None => mret None
      | Some ok => mret (Some (if (ok : bool) then ok else mainChain))
      end
  end).

(** *** Nonces *)

(** [CheckNonce]: the map counts the caller's nonces up. *)
Definition CheckNonce (nonceMp : gmap Address Z) (c : BC) (from : Address) (txNonce : Z) :
    res (bool * gmap Address Z) :=
  let count nonce := Ok (bool_decide (nonce = txNonce), <[from := nonce +₆₄ 1]> nonceMp) in
  match nonceMp !! from with
  | Some n => count n
  | None =>
      match bc_GetNonce from c with
      | Ok n => count n
      | Err _ => Ok (false, nonceMp)
      | Panic => Panic
      end
  end.

End Consensus.
