(* ===== verification/ConsensusFacts.v ===== *)
(** What consensus guarantees: the orphan pool stays consistent and its loops end, the
    branch point is the right one, and a block that is not adopted leaves the chain alone. *)

From S2P Require Import Prelude Address Block Economics Consensus.

Section Facts.
Context {BC : Type} `{!Blockchains BC}.
Implicit Types (s : BlockChain BC) (b : Block) (o : OrphanBlock) (c : BC).

(** ** The orphan pool *)

(** The two indexes of the pool agree: both have the same orphans, under their own hash
    and under their parent's. *)
Definition pool_ok s : Prop :=
  (∀ h o, Oranphs s !! h = Some o → ohash o = h ∧ ∃ l, PrevOrphans s !! oprev o = Some l ∧ o ∈ l) ∧
  (∀ p l, PrevOrphans s !! p = Some l →
     l ≠ [] ∧ NoDup (ohash <$> l) ∧ ∀ o, o ∈ l → oprev o = p ∧ Oranphs s !! ohash o = Some o).

Definition same_pool s s' : Prop := Oranphs s' = Oranphs s ∧ PrevOrphans s' = PrevOrphans s.

Lemma pool_ok_same s s' : same_pool s s' → pool_ok s → pool_ok s'.
Proof. intros [H1 H2] [Ha Hb]. split; [rewrite H1, H2|rewrite H2, H1]; done. Qed.

Lemma elem_of_remove_hash h o l : o ∈ remove_hash h l ↔ o ∈ l ∧ h ≠ ohash o.
Proof. induction l as [|x l IH]; simpl; [set_solver|]. case_decide; set_solver. Qed.

Lemma NoDup_remove_hash h l : NoDup (ohash <$> l) → NoDup (ohash <$> remove_hash h l).
Proof.
  induction l as [|x l IH]; simpl; [done|]. intros [Hx Hnd]%NoDup_cons. case_decide; [by apply IH|].
  simpl. apply NoDup_cons. split; [|by apply IH]. intros (o & Ho & Hin)%list_elem_of_fmap.
  apply Hx, list_elem_of_fmap. exists o. split; [done|]. by apply elem_of_remove_hash in Hin as [? _].
Qed.

(** An orphan of the pool is in the list of its parent. *)
Lemma pool_member s o : pool_ok s → Oranphs s !! ohash o = Some o →
  ∃ l, PrevOrphans s !! oprev o = Some l ∧ o ∈ l.
Proof. intros [Ha _] Ho. by apply Ha in Ho as [_ ?]. Qed.

Lemma removeOrphanBlock_ok s o : pool_ok s → Oranphs s !! ohash o = Some o → pool_ok (removeOrphanBlock o s).
Proof.
  intros [Ha Hb] Ho. destruct (pool_member s o) as (l & Hl & Hin); [by split|done|].
  unfold removeOrphanBlock, pool_ok. rewrite Hl. cbn [default from_option id Oranphs PrevOrphans].
  set (l' := remove_hash (ohash o) l).
  assert (∀ p, (if decide (l' = []) then delete (oprev o) (PrevOrphans s) else <[oprev o := l']> (PrevOrphans s)) !! p =
    if decide (p = oprev o) then (if decide (l' = []) then None else Some l') else PrevOrphans s !! p) as Hlook.
  { clear. intros p. destruct (decide (p = oprev o)) as [->|]; case_decide;
      by rewrite ?lookup_delete_eq, ?lookup_insert_eq, ?lookup_delete_ne, ?lookup_insert_ne by done. }
  split.
  - intros h o' [Hne Ho']%lookup_delete_Some. destruct (Ha _ _ Ho') as [Hh (l1 & Hl1 & Hin1)]. split; [done|].
    rewrite Hlook. destruct (decide (oprev o' = oprev o)) as [Hp|Hp]; [|by exists l1].
    rewrite Hp, Hl in Hl1. injection Hl1 as <-.
    assert (o' ∈ l') as Hin' by (apply elem_of_remove_hash; by rewrite Hh).
    rewrite decide_False by (intros Hn; rewrite Hn in Hin'; by apply not_elem_of_nil in Hin'). by exists l'.
  - intros p l1. rewrite Hlook. destruct (decide (p = oprev o)) as [Hp|Hp].
    + destruct (decide (l' = [])) as [Hn|Hn]; [done|]. intros [= <-]. destruct (Hb _ _ Hl) as (_ & Hnd & Hmem).
      split; [done|]. split; [by apply NoDup_remove_hash|]. intros o' [Hin' Hne]%elem_of_remove_hash.
      destruct (Hmem _ Hin'). subst. split; [done|]. by rewrite lookup_delete_ne.
    + intros Hl1. destruct (Hb _ _ Hl1) as (Hne & Hnd & Hmem). split; [done|]. split; [done|].
      intros o' Hin'. destruct (Hmem _ Hin') as [Hp' Ho']. split; [done|].
      rewrite lookup_delete_ne; [done|]. intros Heq. rewrite <- Heq, Ho in Ho'. congruence.
Qed.

Lemma removeOrphanBlock_size s o : Oranphs s !! ohash o = Some o →
  size (Oranphs s) = S (size (Oranphs (removeOrphanBlock o s))).
Proof.
  intros Ho. simpl. rewrite map_size_delete, Ho.
  enough (size (Oranphs s) ≠ 0%nat) by lia. intros Hz. apply map_size_empty_iff in Hz.
  rewrite Hz in Ho. by rewrite lookup_empty in Ho.
Qed.

Lemma expire_all_ok now order : ∀ s, pool_ok s → pool_ok (expire_all now order s).
Proof.
  induction order as [|h order IH]; intros s Hok; simpl; [done|]. apply IH.
  destruct (Oranphs s !! h) as [o|] eqn:Ho; [|done]. unfold expire. case_decide.
  - apply removeOrphanBlock_ok; [done|]. destruct (proj1 Hok _ _ Ho) as [-> _]. done.
  - destruct (match oldestOrphan s with None => true | Some _ => _ end); [|done]. by apply (pool_ok_same s).
Qed.

Lemma AddOrphanBlock_ok now order b s : pool_ok s → pool_ok (AddOrphanBlock now order b s).
Proof.
  intros Hok. unfold AddOrphanBlock. pose proof (expire_all_ok now order s Hok) as Hok1.
  set (s1 := expire_all now order s) in *. clearbody s1. clear Hok. destruct Hok1 as [Ha Hb].
  set (ob := MkOrphan b (now + MaxExpiration)).
  destruct (Oranphs s1 !! ohash ob) as [o|] eqn:Hfree; [by split|].
  assert (∀ p l o, PrevOrphans s1 !! p = Some l → o ∈ l → ohash o ≠ ohash ob) as Hnew.
  { intros p l o Hl Hin Heq. destruct (Hb _ _ Hl) as (_ & _ & Hm). destruct (Hm _ Hin) as [_ Ho].
    rewrite Heq in Ho. congruence. }
  split; cbn [Oranphs PrevOrphans].
  - intros h o Ho. apply lookup_insert_Some in Ho as [[<- <-]|[Hne Ho]].
    + split; [done|]. eexists. rewrite lookup_insert_eq. split; [done|]. set_solver.
    + destruct (Ha _ _ Ho) as [Hh (l & Hl & Hin)]. split; [done|].
      destruct (decide (oprev o = oprev ob)) as [He|He].
      * eexists. rewrite He, lookup_insert_eq. split; [done|]. rewrite <- He, Hl. simpl. set_solver.
      * exists l. by rewrite lookup_insert_ne.
  - intros p l Hl. apply lookup_insert_Some in Hl as [[<- <-]|[Hne Hl]].
    + destruct (PrevOrphans s1 !! oprev ob) as [l0|] eqn:Hl0; simpl.
      * destruct (Hb _ _ Hl0) as (_ & Hnd & Hm). split; [by destruct l0|]. split.
        -- rewrite fmap_app. apply NoDup_app. split; [done|]. split; [|apply NoDup_singleton].
           intros x (o & -> & Hin)%list_elem_of_fmap Hx. simpl in Hx. apply list_elem_of_singleton in Hx.
           by apply (Hnew _ _ _ Hl0 Hin).
        -- intros o [Hin|Hin]%elem_of_app;
             [|apply list_elem_of_singleton in Hin as ->; by rewrite lookup_insert_eq].
           destruct (Hm _ Hin). split; [done|]. rewrite lookup_insert_ne; [done|].
           intros Heq. by apply (Hnew _ _ _ Hl0 Hin).
      * split; [done|]. split; [apply NoDup_singleton|]. intros o Hin.
        apply list_elem_of_singleton in Hin as ->. by rewrite lookup_insert_eq.
    + destruct (Hb _ _ Hl) as (Hn & Hnd & Hm). split; [done|]. split; [done|]. intros o Hin.
      destruct (Hm _ Hin). split; [done|]. rewrite lookup_insert_ne; [done|].
      intros Heq. by apply (Hnew _ _ _ Hl Hin).
Qed.

(** ** What leaves the pool alone *)

Lemma on_bc_pool {A} s0 (m : stM BC A) : preserves (same_pool s0) (on_bc m).
Proof. apply (preserves_zoom _ (λ _, True)); done. Qed.
Lemma from_bc_pres {A} P (f : BC → res A) : preserves P (from_bc f).
Proof. by intros s r s' HP [= <- <-]. Qed.

Ltac pool_step :=
  first
  [ apply preserves_ret | apply preserves_lift | apply preserves_gets | apply preserves_panic
  | apply from_bc_pres | apply on_bc_pool | apply preserves_ignore
  | apply preserves_or_return; [|intros ?] | apply preserves_bind; [|intros ?]
  | match goal with |- preserves _ (match ?x with _ => _ end) => destruct x end ].

Lemma maybeAcceptBlock_pool fuel b s0 : preserves (same_pool s0) (maybeAcceptBlock fuel b).
Proof. unfold maybeAcceptBlock. repeat pool_step. Qed.
Lemma BlockExists_pool h s0 : preserves (same_pool s0) (BlockExists h).
Proof. unfold BlockExists. repeat pool_step. Qed.
Lemma BlockExists_id h s r s' : BlockExists h s = (r, s') → s' = s.
Proof. unfold BlockExists, or_return, from_bc. destruct (bc_GetBlockByHash h (Bc s)); by intros [= _ <-]. Qed.

(** ** Walks down the stored blocks *)

(** [l]: the stored blocks from the one with hash [h] down, to above the hash [a]. *)
Fixpoint ancestry c (h : bytes) (l : list Block) (a : bytes) : Prop :=
  match l with
  | [] => h = a
  | b :: l => bc_GetBlockByHash h c = Ok b ∧ ancestry c (PrevHash b) l a
  end.

(** No [n] stored blocks are in a row, each the parent of the one before. *)
Definition lines_below (n : nat) c : Prop := ∀ h l a, ancestry c h l a → (length l < n)%nat.

(** The chains that the operations make of [c0], when they are given blocks with [P]. *)
Inductive reached (P : Block → Prop) (c0 : BC) : BC → Prop :=
  | reached_start : reached P c0 c0
  | reached_AddBlock b c : reached P c0 c → P b → reached P c0 (bc_AddBlock b c).2
  | reached_AddUncleBlock b c : reached P c0 c → P b → reached P c0 (bc_AddUncleBlock b c).2
  | reached_DeleteUncleBlock b c : reached P c0 c → P b → reached P c0 (bc_DeleteUncleBlock b c).2
  | reached_ReorganizeChain hs h c : reached P c0 c → reached P c0 (bc_ReorganizeChain hs h c).2.

(** [FindBranchPoint] runs out of fuel only on a line of as many blocks. *)
Lemma FindBranchPoint_loop_None c fuel : ∀ t p acc height,
  FindBranchPoint_loop fuel t p acc height c = None → ∃ l a, ancestry c t l a ∧ length l = fuel.
Proof.
  induction fuel as [|fuel IH]; intros t p acc height H'; cbn [FindBranchPoint_loop] in H'; (case_decide; [done|]).
  { by exists [], t. }
  cbn zeta in H'. destruct (bc_GetBlockByHash t c) as [x|e|] eqn:Ex; [|done..].
  destruct (bc_GetBlockByHash p c) as [y|e|]; [|done..].
  destruct (IH _ _ _ _ H') as (l & a & Hl & <-). by exists (x :: l), a.
Qed.

Section Reached.
Context (P : Block → Prop) (c0 : BC).

(** The chain has been reached, and blocks with [P] are all that the pool has. *)
Definition runs_on s : Prop := reached P c0 (Bc s).

Lemma on_bc_runs {A} (m : stM BC A) : (∀ c, reached P c0 c → reached P c0 (m c).2) → preserves runs_on (on_bc m).
Proof.
  intros Hm s r s' Hs. unfold on_bc, zoom. specialize (Hm (Bc s) Hs). destruct (m (Bc s)) as [r1 c1].
  by intros [= _ <-].
Qed.

Lemma maybeAcceptBlock_runs fuel b : P b → preserves runs_on (maybeAcceptBlock fuel b).
Proof.
  intros Hb. unfold maybeAcceptBlock.
  repeat first
    [ apply on_bc_runs; intros ? ?; first [by apply reached_AddBlock | by apply reached_AddUncleBlock
        | by apply reached_DeleteUncleBlock | by apply reached_ReorganizeChain]
    | apply preserves_ret | apply preserves_lift | apply preserves_gets | apply preserves_panic
    | apply from_bc_pres | apply preserves_ignore
    | apply preserves_or_return; [|intros ?] | apply preserves_bind; [|intros ?]
    | match goal with |- preserves _ (match ?x with _ => _ end) => destruct x end ].
Qed.

(** [maybeAcceptBlock] runs out of fuel only in a walk of [FindBranchPoint]. *)
Lemma maybeAcceptBlock_None fuel b s s' :
  P b → runs_on s → maybeAcceptBlock fuel b s = (Ok None, s') → ∃ c, reached P c0 c ∧ ¬ lines_below fuel c.
Proof.
  intros Hb Hs H'. unfold maybeAcceptBlock in H'.
  apply or_return_inv in H' as [(tip & s1 & [= _ <-] & H')|[(e & _ & H')|H']]; [|done..].
  case_decide.
  - apply stM_bind_Ok in H' as (easy & s2 & _ & H'). destruct easy; [done|].
    apply or_return_inv in H' as [([] & s3 & _ & H')|[(e & _ & H')|H']]; [|done..].
    apply or_return_inv in H' as [([] & s4 & _ & H')|[(e & _ & H')|H']]; done.
  - apply or_return_inv in H' as [(parent & s2 & [= _ <-] & H')|[(e & _ & H')|H']]; [|done..].
    case_decide; [|case_decide; [|done]].
    + apply or_return_inv in H' as [([] & s3 & Hu & H')|[(e & _ & H')|H']]; [|done..].
      assert (runs_on s3) as Hs3 by (eapply on_bc_runs; [|exact Hs|exact Hu]; intros; by apply reached_AddUncleBlock).
      apply stM_bind_Ok in H' as (c & s4 & [= <- <-] & H').
      destruct (FindBranchPoint fuel (BHash parent) (BHash tip) (Bc s3)) eqn:E.
      2: { apply FindBranchPoint_loop_None in E as (l & a & Hl & Hlen). exists (Bc s3). split; [done|].
           intros Hall. specialize (Hall _ _ _ Hl). lia. }
      apply or_return_inv in H' as [([hs h] & s5 & _ & H')|[(e & _ & H')|H']]; [|done..].
      apply stM_bind_Ok in H' as (ok & s6 & _ & H'). destruct ok; [done|].
      apply stM_bind_Ok in H' as ([] & s7 & _ & H'). done.
    + apply or_return_inv in H' as [([] & s3 & _ & H')|[(e & _ & H')|H']]; done.
Qed.
End Reached.

(** ** The loop over orphans *)

Lemma first_orphan s p o l : pool_ok s → default [] (PrevOrphans s !! p) = o :: l → Oranphs s !! ohash o = Some o.
Proof.
  intros [_ Hb] Hd. destruct (PrevOrphans s !! p) as [l0|] eqn:Hl; [|done]. simpl in Hd. subst.
  destruct (Hb _ _ Hl) as (_ & _ & Hm). apply Hm. left.
Qed.

(** Enough rounds: the loop ends, unless a walk on a chain that is reached does not. *)
Lemma orphan_loop_ends P c0 ffuel fuel : ∀ prevhashs main s r s',
  pool_ok s → runs_on P c0 s → (∀ h o, Oranphs s !! h = Some o → P (OBlock o)) →
  (2 * size (Oranphs s) + length prevhashs ≤ fuel)%nat →
  orphan_loop ffuel fuel prevhashs main s = (r, s') → r = Ok None → ∃ c, reached P c0 c ∧ ¬ lines_below ffuel c.
Proof.
  induction fuel as [|fuel IH]; intros [|prevhash rest] main s r s' Hok Hrun Hall Hfuel H'; cbn [length] in Hfuel;
    cbn [orphan_loop] in H'; [by injection H' as <- <-|lia|by injection H' as <- <-|].
  destruct (default [] (PrevOrphans s !! prevhash)) as [|orphan l] eqn:Hl.
  { eapply IH; [done..| |done]. lia. }
  pose proof (first_orphan _ _ _ _ Hok Hl) as Ho. pose proof (removeOrphanBlock_size _ _ Ho) as Hsz.
  pose proof (removeOrphanBlock_ok _ _ Hok Ho) as Hok1. pose proof (Hall _ _ Ho) as HP.
  unfold mbind, stM_bind in H'.
  destruct (maybeAcceptBlock ffuel (OBlock orphan) (removeOrphanBlock orphan s)) as [ra s1] eqn:Hacc.
  assert (same_pool (removeOrphanBlock orphan s) s1) as Hsame
    by by eapply (maybeAcceptBlock_pool ffuel (OBlock orphan) (removeOrphanBlock orphan s)).
  pose proof (maybeAcceptBlock_runs P c0 ffuel _ HP (removeOrphanBlock orphan s) _ _ Hrun Hacc) as Hrun1.
  pose proof (pool_ok_same _ _ Hsame Hok1) as Hok2. destruct Hsame as [Hs1 Hs2]. rewrite <- Hs1 in Hsz.
  destruct ra as [[[[] main']|]|e|]; [|by injection H' as <- <-| |by injection H' as <- <-..].
  - eapply IH; [done|done| | |done].
    + rewrite Hs1. intros h o Hh. apply (Hall h). cbn [removeOrphanBlock Oranphs] in Hh.
      by apply lookup_delete_Some in Hh as [_ ?].
    + cbn [length]. rewrite length_app. cbn [length]. lia.
  - intros _. exact (maybeAcceptBlock_None P c0 ffuel _ (removeOrphanBlock orphan s) _ HP Hrun Hacc).
Qed.

(** A step that leaves the pool alone keeps it consistent. *)
Lemma same_pool_ok {A} (m : stM (BlockChain BC) A) : (∀ s0, preserves (same_pool s0) m) → preserves pool_ok m.
Proof. intros Hm s r s' Hok H'. apply (pool_ok_same s); [|done]. by eapply (Hm s). Qed.

Lemma orphan_loop_ok ffuel fuel prevhashs main : preserves pool_ok (orphan_loop ffuel fuel prevhashs main).
Proof.
  revert prevhashs main. induction fuel as [|fuel IH]; intros [|p rest] main s r s' Hok H'; cbn [orphan_loop] in H';
    try by injection H' as <- <-.
  destruct (default [] (PrevOrphans s !! p)) as [|orphan l] eqn:Hl; [by eapply IH|].
  revert H'. apply (preserves_bind pool_ok).
  - apply same_pool_ok, maybeAcceptBlock_pool.
  - intros [[[] ?]|]; [apply IH|apply preserves_ret..].
  - apply removeOrphanBlock_ok; [done|]. by eapply first_orphan.
Qed.

Lemma ProcessBlock_ok ffuel now order b : preserves pool_ok (ProcessBlock ffuel now order b).
Proof.
  unfold ProcessBlock, ProcessOrphan.
  repeat first
    [ apply orphan_loop_ok | apply same_pool_ok, maybeAcceptBlock_pool | apply same_pool_ok, BlockExists_pool
    | apply same_pool_ok; intros; apply on_bc_pool | progress pool_step ].
  intros s r s' Hok [= _ <-]. by apply AddOrphanBlock_ok.
Qed.

(** The blocks that processing [b] can hand to the chain. *)
Definition at_hand b s (b' : Block) : Prop := b' = b ∨ ∃ h o, Oranphs s !! h = Some o ∧ b' = OBlock o.

(** C13: the orphan pool is always consistent: its two indexes keep the same orphans
    whatever block is processed, in whatever order the map of orphans is walked; and
    processing a block ends: every round of the loop over the orphans takes one out of the pool
    or a hash off the queue, so that the rounds given are enough, and the walks for the branch
    point end within [ffuel] steps, as long as the chain never has [ffuel] stored blocks in a
    row: neither the one it has nor those its operations make of it with the block and the
    orphans.  The blocks of a node are in no such row when there is no cycle among them and
    [ffuel] is their number; that blocks claim their hashes, unchecked, is what a cycle takes
    ([ConsensusSample.cycle_never_ends]). *)
Theorem ProcessBlock_pool (ffuel : nat) (now : Z) (order : list bytes) (b : Block) (s s' : BlockChain BC)
    (r : res (option bool)) :
  pool_ok s → ProcessBlock ffuel now order b s = (r, s') →
  pool_ok s' ∧ ((∀ c, reached (at_hand b s) (Bc s) c → lines_below ffuel c) → r ≠ Ok None).
Proof.
  intros Hok H'. split; [by eapply (ProcessBlock_ok ffuel now order b)|].
  intros Hlines ->. enough (∃ c, reached (at_hand b s) (Bc s) c ∧ ¬ lines_below ffuel c) as (c & Hc & Hno)
    by by apply Hno, Hlines.
  clear Hlines. unfold ProcessBlock in H'.
  apply stM_bind_Ok in H' as (e & s1 & E1 & H'). apply BlockExists_id in E1 as ->. destruct e; [done|].
  apply stM_bind_Ok in H' as (k & s2 & [= _ <-] & H'). destruct k; [done|].
  apply or_return_inv in H' as [(mh & s2 & [= _ <-] & H')|[(e & _ & H')|H']]; [|done..].
  case_decide.
  { apply or_return_inv in H' as [([] & s3 & _ & H')|[(e & _ & H')|H']]; done. }
  apply stM_bind_Ok in H' as (pe & s3 & E3 & H'). apply BlockExists_id in E3 as ->. destruct pe; cbn [negb] in H'.
  2: { apply stM_bind_Ok in H' as ([] & s4 & _ & H'). done. }
  apply stM_bind_Ok in H' as (acc & s4 & E4 & H').
  assert (at_hand b s b) as Hb by by left. assert (runs_on (at_hand b s) (Bc s) s) as Hrun by apply reached_start.
  destruct acc as [[succ main]|]; [|by eapply (maybeAcceptBlock_None _ _ ffuel b s)].
  pose proof (maybeAcceptBlock_runs _ _ _ _ Hb _ _ _ Hrun E4) as Hrun4.
  pose proof (maybeAcceptBlock_pool _ _ s s _ s4 (conj eq_refl eq_refl) E4) as Hsame.
  pose proof (pool_ok_same _ _ Hsame Hok) as Hok4. destruct succ; cbn [negb] in H'; [|done].
  apply stM_bind_Ok in H' as (fuel & s5 & [= <- <-] & H').
  apply stM_bind_Ok in H' as (ok & s6 & E6 & H'). destruct ok; [done|].
  eapply orphan_loop_ends in E6; [exact E6|done|exact Hrun4| | |done].
  - rewrite (proj1 Hsame). intros h o Ho. right. by exists h, o.
  - unfold orphan_fuel. cbn [length]. rewrite length_replicate. unfold MaxEqealBlockWeight. lia.
Qed.

(** ** The branch point *)

(** The hashes they are stored under. *)
Fixpoint hashes_from (h : bytes) (l : list Block) : list bytes :=
  match l with
  | [] => []
  | b :: l => h :: hashes_from (PrevHash b) l
  end.

(** Each block is one higher than the next. *)
Definition numbered (l : list Block) : Prop :=
  ∀ i x y, l !! i = Some x → l !! S i = Some y → Height x = Height y + 1.

Lemma numbered_at l x0 : numbered l → l !! 0%nat = Some x0 →
  ∀ i x, l !! i = Some x → Height x = Height x0 - Z.of_nat i.
Proof.
  intros Hn H0 i. induction i as [|i IH]; intros x Hx; [replace x with x0 by congruence; lia|].
  destruct (lookup_lt_is_Some_2 l i) as [y Hy]; [apply lookup_lt_Some in Hx; lia|].
  pose proof (Hn _ _ _ Hy Hx) as Hxy. rewrite (IH _ Hy) in Hxy. lia.
Qed.

Lemma numbered_last l1 l2 k1 k2 x y :
  k1 `prefix_of` l1 → k2 `prefix_of` l2 → length k1 = length k2 →
  numbered l1 → numbered l2 → Height <$> head l1 = Height <$> head l2 →
  last k1 = Some x → last k2 = Some y → Height x = Height y.
Proof.
  intros Hp1 Hp2 Hlen Hn1 Hn2 Hh Hx Hy. rewrite last_lookup in Hx, Hy.
  pose proof (prefix_lookup_Some _ _ _ _ Hx Hp1) as Hx'. pose proof (prefix_lookup_Some _ _ _ _ Hy Hp2) as Hy'.
  rewrite <- Hlen in Hy'. destruct l1 as [|a l1]; [done|]. destruct l2 as [|b l2]; [done|]. injection Hh as Hh.
  rewrite (numbered_at _ a Hn1 eq_refl _ _ Hx'), (numbered_at _ b Hn2 eq_refl _ _ Hy'), Hh. done.
Qed.

Lemma FindBranchPoint_loop_meets c a lt : ∀ lp p t acc height fuel,
  ancestry c p lp a → ancestry c t lt a → length lp = length lt → (length lt ≤ fuel)%nat →
  ∃ lp1 lt1 m, ancestry c p lp1 m ∧ ancestry c t lt1 m ∧ length lp1 = length lt1 ∧
    lp1 `prefix_of` lp ∧ lt1 `prefix_of` lt ∧
    (∀ i x, hashes_from p lp1 !! i = Some x → hashes_from t lt1 !! i ≠ Some x) ∧
    FindBranchPoint_loop fuel t p acc height c =
      Some (Ok (acc ++ hashes_from p lp1, from_option Height height (last lp1))).
Proof.
  induction lt as [|y lt IH]; intros [|x lp] p t acc height fuel Hp Ht Hlen Hfuel; try done.
  { exists [], [], a. split_and!; try done. simpl in Hp, Ht. subst. destruct fuel; simpl; rewrite decide_True by done;
      by rewrite app_nil_r. }
  destruct (decide (t = p)) as [->|Hne].
  { exists [], [], p. split_and!; try done; [apply prefix_nil..|].
    destruct fuel; simpl; rewrite decide_True by done; by rewrite app_nil_r. }
  destruct fuel as [|fuel]; [simpl in Hfuel; lia|]. destruct Hp as [Hx Hp], Ht as [Hy Ht].
  destruct (IH lp (PrevHash x) (PrevHash y) (acc ++ [p]) (Height x) fuel) as
    (lp1 & lt1 & m & H1 & H2 & H3 & H4 & H5 & H6 & H7); [done..|simpl in *; lia|simpl in *; lia|].
  exists (x :: lp1), (y :: lt1), m. split_and!.
  - by split.
  - by split.
  - simpl. lia.
  - by apply prefix_cons.
  - by apply prefix_cons.
  - intros [|i] h; simpl; [intros [= <-] [= ->]; done|]. apply H6.
  - cbn [FindBranchPoint_loop]. rewrite decide_False by done. cbn zeta. rewrite Hy, Hx, H7.
    rewrite <- app_assoc. cbn [hashes_from app]. do 3 f_equal. rewrite last_cons. by destruct (last lp1).
Qed.

Lemma FindBranchPoint_loop_ends c z e lt : ∀ p t acc height fuel,
  ancestry c t lt z → bc_GetBlockByHash z c = Err e → (length lt < fuel)%nat →
  FindBranchPoint_loop fuel t p acc height c ≠ None.
Proof.
  induction lt as [|y lt IH]; intros p t acc height [|fuel] Ht Hz Hfuel; simpl in Hfuel; try lia;
    cbn [FindBranchPoint_loop]; (case_decide; [done|]); cbn zeta.
  - simpl in Ht. subst. by rewrite Hz.
  - destruct Ht as [-> Ht]. destruct (bc_GetBlockByHash p c); [|done..]. apply IH; [done..|lia].
Qed.

(** C12: the branch point is found: when the branch from [p] and the chain from [t] meet
    after the same number of blocks, [FindBranchPoint] returns the hashes of exactly the
    branch's blocks above the first block they share at the same depth, from the top down,
    and the height of the lowest; when both are numbered from the same height this is the
    height of the chain's block above the shared one, the first that the reorganization
    has to delete.  The search ends whenever the chain from [t] is finite, with as much
    fuel as it has blocks. *)
Theorem FindBranchPoint_spec (c : BC) (p t : bytes) :
  (∀ lp lt a fuel, ancestry c p lp a → ancestry c t lt a → length lp = length lt → (length lt ≤ fuel)%nat →
   ∃ lp1 lt1 m delHeight, ancestry c p lp1 m ∧ ancestry c t lt1 m ∧ length lp1 = length lt1 ∧
     (∀ i x, hashes_from p lp1 !! i = Some x → hashes_from t lt1 !! i ≠ Some x) ∧
     FindBranchPoint fuel p t c = Some (Ok (hashes_from p lp1, delHeight)) ∧
     (∀ x, last lp1 = Some x → delHeight = Height x) ∧
     (numbered lp → numbered lt → Height <$> head lp = Height <$> head lt →
      ∀ y, last lt1 = Some y → delHeight = Height y)) ∧
  (∀ lt z e fuel, ancestry c t lt z → bc_GetBlockByHash z c = Err e → (length lt < fuel)%nat →
   FindBranchPoint fuel p t c ≠ None).
Proof.
  split.
  - intros lp lt a fuel Hp Ht Hlen Hfuel.
    destruct (FindBranchPoint_loop_meets c a lt lp p t [] 0 fuel Hp Ht Hlen Hfuel) as
      (lp1 & lt1 & m & H1 & H2 & H3 & H4 & H5 & H6 & H7).
    eexists lp1, lt1, m, _. split_and!; [done..|exact H7|by intros x ->|].
    intros Hn1 Hn2 Hh y Hy. destruct (last lp1) as [x|] eqn:Hx.
    + by eapply (numbered_last lp lt lp1 lt1).
    + apply last_None in Hx as ->. destruct lt1; [done|]. simpl in H3. lia.
  - intros lt z e fuel Ht Hz Hfuel. by eapply FindBranchPoint_loop_ends.
Qed.

(** ** Blocks that are not adopted *)

Section Laws.
Context `{!BlockchainsLaws BC}.

Lemma on_bc_inv {A} (m : stM BC A) s r s' : on_bc m s = (r, s') → m (Bc s) = (r, Bc s').
Proof. unfold on_bc, zoom. destruct (m (Bc s)). by intros [= <- <-]. Qed.

(** C14: a block that is not adopted leaves the chain alone: when [maybeAcceptBlock] reports
    that the block is not on the main chain, whether it was refused, stored as a branch
    block, or its reorganization failed, the recorded chain and the orphan pool are what
    they were.  The block's hash must have 32 bytes, which nothing checks: a branch block is
    stored under the hash it claims, whatever key that is. *)
Theorem not_adopted_same_chain (fuel : nat) (b : Block) (ok : bool) (s s' : BlockChain BC) :
  length (BHash b) = 32%nat → maybeAcceptBlock fuel b s = (Ok (Some (ok, false)), s') →
  same_chain (Bc s) (Bc s') ∧ same_pool s s'.
Proof.
  intros Hlen H'. split; [|by eapply (maybeAcceptBlock_pool fuel b s)]. unfold maybeAcceptBlock in H'.
  apply or_return_inv in H' as [(tip & s1 & [= _ <-] & H')|[(e & [= _ <-] & _)|H']]; [|done..].
  case_decide as Htip.
  - apply stM_bind_Ok in H' as (easy & s2 & Heasy & H').
    assert (s2 = s) as ->.
    { destruct (decide (_ ∧ _)); [|by injection Heasy].
      destruct (GlobalDifficulty tip), (GlobalDifficulty b); by injection Heasy. }
    destruct easy; [by injection H' as _ <-|].
    apply or_return_inv in H' as [([] & s3 & Hc & H')|[(e & Hc & _)|H']]; [| |done].
    2: { destruct (decide (Height b ≠ 1)); [by injection Hc as _ <-|done]. }
    assert (s3 = s) as -> by (destruct (decide (Height b ≠ 1)); by injection Hc).
    apply or_return_inv in H' as [([] & s4 & _ & H')|[(e & Ha%on_bc_inv & _)|H']]; [done| |done].
    by eapply AddBlock_Err.
  - apply or_return_inv in H' as [(parent & s2 & [= _ <-] & H')|[(e & [= _ <-] & _)|H']]; [|done..].
    case_decide; [|case_decide; [|by injection H' as _ <-]].
    + apply or_return_inv in H' as [([] & s3 & Hu%on_bc_inv & H')|[(e & Hu%on_bc_inv & _)|H']]; [| |done];
        apply AddUncleBlock_same in Hu; [|done| |done]; [|done].
      apply stM_bind_Ok in H' as (c & s4 & [= <- <-] & H').
      destruct (FindBranchPoint fuel (BHash parent) (BHash tip) (Bc s3)) as [found|]; [|done].
      apply or_return_inv in H' as [([hs h] & s5 & [= Hf <-] & H')|[(e & [= _ <-] & _)|H']]; [|done..].
      apply stM_bind_Ok in H' as (adopted & s6 & Hr & H').
      destruct adopted; [done|]. apply stM_bind_Ok in H' as ([] & s7 & Hd & H'). injection H' as _ <-.
      apply or_return_inv in Hr as [([] & s8 & _ & Hr)|[(e & Hr%on_bc_inv & _)|Hr]]; [done| |done].
      apply ReorganizeChain_Err in Hr. etrans; [exact Hu|]. etrans; [exact Hr|].
      unfold ignore_err, st_catch in Hd. destruct (on_bc (bc_DeleteUncleBlock b) s6) as [rd s9] eqn:Hd'.
      apply on_bc_inv, DeleteUncleBlock_same in Hd'; [|done]. assert (s9 = s7) as -> by (destruct rd; unfold mret, stM_ret in Hd; congruence). done.
    + apply or_return_inv in H' as [([] & s3 & Hu%on_bc_inv & H')|[(e & Hu%on_bc_inv & _)|H']]; [| |done];
        apply AddUncleBlock_same in Hu; try done. by injection H' as _ <-.
Qed.
End Laws.

End Facts.

(** ** A concrete chain

    A chain that keeps its blocks in a map, and the adopted ones in a list, the tip first. *)

Module ConsensusSample.

Record toy := Toy { stored : gmap bytes Block; main : list Block }.

Fixpoint fetch (hs : list bytes) (m : gmap bytes Block) : option (list Block) :=
  match hs with
  | [] => Some []
  | h :: hs => b ← m !! h; l ← fetch hs m; Some (b :: l)
  end.

#[global] Instance toy_chain : Blockchains toy := {
  bc_GetBlockByHash h c := match stored c !! h with Some b => Ok b | None => Err NotExist end;
  bc_GetMaxBlockHeight c := Ok (match main c with b :: _ => Height b | [] => InitHeight end);
  bc_Tip c := match main c with b :: _ => Ok b | [] => Err NotExist end;
  bc_GetNonce _ _ := Ok 1;
  bc_CheckBlockRegular _ _ := Ok tt;
  bc_AddBlock b c :=
    if decide (Height b = (match main c with t :: _ => Height t | [] => InitHeight end) + 1)
    then (Ok tt, Toy (<[BHash b := b]> (stored c)) (b :: main c)) else (err "height error", c);
  bc_AddUncleBlock b c := (Ok tt, Toy (<[BHash b := b]> (stored c)) (main c));
  bc_DeleteUncleBlock b c := (Ok tt, Toy (delete (BHash b) (stored c)) (main c));
  bc_ReorganizeChain hs h c :=
    match fetch hs (stored c) with
    | Some l => (Ok tt, Toy (stored c) (l ++ filter (λ b, Height b < h) (main c)))
    | None => (Err NotExist, c)
    end;
}.

#[global] Program Instance toy_laws : BlockchainsLaws toy := { same_chain c c' := main c = main c' }.
Next Obligation. split; [done|]. intros x y z -> ->. done. Qed.
Next Obligation. intros b c e c' H. simpl in H. case_decide; by simplify_eq. Qed.
Next Obligation. intros hs h c e c' H. simpl in H. destruct (fetch _ _); by simplify_eq. Qed.
Next Obligation. by intros b c r c' _ [= _ <-]. Qed.
Next Obligation. by intros b c r c' _ [= _ <-]. Qed.

(** The block [n] at a height, with a parent; blocks are named by a byte. *)
Definition hash_of (n : byte) : bytes := replicate 32 n.
Definition mk (height : Z) (prev : bytes) (n : byte) : Block :=
  MkBlock (InitHeight + height) prev (hash_of n) [] [] [] 1 0 12 ZeroAddress (Some 5) (Some 5) 0 0 0.

(** A main chain 1 - 2 - 3, and a branch 1 - 4 - 5. *)
Definition b1 : Block := mk 1 (hash_of Byte.x00) Byte.x01.
Definition b2 : Block := mk 2 (hash_of Byte.x01) Byte.x02.
Definition b3 : Block := mk 3 (hash_of Byte.x02) Byte.x03.
Definition b4 : Block := mk 2 (hash_of Byte.x01) Byte.x04.
Definition b5 : Block := mk 3 (hash_of Byte.x04) Byte.x05.
Definition b6 : Block := mk 4 (hash_of Byte.x05) Byte.x06.
(** A block whose parent's hash is malformed. *)
Definition bad : Block := mk 2 (bs "none") Byte.x07.

Definition feed (bl : list Block) : BlockChain toy :=
  foldl (λ s b, (ProcessBlock 10 0 (elements (dom (Oranphs s))) b s).2) (New (Toy ∅ [])) bl.

(** Blocks that arrive in any order are adopted, and the longer branch wins. *)
Example orphans_adopted : BHash <$> main (Bc (feed [b1; b3; b2])) = BHash <$> [b3; b2; b1].
Proof. vm_compute. reflexivity. Qed.
Example branch_wins : BHash <$> main (Bc (feed [b1; b2; b3; b4; b5; b6])) = BHash <$> [b6; b5; b4; b1].
Proof. vm_compute. reflexivity. Qed.

(** The queue of [ProcessOrphan] starts with nine zero hashes, so that an orphan whose
    parent's hash is malformed is tried, and refused, before the grandchildren of the
    block: the loop is left, and the grandchildren stay in the pool although their parent
    has been adopted; nothing will try them again. *)
Theorem malformed_orphan_blocks :
  (BHash <$> main (Bc (feed [b1; b6; b5; bad; b4])) = BHash <$> [b5; b4; b1] ∧
   OrphanBlockIsExist (BHash b6) (feed [b1; b6; b5; bad; b4]) = Some b6) ∧
  BHash <$> main (Bc (feed [b1; b6; b5; b4])) = BHash <$> [b6; b5; b4; b1].
Proof. vm_compute. split; [split|]; reflexivity. Qed.

(** The height of a branch block is not checked: block 5 claims the tip's height on top of
    block 1, and the walks from it and from the tip pass each other, until both run out of
    blocks. *)
Definition b5' : Block := mk 3 (hash_of Byte.x01) Byte.x05.
Theorem unchecked_height_misleads :
  FindBranchPoint 10 (BHash b5') (BHash b3) (Bc (feed [b1; b2; b3; b5'])) = Some (Err NotExist).
Proof. vm_compute. reflexivity. Qed.

Lemma pool_ok_empty c : pool_ok (New (BC := toy) c).
Proof. split; intros ? ?; simpl; by rewrite lookup_empty. Qed.

(** Two blocks that are their own parents: a walk from them does not end. *)
Definition self8 : Block := mk 2 (hash_of Byte.x08) Byte.x08.
Definition self9 : Block := mk 2 (hash_of Byte.x09) Byte.x09.
Definition cyclic : toy := Toy {[ hash_of Byte.x08 := self8; hash_of Byte.x09 := self9 ]} [].
Lemma cycle_never_ends fuel : FindBranchPoint fuel (hash_of Byte.x08) (hash_of Byte.x09) cyclic = None.
Proof.
  unfold FindBranchPoint. generalize ([] : list bytes), 0.
  induction fuel as [|fuel IH]; intros acc height; cbn [FindBranchPoint_loop]; rewrite decide_False by discriminate; [done|].
  cbn zeta. change (bc_GetBlockByHash (hash_of Byte.x09) cyclic) with (Ok self9).
  change (bc_GetBlockByHash (hash_of Byte.x08) cyclic) with (Ok self8). apply IH.
Qed.

(** *** A block whose child waits for it *)

Definition waiting : BlockChain toy := feed [b1; b3].
Lemma waiting_ok : pool_ok waiting.
Proof.
  unfold waiting, feed. cbn [foldl].
  do 2 (eapply ProcessBlock_ok; [|apply surjective_pairing]). apply pool_ok_empty.
Qed.

(** Chains that store nothing but the blocks 1, 2 and 3, under their hashes. *)
Definition stores_123 (c : toy) : Prop := ∀ h x, stored c !! h = Some x → BHash x = h ∧ x ∈ [b1; b2; b3].

Lemma waiting_stores : stores_123 (Bc waiting) ∧ ∀ h o, Oranphs waiting !! h = Some o → OBlock o = b3.
Proof.
  split.
  - assert (map_Forall (λ h x, BHash x = h ∧ x ∈ [b1; b2; b3]) (stored (Bc waiting))) as Hm
      by (apply (bool_decide_unpack _); vm_compute; exact I). exact Hm.
  - assert (map_Forall (λ _ o, OBlock o = b3) (Oranphs waiting)) as Hm
      by (apply (bool_decide_unpack _); vm_compute; exact I). exact Hm.
Qed.

Lemma reached_stores c : reached (at_hand b2 waiting) (Bc waiting) c → stores_123 c.
Proof.
  assert (∀ b, at_hand b2 waiting b → b ∈ [b1; b2; b3]) as Hb.
  { intros b [->|(h & o & Ho & ->)]; [set_solver|]. rewrite (proj2 waiting_stores _ _ Ho). set_solver. }
  assert (∀ b c, at_hand b2 waiting b → stores_123 c → ∀ h x, <[BHash b := b]> (stored c) !! h = Some x →
    BHash x = h ∧ x ∈ [b1; b2; b3]) as Hins.
  { intros b c' Hat Hc h x [[<- <-]|[_ Hx]]%lookup_insert_Some; [|by apply Hc]. split; [done|by apply Hb]. }
  induction 1 as [|b c Hr IH HP|b c Hr IH HP|b c Hr IH HP|hs h c Hr IH]; simpl; [apply waiting_stores| | | |].
  - case_decide; [|done]. intros h x. by apply Hins.
  - intros h x. by apply Hins.
  - intros h x Hx. cbn [stored] in Hx. apply lookup_delete_Some in Hx as [_ Hx]. by apply IH.
  - by destruct (fetch hs (stored c)).
Qed.

Lemma reached_lines c : reached (at_hand b2 waiting) (Bc waiting) c → lines_below 10 c.
Proof.
  intros Hc%reached_stores. set (rank := λ h : bytes, match h with x :: _ => N.to_nat (Byte.to_N x) | [] => 0%nat end).
  assert (∀ l h a, ancestry c h l a → length l ≤ rank h ∧ (length l ≠ 0 → rank h ≤ 3))%nat as Hrank.
  { induction l as [|x l IH]; intros h a; [simpl; lia|]. intros [Hx Hl]. destruct (IH _ _ Hl) as [Hle _]. clear IH.
    simpl in Hx. destruct (stored c !! h) as [y|] eqn:Ey; [|done]. injection Hx as ->. destruct (Hc _ _ Ey) as [<- Hin].
    assert (S (rank (PrevHash x)) ≤ rank (BHash x) ≤ 3)%nat; [|simpl; lia].
    repeat (apply elem_of_cons in Hin as [->|Hin]; [vm_compute; lia|]). by apply not_elem_of_nil in Hin. }
  intros h l a Hl. destruct (Hrank l h a Hl). lia.
Qed.

Definition chain5 : toy := Bc (feed [b1; b2; b3; b4; b5]).

End ConsensusSample.

(** Block 3 waits for block 2; processing that adopts both. *)
Lemma ProcessBlock_pool_witness :
  let '(r, s) := ProcessBlock 10 0 [] ConsensusSample.b2 ConsensusSample.waiting in
  pool_ok s ∧ r ≠ Ok None ∧
  ConsensusSample.main (Bc s) = [ConsensusSample.b3; ConsensusSample.b2; ConsensusSample.b1].
Proof.
  destruct (ProcessBlock 10 0 [] ConsensusSample.b2 ConsensusSample.waiting) as [r s] eqn:E.
  destruct (ProcessBlock_pool 10 0 [] ConsensusSample.b2 ConsensusSample.waiting s r ConsensusSample.waiting_ok E)
    as [Hok Hends].
  split; [exact Hok|]. split; [exact (Hends ConsensusSample.reached_lines)|].
  change s with (r, s).2. rewrite <- E. apply (bool_decide_unpack _). vm_compute. exact I.
Defined.

Lemma FindBranchPoint_spec_witness :
  ∃ (lp1 lt1 : list Block) m delHeight,
    length lp1 = length lt1 ∧ ancestry ConsensusSample.chain5 (BHash ConsensusSample.b5) lp1 m ∧
    FindBranchPoint 2 (BHash ConsensusSample.b5) (BHash ConsensusSample.b3) ConsensusSample.chain5 =
      Some (Ok (hashes_from (BHash ConsensusSample.b5) lp1, delHeight)).
Proof.
  destruct (proj1 (FindBranchPoint_spec ConsensusSample.chain5 (BHash ConsensusSample.b5) (BHash ConsensusSample.b3))
    [ConsensusSample.b5; ConsensusSample.b4] [ConsensusSample.b3; ConsensusSample.b2] (BHash ConsensusSample.b1) 2%nat)
    as (lp1 & lt1 & m & h & H1 & H2 & H3 & H4 & H5 & _);
    [repeat split; vm_compute; reflexivity|repeat split; vm_compute; reflexivity|reflexivity|simpl; lia|].
  exists lp1, lt1, m, h. split; [exact H3|]. split; [exact H1|exact H5].
Defined.

Lemma not_adopted_same_chain_witness :
  ConsensusSample.main (Bc (maybeAcceptBlock 10 (ConsensusSample.mk 2 (ConsensusSample.hash_of Byte.x01) Byte.x08)
    (ConsensusSample.feed [ConsensusSample.b1; ConsensusSample.b2])).2) = [ConsensusSample.b2; ConsensusSample.b1].
Proof.
  refine (eq_trans (eq_sym (proj1 (not_adopted_same_chain 10
    (ConsensusSample.mk 2 (ConsensusSample.hash_of Byte.x01) Byte.x08) true
    (ConsensusSample.feed [ConsensusSample.b1; ConsensusSample.b2]) _ eq_refl _))) _);
    [by_run|vm_compute; reflexivity].
Defined.
