(* ===== verification/ConsensusChain.v ===== *)
(** The chain of [Chain.v] as the chain of [Consensus.v]: it implements [Blockchains] and
    obeys its laws. *)

From S2P Require Import Prelude Misc Badger BgStore Base58 Cbor Address Transaction Block.
From S2P Require Import Ledger Difficulty Economics World Apply Chain Frames ChainFacts Consensus.

Section Instance_.
Context {D SD T : Type} `{!Badger T, !BadgerDB D T, !StateDB SD, !StateStore D SD, !EvmRuntime SD}.
Context `{!CborHeader, !Crypto, !EthCommon, !EvmData}.
Context `{!BadgerLaws T, !BadgerDBLaws D T, !StateStoreLaws D SD T, !CryptoLaws}.
Variables (g : globals) (now : Z) (cfg : ChainConfig) (sha3 diffhash : bytes → bytes).

(** The public methods lock the mutex and call the operations. *)
#[export] Instance chain_blockchains : Blockchains (chain D SD) := {
  bc_GetBlockByHash h c := getBlockByHash h (Dbase (db c));
  bc_GetMaxBlockHeight c := getMaxBlockHeight (Dbase (db c));
  bc_Tip c := Tip (Dbase (db c));
  bc_GetNonce a c := (getNonce g a (sdb c)).1;
  bc_CheckBlockRegular b c := CheckBlockRegular (T := T) sha3 diffhash b c;
  bc_AddBlock b := AddBlock (T := T) g now cfg b ;; mret tt;
  bc_AddUncleBlock := AddUncleBlock (T := T);
  bc_DeleteUncleBlock := DeleteUncleBlock (T := T);
  bc_ReorganizeChain := ReorganizeChain (T := T) g now cfg sha3 diffhash;
}.

(** A transaction that writes none of the component's own keys leaves them alone, whether
    or not its commit succeeds. *)
Definition spares (t : T) : Prop := ∀ k, own_key k → unwritten k t.

Lemma with_txn_spares {A} (m : stM (world D SD T) A) (c : chain D SD) r c' :
  (∀ d0, preserves (λ w, of_tx spares w ∧ of_db (keeps d0) w) m) → with_txn m c = (r, c') → keeps (db c) (db c').
Proof.
  intros Hm. unfold with_txn. destruct (m _) as [r1 w1] eqn:E. intros [= <- <-].
  eapply (Hm (db c)) in E; [apply E|]. split; [|by intros k].
  intros k Hk. unfold unwritten. simpl. rewrite begin_writes. set_solver.
Qed.

Lemma on_tx_spares {A} d0 (m : stM T A) :
  preserves spares m → preserves (λ w, of_tx spares w ∧ of_db (keeps d0) w) (on_tx (D := D) (S := SD) m).
Proof. intros Hm. apply (preserves_zoom _ spares); [done|by intros w []|by intros w t [] ?]. Qed.

Lemma Commit_spares d0 :
  preserves (λ w, of_tx spares w ∧ of_db (keeps d0) w) (Commit (D := D) (S := SD) (T := T)).
Proof.
  intros w r w' [Hs Hk]. unfold Commit. destruct (db_commit (w_tx w) (w_db w)) as [r1 d'] eqn:E.
  intros [= <- <-]. split; [done|]. intros k Hown. simpl. rewrite <- (Hk k Hown).
  destruct (decide (r1 = Ok tt)) as [->|Hr].
  - rewrite (commit_merge _ _ _ E), decide_False; [done|]. by apply Hs.
  - by destruct (commit_fail _ _ _ _ E Hr) as [_ ->].
Qed.

Lemma set_spares h v : length h = 32%nat → preserves spares (set h v).
Proof.
  intros Hh t r t' Hs Hset k Hk. eapply (set_unwritten k h v); [|by apply Hs|exact Hset].
  intros ->. unfold own_key in Hk. lia.
Qed.
Lemma del_spares h : length h = 32%nat → preserves spares (del h).
Proof.
  intros Hh t r t' Hs Hset k Hk. eapply (del_unwritten k h); [|by apply Hs|exact Hset].
  intros ->. unfold own_key in Hk. lia.
Qed.

Lemma keeps_preorder : PreOrder (λ c c' : chain D SD, keeps (db c) (db c')).
Proof.
  split; [by intros c k|]. intros c1 c2 c3 H1' H2' k Hk. rewrite (H2' k Hk). by apply H1'.
Qed.

(** Failing blocks and reorganizations, and branch blocks whose hash has 32 bytes, leave
    the recorded chain as it was. *)
#[export] Program Instance chain_laws : BlockchainsLaws (chain D SD) := {
  same_chain c c' := keeps (db c) (db c');
  same_chain_preorder := keeps_preorder;
}.
Next Obligation.
  intros b c e c' H'. by apply (run_op_fails g now cfg sha3 diffhash (OpAddBlock b)) in H' as [? _].
Qed.
Next Obligation.
  intros hs h c e c' H'. by apply (run_op_fails g now cfg sha3 diffhash (OpReorganize hs h)) in H' as [? _].
Qed.
Next Obligation.
  intros b c r c' Hlen. apply with_txn_spares. intros d0.
  apply preserves_bind; [apply preserves_lift|intros data].
  apply preserves_bind; [by apply on_tx_spares, set_spares|intros _]. apply preserves_ignore, Commit_spares.
Qed.
Next Obligation.
  intros b c r c' Hlen. apply with_txn_spares. intros d0.
  apply preserves_bind; [by apply on_tx_spares, del_spares|intros _]. apply preserves_ignore, Commit_spares.
Qed.

End Instance_.

(** A branch block is stored under the hash it claims, which nothing checks: one whose hash
    is the key of the recorded height replaces the height. *)
Module HashUnchecked.
Import MapTxn MapState MapWorld CryptoInstance ChainSample.

Definition evil : Block := with_hash HeightKey b0.
Theorem uncle_overwrites_height :
  getMaxBlockHeight (Dbase (db c1)) = Ok (InitHeight + 1) ∧
  getMaxBlockHeight (Dbase (db (AddUncleBlock (T := MapTxn.txn) evil c1).2)) ≠ Ok (InitHeight + 1).
Proof. vm_compute. split; [reflexivity|discriminate]. Qed.

End HashUnchecked.
