(* ===== verification/Strconv.v ===== *)
(** Decimal numbers as text: [strconv.FormatUint(n, 10)] and [strconv.ParseUint(s, 10, 64)]. *)

From S2P Require Import Prelude.

Definition digit_byte (d : Z) : byte := byte.of_Z (48 + d).
Definition byte_digit (b : byte) : option Z :=
  let d := byte.unsigned b - 48 in if decide (0 ≤ d ≤ 9) then Some d else None.

Fixpoint format_digits (fuel : nat) (n : Z) : bytes :=
  match fuel with
  | O => []
  | S fuel =>
      if decide (n < 10) then [digit_byte n]
      else format_digits fuel (n / 10) ++ [digit_byte (n mod 10)]
  end.

(** A [uint64] has at most 20 digits. *)
Definition FormatUint (n : Z) : bytes := format_digits 20 n.

Fixpoint parse_digits (acc : Z) (s : bytes) : res Z :=
  match s with
  | [] => Ok acc
  | c :: s =>
      match byte_digit c with
      | None => err "invalid syntax"
      | Some d =>
          let acc := acc * 10 + d in
          if decide (acc > MAXUINT64) then err "value out of range" else parse_digits acc s
      end
  end.

Definition ParseUint (s : bytes) : res Z :=
  match s with [] => err "invalid syntax" | _ => parse_digits 0 s end.

Lemma byte_digit_byte d : 0 ≤ d ≤ 9 → byte_digit (digit_byte d) = Some d.
Proof.
  intros Hd. unfold byte_digit, digit_byte. rewrite byte.unsigned_of_Z. unfold byte.wrap.
  rewrite Z.mod_small by lia. rewrite decide_True by lia. f_equal. lia.
Qed.

Lemma parse_format_digits fuel : ∀ n s,
  0 ≤ n < 10 ^ Z.of_nat fuel → n ≤ MAXUINT64 → parse_digits 0 (format_digits fuel n ++ s) = parse_digits n s.
Proof.
  induction fuel as [|fuel IH]; intros n s Hn Hmax.
  { change (10 ^ Z.of_nat 0) with 1 in Hn. assert (n = 0) as -> by lia. done. }
  cbn [format_digits]. case_decide.
  - cbn [app parse_digits]. rewrite byte_digit_byte by lia. cbn zeta. rewrite Z.mul_0_l, Z.add_0_l.
    by rewrite decide_False by lia.
  - rewrite <- app_assoc. cbn [app].
    rewrite Nat2Z.inj_succ, Z.pow_succ_r in Hn by lia.
    pose proof (Z.div_mod n 10 ltac:(lia)) as Hdm. pose proof (Z.mod_pos_bound n 10 ltac:(lia)) as Hm.
    rewrite IH by lia.
    cbn [parse_digits]. rewrite byte_digit_byte by lia. cbn zeta.
    replace (n / 10 * 10 + n mod 10) with n by lia. by rewrite decide_False by lia.
Qed.

Lemma format_digits_nonempty fuel n : fuel ≠ 0%nat → format_digits fuel n ≠ [].
Proof. destruct fuel; [done|]. intros _. simpl. case_decide; [done|]. by destruct (format_digits fuel (n / 10)). Qed.

(** Printed numbers parse back. *)
Lemma ParseUint_FormatUint n : is_u64 n → ParseUint (FormatUint n) = Ok n.
Proof.
  intros Hn. unfold is_u64, MAXUINT64 in Hn. pose proof (parse_format_digits 20 n []) as H.
  rewrite app_nil_r in H. unfold ParseUint, FormatUint.
  destruct (format_digits 20 n) eqn:E; [by apply format_digits_nonempty in E|]. apply H; [|unfold MAXUINT64; lia].
  split; [lia|]. apply Z.le_lt_trans with 18446744073709551615; [lia|]. by vm_compute.
Qed.

(** Only digits are printed. *)
Lemma FormatUint_digits n b : 0 ≤ n → b ∈ FormatUint n → is_Some (byte_digit b).
Proof.
  unfold FormatUint. generalize 20%nat as fuel. intros fuel. revert n. induction fuel as [|fuel IH]; intros n Hn Hb.
  - by apply not_elem_of_nil in Hb.
  - simpl in Hb. case_decide.
    + apply list_elem_of_singleton in Hb as ->. rewrite byte_digit_byte by lia. by eexists.
    + apply elem_of_app in Hb as [Hb|Hb].
      * apply (IH (n / 10)); [|done]. apply Z.div_pos; lia.
      * apply list_elem_of_singleton in Hb as ->. pose proof (Z.mod_pos_bound n 10 ltac:(lia)).
        rewrite byte_digit_byte by lia. by eexists.
Qed.
