(* ===== verification/Queue.v ===== *)
(** The queue of the transaction pool ([pkg/txpool/queue.go]): a list ordered by gas and,
    for one sender, by nonce, with an index by sender and nonce.

    The clock and the current network are arguments. *)

From S2P Require Import Prelude Address Transaction Strconv.

(** ** Data *)

(** [receivedTransaction] with its embedded [option]. *)
Record receivedTransaction := Rst { rst_nonce : Z; rst_idx : nat; rst_price : Z; rst_timestamp : Z }.

(** What [update] does to an entry: the [modOption]s. *)
Definition withPrice (p : Z) (r : receivedTransaction) := Rst (rst_nonce r) (rst_idx r) p (rst_timestamp r).
Definition withIdx (i : nat) (r : receivedTransaction) := Rst (rst_nonce r) i (rst_price r) (rst_timestamp r).
Definition withTimestamp (t : Z) (r : receivedTransaction) := Rst (rst_nonce r) (rst_idx r) (rst_price r) t.

Abbreviation index := (gmap bytes (list receivedTransaction)).

Record orderlyQueue := Queue {
  stList : list SignedTransaction;
  rstBuffer : index;
  timeBuffer : gmap bytes Z;
  hashBuffer : gmap bytes bytes;
}.

Definition newQueue : orderlyQueue := Queue [] ∅ ∅ ∅.

(** ** Keys of the maps *)

Definition timeKey (caller : bytes) (nonce : Z) : bytes := caller ++ bs "_" ++ FormatUint nonce.
Definition hashValue (caller : bytes) (nonce : Z) : bytes := caller ++ bs "|" ++ FormatUint nonce.

(** [strings.Split(s, sep)] at a one-byte separator: never empty. *)
Fixpoint split_at (sep : byte) (s : bytes) : bytes * list bytes :=
  match s with
  | [] => ([], [])
  | c :: s =>
      let '(h, l) := split_at sep s in
      if decide (c = sep) then ([], h :: l) else (c :: h, l)
  end.

Definition parseKey (key : bytes) : res (bytes * Z) :=
  match split_at Byte.x5f key with
  | (list0, [list1]) => nonce ← ParseUint list1; Ok (list0, nonce)
  | _ => err "invalid time key"
  end.

(** ** The index *)

(** [update]: the first entry with the nonce. *)
Fixpoint update_list (nonce : Z) (f : receivedTransaction → receivedTransaction) (l : list receivedTransaction) :
    list receivedTransaction :=
  match l with
  | [] => []
  | r :: l => if decide (rst_nonce r = nonce) then f r :: l else r :: update_list nonce f l
  end.
Definition update (caller : bytes) (nonce : Z) (f : receivedTransaction → receivedTransaction) (R : index) : index :=
  <[caller := update_list nonce f (default [] (R !! caller))]> R.

Definition addRstBuffer (caller : bytes) (rst : receivedTransaction) (R : index) : index :=
  match R !! caller with
  | None => <[caller := [rst]]> R
  | Some l => <[caller := l ++ [rst]]> R
  end.

(** The first entry with the index is removed. *)
Fixpoint remove_idx (i : nat) (l : list receivedTransaction) : list receivedTransaction :=
  match l with
  | [] => []
  | r :: l => if decide (rst_idx r = i) then l else r :: remove_idx i l
  end.
Definition rmRecivedTransaction (caller : bytes) (i : nat) (R : index) : index :=
  let rstList := remove_idx i (default [] (R !! caller)) in
  if decide (rstList = []) then delete caller R else <[caller := rstList]> R.

Fixpoint find_nonce (nonce : Z) (l : list receivedTransaction) : option receivedTransaction :=
  match l with
  | [] => None
  | r :: l => if decide (rst_nonce r = nonce) then Some r else find_nonce nonce l
  end.

Definition getIndex (caller : bytes) (nonce : Z) (q : orderlyQueue) : res receivedTransaction :=
  match find_nonce nonce (default [] (rstBuffer q !! caller)) with
  | Some r => Ok r
  | None => err "not exist"
  end.

Section Queue.
Context `{!Crypto}.
Variable g : globals.
Implicit Types (q : orderlyQueue) (st : SignedTransaction).

Definition nonce_of st : Z := Nonce (st_tx st).
Definition gas_cap st : Z := GasCap (st_tx st).
Definition HashToString st : bytes := EncodeToString (Hash (st_tx st)).

(** [st.Caller().String()].  It panics for an address of no known protocol; [push] is the
    first to call it, so that every transaction of the queue has a text. *)
Definition caller_key st : bytes :=
  match String g (Caller (st_tx st)) with Ok s => s | _ => [] end.

Definition update_of st (f : receivedTransaction → receivedTransaction) (R : index) : index :=
  update (caller_key st) (nonce_of st) f R.

(** [y <= x]: whether [y] belongs below the transaction at [i]. *)
Definition less (i : nat) (y : SignedTransaction) q : bool :=
  match stList q !! i with
  | None => false
  | Some x =>
      if decide (caller_key y = caller_key x) then bool_decide (nonce_of y > nonce_of x) else
      let rstList := default [] (rstBuffer q !! caller_key y) in
      if decide (length rstList = 1)%nat then bool_decide (gas_cap y <= gas_cap x) else
      if existsb (λ rst, bool_decide (rst_nonce rst < nonce_of y ∧ (rst_idx rst < i)%nat)) rstList then true
      else bool_decide (gas_cap y <= gas_cap x)
  end.

(** [q.update(v, withIdx(p)); q.stList[p] = v] *)
Definition place (p : nat) (v : SignedTransaction) q : orderlyQueue :=
  Queue (<[p := v]> (stList q)) (update_of v (withIdx p) (rstBuffer q)) (timeBuffer q) (hashBuffer q).

(** The transaction at [from] is moved to [to]. *)
Definition shift (from to : nat) q : orderlyQueue :=
  match stList q !! from with Some x => place to x q | None => q end.

(** The loop of [up], with the hole at [p]. *)
Fixpoint up_loop (p : nat) (value : SignedTransaction) q : orderlyQueue :=
  match p with
  | O => place p value q
  | S i => if less i value q then up_loop i value (shift i p q) else place p value q
  end.
Definition up (j : nat) q : orderlyQueue :=
  match stList q !! j with Some value => up_loop j value q | None => q end.

(** The loop of [down], with the hole at [p] and [n] positions above it. *)
Fixpoint down_loop (n p : nat) (value : SignedTransaction) q : orderlyQueue :=
  match n with
  | O => place p value q
  | S n => if less (S p) value q then place p value q else down_loop n (S p) value (shift (S p) p q)
  end.
Definition down (i j : nat) q : orderlyQueue :=
  match stList q !! i with Some value => down_loop (j - i) i value q | None => q end.

(** [for i := from; i < q.len(); i++ { q.down(i, q.len()-1) }], [n] rounds *)
Fixpoint downs_from (n from : nat) q : orderlyQueue :=
  match n with
  | O => q
  | S n => downs_from n (S from) (down from (length (stList q) - 1) q)
  end.
(** [for i := n - 1; i >= 0; i-- { q.down(i, q.len()-1) }] *)
Fixpoint downs_to (n : nat) q : orderlyQueue :=
  match n with
  | O => q
  | S i => downs_to i (down i (length (stList q) - 1) q)
  end.

(** [now] is the clock in seconds. *)
Definition push (now : Z) st q : res orderlyQueue :=
  caller ← String g (Caller st.(st_tx));
  let hash := <[HashToString st := hashValue caller (nonce_of st)]> in
  let time := <[timeKey caller (nonce_of st) := now]> in
  match find_nonce (nonce_of st) (default [] (rstBuffer q !! caller)) with
  | Some rst =>
      if decide (rst_price rst >= gas_cap st) then Ok q else
      match stList q !! rst_idx rst with
      | None => Panic
      | Some old =>
          let R := update caller (rst_nonce rst) (λ r, withTimestamp (now mod 60) (withPrice (gas_cap st) r))
                     (rstBuffer q) in
          let q := Queue (<[rst_idx rst := st]> (stList q)) R (timeBuffer q)
                     (hash (delete (HashToString old) (hashBuffer q))) in
          let q := downs_from (length (stList q) - rst_idx rst) (rst_idx rst) q in
          Ok (Queue (stList q) (rstBuffer q) (time (timeBuffer q)) (hashBuffer q))
      end
  | None =>
      let R := addRstBuffer caller (Rst (nonce_of st) (length (stList q)) (gas_cap st) (now mod 60)) (rstBuffer q) in
      let T := match timeBuffer q !! timeKey caller (nonce_of st) with
               | Some _ => timeBuffer q | None => time (timeBuffer q) end in
      Ok (up (length (stList q)) (Queue (stList q ++ [st]) R T (hash (hashBuffer q))))
  end.

Definition pop q : res (SignedTransaction * orderlyQueue) :=
  let l := (length (stList q) - 1)%nat in
  match stList q !! l with
  | None => Panic
  | Some st =>
      Ok (st, Queue (take l (stList q)) (rmRecivedTransaction (caller_key st) l (rstBuffer q)) (timeBuffer q)
                (delete (HashToString st) (hashBuffer q)))
  end.

(** [for i := to + 1; …; i++]: the [n] transactions above the hole at [to] move down by one. *)
Fixpoint shift_down (n to : nat) q : orderlyQueue :=
  match n with
  | O => q
  | S n => shift_down n (S to) (shift (S to) to q)
  end.

(** Out of range, nothing is removed; a negative index is out of range too. *)
Definition remove (i : nat) q : orderlyQueue :=
  match stList q !! i with
  | None => q
  | Some st =>
      let R := rmRecivedTransaction (caller_key st) i (rstBuffer q) in
      let q := Queue (stList q) R (timeBuffer q) (delete (HashToString st) (hashBuffer q)) in
      let q := shift_down (length (stList q) - S i) i q in
      let q := Queue (take (length (stList q) - 1) (stList q)) (rstBuffer q) (timeBuffer q) (hashBuffer q) in
      downs_to i q
  end.

(** [delete(q.timeBuffer, k)], which the pool does. *)
Definition forget_time (k : bytes) q : orderlyQueue :=
  Queue (stList q) (rstBuffer q) (delete k (timeBuffer q)) (hashBuffer q).

Definition HashExist (hash : bytes) q : bool := bool_decide (is_Some (hashBuffer q !! hash)).

Definition getAddrAndNonceByHash (hash : bytes) q : res (bytes * Z) :=
  match hashBuffer q !! hash with
  | None => err "not exist"
  | Some key =>
      match split_at Byte.x7c key with
      | (addr, []) => err ""
      | (addr, rest :: more) =>
          (* [key[n+1:]] is the rest, with any further separators *)
          match more with
          | [] => match ParseUint rest with Ok nonce => Ok (addr, nonce) | _ => err "" end
          | _ => err ""
          end
      end
  end.

End Queue.
