(* ===== verification/QueueFacts.v ===== *)
(** The queue of the pool is a finite map from senders and nonces to transactions, kept in
    an order in which the nonces of one sender follow each other. *)

From S2P Require Import Prelude Address Transaction Strconv Queue.

(** ** The index *)

Section Index.
Implicit Types (R : index) (k : bytes) (n : Z) (l : list receivedTransaction).

Definition entry R k n : option receivedTransaction := find_nonce n (default [] (R !! k)).

(** No empty lists, and one entry for a nonce. *)
Definition lists_ok R : Prop := ∀ k l, R !! k = Some l → l ≠ [] ∧ NoDup (rst_nonce <$> l).

Lemma lists_ok_default R k : lists_ok R → NoDup (rst_nonce <$> default [] (R !! k)).
Proof.
  intros H. destruct (R !! k) as [l|] eqn:E; simpl; [by apply H in E as [_ ?]|constructor].
Qed.

Lemma find_nonce_Some n l r : find_nonce n l = Some r → r ∈ l ∧ rst_nonce r = n.
Proof.
  induction l as [|x l IH]; simpl; [done|]. case_decide.
  - intros [= ->]. split; [left|done].
  - intros [? ?]%IH. split; [by right|done].
Qed.
Lemma find_nonce_None n l : find_nonce n l = None → ∀ r, r ∈ l → rst_nonce r ≠ n.
Proof.
  induction l as [|x l IH]; simpl; [by intros _ r ?%not_elem_of_nil|]. case_decide; [done|].
  intros Hf r [->|Hr]%elem_of_cons; [done|]. by apply IH.
Qed.
Lemma find_nonce_elem l r : NoDup (rst_nonce <$> l) → r ∈ l → find_nonce (rst_nonce r) l = Some r.
Proof.
  induction l as [|x l IH]; simpl; [by intros _ ?%not_elem_of_nil|]. intros [Hx Hnd]%NoDup_cons.
  intros [->|Hr]%elem_of_cons; [by rewrite decide_True|]. rewrite decide_False; [by apply IH|].
  intros Heq. apply Hx. rewrite Heq. by apply list_elem_of_fmap_2.
Qed.

Lemma find_update_list n f l n' : (∀ r, rst_nonce (f r) = rst_nonce r) →
  find_nonce n' (update_list n f l) = if decide (n' = n) then f <$> find_nonce n l else find_nonce n' l.
Proof.
  intros Hf. induction l as [|x l IH]; simpl; [by case_decide|].
  destruct (decide (rst_nonce x = n)) as [Hx|Hx]; simpl.
  - rewrite Hf. repeat case_decide; naive_solver.
  - rewrite IH. repeat case_decide; naive_solver.
Qed.
Lemma update_list_nonces n f l : (∀ r, rst_nonce (f r) = rst_nonce r) →
  rst_nonce <$> update_list n f l = rst_nonce <$> l.
Proof.
  intros Hf. induction l as [|x l IH]; cbn [update_list]; [done|].
  case_decide; rewrite !fmap_cons, ?Hf, ?IH; done.
Qed.

Lemma entry_update R k n f k' n' : (∀ r, rst_nonce (f r) = rst_nonce r) →
  entry (update k n f R) k' n' = if decide (k' = k ∧ n' = n) then f <$> entry R k n else entry R k' n'.
Proof.
  intros Hf. unfold entry, update. destruct (decide (k' = k)) as [->|Hk].
  - rewrite lookup_insert_eq. simpl. rewrite find_update_list by done. repeat case_decide; naive_solver.
  - rewrite lookup_insert_ne by done. rewrite decide_False; naive_solver.
Qed.

Lemma lists_ok_update R k n f : (∀ r, rst_nonce (f r) = rst_nonce r) →
  lists_ok R → is_Some (entry R k n) → lists_ok (update k n f R).
Proof.
  intros Hf HR [r Hr] k' l. unfold update. intros [[<- <-]|[Hk Hl]]%lookup_insert_Some; [|by apply (HR k')].
  rewrite update_list_nonces by done. split; [|by apply lists_ok_default].
  unfold entry in Hr. intros Hn. apply (f_equal (fmap rst_nonce)) in Hn.
  rewrite update_list_nonces in Hn by done. apply fmap_nil_inv in Hn. by rewrite Hn in Hr.
Qed.

Lemma find_nonce_app n l r : find_nonce n (l ++ [r]) =
  match find_nonce n l with Some x => Some x | None => if decide (rst_nonce r = n) then Some r else None end.
Proof. induction l as [|x l IH]; simpl; [done|]. by destruct (decide (rst_nonce x = n)). Qed.

Lemma entry_add R r k k' n' :
  entry R k (rst_nonce r) = None →
  entry (addRstBuffer k r R) k' n' = if decide (k' = k ∧ n' = rst_nonce r) then Some r else entry R k' n'.
Proof.
  intros Hn. unfold entry, addRstBuffer in *. destruct (R !! k) as [l|] eqn:El; simpl in Hn.
  - destruct (decide (k' = k)) as [->|Hk].
    + rewrite lookup_insert_eq, El. simpl. rewrite find_nonce_app.
      destruct (decide (n' = rst_nonce r)) as [->|?].
      * rewrite Hn, decide_True, decide_True by done. done.
      * rewrite decide_False, decide_False by naive_solver. by destruct (find_nonce n' l).
    + rewrite lookup_insert_ne, decide_False by naive_solver. done.
  - destruct (decide (k' = k)) as [->|Hk].
    + rewrite lookup_insert_eq, El. simpl. repeat case_decide; naive_solver.
    + rewrite lookup_insert_ne, decide_False by naive_solver. done.
Qed.
Lemma lists_ok_add R r k : lists_ok R → entry R k (rst_nonce r) = None → lists_ok (addRstBuffer k r R).
Proof.
  intros HR Hn k' l. unfold entry, addRstBuffer in *. destruct (R !! k) as [l0|] eqn:El;
    (intros [[<- <-]|[Hk Hl]]%lookup_insert_Some; [|by apply (HR k')]).
  - destruct (HR _ _ El) as [Hne Hnd]. split; [by destruct l0|]. rewrite fmap_app. apply NoDup_app.
    split; [done|]. split; [|apply NoDup_singleton]. intros n (x & -> & Hx)%list_elem_of_fmap Hr.
    apply list_elem_of_singleton in Hr. by apply (find_nonce_None _ _ Hn x).
  - split; [done|]. apply NoDup_singleton.
Qed.

Lemma find_remove_idx i n0 l n' :
  NoDup (rst_nonce <$> l) → (∀ r, r ∈ l → rst_idx r = i → rst_nonce r = n0) →
  (∃ r, r ∈ l ∧ rst_idx r = i) →
  find_nonce n' (remove_idx i l) = if decide (n' = n0) then None else find_nonce n' l.
Proof.
  induction l as [|x l IH]; simpl; [by intros _ _ (r & ?%not_elem_of_nil & _)|].
  intros [Hx Hnd]%NoDup_cons Hi (r & Hr & Hri). destruct (decide (rst_idx x = i)) as [Hxi|Hxi].
  - pose proof (Hi x (list_elem_of_here _ _) Hxi) as Hx0.
    destruct (decide (n' = n0)) as [->|Hn]; [|by rewrite decide_False by naive_solver].
    destruct (find_nonce n0 l) as [y|] eqn:Hy; [|done]. apply find_nonce_Some in Hy as [Hy Hyn].
    exfalso. apply Hx. rewrite Hx0, <- Hyn. by apply list_elem_of_fmap_2.
  - apply elem_of_cons in Hr as [->|Hr]; [done|]. simpl.
    rewrite IH; [|done|intros; apply Hi; [by right|done]|by exists r].
    destruct (decide (n' = n0)) as [->|Hn]; [|done]. rewrite decide_False; [done|]. intros Hxn.
    pose proof (Hi r (list_elem_of_further _ _ _ Hr) Hri) as Hrn. apply Hx. rewrite Hxn, <- Hrn.
    by apply list_elem_of_fmap_2.
Qed.
Lemma remove_idx_sublist i l : remove_idx i l `sublist_of` l.
Proof. induction l as [|x l IH]; simpl; [done|]. case_decide; [by apply sublist_cons|by apply sublist_skip]. Qed.

Lemma lists_ok_rm R k i : lists_ok R → lists_ok (rmRecivedTransaction k i R).
Proof.
  intros HR k' l. unfold rmRecivedTransaction. case_decide as Hn.
  - intros [_ Hl]%lookup_delete_Some. by apply (HR k').
  - intros [[<- <-]|[_ Hl]]%lookup_insert_Some; [|by apply (HR k')]. split; [done|].
    eapply sublist_NoDup; [by apply (lists_ok_default R k)|]. apply fmap_sublist, remove_idx_sublist.
Qed.
Lemma entry_rm R k i n0 k' n' :
  lists_ok R → (∀ n r, entry R k n = Some r → rst_idx r = i → n = n0) →
  (∃ r, entry R k n0 = Some r ∧ rst_idx r = i) →
  entry (rmRecivedTransaction k i R) k' n' = if decide (k' = k ∧ n' = n0) then None else entry R k' n'.
Proof.
  intros HR Hi (r & Hr & Hri). unfold entry, rmRecivedTransaction in *.
  pose proof (lists_ok_default R k HR) as Hnd. set (l := default [] (R !! k)) in *.
  assert (∀ n, find_nonce n (remove_idx i l) = if decide (n = n0) then None else find_nonce n l) as Hf.
  { intros n. apply find_remove_idx; [done| |].
    - intros x Hx Hxi. apply (Hi _ x); [by apply find_nonce_elem|done].
    - exists r. by apply find_nonce_Some in Hr as [? _]. }
  destruct (decide (k' = k)) as [->|Hk].
  - transitivity (find_nonce n' (remove_idx i l)).
    + case_decide as Hn; [by rewrite lookup_delete_eq, Hn|by rewrite lookup_insert_eq].
    + rewrite Hf. fold l. repeat case_decide; naive_solver.
  - rewrite (decide_False (P := k' = k ∧ n' = n0)) by naive_solver.
    case_decide; [by rewrite lookup_delete_ne|by rewrite lookup_insert_ne].
Qed.
End Index.

Section Queue.
Context `{!Crypto}.
Variable g : globals.
Implicit Types (q : orderlyQueue) (st x y v : SignedTransaction) (V : nat → option SignedTransaction).

Local Abbreviation key := (caller_key g).

(** ** Consistency

    [V] gives the transaction at a position, [E] the entry of a sender and a nonce. *)

Definition consistent V (E : bytes → Z → option receivedTransaction) : Prop :=
  (∀ i x, V i = Some x → ∃ r, E (key x) (nonce_of x) = Some r ∧ rst_idx r = i ∧ rst_price r = gas_cap x) ∧
  (∀ k n r, E k n = Some r → ∃ x, V (rst_idx r) = Some x ∧ key x = k ∧ nonce_of x = n).

(** Of one sender, the transaction with the higher nonce is lower. *)
Definition ordered V : Prop :=
  ∀ i j x y, V i = Some x → V j = Some y → (i < j)%nat → key x = key y → nonce_of x > nonce_of y.

Definition set_at (p : nat) (o : option SignedTransaction) V : nat → option SignedTransaction :=
  λ i, if decide (i = p) then o else V i.
Definition set_idx x (p : nat) (E : bytes → Z → option receivedTransaction) : bytes → Z → option receivedTransaction :=
  λ k n, if decide (k = key x ∧ n = nonce_of x) then withIdx p <$> E (key x) (nonce_of x) else E k n.

Lemma consistent_ext V V' E E' :
  (∀ i, V i = V' i) → (∀ k n, E k n = E' k n) → consistent V E → consistent V' E'.
Proof.
  intros HV HE [H1 H2]. split.
  - intros i x. rewrite <- HV. setoid_rewrite <- HE. apply H1.
  - intros k n r. rewrite <- HE. setoid_rewrite <- HV. apply H2.
Qed.
Lemma ordered_ext V V' : (∀ i, V i = V' i) → ordered V → ordered V'.
Proof. intros HV Ho i j x y. rewrite <- !HV. apply Ho. Qed.

(** A sender and a nonce are at one position. *)
Lemma consistent_inj V E i j x y : consistent V E →
  V i = Some x → V j = Some y → key x = key y → nonce_of x = nonce_of y → i = j.
Proof.
  intros [H1 _] (r & Hr & Hri & _)%H1 (r' & Hr' & Hri' & _)%H1 Hk Hn.
  rewrite Hk, Hn in Hr. congruence.
Qed.

(** Two transactions change places. *)
Lemma consistent_swap V E p s x v : consistent V E → p ≠ s → V p = Some v → V s = Some x →
  consistent (set_at s (Some v) (set_at p (Some x) V)) (set_idx v s (set_idx x p E)).
Proof.
  intros Hc Hps Hp Hs. pose proof Hc as [H1 H2].
  assert (¬ (key v = key x ∧ nonce_of v = nonce_of x)) as Hne
    by (intros [Hk Hn]; by apply Hps, (consistent_inj V E p s v x)).
  destruct (H1 _ _ Hp) as (rv & Hrv & Hrvi & Hrvp). destruct (H1 _ _ Hs) as (rx & Hrx & Hrxi & Hrxp).
  split; unfold set_at, set_idx.
  - intros i y. destruct (decide (i = s)) as [->|His]; [|destruct (decide (i = p)) as [->|Hip]].
    + intros [= <-]. rewrite decide_True by done. rewrite decide_False by done. rewrite Hrv. by eexists.
    + intros [= <-]. rewrite decide_False by naive_solver. rewrite decide_True by done. rewrite Hrx. by eexists.
    + intros Hy. destruct (H1 _ _ Hy) as (r & Hr & Hri & Hrp). exists r. split; [|done].
      rewrite decide_False; [rewrite decide_False; [done|]|].
      * intros [Hk Hn]. by apply His, (consistent_inj V E i s y x).
      * intros [Hk Hn]. by apply Hip, (consistent_inj V E i p y v).
  - intros k n r. rewrite (decide_False (P := key v = key x ∧ nonce_of v = nonce_of x)) by done.
    destruct (decide (k = key v ∧ n = nonce_of v)) as [[-> ->]|Hkv];
      [|destruct (decide (k = key x ∧ n = nonce_of x)) as [[-> ->]|Hkx]].
    + rewrite Hrv. intros [= <-]. simpl. exists v. by rewrite decide_True.
    + rewrite Hrx. intros [= <-]. simpl. exists x. by rewrite decide_False, decide_True.
    + intros Hr. destruct (H2 _ _ _ Hr) as (y & Hy & <- & <-). exists y. split; [|done].
      rewrite decide_False, decide_False; [done| |]; intros Heq; rewrite Heq in Hy;
        solve [apply Hkx; split; congruence|apply Hkv; split; congruence].
Qed.

(** A transaction moves to an empty position. *)
Lemma consistent_move V E p s x : consistent V E → V p = None → V s = Some x →
  consistent (set_at s None (set_at p (Some x) V)) (set_idx x p E).
Proof.
  intros Hc Hp Hs. pose proof Hc as [H1 H2]. assert (p ≠ s) as Hps by naive_solver.
  destruct (H1 _ _ Hs) as (rx & Hrx & Hrxi & Hrxp). split; unfold set_at, set_idx.
  - intros i y. destruct (decide (i = s)) as [->|His]; [done|]. destruct (decide (i = p)) as [->|Hip].
    + intros [= <-]. rewrite decide_True by done. rewrite Hrx. by eexists.
    + intros Hy. destruct (H1 _ _ Hy) as (r & Hr & Hri & Hrp). exists r. split; [|done].
      rewrite decide_False; [done|]. intros [Hk Hn]. by apply His, (consistent_inj V E i s y x).
  - intros k n r. destruct (decide (k = key x ∧ n = nonce_of x)) as [[-> ->]|Hkx].
    + rewrite Hrx. intros [= <-]. simpl. exists x. by rewrite decide_False, decide_True.
    + intros Hr. destruct (H2 _ _ _ Hr) as (y & Hy & <- & <-). exists y. split; [|done].
      rewrite decide_False, decide_False; [done| |]; intros Heq; rewrite Heq in Hy; naive_solver.
Qed.

(** A transaction of an empty position is entered, one is taken out, or one is replaced
    by one of the same sender and nonce. *)
Lemma consistent_enter V E p x r : consistent V E → V p = None → E (key x) (nonce_of x) = None →
  rst_idx r = p → rst_price r = gas_cap x →
  consistent (set_at p (Some x) V) (λ k n, if decide (k = key x ∧ n = nonce_of x) then Some r else E k n).
Proof.
  intros [H1 H2] Hp Hx Hi Hpr. split; unfold set_at.
  - intros i y. case_decide as Hip; [intros [= <-]; exists r; rewrite decide_True by done; naive_solver|]. intros Hy.
    destruct (H1 _ _ Hy) as (r' & Hr' & ?). exists r'. split; [|done]. rewrite decide_False; [done|].
    intros [Hk Hn]. congruence.
  - intros k n r'. case_decide as Hk; [intros [= <-]; exists x; rewrite decide_True by done; naive_solver|].
    intros (y & Hy & ? & ?)%H2. exists y. split; [|done]. rewrite decide_False; [done|]. intros Heq.
    rewrite Heq in Hy. congruence.
Qed.
Lemma consistent_leave V E p x : consistent V E → V p = Some x →
  consistent (set_at p None V) (λ k n, if decide (k = key x ∧ n = nonce_of x) then None else E k n).
Proof.
  intros Hc Hp. pose proof Hc as [H1 H2]. split; unfold set_at.
  - intros i y. case_decide as Hip; [done|]. intros Hy. destruct (H1 _ _ Hy) as (r' & Hr' & ?). exists r'.
    split; [|done]. rewrite decide_False; [done|]. intros [Hk Hn]. by apply Hip, (consistent_inj V E i p y x).
  - intros k n r'. case_decide as Hk; [done|]. intros (y & Hy & Hky & Hny)%H2. exists y. split; [|done].
    rewrite decide_False; [done|]. intros Heq. rewrite Heq in Hy. apply Hk. naive_solver.
Qed.
Lemma consistent_replace V E p x y (f : receivedTransaction → receivedTransaction) :
  consistent V E → V p = Some x → key y = key x → nonce_of y = nonce_of x →
  (∀ r, rst_idx (f r) = rst_idx r ∧ rst_price (f r) = gas_cap y) →
  consistent (set_at p (Some y) V)
    (λ k n, if decide (k = key x ∧ n = nonce_of x) then f <$> E (key x) (nonce_of x) else E k n).
Proof.
  intros Hc Hp Hk Hn Hf. pose proof Hc as [H1 H2]. destruct (H1 _ _ Hp) as (r & Hr & Hri & Hrp). split; unfold set_at.
  - intros i z. case_decide as Hip.
    + intros [= <-]. rewrite decide_True, Hr by done. exists (f r). destruct (Hf r) as [-> ->]. by subst.
    + intros Hz. destruct (H1 _ _ Hz) as (r' & Hr' & ?). exists r'.
      split; [|done]. rewrite decide_False; [done|]. intros [? ?]. by apply Hip, (consistent_inj V E i p z x).
  - intros k n r'. case_decide as Hkn.
    + rewrite Hr. intros [= <-]. destruct (Hf r) as [-> _]. exists y. rewrite decide_True by done. naive_solver.
    + intros (z & Hz & Hkz & Hnz)%H2. exists z. split; [|done]. rewrite decide_False; [done|]. intros Heq.
      rewrite Heq in Hz. apply Hkn. naive_solver.
Qed.

(** Neighbours of different senders may change places. *)
Lemma ordered_swap V p x v : ordered V → V p = Some v → V (S p) = Some x → key v ≠ key x →
  ordered (set_at (S p) (Some v) (set_at p (Some x) V)).
Proof.
  intros Ho Hp Hs Hk i j a b. unfold set_at.
  repeat case_decide; subst; intros Ha Hb Hij Hab; simplify_eq; try lia.
  - eapply (Ho p j); [done..|lia|done].
  - eapply (Ho (S p) j); [done..|lia|done].
  - eapply (Ho i p); [done..|lia|done].
  - eapply (Ho i (S p)); [done..|lia|done].
  - by eapply (Ho i j).
Qed.

(** ** The loops *)

Definition pos q : nat → option SignedTransaction := λ i, stList q !! i.
Abbreviation ent q := (entry (rstBuffer q)).

Definition good q : Prop := lists_ok (rstBuffer q) ∧ consistent (pos q) (ent q) ∧ ordered (pos q).

(** The queue with a value [v] in the hole at [p]. *)
Definition with_hole p v q : Prop :=
  (p < length (stList q))%nat ∧ lists_ok (rstBuffer q) ∧
  consistent (set_at p (Some v) (pos q)) (set_idx v p (ent q)).

(** [q'] has the transactions of [q] with [v] at [p], and its other maps. *)
Definition rearranged p v q q' : Prop :=
  stList q' ≡ₚ <[p:=v]> (stList q) ∧ timeBuffer q' = timeBuffer q ∧ hashBuffer q' = hashBuffer q.

Lemma place_pos p v q i : (p < length (stList q))%nat → pos (place g p v q) i = set_at p (Some v) (pos q) i.
Proof.
  intros Hp. unfold pos, place, set_at. simpl. case_decide as Hi.
  - subst. by rewrite list_lookup_insert_eq.
  - by rewrite list_lookup_insert_ne.
Qed.
Lemma place_ent p v q k n : ent (place g p v q) k n = set_idx v p (ent q) k n.
Proof. unfold place, update_of, set_idx. simpl. by rewrite entry_update. Qed.

Lemma hole_entry p v q : with_hole p v q → is_Some (ent q (key v) (nonce_of v)).
Proof.
  intros (_ & _ & [H1 _]). destruct (H1 p v) as (r & Hr & _); [unfold set_at; by rewrite decide_True|].
  unfold set_idx in Hr. rewrite decide_True in Hr by done. destruct (ent q _ _); [by eexists|done].
Qed.

Lemma place_good p v q : with_hole p v q → ordered (set_at p (Some v) (pos q)) →
  good (place g p v q) ∧ rearranged p v q (place g p v q).
Proof.
  intros Hh Ho. pose proof (hole_entry _ _ _ Hh) as He. destruct Hh as (Hp & HR & Hc). split; [|done]. split_and!.
  - by apply lists_ok_update.
  - eapply consistent_ext; [..|exact Hc]; intros; symmetry; [by apply place_pos|apply place_ent].
  - eapply ordered_ext; [|exact Ho]. intros. symmetry. by apply place_pos.
Qed.

Lemma set_idx_ext v s E E' k n : (∀ k n, E k n = E' k n) → set_idx v s E k n = set_idx v s E' k n.
Proof. intros HE. unfold set_idx. by rewrite !HE. Qed.
Lemma set_idx_swap v x p s E k n : ¬ (key v = key x ∧ nonce_of v = nonce_of x) →
  set_idx v s (set_idx x p (set_idx v p E)) k n = set_idx v s (set_idx x p E) k n.
Proof.
  intros Hne. unfold set_idx.
  rewrite !(decide_False (P := key v = key x ∧ nonce_of v = nonce_of x)) by done.
  rewrite !(decide_False (P := key x = key v ∧ nonce_of x = nonce_of v)) by naive_solver.
  rewrite (decide_True (P := key v = key v ∧ _)) by done.
  repeat case_decide; try done. by destruct (E (key v) (nonce_of v)).
Qed.

(** Moving the neighbour [x] at [s] into the hole moves the hole to [s]. *)
Lemma hole_moves p s v x q : with_hole p v q → p ≠ s → pos q s = Some x →
  with_hole s v (shift g s p q) ∧
  (∀ i, set_at s (Some v) (pos (shift g s p q)) i = set_at s (Some v) (set_at p (Some x) (set_at p (Some v) (pos q))) i).
Proof.
  intros (Hp & HR & Hc) Hps Hx. unfold shift. unfold pos in Hx. rewrite Hx.
  assert (set_at p (Some v) (pos q) s = Some x) as Hx' by (unfold set_at; by rewrite decide_False by done).
  assert (set_at p (Some v) (pos q) p = Some v) as Hv' by (unfold set_at; by rewrite decide_True by done).
  assert (∀ i, set_at s (Some v) (pos (place g p x q)) i =
    set_at s (Some v) (set_at p (Some x) (set_at p (Some v) (pos q))) i) as Hext.
  { intros i. change (set_at s (Some v) ?V i) with (if decide (i = s) then Some v else V i). case_decide; [done|].
    rewrite place_pos by done. unfold set_at. by case_decide. }
  assert (¬ (key v = key x ∧ nonce_of v = nonce_of x)) as Hne
    by (intros [Hk Hn]; by apply Hps, (consistent_inj _ _ p s v x Hc)).
  split; [|done]. split_and!.
  - unfold place. simpl. rewrite length_insert. by apply lookup_lt_Some in Hx.
  - apply lists_ok_update; [done..|]. destruct Hc as [H1 _]. destruct (H1 s x Hx') as (r & Hr & _).
    unfold set_idx in Hr. rewrite decide_False in Hr by naive_solver. by eexists.
  - eapply consistent_ext; [| |by apply (consistent_swap _ _ p s x v Hc)]; [intros i; symmetry; apply Hext|].
    intros k n. rewrite set_idx_swap by done. apply set_idx_ext. intros. by rewrite place_ent.
Qed.

Lemma rearranged_step p s v x q q' : p ≠ s → (p < length (stList q))%nat → pos q s = Some x →
  rearranged s v (shift g s p q) q' → rearranged p v q q'.
Proof.
  unfold shift, pos. intros Hps Hp Hx. rewrite Hx. intros (H1 & H2 & H3). split; [|done].
  rewrite H1. simpl. pose proof (Permutation_insert_swap (<[p:=v]> (stList q)) p s v x) as Hs.
  rewrite list_insert_insert_eq in Hs. apply Hs.
  - by apply list_lookup_insert_eq.
  - by rewrite list_lookup_insert_ne.
Qed.

Lemma down_loop_good n : ∀ p v q, with_hole p v q → ordered (set_at p (Some v) (pos q)) →
  (p + n < length (stList q))%nat →
  good (down_loop g n p v q) ∧ rearranged p v q (down_loop g n p v q).
Proof.
  induction n as [|n IH]; intros p v q Hh Ho Hlen; cbn [down_loop]; [by apply place_good|].
  destruct (less g (S p) v q) eqn:Hl; [by apply place_good|].
  destruct (lookup_lt_is_Some_2 (stList q) (S p)) as [x Hx]; [lia|].
  destruct (hole_moves p (S p) v x q Hh ltac:(lia) Hx) as [Hh' Hext].
  assert (set_at p (Some v) (pos q) (S p) = Some x) as Hx' by (unfold set_at; rewrite decide_False by lia; done).
  assert (set_at p (Some v) (pos q) p = Some v) as Hv' by (unfold set_at; by rewrite decide_True by done).
  assert (key v ≠ key x) as Hk.
  { intros Hk. unfold less in Hl. rewrite Hx, decide_True in Hl by done. apply bool_decide_eq_false in Hl.
    apply Hl. by eapply (Ho p (S p)); [..|lia|]. }
  destruct (IH (S p) v (shift g (S p) p q)) as [Hg Hr].
  - done.
  - eapply ordered_ext; [intros i; symmetry; apply Hext|]. by apply ordered_swap.
  - unfold shift. rewrite Hx. unfold place. simpl. rewrite length_insert. lia.
  - split; [done|]. eapply (rearranged_step p (S p)); [lia|apply Hh|exact Hx|exact Hr].
Qed.

Lemma good_hole p v q : good q → pos q p = Some v → with_hole p v q ∧ ordered (set_at p (Some v) (pos q)).
Proof.
  intros (HR & Hc & Ho) Hv. assert (∀ i, pos q i = set_at p (Some v) (pos q) i) as Hext
    by (intros i; unfold set_at; by case_decide as Hi; [rewrite Hi|]).
  split; [|by eapply ordered_ext]. split_and!; [by apply lookup_lt_Some in Hv|done|].
  eapply consistent_ext; [exact Hext| |exact Hc]. intros k n. unfold set_idx. case_decide as Hk; [|done].
  destruct Hk as [-> ->]. destruct Hc as [H1 _]. destruct (H1 _ _ Hv) as (r & -> & <- & _). by destruct r.
Qed.

(** A queue with the same transactions, in another order. *)
Definition reordered q q' : Prop :=
  stList q' ≡ₚ stList q ∧ timeBuffer q' = timeBuffer q ∧ hashBuffer q' = hashBuffer q.

Lemma down_good i q : good q → good (down g i (length (stList q) - 1) q) ∧
  reordered q (down g i (length (stList q) - 1) q).
Proof.
  intros Hg. unfold down. destruct (stList q !! i) as [v|] eqn:Hv; [|by split].
  destruct (good_hole i v q Hg Hv) as [Hh Ho]. pose proof (lookup_lt_Some _ _ _ Hv) as Hi.
  destruct (down_loop_good (length (stList q) - 1 - i) i v q Hh Ho) as [Hg' Hr]; [lia|].
  split; [done|]. destruct Hr as [Hr ?]. split; [|done]. by rewrite list_insert_id in Hr.
Qed.

Lemma reordered_trans q1 q2 q3 : reordered q1 q2 → reordered q2 q3 → reordered q1 q3.
Proof. intros (H1 & H2 & H3) (H4 & H5 & H6). split_and!; [by rewrite H4|by rewrite H5|by rewrite H6]. Qed.

Lemma downs_from_good n : ∀ from q, good q → good (downs_from g n from q) ∧ reordered q (downs_from g n from q).
Proof.
  induction n as [|n IH]; intros from q Hg; cbn [downs_from]; [by split|].
  destruct (down_good from q Hg) as [Hg1 Hr1]. destruct (IH (S from) _ Hg1) as [Hg2 Hr2].
  split; [done|]. by eapply reordered_trans.
Qed.
Lemma downs_to_good n : ∀ q, good q → good (downs_to g n q) ∧ reordered q (downs_to g n q).
Proof.
  induction n as [|n IH]; intros q Hg; cbn [downs_to]; [by split|].
  destruct (down_good n q Hg) as [Hg1 Hr1]. destruct (IH _ Hg1) as [Hg2 Hr2].
  split; [done|]. by eapply reordered_trans.
Qed.

(** ** Moving up *)

(** Ordered, but for what is below the position [p]. *)
Definition ordered_but (p : nat) V : Prop :=
  ∀ i j x y, j ≠ p → V i = Some x → V j = Some y → (i < j)%nat → key x = key y → nonce_of x > nonce_of y.

Lemma set_at_eq p o V : set_at p o V p = o.
Proof. unfold set_at. by rewrite decide_True by done. Qed.
Lemma set_at_ne p o V i : i ≠ p → set_at p o V i = V i.
Proof. intros. unfold set_at. by rewrite decide_False by done. Qed.

(** Of other senders, the entries of the queue are exact. *)
Lemma hole_other p v q i y : with_hole p v q → i ≠ p → pos q i = Some y →
  ∃ r, ent q (key y) (nonce_of y) = Some r ∧ rst_idx r = i ∧ (key y = key v → nonce_of y ≠ nonce_of v).
Proof.
  intros (_ & _ & Hc) Hi Hy.
  assert (¬ (key y = key v ∧ nonce_of y = nonce_of v)) as Hne.
  { intros [Hk Hn]. apply Hi, (consistent_inj _ _ i p y v Hc); [by rewrite set_at_ne|by rewrite set_at_eq|done..]. }
  destruct Hc as [H1 _]. destruct (H1 i y) as (r & Hr & Hri & _); [by rewrite set_at_ne|].
  unfold set_idx in Hr. rewrite decide_False in Hr by done. exists r. naive_solver.
Qed.

(** Where [up] stops, all smaller nonces of the sender are above. *)
Lemma up_stops i v x q : with_hole (S i) v q → ordered_but (S i) (set_at (S i) (Some v) (pos q)) →
  pos q i = Some x → less g i v q = false → ordered (set_at (S i) (Some v) (pos q)).
Proof.
  intros Hh Ho Hx Hl a b y z Ha Hb Hab Hk. destruct (decide (b = S i)) as [->|Hb']; [|by eapply (Ho a b)].
  rewrite set_at_eq in Hb. injection Hb as <-. rewrite set_at_ne in Ha by lia.
  unfold less in Hl. unfold pos in Hx. rewrite Hx in Hl.
  destruct (hole_other _ _ _ a y Hh ltac:(lia) Ha) as (r & Hr & Hri & Hne). specialize (Hne Hk).
  destruct (decide (key v = key x)) as [Hvx|Hvx].
  - apply bool_decide_eq_false in Hl. destruct (decide (a = i)) as [->|Hai].
    + unfold pos in Ha. simplify_eq. lia.
    + enough (nonce_of y > nonce_of x) by lia. eapply (Ho a i); [lia|by rewrite set_at_ne by lia| |lia|congruence].
      by rewrite set_at_ne by lia.
  - assert (a ≠ i) as Hai by (intros ->; unfold pos in Ha; congruence).
    unfold entry in Hr. rewrite Hk in Hr. pose proof (hole_entry _ _ _ Hh) as [rv Hrv]. unfold entry in Hrv.
    set (l := default [] (rstBuffer q !! key v)) in *.
    apply find_nonce_Some in Hr as [Hr Hrn]. apply find_nonce_Some in Hrv as [Hrv Hrvn].
    case_decide as Hlen.
    + destruct l as [|r0 [|]]; [done| |done]. apply list_elem_of_singleton in Hr, Hrv. congruence.
    + destruct (existsb _ l) eqn:Hex; [done|]. clear Hl. apply not_true_iff_false in Hex. rewrite existsb_exists in Hex.
      destruct (decide (nonce_of y < nonce_of v)) as [Hlt|?]; [|lia]. exfalso. apply Hex. exists r.
      split; [by apply list_elem_of_In|]. apply bool_decide_eq_true. lia.
Qed.

Lemma up_loop_good p : ∀ v q, with_hole p v q → ordered_but p (set_at p (Some v) (pos q)) →
  good (up_loop g p v q) ∧ rearranged p v q (up_loop g p v q).
Proof.
  induction p as [|i IH]; intros v q Hh Ho; cbn [up_loop].
  { apply place_good; [done|]. intros a b y z Ha Hb Hab. eapply (Ho a b); [lia|done..]. }
  destruct (lookup_lt_is_Some_2 (stList q) i) as [x Hx]; [destruct Hh; lia|].
  destruct (less g i v q) eqn:Hl; [|by apply place_good; [|by eapply up_stops]].
  destruct (hole_moves (S i) i v x q Hh ltac:(lia) Hx) as [Hh' Hext].
  destruct (IH v (shift g i (S i) q) Hh') as [Hg Hr].
  - intros a b y z Hbi. rewrite !Hext. intros Ha Hb Hab Hk. rewrite (set_at_ne i _ _ b) in Hb by done.
    destruct (decide (b = S i)) as [->|HbS].
    + rewrite set_at_eq in Hb. injection Hb as <-. destruct (decide (a = i)) as [->|Hai].
      * rewrite set_at_eq in Ha. injection Ha as <-. unfold less in Hl. rewrite Hx, decide_True in Hl by done.
        apply bool_decide_eq_true in Hl. lia.
      * rewrite !set_at_ne in Ha by lia. eapply (Ho a i); [lia|by rewrite set_at_ne by lia| |lia|done].
        by rewrite set_at_ne by lia.
    + rewrite !set_at_ne in Hb by done. destruct (decide (a = i)) as [->|Hai].
      * rewrite set_at_eq in Ha. injection Ha as <-.
        eapply (Ho (S i) b); [done|by rewrite set_at_eq|by rewrite set_at_ne|lia|done].
      * rewrite (set_at_ne i) in Ha by done. destruct (decide (a = S i)) as [->|HaS].
        -- rewrite set_at_eq in Ha. injection Ha as <-.
           eapply (Ho i b); [done|by rewrite set_at_ne by lia|by rewrite set_at_ne|lia|done].
        -- rewrite !set_at_ne in Ha by done.
           eapply (Ho a b); [done|by rewrite set_at_ne|by rewrite set_at_ne|done..].
  - split; [done|]. eapply (rearranged_step (S i) i); [lia|apply Hh|exact Hx|exact Hr].
Qed.

(** ** Removing *)

Definition with_gap p q : Prop :=
  (p < length (stList q))%nat ∧ lists_ok (rstBuffer q) ∧ consistent (set_at p None (pos q)) (ent q).

Lemma shift_down_good n : ∀ p q, with_gap p q → (p + n < length (stList q))%nat →
  let q' := shift_down g n p q in
  with_gap (p + n) q' ∧ length (stList q') = length (stList q) ∧
  (∀ j, stList q' !! j = if decide (p ≤ j < p + n)%nat then stList q !! S j else stList q !! j) ∧
  timeBuffer q' = timeBuffer q ∧ hashBuffer q' = hashBuffer q.
Proof.
  induction n as [|n IH]; intros p q Hgap Hn; cbn [shift_down].
  { rewrite Nat.add_0_r. split_and!; try done. intros j. by rewrite decide_False by lia. }
  destruct (lookup_lt_is_Some_2 (stList q) (S p)) as [x Hx]; [lia|].
  unfold shift. rewrite Hx. destruct Hgap as (Hp & HR & Hc).
  assert (set_at p None (pos q) (S p) = Some x) as Hx' by by rewrite set_at_ne by lia.
  assert (with_gap (S p) (place g p x q)) as Hgap.
  { split_and!.
    - unfold place. simpl. rewrite length_insert. lia.
    - apply lists_ok_update; [done..|]. destruct Hc as [H1 _]. destruct (H1 _ _ Hx') as (r & Hr & _). by eexists.
    - eapply consistent_ext; [| |by apply (consistent_move _ _ p (S p) x Hc); [apply set_at_eq|]].
      + intros i. destruct (decide (i = S p)) as [->|Hi]; [by rewrite !set_at_eq|].
        rewrite !(set_at_ne (S p)), place_pos by done. unfold set_at. by case_decide.
      + intros. symmetry. apply place_ent. }
  destruct (IH (S p) (place g p x q) Hgap) as (H1 & H2 & H3 & H4 & H5).
  { unfold place. simpl. rewrite length_insert. lia. }
  split_and!; [by rewrite <- Nat.add_succ_comm| |  |done..].
  - rewrite H2. unfold place. simpl. by rewrite length_insert.
  - intros j. rewrite H3. unfold place. cbn [stList]. destruct (decide (j = p)) as [->|Hj].
    + rewrite decide_False, decide_True by lia. rewrite list_lookup_insert_eq by lia. done.
    + repeat case_decide; try lia; by rewrite list_lookup_insert_ne by lia.
Qed.

Lemma remove_good i st q : good q → stList q !! i = Some st →
  good (remove g i q) ∧ stList (remove g i q) ≡ₚ delete i (stList q) ∧
  timeBuffer (remove g i q) = timeBuffer q ∧ hashBuffer (remove g i q) = delete (HashToString st) (hashBuffer q).
Proof.
  intros (HR & Hc & Ho) Hst. pose proof (lookup_lt_Some _ _ _ Hst) as Hi. unfold remove. rewrite Hst. cbn zeta.
  set (q1 := Queue (stList q) _ (timeBuffer q) _).
  assert (with_gap i q1) as Hgap.
  { split_and!; [done|by apply lists_ok_rm|].
    eapply consistent_ext; [done| |by apply (consistent_leave _ _ i st Hc)]. intros k n. symmetry.
    destruct Hc as [H1 H2]. apply entry_rm; [done| |].
    - intros n' r Hr Hri. destruct (H2 _ _ _ Hr) as (y & Hy & _ & <-). rewrite Hri in Hy. unfold pos in Hy. congruence.
    - destruct (H1 i st Hst) as (r & Hr & Hri & _). by exists r. }
  destruct (shift_down_good (length (stList q1) - S i) i q1 Hgap) as ((_ & HR2 & Hc2) & Hlen & Hat & Ht & Hh).
  { simpl. lia. }
  set (q2 := shift_down g _ i q1) in *. clearbody q2.
  assert (take (length (stList q2) - 1) (stList q2) = delete i (stList q)) as Hdel.
  { apply list_eq. intros j. rewrite lookup_take. case_decide as Hj.
    - rewrite Hat. simpl. simpl in Hlen. case_decide.
      + by rewrite list_lookup_delete_ge by lia.
      + destruct (decide (j < i)%nat); [by rewrite list_lookup_delete_lt by lia|]. lia.
    - simpl in Hlen. symmetry. apply lookup_ge_None_2. rewrite length_delete by by eexists. lia. }
  set (q3 := Queue (take (length (stList q2) - 1) (stList q2)) _ (timeBuffer q2) (hashBuffer q2)).
  assert (stList q3 = delete i (stList q)) as Hq3 by exact Hdel.
  assert (good q3) as Hg.
  { split_and!; [done| |].
    - eapply consistent_ext; [|done|exact Hc2]. intros j. unfold set_at, pos. simpl. simpl in Hlen.
      rewrite lookup_take. repeat case_decide; try done; try lia. apply lookup_ge_None_2. lia.
    - intros a b x y. unfold pos. rewrite Hq3. intros Ha Hb Hab.
      destruct (decide (a < i)%nat), (decide (b < i)%nat);
        rewrite ?list_lookup_delete_lt, ?list_lookup_delete_ge in Ha by lia;
        rewrite ?list_lookup_delete_lt, ?list_lookup_delete_ge in Hb by lia; eapply Ho; (done || lia). }
  destruct (downs_to_good i q3 Hg) as [Hg' (Hperm & Ht' & Hh')]. split_and!; [done|..].
  - by rewrite Hperm, Hq3.
  - by rewrite Ht'.
  - by rewrite Hh'.
Qed.

(** ** Pushing and popping *)

Lemma delete_insert_same {A} i (x : A) (l : list A) : delete i (<[i:=x]> l) = delete i l.
Proof. revert i. induction l as [|y l IH]; intros [|i]; simpl; try done. f_equal. apply IH. Qed.

Lemma push_new_good st q t : good q → ent q (key st) (nonce_of st) = None → ∀ tb hb,
  let R := addRstBuffer (key st) (Rst (nonce_of st) (length (stList q)) (gas_cap st) t) (rstBuffer q) in
  let q' := up g (length (stList q)) (Queue (stList q ++ [st]) R tb hb) in
  good q' ∧ stList q' ≡ₚ st :: stList q.
Proof.
  intros (HR & Hc & Ho) Hn tb hb. cbn zeta. set (q1 := Queue _ _ _ _).
  assert (stList q1 !! length (stList q) = Some st) as Hst.
  { simpl. rewrite lookup_app_r, Nat.sub_diag by lia. done. }
  assert (∀ i, set_at (length (stList q)) (Some st) (pos q) i = pos q1 i) as Hpos.
  { intros i. unfold set_at. case_decide as Hi; [by subst|]. unfold pos. simpl.
    destruct (decide (i < length (stList q))%nat); [by rewrite lookup_app_l|].
    rewrite !lookup_ge_None_2; [done|rewrite length_app; simpl; lia|lia]. }
  assert (with_hole (length (stList q)) st q1) as Hh.
  { split_and!.
    - simpl. rewrite length_app. simpl. lia.
    - simpl. by apply lists_ok_add.
    - eapply consistent_ext; [| |apply (consistent_enter _ _ (length (stList q)) st
        (Rst (nonce_of st) (length (stList q)) (gas_cap st) t) Hc); [|done..]; by apply lookup_ge_None_2].
      + intros i. rewrite Hpos. unfold set_at. case_decide as Hi; [by subst|done].
      + intros k n. unfold set_idx. simpl.
        rewrite !entry_add by done. cbn [rst_nonce]. case_decide; [|done]. by rewrite decide_True by done. }
  unfold up. rewrite Hst. destruct (up_loop_good _ _ _ Hh) as [Hg [Hp _]].
  - intros i j x y Hj Hi. rewrite set_at_ne in * by done.
    destruct (decide (i = length (stList q))) as [->|Hi'].
    + intros Hj' Hij. rewrite <- Hpos, set_at_ne in Hj' by done. apply lookup_lt_Some in Hj'. lia.
    + rewrite set_at_ne in Hi by done. rewrite <- Hpos, set_at_ne in Hi by done.
      intros Hj'. rewrite <- Hpos, set_at_ne in Hj' by done. by apply (Ho i j).
  - split; [done|]. rewrite Hp, list_insert_id by done. simpl. by rewrite Permutation_app_comm.
Qed.

Lemma push_replace_good st old q i (f : receivedTransaction → receivedTransaction) : good q →
  stList q !! i = Some old → key st = key old → nonce_of st = nonce_of old →
  (∀ r, rst_nonce (f r) = rst_nonce r ∧ rst_idx (f r) = rst_idx r ∧ rst_price (f r) = gas_cap st) → ∀ n tb hb,
  let q' := downs_from g n i (Queue (<[i:=st]> (stList q)) (update (key st) (nonce_of st) f (rstBuffer q)) tb hb) in
  good q' ∧ stList q' ≡ₚ <[i:=st]> (stList q).
Proof.
  intros (HR & Hc & Ho) Hold Hk Hn Hf n tb hb. cbn zeta. set (q1 := Queue _ _ _ _).
  pose proof (lookup_lt_Some _ _ _ Hold) as Hi.
  assert (∀ j, set_at i (Some st) (pos q) j = pos q1 j) as Hpos.
  { intros j. unfold set_at, pos. simpl. case_decide as Hj; [by rewrite Hj, list_lookup_insert_eq|].
    by rewrite list_lookup_insert_ne. }
  assert (∃ r, ent q (key st) (nonce_of st) = Some r) as [r Hr].
  { destruct Hc as [H1 _]. destruct (H1 _ _ Hold) as (r & Hr & _). rewrite Hk, Hn. by exists r. }
  destruct (downs_from_good n i q1) as [Hg [Hp _]]; [|by split].
  split_and!.
  - apply lists_ok_update; [apply Hf|done|by exists r].
  - eapply consistent_ext; [exact Hpos| |by apply (consistent_replace _ _ i old st f Hc); [..|apply Hf]].
    intros k n'. simpl. rewrite entry_update by apply Hf. by rewrite Hk, Hn.
  - intros a b x y Ha Hb. rewrite <- Hpos in Ha, Hb. unfold set_at in Ha, Hb. intros Hab Hxy.
    destruct (decide (a = i)) as [Hai|Hai], (decide (b = i)) as [Hbi|Hbi]; subst; simplify_eq; try lia.
    + rewrite Hn. eapply (Ho i b); (done || congruence).
    + rewrite Hn. eapply (Ho a i); (done || congruence).
    + by eapply (Ho a b).
Qed.

Lemma pop_good st q q' : good q → pop g q = Ok (st, q') →
  good q' ∧ stList q = stList q' ++ [st].
Proof.
  intros (HR & Hc & Ho) Hpop. unfold pop in Hpop.
  destruct (stList q !! (length (stList q) - 1)%nat) as [x|] eqn:Hx; [|done]. injection Hpop as -> <-.
  pose proof (lookup_lt_Some _ _ _ Hx) as Hl.
  assert (∀ j, set_at (length (stList q) - 1) None (pos q) j = take (length (stList q) - 1) (stList q) !! j) as Hpos.
  { intros j. unfold set_at, pos. rewrite lookup_take. repeat case_decide; try done; try lia.
    apply lookup_ge_None_2. lia. }
  split; [split_and!|].
  - by apply lists_ok_rm.
  - eapply consistent_ext; [exact Hpos| |by apply (consistent_leave _ _ _ st Hc)]. intros k n. symmetry.
    destruct Hc as [H1 H2]. apply entry_rm; [done| |].
    + intros n' r Hr Hri. destruct (H2 _ _ _ Hr) as (y & Hy & _ & <-). rewrite Hri in Hy. unfold pos in Hy. congruence.
    + destruct (H1 _ _ Hx) as (r & Hr & Hri & _). by exists r.
  - intros a b x y. unfold pos. cbn [stList]. rewrite !lookup_take. repeat case_decide; try done. by apply (Ho a b).
  - cbn [stList]. rewrite <- (take_drop (length (stList q) - 1) (stList q)) at 1. f_equal.
    apply drop_S in Hx. rewrite Hx. f_equal. apply drop_ge. lia.
Qed.

(** ** The queue as a map *)

Definition tx_id st : bytes * Z := (key st, nonce_of st).
Definition contents_of (l : list SignedTransaction) : gmap (bytes * Z) SignedTransaction :=
  list_to_map ((λ st, (tx_id st, st)) <$> l).
Definition contents q : gmap (bytes * Z) SignedTransaction := contents_of (stList q).

Lemma good_NoDup q : good q → NoDup (tx_id <$> stList q).
Proof.
  intros (_ & Hc & _). apply NoDup_alt. intros i j [k n] (x & Hx & Hi)%list_lookup_fmap_Some
    (y & Hy & Hj)%list_lookup_fmap_Some. unfold tx_id in *. simplify_eq. by eapply (consistent_inj _ _ i j x y Hc).
Qed.

Lemma contents_perm l l' : NoDup (tx_id <$> l) → l ≡ₚ l' → contents_of l = contents_of l'.
Proof.
  intros Hnd Hp. apply list_to_map_proper; [|by rewrite Hp]. rewrite <- list_fmap_compose. exact Hnd.
Qed.

Lemma contents_cons st l : contents_of (st :: l) = <[tx_id st := st]> (contents_of l).
Proof. done. Qed.

Lemma contents_None l id : id ∉ tx_id <$> l → contents_of l !! id = None.
Proof. intros Hid. apply not_elem_of_list_to_map_1. by rewrite <- list_fmap_compose. Qed.

Lemma contents_Some l id st : NoDup (tx_id <$> l) →
  contents_of l !! id = Some st ↔ st ∈ l ∧ tx_id st = id.
Proof.
  intros Hnd. unfold contents_of. rewrite <- elem_of_list_to_map.
  - rewrite list_elem_of_fmap. naive_solver.
  - by rewrite <- list_fmap_compose.
Qed.

(** Taking out the transaction at [i]. *)
Lemma contents_take q l st : good q → stList q ≡ₚ st :: l →
  contents q !! tx_id st = Some st ∧ contents_of l = delete (tx_id st) (contents q).
Proof.
  intros Hg Hp. pose proof (good_NoDup q Hg) as Hnd. unfold contents.
  rewrite (contents_perm _ _ Hnd Hp), contents_cons, lookup_insert_eq. split; [done|].
  rewrite delete_insert_id; [done|]. apply contents_None. rewrite Hp in Hnd. by apply NoDup_cons in Hnd as [? _].
Qed.

(** What [push] does to the map. *)
Definition push_spec st (m : gmap (bytes * Z) SignedTransaction) : gmap (bytes * Z) SignedTransaction :=
  match m !! tx_id st with
  | Some old => if decide (gas_cap old >= gas_cap st) then m else <[tx_id st := st]> m
  | None => <[tx_id st := st]> m
  end.

(** What [FindSignedTransaction] looks up. *)
Definition lookup_tx (k : bytes) (n : Z) q : option SignedTransaction :=
  r ← ent q k n; stList q !! rst_idx r.

Lemma lookup_contents q k n : good q → lookup_tx k n q = contents q !! (k, n).
Proof.
  intros Hg. pose proof (good_NoDup q Hg) as Hnd. destruct Hg as (_ & [H1 H2] & _). unfold lookup_tx.
  destruct (ent q k n) as [r|] eqn:Hr; simpl.
  - destruct (H2 _ _ _ Hr) as (x & Hx & <- & <-). unfold pos in Hx. rewrite Hx. symmetry. apply contents_Some; [done|].
    split; [by eapply list_elem_of_lookup_2|done].
  - symmetry. destruct (contents q !! (k, n)) as [x|] eqn:Hx; [|done]. exfalso.
    apply contents_Some in Hx as [[i Hi]%list_elem_of_lookup Hid]; [|done].
    destruct (H1 _ _ Hi) as (r & Hr' & _). unfold tx_id in Hid. injection Hid as <- <-. congruence.
Qed.

Lemma push_refines now st q q' : good q → push g now st q = Ok q' →
  good q' ∧ contents q' = push_spec st (contents q).
Proof.
  intros Hg Hpush. unfold push in Hpush. apply bind_Ok in Hpush as (k & Hk & Hpush). cbn zeta in Hpush.
  assert (key st = k) as <- by (unfold caller_key; by rewrite Hk). fold (entry (rstBuffer q) (key st) (nonce_of st)) in Hpush.
  pose proof (lookup_contents q (key st) (nonce_of st) Hg) as Hlook. unfold lookup_tx in Hlook. unfold push_spec, tx_id.
  rewrite <- Hlook. pose proof (good_NoDup q Hg) as Hnd.
  destruct (ent q (key st) (nonce_of st)) as [r|] eqn:Hr; simpl in *.
  - pose proof Hg as (_ & [H1 H2] & _). destruct (H2 _ _ _ Hr) as (old & Hold & Hko & Hno). unfold pos in Hold.
    rewrite Hold in *.
    assert (rst_price r = gas_cap old) as Hpr.
    { destruct (H1 _ _ Hold) as (r' & Hr' & _ & <-). rewrite Hko, Hno in Hr'. congruence. }
    rewrite Hpr in Hpush. case_decide; [by injection Hpush as <-|].
    unfold entry in Hr. apply find_nonce_Some in Hr as [_ Hrn]. rewrite Hrn in Hpush. injection Hpush as <-.
    match type of Hold with _ !! ?i = _ => set (i0 := i) in * end.
    edestruct (push_replace_good st old q i0 (λ r, withTimestamp (now mod 60) (withPrice (gas_cap st) r)) Hg Hold)
      as [Hg' Hp]; [done..|]. split; [exact Hg'|]. unfold contents at 1. cbn [stList].
    rewrite (contents_perm _ _ (good_NoDup _ Hg') Hp).
    assert (<[i0:=st]> (stList q) ≡ₚ st :: delete i0 (stList q)) as Hins.
    { rewrite (delete_Permutation (<[i0:=st]> (stList q)) i0 st)
        by (apply list_lookup_insert_eq; by eapply lookup_lt_Some). by rewrite delete_insert_same. }
    assert (NoDup (tx_id <$> <[i0:=st]> (stList q))) as Hnd' by (rewrite <- Hp; by apply good_NoDup).
    rewrite (contents_perm _ _ Hnd' Hins), contents_cons.
    destruct (contents_take q (delete i0 (stList q)) old Hg) as [_ ->]; [by apply delete_Permutation|].
    unfold tx_id. by rewrite Hko, Hno, insert_delete_eq.
  - injection Hpush as <-. edestruct (push_new_good st q (now mod 60) Hg Hr) as [Hg' Hp].
    split; [exact Hg'|]. unfold contents at 1. by rewrite (contents_perm _ _ (good_NoDup _ Hg') Hp), contents_cons.
Qed.

Lemma remove_refines i st q : good q → stList q !! i = Some st →
  good (remove g i q) ∧ contents (remove g i q) = delete (tx_id st) (contents q) ∧
  length (stList q) = S (length (stList (remove g i q))).
Proof.
  intros Hg Hi. destruct (remove_good i st q Hg Hi) as (Hg' & Hp & _). split; [done|].
  pose proof (delete_Permutation _ _ _ Hi) as Hd. split.
  - destruct (contents_take q (delete i (stList q)) st Hg Hd) as [_ <-].
    apply contents_perm; [by apply good_NoDup|done].
  - rewrite Hd, Hp. done.
Qed.

Lemma push_total now st q : good q → is_Ok (String g (Caller (st_tx st))) → is_Ok (push g now st q).
Proof.
  intros (_ & [_ H2] & _) [k Hk]. unfold push. rewrite Hk. cbn.
  destruct (find_nonce (nonce_of st) (default [] (rstBuffer q !! k))) as [r|] eqn:Hr; [|by eexists].
  case_decide; [by eexists|]. destruct (H2 k _ r Hr) as (x & Hx & _). unfold pos in Hx. rewrite Hx. by eexists.
Qed.

(** ** Every queue *)

Inductive queue_step q : orderlyQueue → Prop :=
  | step_push now st q' : push g now st q = Ok q' → queue_step q q'
  | step_remove i : queue_step q (remove g i q)
  | step_pop st q' : pop g q = Ok (st, q') → queue_step q q'
  | step_forget k : queue_step q (forget_time k q).
Definition reachable : orderlyQueue → Prop := rtc queue_step newQueue.

Lemma newQueue_good : good newQueue.
Proof.
  split_and!.
  - intros k l. unfold newQueue. simpl. by rewrite lookup_empty.
  - split; [done|]. intros k n r. unfold entry. simpl. by rewrite lookup_empty.
  - intros i j x y Hi. unfold pos in Hi. simpl in Hi. by rewrite lookup_nil in Hi.
Qed.

Lemma step_good q q' : good q → queue_step q q' → good q'.
Proof.
  intros Hg [now st q1 Hpush|i|st q1 Hpop|k]; [by eapply push_refines| |by eapply pop_good|done].
  destruct (stList q !! i) as [st|] eqn:Hi; [by eapply remove_good|]. unfold remove. by rewrite Hi.
Qed.

Lemma reachable_good q : reachable q → good q.
Proof.
  intros Hr. enough (∀ q0, good q0 → rtc queue_step q0 q → good q) as H' by (apply (H' newQueue); [apply newQueue_good|done]).
  clear Hr. intros q0 Hg Hr. induction Hr; [done|]. eauto using step_good.
Qed.

(** C8: the queue is a finite map from senders and nonces to transactions: a lookup through
    the index finds the transaction of the map; [push] always succeeds for a sender that
    has a text, and enters the transaction, replaces one that offers less gas, or, when
    the old one offers as much, changes nothing; [remove] and [pop] take out exactly the
    transaction at the index and the last one. *)
Theorem queue_refines q : reachable q →
  size (contents q) = length (stList q) ∧
  (∀ k n, lookup_tx k n q = contents q !! (k, n)) ∧
  (∀ now st s, String g (Caller (st_tx st)) = Ok s →
     ∃ q', push g now st q = Ok q' ∧ contents q' = push_spec st (contents q)) ∧
  (∀ i st, stList q !! i = Some st → contents (remove g i q) = delete (tx_id st) (contents q)) ∧
  (∀ st q', pop g q = Ok (st, q') →
     last (stList q) = Some st ∧ contents q !! tx_id st = Some st ∧ contents q' = delete (tx_id st) (contents q)).
Proof.
  intros Hg%reachable_good. split_and!.
  - unfold contents, contents_of. rewrite <- (length_fmap (λ st, (tx_id st, st))).
    rewrite <- map_size_list_to_map; [done|]. rewrite <- list_fmap_compose. by apply good_NoDup.
  - intros. by apply lookup_contents.
  - intros now st s Hs. destruct (push_total now st q Hg) as [q' Hq']; [by eexists|]. exists q'. split; [done|].
    by eapply push_refines.
  - intros i st Hi. by apply remove_refines.
  - intros st q' Hpop. destruct (pop_good _ _ _ Hg Hpop) as [Hg' Hl]. split; [rewrite Hl; apply last_snoc|].
    apply (contents_take q (stList q') st Hg). by rewrite Hl, Permutation_app_comm.
Qed.

(** C26: in every queue the nonces of one sender follow each other: of two transactions of
    a sender, the one nearer to the end, which is taken first, has the smaller nonce,
    however high the gas of the other is; and the index has exactly one entry for each
    transaction, with its position and its gas. *)
Theorem queue_order q : reachable q →
  (∀ i j x y, stList q !! i = Some x → stList q !! j = Some y → (i < j)%nat → key x = key y →
     nonce_of y < nonce_of x) ∧
  (∀ i x, stList q !! i = Some x →
     ∃ r, entry (rstBuffer q) (key x) (nonce_of x) = Some r ∧ rst_idx r = i ∧ rst_price r = gas_cap x) ∧
  (∀ k n r, entry (rstBuffer q) k n = Some r →
     ∃ x, stList q !! rst_idx r = Some x ∧ key x = k ∧ nonce_of x = n).
Proof.
  intros (_ & [H1 H2] & Ho)%reachable_good. split_and!; [|done..].
  intros i j x y Hx Hy Hij Hk. pose proof (Ho i j x y Hx Hy Hij Hk). lia.
Qed.

End Queue.

(** ** Concrete queues *)

Module QueueSample.
Import CryptoInstance.

Definition g : globals := init_globals.
Definition addr (b : byte) : Address := Addr (TypeSecp256k1 :: replicate 20 b).
Definition a : Address := addr Byte.x01.
Definition e : Address := addr Byte.x02.

(** A transfer with a gas limit; the gas price is 1. *)
Definition mk (from : Address) (nonce cap amount : Z) : SignedTransaction :=
  STx (Tx 1 TransferTransaction from (addr Byte.x09) amount nonce cap 0 1 []) (Sig TypeSecp256k1 []).

Definition feed (l : list SignedTransaction) : orderlyQueue :=
  foldl (λ q st, match push g 0 st q with Ok q' => q' | _ => q end) newQueue l.

Lemma feed_reachable l : reachable g (feed l).
Proof.
  unfold feed. induction l as [|st l IH] using rev_ind; [constructor|]. rewrite foldl_app. cbn [foldl].
  destruct (push g 0 st _) as [q|er|] eqn:Hp; [|exact IH..]. eapply rtc_r; [exact IH|]. by eapply step_push.
Qed.

(** By gas, but the second nonce of [a] waits for the first although it offers more. *)
Definition l3 : list SignedTransaction := [mk a 1 5 0; mk e 1 50 0; mk a 2 100 0; mk e 2 7 0].
Example order3 : (λ st, (Nonce (st_tx st), gas_cap st)) <$> stList (feed l3) = [(2, 100); (1, 5); (2, 7); (1, 50)].
Proof. vm_compute. reflexivity. Qed.

(** When the price of a transaction rises, only the transactions from it on are placed
    anew: the next one of its sender stays below one that offers less. *)
Definition l4 : list SignedTransaction := [mk a 1 5 0; mk a 2 100 0; mk e 1 50 0; mk a 1 200 0].
Example order4 : (λ st, (Nonce (st_tx st), gas_cap st)) <$> stList (feed l4) = [(2, 100); (1, 50); (1, 200)].
Proof. vm_compute. reflexivity. Qed.

End QueueSample.

Lemma queue_refines_witness :
  lookup_tx (caller_key QueueSample.g (QueueSample.mk QueueSample.a 1 200 0)) 1 (QueueSample.feed QueueSample.l4) =
    contents QueueSample.g (QueueSample.feed QueueSample.l4) !!
      (caller_key QueueSample.g (QueueSample.mk QueueSample.a 1 200 0), 1) ∧
  lookup_tx (caller_key QueueSample.g (QueueSample.mk QueueSample.a 1 200 0)) 1 (QueueSample.feed QueueSample.l4) =
    Some (QueueSample.mk QueueSample.a 1 200 0).
Proof.
  split; [|vm_compute; reflexivity].
  exact (proj1 (proj2 (queue_refines QueueSample.g (QueueSample.feed QueueSample.l4)
    (QueueSample.feed_reachable QueueSample.l4))) _ _).
Defined.

Lemma queue_order_witness :
  ∃ x y, stList (QueueSample.feed QueueSample.l3) !! 0%nat = Some x ∧
    stList (QueueSample.feed QueueSample.l3) !! 1%nat = Some y ∧ nonce_of y < nonce_of x.
Proof.
  exists (QueueSample.mk QueueSample.a 2 100 0), (QueueSample.mk QueueSample.a 1 5 0).
  split; [vm_compute; reflexivity|]. split; [vm_compute; reflexivity|].
  refine (proj1 (queue_order QueueSample.g (QueueSample.feed QueueSample.l3)
    (QueueSample.feed_reachable QueueSample.l3)) 0%nat 1%nat _ _ _ _ _ _);
    [vm_compute; reflexivity..|lia|vm_compute; reflexivity].
Defined.
