(* ===== verification/Pool.v ===== *)
(** The transaction pool ([pkg/txpool/pool.go]): what it admits, what it offers to a miner,
    and what it drops.

    The chain is used through the interface [txpool.IBlockchain], the class
    [IBlockchain]; the clock and the orders in which maps are walked are arguments. *)

From S2P Require Import Prelude Misc Cbor Address Transaction Ledger Strconv Queue Apply.

Definition PendingLimit : nat := 100.
Definition poolCap : nat := 10000.
Definition timesub : Z := 100.

(** [IBlockchain]; a getter that fails returns 0 beside its error. *)
Class IBlockchain (BC : Type) := {
  ib_GetNonce : Address → BC → res Z;
  ib_GetAvailableBalance : Address → BC → res Z;
  ib_GetAllFreezeBalance : Address → BC → res Z;
  ib_GetSingleFreezeBalance : Address → Address → BC → res Z;
}.

(** [pendingBuf] is the array whose front part [Pending] returns. *)
Record Pool (BC : Type) := MkPool { pq : orderlyQueue; pbc : BC; pendingBuf : list SignedTransaction }.
Arguments MkPool {BC} pq pbc pendingBuf.
Arguments pq {BC} p.
Arguments pbc {BC} p.
Arguments pendingBuf {BC} p.

Record traderInfo := Trader {
  availableBalance : Z; lockBalance : Z; nextNonce : Z; sigleLockBalance : Z; sigleExist : bool;
}.
Definition no_trader : traderInfo := Trader 0 0 0 0 false.
Definition with_available (v : Z) (t : traderInfo) : traderInfo :=
  Trader v (lockBalance t) (nextNonce t) (sigleLockBalance t) (sigleExist t).
Definition with_lock (v : Z) (t : traderInfo) : traderInfo :=
  Trader (availableBalance t) v (nextNonce t) (sigleLockBalance t) (sigleExist t).
Definition with_nonce (v : Z) (t : traderInfo) : traderInfo :=
  Trader (availableBalance t) (lockBalance t) v (sigleLockBalance t) (sigleExist t).
Definition with_single (v : Z) (t : traderInfo) : traderInfo :=
  Trader (availableBalance t) (lockBalance t) (nextNonce t) v (sigleExist t).
Definition with_exist (t : traderInfo) : traderInfo :=
  Trader (availableBalance t) (lockBalance t) (nextNonce t) (sigleLockBalance t) true.

Definition zero_tx : SignedTransaction := STx (Tx 0 Byte.x00 Undef Undef 0 0 0 0 0 []) (Sig Byte.x00 []).

Section Pool.
Context {BC : Type} `{!IBlockchain BC, !CborHeader, !Crypto, !EthCommon, !EvmData}.
Variable g : globals.
Implicit Types (st : SignedTransaction) (tx : Transaction).

Definition NewPool (bc : BC) : Pool BC := MkPool newQueue bc (replicate PendingLimit zero_tx).

Definition with_queue (q : orderlyQueue) (p : Pool BC) : Pool BC := MkPool q (pbc p) (pendingBuf p).

(** ** Admission *)

(** The chain's error is dropped, and its nonce is 0 then. *)
Definition geCallerNonce (caller : Address) (nonce : Z) (bc : BC) : res unit :=
  lastNonce ← (match ib_GetNonce caller bc with Ok n => Ok n | Err _ => Ok 0 | Panic => Panic end);
  if decide (nonce < lastNonce) then err "transaction.nonce must be greater than the chain nonce" else Ok tt.

Definition add (now : Z) st : stM (Pool BC) unit := λ p,
  if decide (poolCap <= length (stList (pq p)))%nat then (err "pool is full,please try again later", p) else
  match geCallerNonce (Caller (st_tx st)) (Nonce (st_tx st)) (pbc p) with
  | Ok _ =>
      match push g now st (pq p) with
      | Ok q => (Ok tt, with_queue q p)
      | Err e => (Err e, p)
      | Panic => (Panic, p)
      end
  | Err e => (Err e, p)
  | Panic => (Panic, p)
  end.

(** Add to add a new transaction to the pool; it is logged, with the text of its sender. *)
Definition Add (now : Z) st : stM (Pool BC) unit :=
  let t := st_tx st in
  if decide (Type_ t = TransferTransaction ∧ (0 < length (Input t))%nat)
  then st_err (ErrMsg "Unsupported Token transaction currently") else
  if decide (GasLimit t *₆₄ GasPrice t < MINGASLIMIT ∨ GasLimit t *₆₄ GasPrice t > MAXGASLIMIT)
  then st_err (ErrMsg "gas is too small or too big") else
  st_lift (VerifySign st) ;;
  st_lift (String g (Caller t)) ;;
  add now st.

(** [AddList] has none of the other checks of [Add]; the errors have the text of the
    sender. *)
Fixpoint AddList (now : Z) (stList : list SignedTransaction) : stM (Pool BC) (list error) :=
  match stList with
  | [] => mret []
  | st :: stList =>
      let failed e := st_lift (String g (Caller (st_tx st))) ;; es ← AddList now stList; mret (e :: es) in
      λ p,
      match VerifySign st with
      | Panic => (Panic, p)
      | Err e => failed e p
      | Ok _ =>
          match add now st p with
          | (Ok _, p) => AddList now stList p
          | (Err e, p) => failed e p
          | (Panic, p) => (Panic, p)
          end
      end
  end.

(** ** What a miner can use *)

(** The buffer of what is known of the traders, by the text of their addresses. *)
Abbreviation traders := (gmap bytes traderInfo).
Abbreviation B := (stM traders).

Section Pre.
Variable bc : BC.

(** [info.f, err = get(); if err != nil { return info, err }] *)
Definition fill (r : res Z) (set : Z → traderInfo → traderInfo) (info : traderInfo)
    (k : traderInfo → B (traderInfo * option error)) : B (traderInfo * option error) :=
  match r with
  | Ok v => k (set v info)
  | Err e => mret (set 0 info, Some e)
  | Panic => st_panic
  end.

(** The information is kept in the buffer only when all of it could be had. *)
Definition keepTrader (key : bytes) (info : traderInfo) : B (traderInfo * option error) :=
  st_modify (<[key := info]>) ;; mret (info, None).

(** The amount frozen for one receiver is asked for once, whoever the receiver is. *)
Definition fillSingle (key : bytes) (trader : Address) (receiver : option Address) (info : traderInfo) :
    B (traderInfo * option error) :=
  match receiver with
  | Some r =>
      if sigleExist info then keepTrader key info
      else fill (ib_GetSingleFreezeBalance trader r bc) with_single info (λ info, keepTrader key (with_exist info))
  | None => keepTrader key info
  end.

Definition getTraderInfo (trader : Address) (receiver : option Address) : B (traderInfo * option error) :=
  key ← st_lift (String g trader);
  known ← st_gets (λ buf, buf !! key);
  match known, receiver with
  | Some info, None => mret (info, None)
  | Some info, _ => fillSingle key trader receiver info
  | None, _ =>
      fill (ib_GetAvailableBalance trader bc) with_available no_trader (λ info,
      fill (ib_GetAllFreezeBalance trader bc) with_lock info (λ info,
      fill (ib_GetNonce trader bc) with_nonce info (fillSingle key trader receiver)))
  end.

(** [info, err := p.getTraderInfo(…); if err != nil { return err }] *)
Definition traderOf (trader : Address) (receiver : option Address) : B traderInfo :=
  '(info, e) ← getTraderInfo trader receiver;
  match e with None => mret info | Some e => st_err e end.

(** The error is ignored, and the information is then what could be had. *)
Definition compareNonce (trader : Address) (nonce : Z) : B Z :=
  '(info, _) ← getTraderInfo trader None;
  mret (if decide (nonce < nextNonce info) then -1 else if decide (nonce > nextNonce info) then 1 else 0).

Definition setTrader (a : Address) (info : traderInfo) : B unit :=
  key ← st_lift (String g a);
  st_modify (<[key := info]>).

Definition count_nonce (t : traderInfo) : traderInfo := with_nonce (nextNonce t +₆₄ 1) t.

Definition transferTransactionPreCalculated tx : B unit :=
  caller ← traderOf (Caller tx) None;
  receiver ← traderOf (Receiver tx) None;
  amountAndGas ← st_lift (AddUint64Overflow (Amount tx) [GasCap tx]);
  callerBal ← st_lift (SubUint64Overflow (availableBalance caller) [amountAndGas]);
  receiverBal ← st_lift (AddUint64Overflow (availableBalance receiver) [Amount tx]);
  setTrader (Caller tx) (with_available callerBal (count_nonce caller)) ;;
  setTrader (Receiver tx) (with_available receiverBal receiver).

Definition lockTransactionPreCalculated tx : B unit :=
  caller ← traderOf (Caller tx) None;
  if decide (availableBalance caller < Amount tx) then st_err (ErrMsg "avaliable balance < lock amount") else
  lockBal ← st_lift (AddUint64Overflow (lockBalance caller) [Amount tx]);
  avlBal ← st_lift (SubUint64Overflow (availableBalance caller) [Amount tx]);
  avlBal ← st_lift (SubUint64Overflow avlBal [GasCap tx]);
  setTrader (Caller tx) (with_available avlBal (with_lock lockBal (count_nonce caller))).

Definition unlockTransactionPreCalculated tx : B unit :=
  caller ← traderOf (Caller tx) (Some (To tx));
  if decide (sigleLockBalance caller < Amount tx) then st_err (ErrMsg "single locked balance < lock amount") else
  lockBal ← st_lift (SubUint64Overflow (lockBalance caller) [Amount tx]);
  singleBal ← st_lift (SubUint64Overflow (sigleLockBalance caller) [Amount tx]);
  avlBal ← st_lift (SubUint64Overflow (availableBalance caller) [GasCap tx]);
  avlBal ← st_lift (AddUint64Overflow avlBal [Amount tx]);
  setTrader (Caller tx) (with_single singleBal (with_available avlBal (with_lock lockBal (count_nonce caller)))).

Definition pledgeTrasnactionPreCalculated tx : B unit :=
  caller ← traderOf (Caller tx) None;
  if decide (availableBalance caller < Amount tx) then st_err (ErrMsg "available balance < lock amount") else
  avlBalance ← st_lift (SubUint64Overflow (availableBalance caller) [Amount tx]);
  avlBalance ← st_lift (SubUint64Overflow avlBalance [GasCap tx]);
  setTrader (Caller tx) (with_available avlBalance (count_nonce caller)).

Definition redeemTrasnactionPreCalculated tx : B unit :=
  if decide (Amount tx ≠ 0) then st_err (ErrMsg "tx.Amount expect 0") else
  caller ← traderOf (Caller tx) None;
  if decide (availableBalance caller < Amount tx) then st_err (ErrMsg "available balance < lock amount") else
  avlBalance ← st_lift (SubUint64Overflow (availableBalance caller) [GasCap tx]);
  setTrader (Caller tx) (with_available avlBalance (count_nonce caller)).

Definition transactionPreCalculated tx : B unit :=
  if decide (Type_ tx = TransferTransaction) then transferTransactionPreCalculated tx
  else if decide (Type_ tx = LockTransaction) then lockTransactionPreCalculated tx
  else if decide (Type_ tx = UnlockTransaction) then unlockTransactionPreCalculated tx
  else if decide (Type_ tx = PledgeTrasnaction ∨ Type_ tx = EvmContractTransaction ∨ Type_ tx = EvmKtoTransaction)
  then pledgeTrasnactionPreCalculated tx
  else if decide (Type_ tx = PledgeBreakTransaction) then redeemTrasnactionPreCalculated tx
  else st_err (ErrMsg "unknown transaction type").

(** What the loop does with the transaction at an index. *)
Inductive verdict := Skip | Bad | Take.

Definition judge st : B verdict :=
  let t := st_tx st in
  n ← compareNonce (Caller t) (Nonce t);
  if decide (n < 0) then
    '(_, e) ← getTraderInfo (Caller t) None;
    mret (match e with Some _ => Skip | None => Bad end)
  else if decide (n > 0) then
    getTraderInfo (Caller t) None ;;
    mret Skip
  else λ buf,
    match transactionPreCalculated t buf with
    | (Ok _, buf) => (Ok Take, buf)
    | (Err _, buf) => (Ok Bad, buf)
    | (Panic, buf) => (Panic, buf)
    end.

(** The loop, from the end of the queue: [n] is the number of transactions left, so that
    the next index is [n - 1].  It returns those taken, in order, and the bad indexes. *)
Fixpoint pending_loop (n : nat) (taken : list SignedTransaction) (bad : list nat) (l : list SignedTransaction) :
    B (list SignedTransaction * list nat) :=
  match n with
  | O => mret (taken, bad)
  | S idx =>
      if decide (PendingLimit <= length taken)%nat then mret (taken, bad) else
      match l !! idx with
      | None => st_panic
      | Some st =>
          v ← judge st;
          match v with
          | Skip => pending_loop idx taken bad l
          | Bad => pending_loop idx taken (bad ++ [idx]) l
          | Take => pending_loop idx (taken ++ [st]) bad l
          end
      end
  end.

End Pre.

(** Pending returns the transaction that can be packaged.  The bad indexes are those of
    the queue before anything is removed. *)
Definition Pending : stM (Pool BC) (list SignedTransaction) := λ p,
  let l := stList (pq p) in
  match (pending_loop (pbc p) (length l) [] [] l ∅).1 with
  | Ok (taken, bad) =>
      let buf := taken ++ drop (length taken) (pendingBuf p) in
      let q := foldl (λ q idx, remove g idx q) (pq p) bad in
      (Ok (take (length taken) buf), MkPool q (pbc p) buf)
  | Err e => (Err e, p)
  | Panic => (Panic, p)
  end.

(** ** Leaving the pool *)

Definition findSignedTransactionIdx (addr : Address) (nonce : Z) (q : orderlyQueue) : res (option nat) :=
  key ← String g addr;
  Ok (match find_nonce nonce (default [] (rstBuffer q !! key)) with
      | Some rst => if decide (length (stList q) <= rst_idx rst)%nat then None else Some (rst_idx rst)
      | None => None
      end).

Definition FindSignedTransaction (addr : Address) (nonce : Z) (p : Pool BC) : res (option SignedTransaction) :=
  i ← findSignedTransactionIdx addr nonce (pq p);
  Ok (i ≫= λ i, stList (pq p) !! i).

(** [for p.q.len() > poolCap/3*2 { p.q.remove(0) }]: [fuel] rounds; the queue's length is
    enough. *)
Fixpoint trim (fuel : nat) (q : orderlyQueue) : orderlyQueue :=
  match fuel with
  | O => q
  | S fuel => if decide (poolCap / 3 * 2 < length (stList q))%nat then trim fuel (remove g 0 q) else q
  end.

(** One round of the loop over [timeBuffer]. *)
Definition expire_key (now : Z) (k : bytes) (q : orderlyQueue) : res orderlyQueue :=
  match timeBuffer q !! k with
  | None => Ok q
  | Some v =>
      if decide (v > now - 3 * timesub) then Ok q else
      let q := forget_time k q in
      match parseKey k with
      | Ok (caller, nonce) =>
          match NewAddrFromString g caller with
          | Ok addr =>
              i ← findSignedTransactionIdx addr nonce q;
              Ok (match i with Some i => remove g i q | None => q end)
          | Err _ => Ok q
          | Panic => Panic
          end
      | Err _ => Ok q
      | Panic => Panic
      end
  end.

Fixpoint expire_keys (now : Z) (order : list bytes) (q : orderlyQueue) : res orderlyQueue :=
  match order with
  | [] => Ok q
  | k :: order => q ← expire_key now k q; expire_keys now order q
  end.

(** TransctionCacheOut  Eliminate transactions in the transaction pool *)
Definition cacheOutSignedTransaction (now : Z) (order : list bytes) (q : orderlyQueue) : res orderlyQueue :=
  q ← expire_keys now order q;
  Ok (trim (length (stList q)) q).

(** One transaction of a block: the entry of its sender and nonce, of which there is at
    most one, is removed.  (The code goes on through the sender's entries while they move
    up in the array; none of those has the same nonce.) *)
Definition filter_one st (q : orderlyQueue) : res orderlyQueue :=
  key ← String g (Caller (st_tx st));
  Ok (match find_nonce (Nonce (st_tx st)) (default [] (rstBuffer q !! key)) with
      | Some rst => remove g (rst_idx rst) q
      | None => q
      end).

Fixpoint filter_all (l : list SignedTransaction) (q : orderlyQueue) : res orderlyQueue :=
  match l with
  | [] => Ok q
  | st :: l => q ← filter_one st q; filter_all l q
  end.

(** FilterTransaction filter incoming transactions *)
Definition FilterTransaction (now : Z) (order : list bytes) (l : list SignedTransaction) (p : Pool BC) : res (Pool BC) :=
  q ← filter_all l (pq p);
  q ← cacheOutSignedTransaction now order q;
  Ok (with_queue q p).

(** ** Reading *)

Definition CopySignedTransactions (p : Pool BC) : list SignedTransaction := stList (pq p).

(** The check of the index lets the length through; [findSignedTransactionIdx] does not. *)
Definition GetTxByHash (hash : bytes) (p : Pool BC) : res SignedTransaction :=
  '(addrStr, nonce) ← getAddrAndNonceByHash hash (pq p);
  addr ← NewAddrFromString g addrStr;
  i ← findSignedTransactionIdx addr nonce (pq p);
  match i with
  | None => err "not exist"
  | Some idx =>
      if decide (length (stList (pq p)) < idx)%nat then err "not exist" else
      match stList (pq p) !! idx with
      | None => Panic
      | Some st => if decide (HashToString st ≠ hash) then err "not exist" else Ok st
      end
  end.

End Pool.
