(* ===== verification/PoolFacts.v ===== *)
(** What the pool offers can be executed, and what a block contains leaves the pool. *)

From S2P Require Import Prelude Misc Cbor Address Transaction Ledger Strconv Queue QueueFacts Apply Pool.

(** The chain's numbers are [uint64]s. *)
Class IBlockchainLaws (BC : Type) `{!IBlockchain BC} := {
  ib_nonce_range a bc n : ib_GetNonce a bc = Ok n → is_u64 n;
  ib_available_range a bc n : ib_GetAvailableBalance a bc = Ok n → is_u64 n;
}.

Section Facts.
Context {BC : Type} `{!IBlockchain BC, !IBlockchainLaws BC, !CborHeader, !Crypto, !EthCommon, !EvmData}.
Variable g : globals.
Variable bc : BC.
Implicit Types (st : SignedTransaction) (tx : Transaction) (a : Address) (k : bytes) (buf : gmap bytes traderInfo).

(** ** What a list of transactions needs

    A reference for [Pending]: the transactions are carried out one after the other on the
    available balances and nonces of the senders. *)

Definition accounts : Type := Address → Z * Z.
Definition set_account a (v : Z * Z) (s : accounts) : accounts := λ a', if decide (a' = a) then v else s a'.

Definition chain_accounts : accounts := λ a,
  (match ib_GetAvailableBalance a bc with Ok v => v | _ => 0 end,
   match ib_GetNonce a bc with Ok n => n | _ => 0 end).

(** What the sender must have, and what an unlocking gives back. *)
Definition charge tx : Z :=
  (if decide (Type_ tx = UnlockTransaction ∨ Type_ tx = PledgeBreakTransaction) then 0 else Amount tx) + GasCap tx.
Definition refund tx : Z := if decide (Type_ tx = UnlockTransaction) then Amount tx else 0.

Definition replay_one tx (s : accounts) : option accounts :=
  let '(bal, n) := s (Caller tx) in
  if decide (n = Nonce tx ∧ charge tx <= bal) then
    let s := set_account (Caller tx) (bal - charge tx + refund tx, n + 1) s in
    Some (if decide (Type_ tx = TransferTransaction)
          then let '(bal, n) := s (Receiver tx) in set_account (Receiver tx) (bal + Amount tx, n) s
          else s)
  else None.

Fixpoint replay (l : list SignedTransaction) (s : accounts) : option accounts :=
  match l with
  | [] => Some s
  | st :: l => s ← replay_one (st_tx st) s; replay l s
  end.

Lemma replay_app l1 l2 s : replay (l1 ++ l2) s = replay l1 s ≫= replay l2.
Proof. revert s. induction l1 as [|st l1 IH]; intros s; simpl; [done|]. destruct (replay_one _ _); [apply IH|done]. Qed.

(** ** The buffer of traders *)

(** What the buffer says of a trader's available balance and next nonce, or the chain if
    the trader is not in the buffer. *)
Definition core (i : traderInfo) : Z * Z := (availableBalance i, nextNonce i).
Definition base a : option (Z * Z) :=
  match ib_GetAvailableBalance a bc, ib_GetAllFreezeBalance a bc, ib_GetNonce a bc with
  | Ok v, Ok _, Ok n => Some (v, n)
  | _, _, _ => None
  end.
Definition view buf a k : option (Z * Z) :=
  match buf !! k with Some i => Some (core i) | None => base a end.

Definition same_view buf buf' : Prop := ∀ a k, known a → String g a = Ok k → view buf' a k = view buf a k.

Lemma view_insert buf a k i a' k' : known a → known a' → String g a = Ok k → String g a' = Ok k' →
  view (<[k := i]> buf) a' k' = if decide (a' = a) then Some (core i) else view buf a' k'.
Proof.
  intros Ha Ha' Hk Hk'. unfold view. case_decide as Haa.
  - subst. rewrite Hk in Hk'. injection Hk' as <-. by rewrite lookup_insert_eq.
  - rewrite lookup_insert_ne; [done|]. intros ->. apply Haa. by eapply String_inj.
Qed.

Lemma same_view_insert buf a k i : known a → String g a = Ok k → view buf a k = Some (core i) →
  same_view buf (<[k := i]> buf).
Proof.
  intros Ha Hk Hv a' k' Ha' Hk'. rewrite (view_insert buf a k i a' k') by done. case_decide as Heq; [|done].
  subst. rewrite Hk in Hk'. by injection Hk' as <-.
Qed.

Lemma fillSingle_view a r k i buf info e buf' :
  known a → String g a = Ok k → view buf a k = Some (core i) →
  fillSingle bc k a r i buf = (Ok (info, e), buf') →
  same_view buf buf' ∧ (e = None → core info = core i) ∧ (r = None → e = None).
Proof.
  intros Ha Hk Hv H'. unfold fillSingle, keepTrader, fill in H'.
  assert (∀ i', core i' = core i → same_view buf (<[k := i']> buf)) as Hs
    by (intros i' Hi; apply (same_view_insert buf a); [done..|by rewrite Hi]).
  destruct r as [r|]; [destruct (sigleExist i); [|destruct (ib_GetSingleFreezeBalance a r bc); [| |done]]|];
    injection H' as <- <- <-; split_and!; try done; by apply Hs.
Qed.

(** Asking for a trader changes no view, and answers with it; without a receiver it fails
    only when the view is unknown. *)
Lemma getTraderInfo_view a r k buf info e buf' :
  known a → String g a = Ok k → getTraderInfo g bc a r buf = (Ok (info, e), buf') →
  same_view buf buf' ∧ (e = None → view buf a k = Some (core info)) ∧
  (r = None → e ≠ None → view buf a k = None).
Proof.
  intros Ha Hk H'. unfold getTraderInfo in H'.
  apply stM_bind_Ok in H' as (k' & b1 & Hk' & H'). unfold st_lift in Hk'. rewrite Hk in Hk'. injection Hk' as <- <-.
  apply stM_bind_Ok in H' as (kn & b2 & Hkn & H'). injection Hkn as <- <-.
  assert (∀ i, view buf a k = Some (core i) → fillSingle bc k a r i buf = (Ok (info, e), buf') →
    same_view buf buf' ∧ (e = None → view buf a k = Some (core info)) ∧
    (r = None → e ≠ None → view buf a k = None)) as Hsingle.
  { intros i Hv Hf. destruct (fillSingle_view a r k i buf info e buf') as (K1 & K2 & K3); [done..|].
    split_and!; [done| |naive_solver]. intros He. by rewrite Hv, K2. }
  unfold view in *. destruct (buf !! k) as [i|] eqn:Hb.
  - destruct r as [r|]; [by apply (Hsingle i)|]. injection H' as <- <- <-. by split_and!.
  - unfold fill in H'. unfold base in *.
    destruct (ib_GetAvailableBalance a bc) as [v|er|]; [| |done].
    2: { injection H' as <- <- <-. by split_and!. }
    destruct (ib_GetAllFreezeBalance a bc) as [l|er|]; [| |done].
    2: { injection H' as <- <- <-. by split_and!. }
    destruct (ib_GetNonce a bc) as [n|er|]; [| |done].
    2: { injection H' as <- <- <-. by split_and!. }
    by apply (Hsingle (with_nonce n (with_lock l (with_available v no_trader)))).
Qed.

Lemma same_view_refl buf : same_view buf buf.
Proof. done. Qed.
Lemma same_view_trans b1 b2 b3 : same_view b1 b2 → same_view b2 b3 → same_view b1 b3.
Proof. intros K1 K2 a k Ha Hk. rewrite K2 by done. by apply K1. Qed.

Lemma traderOf_Ok a r buf info buf' : known a → traderOf g bc a r buf = (Ok info, buf') →
  ∃ k, String g a = Ok k ∧ same_view buf buf' ∧ view buf a k = Some (core info).
Proof.
  intros Ha H'. unfold traderOf in H'. apply stM_bind_Ok in H' as ([i e] & b1 & Hg & H').
  destruct e; [done|]. injection H' as <- <-.
  destruct (String g a) as [k|er|] eqn:Hk;
    [|unfold getTraderInfo in Hg; rewrite Hk in Hg; done..].
  exists k. by destruct (getTraderInfo_view _ _ _ _ _ _ _ Ha Hk Hg) as (K1 & K2 & _); auto.
Qed.

Lemma bind_Err_inv {W A C} (m : stM W A) (f : A → stM W C) s e s' :
  (m ≫= f) s = (Err e, s') → m s = (Err e, s') ∨ ∃ x s1, m s = (Ok x, s1) ∧ f x s1 = (Err e, s').
Proof.
  unfold mbind, stM_bind. destruct (m s) as [[x|e1|] s1]; naive_solver.
Qed.

Lemma traderOf_Err a r buf e buf' : known a → traderOf g bc a r buf = (Err e, buf') → same_view buf buf'.
Proof.
  intros Ha H'. unfold traderOf in H'. apply bind_Err_inv in H' as [Hg|([i e'] & b1 & Hg & H')].
  - unfold getTraderInfo in Hg. destruct (String g a) as [k|er|] eqn:Hk; [|by injection Hg as _ <-|done].
    exfalso. apply bind_Err_inv in Hg as [Hg|(k' & b1 & Hg1 & Hg)]; [done|].
    apply bind_Err_inv in Hg as [Hg|(kn & b2 & Hg2 & Hg)]; [done|].
    assert (∀ i b, (fillSingle bc k' a r i b).1 ≠ Err e) as Hsingle.
    { intros i b. unfold fillSingle, fill, keepTrader. destruct r; [destruct (sigleExist i)|]; [done| |done].
      by destruct (ib_GetSingleFreezeBalance _ _ _). }
    destruct kn as [i|]; [destruct r as [r|]; [|done]; by apply (f_equal fst), Hsingle in Hg|]. unfold fill in Hg.
    destruct (ib_GetAvailableBalance a bc); [|done..]. destruct (ib_GetAllFreezeBalance a bc); [|done..].
    destruct (ib_GetNonce a bc); [|done..]. by apply (f_equal fst), Hsingle in Hg.
  - destruct e' as [e'|]; [|done]. injection H' as _ <-.
    destruct (String g a) as [k|er|] eqn:Hk; [|unfold getTraderInfo in Hg; by rewrite Hk in Hg..].
    by destruct (getTraderInfo_view _ _ _ _ _ _ _ Ha Hk Hg).
Qed.

(** ** Checked sums of two *)

Lemma add_two x y z : is_u64 x → is_u64 y → AddUint64Overflow x [y] = Ok z → z = x + y ∧ is_u64 z.
Proof.
  intros Hx Hy. rewrite AddUint64Overflow_cases by auto. simpl. rewrite Z.add_0_r. case_decide; [|done].
  intros [= <-]. unfold is_u64 in *. lia.
Qed.
Lemma sub_two x y z : is_u64 x → is_u64 y → SubUint64Overflow x [y] = Ok z → z = x - y ∧ is_u64 z.
Proof.
  intros Hx Hy. rewrite SubUint64Overflow_cases by auto. simpl. rewrite Z.add_0_r. case_decide; [|done].
  intros [= <-]. unfold is_u64 in *. lia.
Qed.

Definition views_ok buf : Prop := ∀ a k v n, known a → String g a = Ok k → view buf a k = Some (v, n) →
  is_u64 v ∧ is_u64 n.

Lemma views_ok_same buf buf' : same_view buf buf' → views_ok buf → views_ok buf'.
Proof. intros Hs Hv a k v n Ha Hk. rewrite Hs by done. by apply Hv. Qed.

(** Decompose a computation on the buffer into the steps that succeeded. *)
Ltac steps H :=
  lazymatch type of H with
  | (_ ≫= _) _ = (Ok _, _) =>
      let x := fresh "x" in let b := fresh "b" in let E := fresh "E" in
      apply stM_bind_Ok in H as (x & b & E & H); cbn beta zeta in H;
      lazymatch type of E with
      | st_lift _ _ = _ => unfold st_lift in E; injection E as E; subst b
      | _ => idtac
      end; steps H
  | (if decide ?P then st_err _ else _) _ = (Ok _, _) => destruct (decide P); [discriminate H|]; steps H
  | _ => idtac
  end.

Lemma setTrader_Ok a k i buf buf' : String g a = Ok k → setTrader g a i buf = (Ok tt, buf') → buf' = <[k := i]> buf.
Proof. intros Hk. unfold setTrader. rewrite Hk. by intros [= <-]. Qed.

(** The effect of a transaction on what is known of its sender, for all but transfers. *)
Definition spends tx buf buf' : Prop :=
  ∃ k v n, String g (Caller tx) = Ok k ∧ view buf (Caller tx) k = Some (v, n) ∧ charge tx ≤ v ∧
    is_u64 (v - charge tx + refund tx) ∧
    ∀ a k', known a → String g a = Ok k' →
      view buf' a k' = if decide (a = Caller tx) then Some (v - charge tx + refund tx, n +₆₄ 1) else view buf a k'.

Lemma spends_intro tx buf b1 k i i' : known (Caller tx) → String g (Caller tx) = Ok k → same_view buf b1 →
  view buf (Caller tx) k = Some (core i) → charge tx ≤ availableBalance i →
  availableBalance i' = availableBalance i - charge tx + refund tx → is_u64 (availableBalance i') →
  nextNonce i' = nextNonce i +₆₄ 1 → spends tx buf (<[k := i']> b1).
Proof.
  intros Ha Hk Hs Hv Hc Hi Hr Hn. eexists k, _, _. split_and!; [done|done|done|by rewrite <- Hi|].
  intros a k' Ha' Hk'. rewrite (view_insert b1 (Caller tx)) by done. case_decide; [|by apply Hs].
  unfold core. by rewrite Hi, Hn.
Qed.

Definition amounts_ok tx : Prop := is_u64 (Amount tx) ∧ Nonce tx < MAXUINT64.

Lemma gas_u64 tx : is_u64 (GasCap tx).
Proof. apply mul64_range. Qed.

Lemma charge_most tx : Type_ tx ≠ UnlockTransaction → Type_ tx ≠ PledgeBreakTransaction →
  charge tx = Amount tx + GasCap tx ∧ refund tx = 0.
Proof. intros. unfold charge, refund. rewrite !decide_False by naive_solver. done. Qed.

(** The end of a computation: its sender's information is set. *)
Ltac spend k x Hk :=
  eapply (spends_intro _ _ _ k x); try done; cbn [availableBalance with_available with_single]; unfold is_u64 in *; lia.

Section Kinds.
Context (tx : Transaction) (buf buf' : gmap bytes traderInfo).
Hypotheses (Ha : known (Caller tx)) (Hv : views_ok buf) (Hamt : amounts_ok tx).

Lemma lock_view : Type_ tx = LockTransaction →
  lockTransactionPreCalculated g bc tx buf = (Ok tt, buf') → spends tx buf buf'.
Proof.
  intros Hty H'. destruct Hamt as [Hamt1 _]. destruct (charge_most tx) as [Hc Hr]; [by rewrite Hty..|].
  unfold lockTransactionPreCalculated in H'. steps H'.
  destruct (traderOf_Ok _ _ _ _ _ Ha E) as (k & Hk & Hs & Hvi). apply (setTrader_Ok _ _ _ _ _ Hk) in H' as ->.
  destruct (Hv _ _ _ _ Ha Hk Hvi) as [Hu _].
  apply sub_two in E1 as [-> Hu1]; [|done..]. apply sub_two in E2 as [-> Hu2]; [|done|apply gas_u64].
  spend k x Hk.
Qed.

Lemma pledge_view : Type_ tx ≠ UnlockTransaction → Type_ tx ≠ PledgeBreakTransaction →
  pledgeTrasnactionPreCalculated g bc tx buf = (Ok tt, buf') → spends tx buf buf'.
Proof.
  intros Hty1 Hty2 H'. destruct Hamt as [Hamt1 _]. destruct (charge_most tx) as [Hc Hr]; [done..|].
  unfold pledgeTrasnactionPreCalculated in H'. steps H'.
  destruct (traderOf_Ok _ _ _ _ _ Ha E) as (k & Hk & Hs & Hvi). apply (setTrader_Ok _ _ _ _ _ Hk) in H' as ->.
  destruct (Hv _ _ _ _ Ha Hk Hvi) as [Hu _].
  apply sub_two in E0 as [-> Hu1]; [|done..]. apply sub_two in E1 as [-> Hu2]; [|done|apply gas_u64].
  spend k x Hk.
Qed.

Lemma redeem_view : Type_ tx = PledgeBreakTransaction →
  redeemTrasnactionPreCalculated g bc tx buf = (Ok tt, buf') → spends tx buf buf'.
Proof.
  intros Hty H'. assert (charge tx = GasCap tx ∧ refund tx = 0) as [Hc Hr].
  { unfold charge, refund. by rewrite Hty. }
  unfold redeemTrasnactionPreCalculated in H'. steps H'.
  destruct (traderOf_Ok _ _ _ _ _ Ha E) as (k & Hk & Hs & Hvi). apply (setTrader_Ok _ _ _ _ _ Hk) in H' as ->.
  destruct (Hv _ _ _ _ Ha Hk Hvi) as [Hu _].
  apply sub_two in E0 as [-> Hu1]; [|done|apply gas_u64].
  spend k x Hk.
Qed.

Lemma unlock_view : Type_ tx = UnlockTransaction →
  unlockTransactionPreCalculated g bc tx buf = (Ok tt, buf') → spends tx buf buf'.
Proof.
  intros Hty H'. destruct Hamt as [Hamt1 _]. assert (charge tx = GasCap tx ∧ refund tx = Amount tx) as [Hc Hr].
  { unfold charge, refund. by rewrite Hty. }
  unfold unlockTransactionPreCalculated in H'. steps H'.
  destruct (traderOf_Ok _ _ _ _ _ Ha E) as (k & Hk & Hs & Hvi). apply (setTrader_Ok _ _ _ _ _ Hk) in H' as ->.
  destruct (Hv _ _ _ _ Ha Hk Hvi) as [Hu _].
  apply sub_two in E2 as [-> Hu1]; [|done|apply gas_u64]. apply add_two in E3 as [-> Hu2]; [|done..].
  spend k x Hk.
Qed.

(** A transfer also credits the receiver, after the sender. *)
Lemma transfer_view : known (Receiver tx) → Type_ tx = TransferTransaction →
  transferTransactionPreCalculated g bc tx buf = (Ok tt, buf') →
  ∃ k v n kr vr nr, String g (Caller tx) = Ok k ∧ view buf (Caller tx) k = Some (v, n) ∧ charge tx ≤ v ∧
    String g (Receiver tx) = Ok kr ∧ view buf (Receiver tx) kr = Some (vr, nr) ∧ is_u64 (vr + Amount tx) ∧
    ∀ a k', known a → String g a = Ok k' →
      view buf' a k' = if decide (a = Receiver tx) then Some (vr + Amount tx, nr)
                       else if decide (a = Caller tx) then Some (v - charge tx, n +₆₄ 1) else view buf a k'.
Proof.
  intros Hra Hty H'. destruct Hamt as [Hamt1 _]. destruct (charge_most tx) as [Hc Hr]; [by rewrite Hty..|].
  unfold transferTransactionPreCalculated in H'. steps H'.
  destruct (traderOf_Ok _ _ _ _ _ Ha E) as (k & Hk & Hs & Hvi).
  destruct (traderOf_Ok _ _ _ _ _ Hra E0) as (kr & Hkr & Hsr & Hvr). rewrite Hs in Hvr by done.
  apply (setTrader_Ok _ _ _ _ _ Hkr) in H' as ->. destruct x4. apply (setTrader_Ok _ _ _ _ _ Hk) in E4 as ->.
  destruct (Hv _ _ _ _ Ha Hk Hvi) as [Hu _]. destruct (Hv _ _ _ _ Hra Hkr Hvr) as [Hur _].
  apply add_two in E1 as [-> Hu1]; [|done|apply gas_u64]. apply sub_two in E2 as [-> Hu2]; [|done..].
  apply add_two in E3 as [-> Hu3]; [|done..].
  eexists k, _, _, kr, _, _. do 2 (split; [done|]). split; [unfold is_u64 in *; lia|]. do 3 (split; [done|]).
  intros a k' Ka Hk'. rewrite (view_insert _ (Receiver tx)) by done. case_decide; [done|].
  rewrite (view_insert _ (Caller tx)) by done. case_decide.
  { unfold core. cbn [availableBalance with_available nextNonce with_nonce count_nonce]. by rewrite Hc. }
  rewrite Hsr, Hs by done. done.
Qed.

End Kinds.

(** A transaction that fails changes no view. *)
Lemma failing_view tx buf e buf' : known (Caller tx) → known (Receiver tx) →
  transactionPreCalculated g bc tx buf = (Err e, buf') → same_view buf buf'.
Proof.
  intros Ha Hr H'.
  assert (∀ (i : traderInfo) a b b' e', is_Ok (String g a) → setTrader g a i b ≠ (Err e', b')) as Hset.
  { intros i a b b' e' [k Hk]. unfold setTrader. by rewrite Hk. }
  assert (∀ a r i b b', known a → traderOf g bc a r b = (Ok i, b') → is_Ok (String g a) ∧ same_view b b') as Hok.
  { intros a r i b b' Hka Ht. destruct (traderOf_Ok _ _ _ _ _ Hka Ht) as (k & ? & ? & _). split; [by exists k|done]. }
  unfold transactionPreCalculated, transferTransactionPreCalculated, lockTransactionPreCalculated,
    unlockTransactionPreCalculated, pledgeTrasnactionPreCalculated, redeemTrasnactionPreCalculated in H'.
  repeat match type of H' with
  | (if decide ?P then _ else _) _ = _ => destruct (decide P)
  | st_err _ _ = _ => injection H' as _ <-; done
  | setTrader g _ _ _ = _ => by apply Hset in H'
  | (traderOf g bc _ _ ≫= _) _ = _ =>
      let i := fresh "i" in let b := fresh "b" in let E := fresh "E" in let S1 := fresh "S" in
      apply bind_Err_inv in H' as [H'|(i & b & E & H')];
        [apply traderOf_Err in H'; [eauto using same_view_trans|done]|];
        apply Hok in E as [? S1]; [|done]; cbn beta in H'
  | (st_lift _ ≫= _) _ = _ =>
      let E := fresh "E" in
      apply bind_Err_inv in H' as [H'|(? & ? & E & H')];
        [injection H' as _ <-; eauto using same_view_trans|injection E as E <-]; cbn beta zeta in H'
  | (setTrader g _ _ ≫= _) _ = _ =>
      apply bind_Err_inv in H' as [H'|([] & ? & _ & H')]; [by apply Hset in H'|]; cbn beta in H'
  end; try (injection H' as _ <-; eauto using same_view_trans).
Qed.

(** ** The loop *)

(** The buffer agrees with the accounts [s], except for senders whose transaction with the
    buffered nonce is among the taken ones [T]: a transfer to oneself leaves the buffer
    like that. *)
Definition agrees buf (s : accounts) (T : list (bytes * Z)) : Prop :=
  ∀ a k v n, known a → String g a = Ok k → view buf a k = Some (v, n) →
    is_u64 v ∧ is_u64 n ∧ (s a = (v, n) ∨ (k, n) ∈ T).

Lemma agrees_views buf s T : agrees buf s T → views_ok buf.
Proof. intros Hag a k v n Ha Hk Hv. by destruct (Hag a k v n Ha Hk Hv) as (? & ? & _). Qed.
Lemma agrees_same buf buf' s T : same_view buf buf' → agrees buf s T → agrees buf' s T.
Proof. intros Hs Hag a k v n Ha Hk. rewrite Hs by done. by apply Hag. Qed.

Lemma agrees_start : agrees ∅ chain_accounts [].
Proof.
  intros a k v n Ha Hk. unfold view. rewrite lookup_empty. unfold base, chain_accounts.
  destruct (ib_GetAvailableBalance a bc) as [v'|?|] eqn:Ev; [|done..].
  destruct (ib_GetAllFreezeBalance a bc); [|done..].
  destruct (ib_GetNonce a bc) as [n'|?|] eqn:En; [|done..]. intros [= <- <-].
  split; [by eapply ib_available_range|]. split; [by eapply ib_nonce_range|]. by left.
Qed.

Section Step.
Context (tx : Transaction) (buf buf' : gmap bytes traderInfo) (s : accounts) (T : list (bytes * Z)).
Hypotheses (Ha : known (Caller tx)) (Hra : known (Receiver tx)) (Hamt : amounts_ok tx).
Context (k : bytes) (Hk : String g (Caller tx) = Ok k) (v0 : Z).
Hypotheses (Hv0 : view buf (Caller tx) k = Some (v0, Nonce tx)) (Hag : agrees buf s T) (Hnew : (k, Nonce tx) ∉ T).

Lemma sender_account : s (Caller tx) = (v0, Nonce tx) ∧ Nonce tx +₆₄ 1 = Nonce tx + 1 ∧ is_u64 (Nonce tx + 1).
Proof.
  destruct (Hag _ _ _ _ Ha Hk Hv0) as (_ & Hn & [Hs|Hs]); [|done]. destruct Hamt as [_ Hlt]. split; [done|].
  unfold is_u64 in *. split; [apply add64_small; lia|lia].
Qed.

Lemma spends_replay : Type_ tx ≠ TransferTransaction → spends tx buf buf' →
  ∃ s', replay_one tx s = Some s' ∧ agrees buf' s' (T ++ [(k, Nonce tx)]).
Proof.
  intros Hty (k' & v & n & Hk' & Hv & Hc & Hu & Hview). assert (k' = k) as -> by congruence.
  rewrite Hv0 in Hv. injection Hv as <- <-. destruct sender_account as (Hs & Hw & Hwu).
  unfold replay_one. rewrite Hs, decide_True by done. rewrite decide_False by done. eexists. split; [done|].
  intros a k' v n Ka Hka. rewrite Hview by done. unfold set_account. case_decide as Heq.
  - intros [= <- <-]. rewrite Hw. split; [done|]. split; [done|]. by left.
  - intros Hvn. destruct (Hag a k' v n Ka Hka Hvn) as (? & ? & [?|?]); (split; [done|]; split; [done|]);
      [by left|right; set_solver].
Qed.

Lemma transfer_replay : Type_ tx = TransferTransaction → transferTransactionPreCalculated g bc tx buf = (Ok tt, buf') →
  ∃ s', replay_one tx s = Some s' ∧ agrees buf' s' (T ++ [(k, Nonce tx)]).
Proof.
  intros Hty H'. pose proof (agrees_views _ _ _ Hag) as Hvs.
  apply transfer_view in H' as (k' & v & n & kr & vr & nr & Hk' & Hv & Hc & Hkr & Hvr & Hu & Hview); [|done..].
  assert (k' = k) as -> by congruence. rewrite Hv0 in Hv. injection Hv as <- <-.
  destruct sender_account as (Hs & Hw & Hwu). destruct (charge_most tx) as [Hch Hrf]; [by rewrite Hty..|].
  destruct (Hvs _ _ _ _ Ha Hk Hv0) as [Hu0 _].
  assert (is_u64 (v0 - charge tx)) as Huc.
  { rewrite Hch in *. pose proof (gas_u64 tx) as Hg. destruct Hamt as [Ham _]. unfold is_u64 in *. lia. }
  unfold replay_one. rewrite Hs, decide_True by done. rewrite decide_True by done. rewrite Hrf, Z.add_0_r.
  destruct (set_account (Caller tx) (v0 - charge tx, Nonce tx + 1) s (Receiver tx)) as [br nr'] eqn:Hr.
  eexists. split; [done|]. intros a k' v n Ka Hka. rewrite Hview by done. unfold set_account at 1.
  destruct (decide (a = Receiver tx)) as [->|Har].
  - intros [= <- <-]. rewrite Hkr in Hka. injection Hka as <-. destruct (Hag _ _ _ _ Hra Hkr Hvr) as (_ & Hnr & Hor).
    split; [done|]. split; [done|]. unfold set_account in Hr. destruct (decide (Receiver tx = Caller tx)) as [Heq|Hne].
    + right. rewrite Heq, Hk in Hkr. injection Hkr as <-. rewrite Heq, Hv0 in Hvr. injection Hvr as _ <-. set_solver.
    + destruct Hor as [Hor|Hor]; [left|right; set_solver]. rewrite Hor in Hr. by injection Hr as <- <-.
  - unfold set_account. case_decide as Hac.
    + intros [= <- <-]. rewrite Hw. split; [done|]. split; [done|]. by left.
    + intros Hvn. destruct (Hag a k' v n Ka Hka Hvn) as (? & ? & [?|?]); (split; [done|]; split; [done|]);
        [by left|right; set_solver].
Qed.

Lemma pre_replay : transactionPreCalculated g bc tx buf = (Ok tt, buf') →
  ∃ s', replay_one tx s = Some s' ∧ agrees buf' s' (T ++ [(k, Nonce tx)]).
Proof.
  pose proof (agrees_views _ _ _ Hag) as Hvs. intros H'. unfold transactionPreCalculated in H'.
  case_decide as Ht; [by apply transfer_replay|]. apply spends_replay; [done|].
  case_decide; [by apply lock_view|]. case_decide as Hu; [by apply unlock_view|].
  case_decide as Hp; [apply pledge_view; try done; by destruct Hp as [->|[->| ->]]|].
  case_decide; [by apply redeem_view|done].
Qed.
End Step.

(** What the loop decides about a transaction. *)
Lemma judge_agrees st buf s T r buf' :
  let tx := st_tx st in
  known (Caller tx) → known (Receiver tx) → amounts_ok tx → agrees buf s T → tx_id g st ∉ T →
  judge g bc st buf = (Ok r, buf') →
  match r with
  | Take => ∃ s', replay_one tx s = Some s' ∧ agrees buf' s' (T ++ [tx_id g st])
  | _ => agrees buf' s T
  end.
Proof.
  intros tx Ha Hra Hamt Hag Hnew H'. unfold judge in H'. fold tx in H'.
  apply stM_bind_Ok in H' as (n & b1 & Hn & H'). unfold compareNonce in Hn.
  apply stM_bind_Ok in Hn as ([i e] & b2 & Hi & Hn). injection Hn as Hn <-.
  destruct (String g (Caller tx)) as [k|er|] eqn:Hk; [|unfold getTraderInfo in Hi; by rewrite Hk in Hi..].
  destruct (getTraderInfo_view _ _ _ _ _ _ _ Ha Hk Hi) as (Hs1 & Hok & Hno).
  apply (agrees_same _ _ _ _ Hs1) in Hag. clear Hi.
  assert (tx_id g st = (k, Nonce tx)) as Hid by (unfold tx_id, caller_key, nonce_of; fold tx; by rewrite Hk).
  destruct (decide (n < 0)).
  { apply stM_bind_Ok in H' as ([i' e'] & b3 & Hi' & H'). injection H' as <- <-.
    destruct (getTraderInfo_view _ _ _ _ _ _ _ Ha Hk Hi') as (Hs2 & _).
    destruct e'; by apply (agrees_same b2). }
  destruct (decide (n > 0)).
  { apply stM_bind_Ok in H' as ([i' e'] & b3 & Hi' & H'). injection H' as <- <-.
    destruct (getTraderInfo_view _ _ _ _ _ _ _ Ha Hk Hi') as (Hs2 & _). by apply (agrees_same b2). }
  destruct (transactionPreCalculated g bc tx b2) as [[[]|er|] b3] eqn:Hpre; [| |done].
  - injection H' as <- <-. rewrite Hid in *.
    assert (view b2 (Caller tx) k = Some (availableBalance i, Nonce tx)) as Hv.
    { rewrite Hs1 by done. destruct e as [e|].
      - exfalso. rewrite <- Hs1 in Hno by done. specialize (Hno eq_refl ltac:(done)).
        unfold transactionPreCalculated in Hpre.
        pose proof (agrees_views _ _ _ Hag) as Hvs.
        assert (∃ k' v n', String g (Caller tx) = Ok k' ∧ view b2 (Caller tx) k' = Some (v, n')) as (k' & v & n' & Hk' & Hv).
        { case_decide as Ht; [apply transfer_view in Hpre; [|done..]; naive_solver|].
          assert (spends tx b2 b3) as (k' & v & n' & ? & ? & _); [|by eexists _, _, _].
          case_decide; [by apply lock_view|]. case_decide; [by apply unlock_view|].
          case_decide as Hp; [apply pledge_view; try done; by destruct Hp as [->|[->| ->]]|].
          case_decide; [by apply redeem_view|done]. }
        congruence.
      - rewrite Hok by done. unfold core. do 2 f_equal. repeat case_decide; lia. }
    by apply (pre_replay tx b2 b3 s T Ha Hra Hamt k Hk _ Hv).
  - injection H' as <- <-. eapply agrees_same; [|exact Hag]. by eapply failing_view.
Qed.

Definition fine st : Prop := known (Caller (st_tx st)) ∧ known (Receiver (st_tx st)) ∧ amounts_ok (st_tx st).

Lemma pending_loop_replays l : NoDup (tx_id g <$> l) → Forall fine l → ∀ n taken bad buf s ts bad' buf',
  (n ≤ length l)%nat → (∀ i st, (i < n)%nat → l !! i = Some st → tx_id g st ∉ tx_id g <$> taken) →
  replay taken chain_accounts = Some s → agrees buf s (tx_id g <$> taken) → (length taken ≤ PendingLimit)%nat →
  pending_loop g bc n taken bad l buf = (Ok (ts, bad'), buf') →
  is_Some (replay ts chain_accounts) ∧ (length ts ≤ PendingLimit)%nat ∧
  ∃ more, ts = taken ++ more ∧ more `sublist_of` reverse (take n l).
Proof.
  intros Hnd Hfine. induction n as [|i IH]; intros taken bad buf s ts bad' buf' Hn Hnew Hrep Hag Hlen H';
    cbn [pending_loop] in H'.
  { injection H' as <- <- <-. split; [by eexists|]. split; [done|]. exists []. by rewrite app_nil_r. }
  destruct (decide (PendingLimit ≤ length taken)%nat).
  { injection H' as <- <- <-. split; [by eexists|]. split; [done|]. exists []. rewrite app_nil_r.
    split; [done|]. apply sublist_nil_l. }
  destruct (lookup_lt_is_Some_2 l i) as [st Hst]; [lia|]. rewrite Hst in H'.
  apply stM_bind_Ok in H' as (v & b1 & Hv & H').
  destruct (proj1 (Forall_lookup _ _) Hfine _ _ Hst) as (Ha & Hra & Hamt).
  pose proof (judge_agrees st buf s (tx_id g <$> taken) v b1 Ha Hra Hamt Hag (Hnew i st ltac:(lia) Hst) Hv) as Hj.
  assert (∀ j st', (j < i)%nat → l !! j = Some st' → tx_id g st' ∉ tx_id g <$> taken) as Hnew'
    by (intros; eapply Hnew; [|done]; lia).
  assert (reverse (take (S i) l) = st :: reverse (take i l)) as Hrev.
  { by rewrite (take_S_r _ _ _ Hst), reverse_snoc. }
  rewrite Hrev. destruct v.
  - destruct (IH _ _ _ _ _ _ _ ltac:(lia) Hnew' Hrep Hj Hlen H') as (K1 & K2 & more & K3 & K4).
    split; [done|]. split; [done|]. exists more. split; [done|]. by apply sublist_cons.
  - destruct (IH _ _ _ _ _ _ _ ltac:(lia) Hnew' Hrep Hj Hlen H') as (K1 & K2 & more & K3 & K4).
    split; [done|]. split; [done|]. exists more. split; [done|]. by apply sublist_cons.
  - destruct Hj as (s' & Hs' & Hag').
    edestruct (IH (taken ++ [st])) as (K1 & K2 & more & K3 & K4); [lia| | | | |exact H'|].
    + intros j st' Hj Hst'. rewrite fmap_app. simpl. rewrite not_elem_of_app. split; [by eapply Hnew'|].
      rewrite list_elem_of_singleton. intros Heq.
      assert (j = i); [|lia]. eapply (proj1 (NoDup_alt _) Hnd j i (tx_id g st));
        rewrite list_lookup_fmap; [by rewrite Hst', <- Heq|by rewrite Hst].
    + rewrite replay_app, Hrep. simpl. by rewrite Hs'.
    + by rewrite fmap_app.
    + rewrite length_app. simpl. lia.
    + split; [done|]. split; [done|]. exists (st :: more). rewrite K3, <- app_assoc. split; [done|].
      by apply sublist_skip.
Qed.

End Facts.

Section PoolFacts.
Context {BC : Type} `{!IBlockchain BC, !IBlockchainLaws BC, !CborHeader, !Crypto, !EthCommon, !EvmData}.
Variable g : globals.
Implicit Types (p : Pool BC).

Lemma Pending_replays p p' (ts : list SignedTransaction) :
  reachable g (pq p) → Forall fine (stList (pq p)) → Pending g p = (Ok ts, p') →
  is_Some (replay ts (chain_accounts (pbc p))) ∧ (length ts ≤ PendingLimit)%nat ∧
  ts `sublist_of` reverse (stList (pq p)).
Proof.
  intros Hr%reachable_good Hfine H'. unfold Pending in H'.
  destruct (pending_loop g (pbc p) (length (stList (pq p))) [] [] (stList (pq p)) ∅) as [[[taken bad]|e|] buf] eqn:E;
    cbn [fst] in H'; [|done..].
  injection H' as <- _. rewrite take_app_length.
  destruct (pending_loop_replays g (pbc p) (stList (pq p)) (good_NoDup _ _ Hr) Hfine _ [] [] ∅ (chain_accounts (pbc p))
    _ _ _ (le_n _) (λ _ _ _ _, not_elem_of_nil _) eq_refl (agrees_start g (pbc p)) ltac:(simpl; lia) E) as (K1 & K2 & more & -> & K4).
  split; [done|]. split; [done|]. simpl. by rewrite take_ge in K4 by lia.
Qed.

(** C7: what [Pending] offers can be carried out: the at most 100 transactions it returns,
    which come from the end of the queue in their order, run one after the other on the
    chain's nonces and available balances: each has exactly the next nonce of its sender,
    who can then pay the amount and the gas, counting what earlier transactions of the
    list cost and brought in. *)
Theorem Pending_executable p p' (ts : list SignedTransaction) :
  reachable g (pq p) → Forall fine (stList (pq p)) → Pending g p = (Ok ts, p') →
  is_Some (replay ts (chain_accounts (pbc p))) ∧ (length ts ≤ PendingLimit)%nat ∧
  ts `sublist_of` reverse (stList (pq p)).
Proof. apply Pending_replays. Qed.

(** ** Leaving the pool *)

Implicit Types (q : orderlyQueue).

Lemma idx_lookup q k n r : good g q → find_nonce n (default [] (rstBuffer q !! k)) = Some r →
  ∃ x, stList q !! rst_idx r = Some x ∧ tx_id g x = (k, n).
Proof.
  intros (_ & [_ K2] & _) Hr. destruct (K2 k n r Hr) as (x & Hx & <- & <-). by exists x.
Qed.

Lemma filter_one_ok st q q' : good g q → filter_one g st q = Ok q' →
  rtc (queue_step g) q q' ∧ contents g q' = delete (tx_id g st) (contents g q).
Proof.
  intros Hg H'. unfold filter_one in H'. apply bind_Ok in H' as (k & Hk & H'). injection H' as <-.
  assert (tx_id g st = (k, Nonce (st_tx st))) as -> by (unfold tx_id, caller_key; by rewrite Hk).
  destruct (find_nonce (Nonce (st_tx st)) (default [] (rstBuffer q !! k))) as [r|] eqn:Hr.
  - destruct (idx_lookup _ _ _ _ Hg Hr) as (x & Hx & <-). split; [apply rtc_once, step_remove|].
    by eapply remove_refines.
  - split; [done|]. rewrite delete_id; [done|]. rewrite <- lookup_contents by done. unfold lookup_tx, entry.
    by rewrite Hr.
Qed.

Lemma steps_good q q' : good g q → rtc (queue_step g) q q' → good g q'.
Proof. intros Hg Hr. induction Hr; eauto using step_good. Qed.

Lemma filter_all_ok l : ∀ q q', good g q → filter_all g l q = Ok q' →
  rtc (queue_step g) q q' ∧ contents g q' ⊆ contents g q ∧ ∀ st, st ∈ l → contents g q' !! tx_id g st = None.
Proof.
  induction l as [|st l IH]; intros q q' Hg H'; cbn [filter_all] in H'.
  { injection H' as <-. split_and!; [done..|]. by intros st ?%not_elem_of_nil. }
  apply bind_Ok in H' as (q1 & H1' & H'). destruct (filter_one_ok _ _ _ Hg H1') as [Hs1 Hc1].
  pose proof (steps_good _ _ Hg Hs1) as Hg1. destruct (IH _ _ Hg1 H') as (Hs2 & Hc2 & Hn). split_and!.
  - by etrans.
  - etrans; [exact Hc2|]. rewrite Hc1. apply delete_subseteq.
  - intros st' [->|Hin]%elem_of_cons; [|by apply Hn]. eapply lookup_weaken_None; [|exact Hc2].
    rewrite Hc1. apply lookup_delete_eq.
Qed.

Lemma remove_sub q i : good g q → contents g (remove g i q) ⊆ contents g q.
Proof.
  intros Hg. destruct (stList q !! i) as [x|] eqn:Hx.
  - destruct (remove_refines g i x q Hg Hx) as (_ & -> & _). apply delete_subseteq.
  - unfold remove. by rewrite Hx.
Qed.

Lemma expire_keys_ok now order : ∀ q q', good g q → expire_keys g now order q = Ok q' →
  rtc (queue_step g) q q' ∧ contents g q' ⊆ contents g q.
Proof.
  induction order as [|k order IH]; intros q q' Hg H'; cbn [expire_keys] in H'; [by injection H' as <-|].
  apply bind_Ok in H' as (q1 & H1' & H').
  enough (rtc (queue_step g) q q1 ∧ contents g q1 ⊆ contents g q) as [Hs1 Hc1].
  { destruct (IH _ _ (steps_good _ _ Hg Hs1) H') as [Hs2 Hc2]. split; [by etrans|]. by etrans. }
  clear IH H'. unfold expire_key in H1'. destruct (timeBuffer q !! k) as [v|]; [|by injection H1' as <-].
  case_decide; [by injection H1' as <-|]. cbn zeta in H1'.
  assert (rtc (queue_step g) q (forget_time k q)) as Hf by apply rtc_once, step_forget.
  destruct (parseKey k) as [[caller nonce]|e|]; [|by injection H1' as <-|done].
  destruct (NewAddrFromString g caller) as [a|e|]; [|by injection H1' as <-|done].
  apply bind_Ok in H1' as (i & _ & H1'). injection H1' as <-. destruct i as [i|]; [|done].
  split; [by eapply rtc_r; [|apply step_remove]|]. by apply (remove_sub (forget_time k q)).
Qed.

Lemma trim_ok fuel : ∀ q, good g q → (length (stList q) ≤ fuel)%nat →
  rtc (queue_step g) q (trim g fuel q) ∧ contents g (trim g fuel q) ⊆ contents g q ∧
  (length (stList (trim g fuel q)) ≤ poolCap / 3 * 2)%nat.
Proof.
  induction fuel as [|fuel IH]; intros q Hg Hf; cbn [trim]; [split_and!; [done..|lia]|].
  case_decide as Hl; [|split_and!; [done..|lia]].
  destruct (lookup_lt_is_Some_2 (stList q) 0) as [x Hx]; [lia|].
  destruct (remove_refines g 0 x q Hg Hx) as (Hg1 & Hc1 & Hlen).
  destruct (IH (remove g 0 q) Hg1 ltac:(lia)) as (K1 & K2 & K3).
  split_and!; [by eapply rtc_l; [apply step_remove|]| |done]. etrans; [exact K2|]. by apply remove_sub.
Qed.

(** After [FilterTransaction] on a block's transactions none of them, and no other
    transaction with the sender and nonce of one of them, is in the pool; nothing new is,
    at most 6666 transactions are left, and the queue is still one that its own operations
    produce. *)
Theorem FilterTransaction_drops (now : Z) (order : list bytes) (l : list SignedTransaction) p p' :
  reachable g (pq p) → FilterTransaction g now order l p = Ok p' →
  reachable g (pq p') ∧ contents g (pq p') ⊆ contents g (pq p) ∧
  (∀ st, st ∈ l → contents g (pq p') !! tx_id g st = None) ∧ (length (stList (pq p')) ≤ 6666)%nat.
Proof.
  intros Hr H'. pose proof (reachable_good _ _ Hr) as Hg. unfold FilterTransaction in H'.
  apply bind_Ok in H' as (q1 & H1' & H'). apply bind_Ok in H' as (q2 & H2' & H'). injection H' as <-.
  destruct (filter_all_ok _ _ _ Hg H1') as (Hs1 & Hc1 & Hn). pose proof (steps_good _ _ Hg Hs1) as Hg1.
  apply bind_Ok in H2' as (q3 & H3' & H2'). injection H2' as <-.
  destruct (expire_keys_ok _ _ _ _ Hg1 H3') as (Hs2 & Hc2). pose proof (steps_good _ _ Hg1 Hs2) as Hg2.
  destruct (trim_ok _ _ Hg2 (le_n _)) as (Hs3 & Hc3 & Hlen). cbn [pq with_queue].
  assert (contents g (trim g (length (stList q3)) q3) ⊆ contents g q1) as Hsub by by etrans.
  split_and!; [| | |exact Hlen].
  - unfold reachable in *. etrans; [exact Hr|]. etrans; [exact Hs1|]. by etrans.
  - by etrans.
  - intros st Hst. eapply lookup_weaken_None; [|exact Hsub]. by apply Hn.
Qed.

End PoolFacts.

(** A chain given by functions, for examples. *)
Module PoolSample.
Import CryptoInstance QueueSample.

Record sample := Sample {
  s_nonce : Address → Z; s_available : Address → Z; s_frozen : Address → Z; s_single : Address → Address → Z;
}.

#[global] Instance sample_chain : IBlockchain sample := {
  ib_GetNonce a bc := Ok (u64 (s_nonce bc a)); ib_GetAvailableBalance a bc := Ok (u64 (s_available bc a));
  ib_GetAllFreezeBalance a bc := Ok (s_frozen bc a); ib_GetSingleFreezeBalance a b bc := Ok (s_single bc a b);
}.
#[global] Program Instance sample_laws : IBlockchainLaws sample.
Next Obligation. intros a bc n [= <-]. apply u64_range. Qed.
Next Obligation. intros a bc n [= <-]. apply u64_range. Qed.

Definition pool (bc : sample) (l : list SignedTransaction) : Pool sample :=
  with_queue (feed l) (NewPool bc).

Lemma pool_reachable bc l : reachable g (pq (pool bc l)).
Proof. exact (feed_reachable l). Qed.

(** Everyone is at nonce 1 and has 200. *)
Definition rich : sample := Sample (λ _, 1) (λ _, 200) (λ _, 0) (λ _ _, 0).

(** What is left of a queue, and what was taken from it: sender, nonce, gas. *)
Definition brief (st : SignedTransaction) : Address * Z * Z := (Caller (st_tx st), nonce_of st, gas_cap st).

(** The price of the first transaction of [a] was raised, which leaves the second of [a]
    before the transaction of [e].  When [a] cannot pay the raised price and the nonce of
    [e] is used up, the indexes 2 and 1 are bad.  But the removal at 2 moves the second
    transaction of [a] up to 1, so that it is removed and the bad one of [e] stays. *)
Definition poor : sample := Sample (λ x, if decide (x = e) then 2 else 1) (λ _, 0) (λ _, 0) (λ _ _, 0).
Theorem Pending_removes_wrong :
  brief <$> stList (pq (pool poor l4)) = [(a, 2, 100); (e, 1, 50); (a, 1, 200)] ∧
  brief <$> stList (pq (Pending g (pool poor l4)).2) = [(e, 1, 50)].
Proof. vm_compute. split; reflexivity. Qed.

(** A transfer to an address of no known protocol is let in, and the next call of
    [Pending] panics. *)
Definition stray : SignedTransaction :=
  STx (Tx 1 TransferTransaction a (Addr [Byte.x07]) 5 1 1 0 1 []) (Sig TypeSecp256k1 []).
Theorem unknown_receiver_panics :
  (add g 0 stray (NewPool rich)).1 = Ok tt ∧ (Pending g (pool rich [stray])).1 = Panic.
Proof. vm_compute. split; reflexivity. Qed.

(** What is frozen for the first receiver is used for the others: the second unlocking is
    offered although nothing is frozen for its receiver. *)
Definition unlock (nonce : Z) (to : Address) : SignedTransaction :=
  STx (Tx 1 UnlockTransaction a to 5 nonce 1 0 1 []) (Sig TypeSecp256k1 []).
Definition one_locked : sample :=
  Sample (λ _, 1) (λ _, 200) (λ _, 10) (λ _ to, if decide (to = e) then 10 else 0).
Definition offered (r : res (list SignedTransaction)) : nat := match r with Ok l => length l | _ => 0 end.
Theorem single_frozen_shared :
  offered (Pending g (pool one_locked [unlock 1 e; unlock 2 a])).1 = 2%nat.
Proof. vm_compute. reflexivity. Qed.

Definition finished {A} (r : res A) : bool := match r with Ok _ => true | _ => false end.

(** A block with the first transactions of both senders. *)
Definition block : list SignedTransaction := [mk a 1 5 0; mk e 1 50 0].

End PoolSample.

(** Four transactions of two senders. *)
Lemma Pending_executable_witness : ∃ ts p',
  Pending QueueSample.g (PoolSample.pool PoolSample.rich QueueSample.l3) = (Ok ts, p') ∧ length ts = 4%nat ∧
  is_Some (replay ts (chain_accounts PoolSample.rich)).
Proof.
  destruct (Pending QueueSample.g (PoolSample.pool PoolSample.rich QueueSample.l3)) as [r p'] eqn:Hrun.
  assert (Hr : PoolSample.offered r = 4%nat) by (rewrite <- (f_equal fst Hrun : _ = r); vm_compute; reflexivity).
  destruct r as [ts|err|]; [|discriminate Hr..]. exists ts, p'. split; [reflexivity|]. split; [exact Hr|].
  refine (proj1 (Pending_executable QueueSample.g _ _ _ (PoolSample.pool_reachable _ _) _ Hrun)).
  assert (Hfine : bool_decide (QueueSample.l3 ≡ₚ stList (QueueSample.feed QueueSample.l3))) by (vm_compute; exact I).
  apply bool_decide_unpack in Hfine. apply (proj1 (Forall_Permutation fine _ (λ _, iff_refl _) _ _ Hfine)).
  repeat (apply Forall_cons; split); [..|apply Forall_nil, I];
    (split; [left; vm_compute; reflexivity|]; split; [left; vm_compute; reflexivity|];
     split; [split|]; vm_compute; reflexivity || discriminate).
Defined.

Lemma FilterTransaction_drops_witness : ∃ p',
  FilterTransaction QueueSample.g 0 [] PoolSample.block (PoolSample.pool PoolSample.rich QueueSample.l3) = Ok p' ∧
  contents QueueSample.g (pq p') !! tx_id QueueSample.g (QueueSample.mk QueueSample.a 1 5 0) = None.
Proof.
  assert (Hok : PoolSample.finished (FilterTransaction QueueSample.g 0 [] PoolSample.block
    (PoolSample.pool PoolSample.rich QueueSample.l3)) = true) by (vm_compute; reflexivity).
  destruct (FilterTransaction QueueSample.g 0 [] PoolSample.block (PoolSample.pool PoolSample.rich QueueSample.l3))
    as [p'|err|] eqn:Hrun; [|discriminate Hok..].
  exists p'. split; [reflexivity|].
  refine (proj1 (proj2 (proj2 (FilterTransaction_drops QueueSample.g 0 [] PoolSample.block _ p'
    (PoolSample.pool_reachable _ _) Hrun))) _ _).
  apply list_elem_of_here.
Defined.
