(* ===== verification/PoolChain.v ===== *)
(** The pool over the chain of [Chain.v]: the chain implements [txpool.IBlockchain], and
    the transfers the pool offers can be applied. *)

From S2P Require Import Prelude Misc Badger BgStore Base58 Cbor Address Transaction Block.
From S2P Require Import Ledger Difficulty Economics World Apply Chain Frames ChainFacts Supply.
From S2P Require Import Strconv Queue QueueFacts Pool PoolFacts.

Section Instance_.
Context {D SD : Type} `{!StateDB SD, !StateDBLaws SD, !EthCommon}.
Variable g : globals.

(** The public getters of the chain ([blockchain.go]) lock the mutex and call those of the
    state. *)
#[export] Instance chain_pool : IBlockchain (chain D SD) := {
  ib_GetNonce a c := (getNonce g a (sdb c)).1;
  ib_GetAvailableBalance a c := (getAvailableBalance g a (sdb c)).1;
  ib_GetAllFreezeBalance a c := (getAllFreezeBalance g a (sdb c)).1;
  ib_GetSingleFreezeBalance a to c := (getSingleFreezeBalance g a to (sdb c)).1;
}.

#[export] Program Instance chain_pool_laws : IBlockchainLaws (chain D SD).
Next Obligation.
  intros a c n. simpl. unfold getNonce, common, mbind, stM_bind, st_lift.
  destruct (NewCommonAddr g a) as [ca|e|]; [|done..]. simpl. case_decide; intros [= <-]; [done|].
  apply nonce_range.
Qed.
Next Obligation.
  intros a c n. simpl. unfold getAvailableBalance, getBalance, getAllFreezeBalance, common, mbind, stM_bind, st_lift.
  destruct (NewCommonAddr g a) as [ca|e|]; [|done..]. simpl. case_decide; [done|]. case_decide; [done|].
  intros [= <-]. apply sub64_range.
Qed.
End Instance_.

(** ** What is offered applies *)

Lemma elem_of_sublist {A} (x : A) l k : l `sublist_of` k → x ∈ l → x ∈ k.
Proof. induction 1; set_solver. Qed.

Section Applies.
Context {D SD T : Type} `{!Badger T, !BadgerDB D T, !StateDB SD, !StateDBLaws SD, !StateStore D SD, !EvmRuntime SD}.
Context `{!BadgerLaws T, !CborHeader, !Crypto, !EthCommon, !EvmData}.
Variable g : globals.
Context (L : list bytes) (HL : NoDup L).
(** No account of [L] is the one that keeps what another has frozen. *)
Context (Hfrozen : ∀ c, c ∈ L → frozen_acct c ∉ L).
Implicit Types (w : world D SD T) (σ : SD) (c : bytes) (a : Address) (st : SignedTransaction).

#[local] Instance this_chain : IBlockchain (chain D SD) := chain_pool g.
#[local] Instance this_chain_laws : IBlockchainLaws (chain D SD) := chain_pool_laws g.

Lemma total_pair c c' σ : balances_ok σ → c ∈ L → c' ∈ L → c ≠ c' →
  sdb_GetBalance c σ + sdb_GetBalance c' σ ≤ total L σ.
Proof.
  intros Hok Ha Hb Hne. pose proof (total_set L σ c 0 HL Ha) as Ht.
  assert (balances_ok (sdb_SetBalance c 0 σ)) as Hok' by by apply balances_ok_set.
  pose proof (balance_le_total L _ c' Hok' Hb) as Hle. rewrite balance_SetBalance, decide_False in Hle by done. lia.
Qed.

Lemma setTxbyaddr_run k h i j (t : T) : ∃ t', setTxbyaddrKV k h i j t = (Ok tt, t').
Proof.
  assert (∀ k v (t : T), ∃ t', ignore_err (set k v) tt t = (Ok tt, t')) as Hset.
  { intros k' v t1. unfold ignore_err, st_catch, set. destruct (tx_Set k' v t1) as [[[]|e|] t2] eqn:E; try by eexists.
    by destruct (Set_inv _ _ _ _ _ E) as [(? & _)|(_ & ? & _)]. }
  unfold setTxbyaddrKV. destruct (Hset (eMapKey k h) [] t) as [t1 E1].
  destruct (Hset h (TxIndex_Marshal (MkTxIndex i j)) t1) as [t2 E2]. exists t2.
  erewrite st_bind_eq by exact E1. exact E2.
Qed.

Lemma on_tx_run (m : stM T unit) w t' : m (w_tx w) = (Ok tt, t') →
  on_tx (D := D) (S := SD) m w = (Ok tt, World (w_db w) (w_sdb w) t' (w_evm w)).
Proof. intros Hm. unfold on_tx. by erewrite zoom_run by exact Hm. Qed.
Lemma on_sdb_run {A} (m : stM SD A) w r σ : m (w_sdb w) = (r, σ) →
  on_sdb (D := D) (T := T) m w = (r, World (w_db w) σ (w_tx w) (w_evm w)).
Proof. intros Hm. unfold on_sdb. by erewrite zoom_run by exact Hm. Qed.
Lemma logged_run {A} l (m : stM (world D SD T) A) w (x : A) w' : m w = (Ok x, w') → logged g l m w = (Ok x, w').
Proof. unfold logged, st_catch. by intros ->. Qed.

(** The nonce a transaction of the account must have. *)
Definition next c σ : Z := if decide (sdb_GetNonce c σ = 0) then 1 else sdb_GetNonce c σ.

Lemma setNonce_next a c n σ : NewCommonAddr g a = Ok c → n = next c σ → n < MAXUINT64 →
  setNonce g a (n +₆₄ 1) σ = (Ok tt, sdb_SetNonce c (n + 1) σ).
Proof.
  intros Hc -> Hlt. pose proof (nonce_range c σ) as Hr. unfold setNonce, next in *.
  erewrite st_bind_eq by by apply common_run. unfold is_u64 in *.
  erewrite st_bind_eq by done. cbn zeta.
  rewrite (decide_False (P := _ ≠ _)) by (intros Hne; by apply Hne).
  rewrite add64_small by (case_decide; lia). done.
Qed.

(** Paying oneself, when the amount and the gas are there. *)
Lemma setAccount_self_run (binding : bytes → res Address) tx d c σ :
  let t := ft_tx tx in
  balances_ok σ → is_u64 (Amount t) → is_u64 (GasUsed tx) → is_move t → NewCommonAddr g (From t) = Ok c →
  From t = To t → Amount t + GasUsed tx + sdb_GetBalance (frozen_acct c) σ ≤ sdb_GetBalance c σ →
  sdb_GetBalance c σ + GasUsed tx ≤ MAXUINT64 →
  setAccount g binding tx d σ = (Ok tt, sdb_SetBalance c (sdb_GetBalance c σ - GasUsed tx) σ).
Proof.
  intros t Hok Ha Hg Hty Hc Heq Hcov Hmax. pose proof (Hok c) as Hb. pose proof (Hok (frozen_acct c)) as Hf.
  unfold is_u64 in *.
  assert (Type_ t ≠ WithdrawToEthTransaction) as Hw by (unfold is_move in Hty; set_solver).
  unfold setAccount. fold t. cbn zeta. rewrite decide_False by done.
  rewrite bool_decide_eq_true_2 by by rewrite Heq. cbn [orb].
  assert (∀ (k : stM SD unit), ((if decide (Type_ t ≠ PledgeTrasnaction) then
       availableBalance ← getAvailableBalance g (From t);
       if decide (availableBalance < Amount t +₆₄ GasUsed tx)
       then st_err (ErrMsg "availableBalance insufficient") else mret tt
     else mret tt) ;; k) σ = k σ) as Hpre.
  { intros k. case_decide; [|done].
    pose proof (getAvailableBalance_run g _ c σ Hok Hc) as Hav. rewrite decide_True in Hav by lia.
    unfold mbind at 1, stM_bind at 1. erewrite st_bind_eq by exact Hav.
    rewrite (add64_small (Amount t)) by lia. by rewrite decide_False by lia. }
  rewrite Hpre. erewrite st_bind_eq by by apply getBalance_run.
  rewrite decide_False by lia. rewrite (sub64_small MAXUINT64) by lia. rewrite decide_False by lia.
  rewrite sub64_small by lia. by apply setBalance_run.
Qed.

(** What a transfer that pays [gas] to [cm] does to the balances. *)
Definition moved (amount gas : Z) (cf ct cm : bytes) σ σ' : Prop :=
  ∀ c, sdb_GetBalance c σ' = sdb_GetBalance c σ + (if decide (c = cm) then gas else 0)
         + (if decide (c = ct) then amount else 0) - (if decide (c = cf) then amount + gas else 0).

Lemma setAccount_moved (binding : bytes → res Address) tx d cf ct σ :
  let t := ft_tx tx in
  balances_ok σ → is_u64 (Amount t) → is_u64 (GasUsed tx) → is_move t →
  NewCommonAddr g (From t) = Ok cf → NewCommonAddr g (To t) = Ok ct → (cf = ct → From t = To t) →
  cf ∈ L → ct ∈ L → total L σ + GasUsed tx ≤ MAXUINT64 →
  Amount t + GasUsed tx + sdb_GetBalance (frozen_acct cf) σ ≤ sdb_GetBalance cf σ →
  ∃ σ', setAccount g binding tx d σ = (Ok tt, σ') ∧
    (∀ c, sdb_GetBalance c σ' = sdb_GetBalance c σ + (if decide (c = ct) then Amount t else 0)
                                 - (if decide (c = cf) then Amount t + GasUsed tx else 0)) ∧
    (∀ c, sdb_GetNonce c σ' = sdb_GetNonce c σ).
Proof.
  intros t Hok Ha Hg Hty Hcf Hct Hsep Hf Ht Hmax Hcov.
  pose proof (balance_le_total L σ cf Hok Hf) as Kf. pose proof (balance_le_total L σ ct Hok Ht) as Kt.
  pose proof (Hok (frozen_acct cf)) as Hfz. unfold is_u64 in *. destruct (decide (cf = ct)) as [<-|Hne].
  - eexists. split; [by apply (setAccount_self_run binding tx d cf); auto; lia|].
    split; intros c; [|apply nonce_SetBalance]. rewrite balance_SetBalance. case_decide; subst; lia.
  - pose proof (total_pair cf ct σ Hok Hf Ht Hne) as Hp.
    destruct (setAccount_move g binding tx d cf ct σ Hok Ha Hg Hty Hcf Hct Hne) as [Hyes _]; [lia|].
    eexists. split; [apply Hyes; fold t; lia|].
    split; intros c; [|by rewrite !nonce_SetBalance]. rewrite !balance_SetBalance. fold t.
    repeat case_decide; subst; try done; lia.
Qed.

(** One transfer of the block. *)
Lemma transfer_runs b h i tx cf ct cm w :
  let t := ft_tx tx in
  Type_ t = TransferTransaction → balances_ok (w_sdb w) → is_u64 (Amount t) → gas_of tx ≤ MAXGASLIMIT →
  NewCommonAddr g (From t) = Ok cf → NewCommonAddr g (To t) = Ok ct → NewCommonAddr g (Miner b) = Ok cm →
  (cf = ct → From t = To t) → cf ∈ L → ct ∈ L → cm ∈ L →
  total L (w_sdb w) + 2 * MAXGASLIMIT ≤ MAXUINT64 →
  Nonce t = next cf (w_sdb w) → Nonce t < MAXUINT64 →
  Amount t + gas_of tx + sdb_GetBalance (frozen_acct cf) (w_sdb w) ≤ sdb_GetBalance cf (w_sdb w) →
  ∃ tx' w', apply_tx g b h i tx w = (Ok tx', w') ∧ GasUsed tx' = gas_of tx ∧
    moved (Amount t) (gas_of tx) cf ct cm (w_sdb w) (w_sdb w') ∧
    ∀ c, sdb_GetNonce c (w_sdb w') = if decide (c = cf) then Nonce t + 1 else sdb_GetNonce c (w_sdb w).
Proof.
  intros t Hty Hok Ha Hgas Hcf Hct Hcm Hsep Hf Ht Hm Hmax Hn Hlt Hcov. subst t.
  destruct w as [d σ x e]. cbn [w_sdb] in *.
  assert (is_u64 (gas_of tx)) as Hg by apply mul64_range.
  pose proof (balance_le_total L σ cm Hok Hm) as Km. pose proof (Hok (frozen_acct cf)) as Kfz.
  assert (Hne : frozen_acct cf ≠ cm) by (intros Heq; apply (Hfrozen cf Hf); by rewrite Heq).
  assert (MAXGASLIMIT <= MAXUINT64) as Hgm by done. unfold is_u64 in *.
  pose (σ1 := sdb_SetNonce cf (Nonce (ft_tx tx) + 1) σ).
  assert (balances_ok σ1) as Hok1 by by apply balances_ok_SetNonce.
  assert (∀ c, sdb_GetBalance c σ1 = sdb_GetBalance c σ) as Hb1 by (intros; apply balance_SetNonce).
  pose (σ2 := sdb_SetBalance cm (sdb_GetBalance cm σ1 + gas_of tx) σ1).
  assert (balances_ok σ2) as Hok2 by (apply balances_ok_set; [done|]; rewrite Hb1; unfold is_u64; lia).
  assert (total L σ2 = total L σ + gas_of tx) as Ht2.
  { unfold σ2. rewrite total_set by done. unfold σ1 at 1. rewrite total_SetNonce. lia. }
  assert (∀ c, sdb_GetBalance c σ2 = sdb_GetBalance c σ + (if decide (c = cm) then gas_of tx else 0)) as Hb2.
  { intros c. unfold σ2. rewrite balance_SetBalance, !Hb1. case_decide; subst; lia. }
  destruct (setAccount_moved (db_binding (T := T) d) (set_gas (gas_of tx) tx) None cf ct σ2) as (σ3 & Hset & Hb3 & Hn3);
    try done; change (ft_tx (set_gas (gas_of tx) tx)) with (ft_tx tx) in *; cbn [GasUsed set_gas] in *; try lia.
  { unfold is_move. change (ft_tx (set_gas (gas_of tx) tx)) with (ft_tx tx). rewrite Hty. by apply (bool_decide_unpack _). }
  { rewrite !Hb2. rewrite (decide_False (P := frozen_acct cf = cm)) by done. case_decide; lia. }
  destruct (setTxbyaddr_run (Bytes (From (ft_tx tx))) (Hash (ft_tx tx)) h i x) as [x1 E1].
  destruct (setTxbyaddr_run (Bytes (To (ft_tx tx))) (Hash (ft_tx tx)) h i x1) as [x2 E2].
  exists (set_gas (gas_of tx) tx), (World d σ3 x2 e). split_and!; [|done| |].
  - unfold apply_tx.
    replace (IsCoinBaseTransaction (ft_tx tx)) with false by (unfold IsCoinBaseTransaction; by rewrite Hty).
    replace (IsLockTransaction (ft_tx tx)) with false by (unfold IsLockTransaction; by rewrite Hty).
    replace (IsUnlockTransaction (ft_tx tx)) with false by (unfold IsUnlockTransaction; by rewrite Hty).
    replace (IsEvmContractTransaction (ft_tx tx)) with false by (unfold IsEvmContractTransaction; by rewrite Hty).
    cbn [orb]. cbn zeta.
    erewrite st_bind_eq by (apply on_tx_run; exact E1).
    erewrite st_bind_eq by (apply on_tx_run; exact E2).
    erewrite st_bind_eq by (apply logged_run, on_sdb_run; by apply (setNonce_next _ cf)).
    erewrite st_bind_eq.
    2:{ apply logged_run, on_sdb_run. rewrite (setMinerFee_run g _ cm) by done. cbn [w_sdb GasUsed set_gas].
        fold σ1. rewrite decide_True by (rewrite Hb1; unfold gas_of in *; lia). done. }
    erewrite st_bind_eq by (apply logged_run; unfold set_account; apply on_sdb_run; exact Hset). done.
  - intros c. cbn [w_sdb]. rewrite Hb3, Hb2. done.
  - intros c. cbn [w_sdb]. rewrite Hn3. unfold σ2. rewrite nonce_SetBalance. unfold σ1.
    apply nonce_SetNonce. pose proof (nonce_range cf σ) as Hr. unfold next, is_u64 in *. case_decide; lia.
Qed.

(** The addresses of the accounts; no two have the same account. *)
Context (As : list Address) (Hsep : ∀ a a', a ∈ As → a' ∈ As → separate g a a').
Context (Has : ∀ a, a ∈ As → known a ∧ listed g L a).

(** The ledger has at least what the replay counts with: what miners are paid comes on top. *)
Definition reflects (s : accounts) σ : Prop := ∀ a c, a ∈ As → NewCommonAddr g a = Ok c →
  (s a).1 + sdb_GetBalance (frozen_acct c) σ ≤ sdb_GetBalance c σ ∧ (s a).2 = next c σ.

(** A transfer between the accounts whose gas a block can have. *)
Definition transfer tx : Prop :=
  Type_ tx = TransferTransaction ∧ amounts_ok tx ∧ From tx ∈ As ∧ To tx ∈ As ∧ GasCap tx ≤ MAXGASLIMIT.

Lemma replay_one_transfer tx s s' : transfer tx → replay_one tx s = Some s' →
  (s (From tx)).2 = Nonce tx ∧ Amount tx + GasCap tx ≤ (s (From tx)).1 ∧
  ∀ a, s' a = ((s a).1 - (if decide (a = From tx) then Amount tx + GasCap tx else 0)
                 + (if decide (a = To tx) then Amount tx else 0),
               if decide (a = From tx) then Nonce tx + 1 else (s a).2).
Proof.
  intros (Hty & _) Hr. destruct (charge_most tx) as [Hc Hrf]; [by rewrite Hty..|].
  unfold replay_one, Caller, Receiver in Hr. destruct (s (From tx)) as [bal n] eqn:Hs.
  case_decide as Hd; [|done]. destruct Hd as [-> Hle]. rewrite Hc in Hle. rewrite decide_True in Hr by done.
  split; [done|]. split; [done|]. intros a.
  destruct (set_account (From tx) _ s (To tx)) as [rb rn] eqn:Hto in Hr. injection Hr as <-.
  unfold set_account in *. rewrite ?Hc, ?Hrf in Hto. destruct (s a) as [x y] eqn:Hsa. cbn [fst snd].
  destruct (decide (a = To tx)) as [->|?].
  - destruct (decide (To tx = From tx)) as [Heq|?].
    + rewrite Heq, Hs in Hsa. injection Hsa as Ex Ey. injection Hto as <- <-. f_equal; lia.
    + rewrite Hsa in Hto. injection Hto as <- <-. f_equal; lia.
  - destruct (decide (a = From tx)) as [->|?]; [|f_equal; lia].
    rewrite Hs in Hsa. injection Hsa as Ex Ey. f_equal; lia.
Qed.

Lemma common_inj a a' c c' : a ∈ As → a' ∈ As → NewCommonAddr g a = Ok c → NewCommonAddr g a' = Ok c' →
  c = c' ↔ a = a'.
Proof.
  intros Ha Ha' Hc Hc'. split; [intros ->; by eapply (Hsep a a')|]. intros ->. congruence.
Qed.

Lemma reflects_step tx s s' cf ct cm σ σ' : transfer tx → replay_one tx s = Some s' → cm ∈ L →
  NewCommonAddr g (From tx) = Ok cf → NewCommonAddr g (To tx) = Ok ct →
  moved (Amount tx) (GasCap tx) cf ct cm σ σ' →
  (∀ c, sdb_GetNonce c σ' = if decide (c = cf) then Nonce tx + 1 else sdb_GetNonce c σ) →
  reflects s σ → reflects s' σ'.
Proof.
  intros Ht Hr Hm Hcf Hct Hmv Hn Hrf a c Ha Hc. pose proof Ht as (_ & _ & Hf & Hto & _).
  destruct (replay_one_transfer _ _ _ Ht Hr) as (Hnonce & _ & Hs'). rewrite Hs'. cbn [fst snd].
  destruct (Hrf a c Ha Hc) as [Kb Kn]. destruct (Has a Ha) as (_ & c' & Hc' & HcL).
  rewrite Hc in Hc'. injection Hc' as <-.
  destruct (Has _ Hf) as (_ & c1 & Hc1 & HfL). rewrite Hcf in Hc1. injection Hc1 as <-.
  destruct (Has _ Hto) as (_ & c2 & Hc2 & HtL). rewrite Hct in Hc2. injection Hc2 as <-.
  pose proof (Hfrozen c HcL) as Hfz.
  assert (∀ x, x ∈ L → frozen_acct c ≠ x) as Hne by (intros x Hx Heq; by rewrite Heq in Hfz).
  rewrite (Hmv c), (Hmv (frozen_acct c)).
  rewrite !(decide_False (P := frozen_acct c = _)) by by apply Hne.
  rewrite (decide_ext (c = cf) (a = From tx)) by by apply common_inj.
  rewrite (decide_ext (c = ct) (a = To tx)) by by apply common_inj.
  assert (0 ≤ GasCap tx) as Hg by apply mul64_range. split; [repeat case_decide; lia|].
  unfold next in *. rewrite Hn, (decide_ext (c = cf) (a = From tx)) by by apply common_inj.
  destruct (decide (a = From tx)) as [_|_]; [|done]. destruct (Hrf (From tx) cf Hf Hcf) as [_ Kn'].
  pose proof (nonce_range cf σ) as Hr'. unfold next, is_u64 in *. rewrite decide_False; [done|].
  rewrite <- Hnonce, Kn'. case_decide; lia.
Qed.

Lemma replay_runs b h : listed g L (Miner b) → ∀ txs s s' w i gas,
  Forall (λ tx, transfer (ft_tx tx)) txs → replay (ft_st <$> txs) s = Some s' →
  balances_ok (w_sdb w) → total L (w_sdb w) + 2 * MAXGASLIMIT ≤ MAXUINT64 → reflects s (w_sdb w) →
  is_Some (prefixSet (CurrentNetWork g)) →
  ∃ out w', apply_txs g true b h i gas txs w = (Ok out, w') ∧ changes L 0 (w_sdb w) (w_sdb w').
Proof.
  intros Hmin txs. destruct Hmin as (cm & Hcm & HmL). induction txs as [|tx txs IH]; intros s s' w i gas Hall Hrep Hok Hmax Hrf Hnet.
  { eexists _, _. split; [done|]. split; [done|lia]. }
  apply Forall_cons in Hall as [Htx Hall]. cbn [fmap list_fmap replay] in Hrep.
  apply bind_Some in Hrep as (s1 & Hone & Hrep). fold (ft_tx tx) in Hone.
  pose proof Htx as (Hty & [Hamt Hlt] & Hf & Hto & Hgas).
  destruct (Has _ Hf) as (Hkf & cf & Hcf & HfL). destruct (Has _ Hto) as (_ & ct & Hct & HtL).
  destruct (replay_one_transfer _ _ _ Htx Hone) as (Hn & Hcov & _). destruct (Hrf _ _ Hf Hcf) as [Kb Kn].
  destruct (transfer_runs b h i tx cf ct cm w) as (tx' & w1 & Hap & Hgu & Hmv & Hnc); try done;
    try (unfold gas_of, GasCap in *; congruence || lia).
  { intros Heq. by apply (common_inj _ _ cf ct). }
  assert (changes L 0 (w_sdb w) (w_sdb w1)) as [Hok1 Ht1].
  { eapply apply_move_effect; try done.
    - split; [done|]. split; [done|]. split; [by exists ct|]. right. split; [unfold is_move; rewrite Hty; by apply (bool_decide_unpack _)|].
      rewrite Hty. split; [done|]. split; [done|]. split; [by exists cf|]. by apply Hsep.
    - unfold IsCoinBaseTransaction. by rewrite Hty.
    - by exists cm. }
  destruct (IH s1 s' w1 (i + 1) (gas +₆₄ GasUsed tx')) as (out & w' & Hrun & Hch); try done; [lia|exact (reflects_step _ s s1 cf ct cm _ _ Htx Hone HmL Hcf Hct Hmv Hnc Hrf)|].
  destruct (known_roundtrip g (From (ft_tx tx)) Hnet Hkf) as (text & Henc & _).
  assert (log_texts g [From (ft_tx tx)] = Ok tt) as Hlog by (cbn [log_texts]; unfold String; by rewrite Henc).
  destruct out as [txs' gas']. exists (tx' :: txs', gas'), w'.
  split; [|by apply (changes_trans L 0 0 _ (w_sdb w1))]. cbn [apply_txs].
  rewrite (st_bind_eq _ _ w tt w) by (unfold st_lift; by rewrite Hlog). erewrite st_bind_eq by exact Hap.
  erewrite st_bind_eq by exact Hrun. done.
Qed.

(** The transfers that [Pending] offers can be applied, and only move money. *)
Lemma Pending_runs (p p' : Pool (chain D SD)) (ts : list SignedTransaction) (txs : list FinishedTransaction)
    (b : Block) (h i gas : Z) w :
  reachable g (pq p) → Forall fine (stList (pq p)) → Forall (λ st, transfer (st_tx st)) (stList (pq p)) →
  Pending g p = (Ok ts, p') → ft_st <$> txs = ts → w_sdb w = sdb (pbc p) → listed g L (Miner b) →
  balances_ok (w_sdb w) → total L (w_sdb w) + 2 * MAXGASLIMIT ≤ MAXUINT64 →
  (∀ c, c ∈ L → sdb_GetBalance (frozen_acct c) (w_sdb w) ≤ sdb_GetBalance c (w_sdb w)) →
  is_Some (prefixSet (CurrentNetWork g)) →
  ∃ out w', apply_txs g true b h i gas txs w = (Ok out, w') ∧ changes L 0 (w_sdb w) (w_sdb w').
Proof.
  intros Hr Hfine Htr HP Hts Hw Hmin Hok Hmax Hfz Hnet.
  destruct (Pending_replays g p p' ts Hr Hfine HP) as ([s' Hrep] & _ & Hsub).
  rewrite <- Hts in Hrep. eapply replay_runs; try done.
  - apply Forall_forall. intros tx Hin. apply (proj1 (Forall_forall _ _) Htr).
    apply (proj1 (elem_of_reverse _ _)). eapply elem_of_sublist; [exact Hsub|]. rewrite <- Hts. apply list_elem_of_fmap. by eexists.
  - intros a c Ha Hc. destruct (Has a Ha) as (_ & c' & Hc' & HcL). rewrite Hc in Hc'. injection Hc' as <-.
    unfold chain_accounts. simpl. rewrite <- Hw. rewrite (getAvailableBalance_run g a c) by done.
    rewrite decide_True by by apply Hfz. cbn [fst snd]. split; [lia|].
    unfold getNonce, next. rewrite (st_bind_eq _ _ (w_sdb w) c (w_sdb w)) by by apply common_run.
    rewrite (st_bind_eq _ _ (w_sdb w) (sdb_GetNonce c (w_sdb w)) (w_sdb w)) by done. by case_decide.
Qed.

End Applies.

(** Two transfers of alice, to bob and to herself, on the chain of [ChainSample]. *)
Module PoolChainSample.
Import MapTxn MapState MapWorld CryptoInstance.

Definition send (to : Address) (nonce amount : Z) : SignedTransaction :=
  STx (Tx 1 TransferTransaction Sample.alice to amount nonce 21000 0 100 []) (Sig TypeSecp256k1 []).
Definition l : list SignedTransaction := [send Sample.bob 1 300; send Sample.alice 2 1000].
Definition c : chain mdb state := Chain (w_db ChainSample.w0) (w_sdb ChainSample.w0) (w_evm ChainSample.w0).
Definition p : Pool (chain mdb state) := with_queue (QueueSample.feed l) (NewPool c).

Definition As : list Address := [Sample.alice; Sample.bob].
Definition L : list bytes := [Sample.ca; Sample.cb].

#[global] Instance pending_chain : IBlockchain (chain mdb state) := chain_pool Sample.g.

Lemma Forall_feed (P : SignedTransaction → Prop) : Forall P l → Forall P (stList (pq p)).
Proof.
  intros HP. change (Forall P (stList (QueueSample.feed l))). revert HP.
  assert (bool_decide (l ≡ₚ stList (QueueSample.feed l))) as Hp%bool_decide_unpack by (vm_compute; exact I).
  exact (proj1 (Forall_Permutation P P (λ _, iff_refl _) _ _ Hp)).
Qed.
Lemma accounts_As a : a ∈ As → a = Sample.alice ∧ NewCommonAddr Sample.g a = Ok Sample.ca ∨
  a = Sample.bob ∧ NewCommonAddr Sample.g a = Ok Sample.cb.
Proof.
  unfold As. intros [->|[->|Ha%elem_of_nil]%elem_of_cons]%elem_of_cons; [left|right|done].
  - split; [done|exact Sample.alice_ca].
  - split; [done|exact Sample.bob_cb].
Qed.
Lemma As_separate a a' : a ∈ As → a' ∈ As → separate Sample.g a a'.
Proof.
  intros [[-> Ha]|[-> Ha]]%accounts_As [[-> Ha']|[-> Ha']]%accounts_As x Kx Kx'; try done;
    pose proof Sample.ca_cb; congruence.
Qed.
Lemma As_listed a : a ∈ As → known a ∧ listed Sample.g L a.
Proof.
  intros [[-> Ha]|[-> Ha]]%accounts_As; (split; [by left|eexists; split; [exact Ha|]]); apply (bool_decide_unpack _); vm_compute; exact I.
Qed.
Lemma L_frozen ca : ca ∈ L → frozen_acct ca ∉ L.
Proof.
  unfold L. intros [->|[->|Ha%elem_of_nil]%elem_of_cons]%elem_of_cons; [..|done];
    apply (bool_decide_unpack _); vm_compute; exact I.
Qed.
Lemma L_covered ca : ca ∈ L → sdb_GetBalance (frozen_acct ca) Sample.s0 ≤ sdb_GetBalance ca Sample.s0.
Proof.
  unfold L. intros [->|[->|Ha%elem_of_nil]%elem_of_cons]%elem_of_cons; [..|done]; vm_compute; discriminate.
Qed.

End PoolChainSample.
