(* ===== verification/Merkle.v ===== *)
(** Merkle trees ([pkg/storage/merkle]): the tree over a list of data, its root, and the
    proofs that [VerifyNode] makes and checks.

    The hash function is a parameter.  Proofs are Go slices, which can share the array
    they are in: they are modelled as such, with a store of arrays. *)

From S2P Require Import Prelude.

(** ** Trees *)

(** A nil [MKNode] is [None]. *)
Inductive MerkleNode :=
  | Leaf (data root : bytes)
  | Branch (root : bytes) (left right : MerkleNode).

Definition getMKRoot (n : MerkleNode) : bytes := match n with Leaf _ r => r | Branch r _ _ => r end.
Definition isLeafNode (n : MerkleNode) : bool := match n with Leaf _ _ => true | _ => false end.

(** The highest power of two below or at [n]: [n & (n - 1)] clears the lowest bit.  An
    [int] has 64 bits, so that 64 rounds are enough. *)
Fixpoint powerOfTwo0 (fuel : nat) (n : Z) : Z :=
  if decide (Z.land n (n - 1) = 0) then n
  else match fuel with O => n | S fuel => powerOfTwo0 fuel (Z.land n (n - 1)) end.

Definition powerOfTwo (n : Z) : Z :=
  if decide (Z.land n (n - 1) = 0) then Z.shiftr n 1 else powerOfTwo0 64 n.

(** ** Proofs as slices *)

Record ProofElem := MkElem { isLeft : bool; nodeRoot : bytes; siblingRoot : bytes }.

(** A slice that starts at its array's first element; [heap] holds the arrays, as far as
    they are written. *)
Record slice := MkSlice { arr : nat; len : nat; cap : nat }.
Abbreviation heap := (list (list ProofElem)).

Definition content (s : slice) (h : heap) : list ProofElem := take (len s) (default [] (h !! arr s)).

(** The capacity that a slice of capacity [cap] is given when it has to hold [need]
    elements of 40 bytes: twice the old one or what is needed. *)
Definition go_grow (cap need : nat) : nat := if decide (2 * cap < need)%nat then need else (2 * cap)%nat.

(** ** The tree of a list of data *)

Section Tree.
Variable hash : bytes → bytes.

Definition mkRootHash (a b : bytes) : bytes := hash (a ++ b).

Definition mkLeaf (data : bytes) : option MerkleNode :=
  if decide (data = []) then None else Some (Leaf data (hash data)).

Definition mkBranch (l r : option MerkleNode) : option MerkleNode :=
  match l, r with
  | Some ln, Some rn => Some (Branch (mkRootHash (getMKRoot ln) (getMKRoot rn)) ln rn)
  | _, _ => None
  end.

(** [fuel] bounds the depth; the number of data is enough ([mkMerkleTreeRoot_fuel]). *)
Fixpoint mkMerkleTreeRoot (fuel : nat) (n : Z) (data : list bytes) : option MerkleNode :=
  match fuel with
  | O => None
  | S fuel =>
      if decide (n = 1) then match data with d :: _ => mkLeaf d | [] => None end
      else
        let i := powerOfTwo n in
        mkBranch (mkMerkleTreeRoot fuel i (take (Z.to_nat i) data))
                 (mkMerkleTreeRoot fuel (n - i) (drop (Z.to_nat i) data))
  end.

(** Creates a tree: [None] is a nil tree, [Some None] a tree whose node is nil. *)
Definition New (data : list bytes) : option (option MerkleNode) :=
  if decide (data = []) then None
  else Some (mkMerkleTreeRoot (length data) (Z.of_nat (length data)) data).

(** The root hash; a nil tree has none, and a nil node panics. *)
Definition GetMtHash (t : option (option MerkleNode)) : res bytes :=
  match t with
  | None => Ok []
  | Some None => Panic
  | Some (Some n) => Ok (getMKRoot n)
  end.

(** ** Proofs *)

Variable grow : nat → nat → nat.

(** [MerkleProof{}] *)
Definition nil_slice : slice := MkSlice 0 0 0.

(** [append(s, xs...)]: in place when there is room. *)
Definition append (s : slice) (xs : list ProofElem) (h : heap) : slice * heap :=
  let n := (len s + length xs)%nat in
  if decide (n <= cap s)%nat then
    (MkSlice (arr s) n (cap s),
     alter (λ a, take (len s) a ++ xs ++ drop n a) (arr s) h)
  else (MkSlice (length h) n (grow (cap s) n), h ++ [content s h ++ xs]).

(** creat proof path; [node] is the root of the leaf looked for. *)
Fixpoint constructPath (proof : slice) (leaf : MerkleNode) (node : bytes) (h : heap) : slice * heap :=
  match leaf with
  | Leaf _ r => if decide (r = node) then (proof, h) else (nil_slice, h)
  | Branch _ ln rn =>
      let lProofElem := MkElem true (getMKRoot ln) (getMKRoot rn) in
      let rProofElem := MkElem false (getMKRoot rn) (getMKRoot ln) in
      let '(lproof, h) := append proof [lProofElem] h in
      let '(lpath, h) := constructPath lproof ln node h in
      let '(rproof, h) := append proof [rProofElem] h in
      let '(rpath, h) := constructPath rproof rn node h in
      append lpath (content rpath h) h
  end.

Definition merkleProof (t : MerkleNode) (node : bytes) : list ProofElem :=
  let '(s, h) := constructPath nil_slice t node [] in content s h.

(** check whether the data is in a given proof path; the proof is read from its end *)
Fixpoint validate_rev (proof : list ProofElem) (root leaf : bytes) : bool :=
  match proof with
  | [] => bool_decide (leaf = root)
  | e :: proof =>
      if decide (nodeRoot e ≠ leaf) then false
      else validate_rev proof root
             (if isLeft e then mkRootHash (nodeRoot e) (siblingRoot e)
              else mkRootHash (siblingRoot e) (nodeRoot e))
  end.
Definition validate (proof : list ProofElem) (root leaf : bytes) : bool := validate_rev (rev proof) root leaf.

(** detects whether the data exists in the tree; a nil tree, a nil node and the nil leaf of
    empty data are dereferenced *)
Definition VerifyNode (t : option (option MerkleNode)) (data : bytes) : res bool :=
  match t, mkLeaf data with
  | Some (Some n), Some leaf => Ok (validate (merkleProof n (getMKRoot leaf)) (getMKRoot n) (getMKRoot leaf))
  | _, _ => Panic
  end.

End Tree.
