(* ===== verification/MerkleFacts.v ===== *)
(** Merkle trees: the split of the data, what a root commits to, and when the proofs are
    right. *)

From S2P Require Import Prelude Merkle.

(** ** The split *)

Lemma land_double m : 0 < m → Z.land (2 * m) (2 * m - 1) = 2 * Z.land m (m - 1).
Proof.
  intros Hm. apply Z.bits_inj'. intros k Hk. rewrite Z.land_spec.
  destruct (decide (k = 0)) as [->|Hk0].
  - by rewrite !Z.testbit_even_0.
  - replace k with (Z.succ (Z.pred k)) by lia. rewrite !Z.testbit_even_succ by lia.
    replace (2 * m - 1) with (2 * (m - 1) + 1) by lia. rewrite Z.testbit_odd_succ by lia. by rewrite Z.land_spec.
Qed.

Lemma land_odd m : 0 <= m → Z.land (2 * m + 1) (2 * m + 1 - 1) = 2 * m.
Proof.
  intros Hm. replace (2 * m + 1 - 1) with (2 * m) by lia. apply Z.bits_inj'. intros k Hk. rewrite Z.land_spec.
  destruct (decide (k = 0)) as [->|Hk0].
  - by rewrite Z.testbit_even_0, andb_false_r.
  - replace k with (Z.succ (Z.pred k)) by lia. rewrite Z.testbit_even_succ, Z.testbit_odd_succ by lia. by destruct (Z.testbit m _).
Qed.

Lemma log2_double m : 0 < m → Z.log2 (2 * m) = Z.log2 m + 1.
Proof. intros Hm. rewrite Z.log2_double by done. lia. Qed.

(** Doubling commutes with the loop. *)
Lemma powerOfTwo0_double fuel : ∀ m, 0 < m → powerOfTwo0 fuel (2 * m) = 2 * powerOfTwo0 fuel m.
Proof.
  induction fuel as [|fuel IH]; intros m Hm; cbn [powerOfTwo0]; rewrite (land_double m) by done;
    (destruct (decide (Z.land m (m - 1) = 0)) as [Hz|Hz]; [by rewrite decide_True by lia|]);
    rewrite decide_False by lia; [done|].
  apply IH. pose proof (proj2 (Z.land_nonneg m (m - 1)) ltac:(lia)). lia.
Qed.

Lemma powerOfTwo0_spec m : ∀ fuel, 0 < m → Z.log2 m < Z.of_nat fuel → powerOfTwo0 fuel m = 2 ^ Z.log2 m.
Proof.
  induction (Z.lt_wf 0 m) as [m _ IH]. intros fuel Hm Hf. destruct (Z.Even_or_Odd m) as [[k ->]|[k ->]].
  - rewrite powerOfTwo0_double, IH, log2_double, Z.pow_add_r by (try apply Z.log2_nonneg; try rewrite log2_double in Hf; lia).
    lia.
  - destruct (decide (k = 0)) as [->|Hk]; [by destruct fuel|].
    assert (Z.log2 (2 * k + 1) = Z.log2 k + 1) as Hl by (rewrite Z.log2_succ_double by lia; lia).
    pose proof (Z.log2_nonneg k). destruct fuel as [|fuel]; [lia|]. cbn [powerOfTwo0].
    rewrite land_odd, decide_False by lia. rewrite powerOfTwo0_double, IH, Hl, Z.pow_add_r by lia. lia.
Qed.

Lemma powerOfTwo0_stop fuel n : Z.land n (n - 1) = 0 → powerOfTwo0 fuel n = n.
Proof. intros Hz. destruct fuel; cbn [powerOfTwo0]; by rewrite decide_True. Qed.

(** A tree of [n] data is split at the greatest power of two below [n]. *)
Lemma powerOfTwo_spec n : 2 ≤ n < 2 ^ 63 →
  ∃ k, 0 ≤ k ∧ powerOfTwo n = 2 ^ k ∧ powerOfTwo n < n ≤ 2 * powerOfTwo n.
Proof.
  intros Hn. pose proof (Z.log2_spec n ltac:(lia)) as Hl.
  assert (Z.log2 n < 63) as Hl63 by (apply Z.log2_lt_pow2; lia).
  assert (1 ≤ Z.log2 n) as Hl1 by (apply Z.log2_le_pow2; lia).
  pose proof (powerOfTwo0_spec n 64 ltac:(lia) ltac:(lia)) as Hs.
  replace (Z.succ (Z.log2 n)) with (Z.log2 n + 1) in Hl by lia. rewrite Z.pow_add_r in Hl by lia.
  unfold powerOfTwo. case_decide as Hz.
  - rewrite powerOfTwo0_stop in Hs by done. exists (Z.log2 n - 1). rewrite Z.shiftr_div_pow2 by lia.
    assert (n = 2 * 2 ^ (Z.log2 n - 1)) as Hd.
    { rewrite <- Z.pow_succ_r by lia. by replace (Z.succ (Z.log2 n - 1)) with (Z.log2 n) by lia. }
    replace (n / 2 ^ 1) with (2 ^ (Z.log2 n - 1)); [lia|]. rewrite Hd at 2. change (2 ^ 1) with 2.
    rewrite Z.mul_comm. by rewrite Z.div_mul by lia.
  - exists (Z.log2 n). rewrite Hs. assert (n ≠ 2 ^ Z.log2 n); [|lia]. intros Heq. apply Hz.
    assert (∀ j : nat, Z.land (2 ^ Z.of_nat j) (2 ^ Z.of_nat j - 1) = 0) as Hp.
    { induction j as [|j IH]; [done|]. rewrite Nat2Z.inj_succ, Z.pow_succ_r, land_double by lia. lia. }
    rewrite Heq. rewrite <- (Z2Nat.id (Z.log2 n)) by lia. apply Hp.
Qed.

(** ** What the tree of a list of data is *)

Section Facts.
Variable hash : bytes → bytes.
Implicit Types (data : list bytes) (n : MerkleNode).

Inductive tree_of : list bytes → MerkleNode → Prop :=
  | tree_leaf d : d ≠ [] → tree_of [d] (Leaf d (hash d))
  | tree_branch (k : nat) data1 data2 n1 n2 :
      tree_of data1 n1 → tree_of data2 n2 → length data1 = (2 ^ k)%nat → (length data2 ≤ length data1)%nat →
      tree_of (data1 ++ data2) (Branch (hash (getMKRoot n1 ++ getMKRoot n2)) n1 n2).

Lemma tree_nonempty data n : tree_of data n → (1 ≤ length data)%nat.
Proof. induction 1; [done|]. rewrite length_app. lia. Qed.

Lemma tree_data data n : tree_of data n → [] ∉ data.
Proof. induction 1; set_solver. Qed.

Lemma tree_root data n : tree_of data n → ∃ x, getMKRoot n = hash x.
Proof. destruct 1; by eexists. Qed.

(** The data's number bounds the depth, so that it is enough fuel. *)
Lemma mkMerkleTreeRoot_spec fuel : ∀ data, (1 ≤ length data ≤ fuel)%nat → Z.of_nat (length data) < 2 ^ 63 →
  match mkMerkleTreeRoot hash fuel (Z.of_nat (length data)) data with
  | Some n => tree_of data n
  | None => [] ∈ data
  end.
Proof.
  induction fuel as [|fuel IH]; intros data Hlen Hmax; [lia|]. cbn [mkMerkleTreeRoot].
  case_decide as H1.
  - destruct data as [|d [|]]; simpl in *; [lia| |lia]. unfold mkLeaf. case_decide; [set_solver|]. by constructor.
  - destruct (powerOfTwo_spec (Z.of_nat (length data))) as (k & Hk & Hp & Hlt & Hle); [lia|].
    set (i := powerOfTwo (Z.of_nat (length data))) in *. assert (0 < i) as Hi by (rewrite Hp; lia).
    assert (length (take (Z.to_nat i) data) = Z.to_nat i) as Hl1 by (rewrite length_take; lia).
    assert (length (drop (Z.to_nat i) data) = (length data - Z.to_nat i)%nat) as Hl2 by by rewrite length_drop.
    pose proof (IH (take (Z.to_nat i) data) ltac:(lia) ltac:(lia)) as IH1.
    pose proof (IH (drop (Z.to_nat i) data) ltac:(lia) ltac:(lia)) as IH2.
    rewrite Hl1, Z2Nat.id in IH1 by lia. rewrite Hl2 in IH2.
    replace (Z.of_nat (length data - Z.to_nat i)) with (Z.of_nat (length data) - i) in IH2 by lia.
    assert (∀ x, x ∈ take (Z.to_nat i) data ∨ x ∈ drop (Z.to_nat i) data → x ∈ data) as Hin.
    { intros x Hx. rewrite <- (take_drop (Z.to_nat i) data). by apply elem_of_app. }
    destruct (mkMerkleTreeRoot hash fuel i _) as [n1|]; [|by apply Hin; left].
    destruct (mkMerkleTreeRoot hash fuel _ _) as [n2|]; [|by apply Hin; right]. simpl.
    rewrite <- (take_drop (Z.to_nat i) data). apply (tree_branch (Z.to_nat k)); [done|done| |lia].
    rewrite Hl1, Hp. apply Nat2Z.inj. rewrite Z2Nat.id, Nat2Z.inj_pow by lia. by rewrite Z2Nat.id by lia.
Qed.

Lemma New_cases data : data ≠ [] → Z.of_nat (length data) < 2 ^ 63 →
  (∃ n, New hash data = Some (Some n) ∧ tree_of data n) ∨ New hash data = Some None ∧ [] ∈ data.
Proof.
  intros Hne Hmax. unfold New. rewrite decide_False by done.
  assert (1 ≤ length data)%nat by (destruct data; simpl; [done|lia]).
  pose proof (mkMerkleTreeRoot_spec (length data) data ltac:(lia) Hmax) as Hs.
  destruct (mkMerkleTreeRoot _ _ _ _) as [n|]; [left; by exists n|by right].
Qed.

(** ** What a root commits to *)

(** Two inputs with the same hash. *)
Definition collision : Prop := ∃ x y, x ≠ y ∧ hash x = hash y.

Lemma hash_binds x y : hash x = hash y → x = y ∨ collision.
Proof. destruct (decide (x = y)); [by left|right]. by exists x, y. Qed.

Lemma pow2_between (j k a b : nat) : (a ≤ 2 ^ j)%nat → (1 ≤ a)%nat → (b ≤ 2 ^ k)%nat → (1 ≤ b)%nat →
  (2 ^ j + a = 2 ^ k + b)%nat → j = k.
Proof.
  intros Ha Ha1 Hb Hb1 Heq. destruct (Nat.lt_trichotomy j k) as [Hl|[?|Hl]]; [|done|];
    apply (Nat.pow_le_mono_r 2) in Hl; rewrite ?Nat.pow_succ_r' in Hl; lia.
Qed.

Lemma tree_binds data1 n1 : (∀ x y, length (hash x) = length (hash y)) → tree_of data1 n1 →
  ∀ data2 n2, tree_of data2 n2 → length data1 = length data2 → getMKRoot n1 = getMKRoot n2 → data1 = data2 ∨ collision.
Proof.
  intros Hlen Ht1. induction Ht1 as [d Hd|k da db na nb Ha IHa Hb IHb Hk Hle]; intros data2 n2 Ht2 Hl Hr.
  - destruct Ht2 as [d' Hd'|k' da' db' na' nb' Ha' Hb' Hk' Hle'].
    + simpl in Hr. destruct (hash_binds _ _ Hr) as [->|]; [by left|by right].
    + apply tree_nonempty in Ha', Hb'. rewrite length_app in Hl. simpl in Hl. lia.
  - destruct Ht2 as [d' Hd'|k' da' db' na' nb' Ha' Hb' Hk' Hle'].
    + apply tree_nonempty in Ha, Hb. rewrite length_app in Hl. simpl in Hl. lia.
    + rewrite !length_app, Hk, Hk' in Hl.
      assert (k = k') as <- by (apply (pow2_between k k' (length db) (length db')); apply tree_nonempty in Hb, Hb'; lia).
      cbn [getMKRoot] in Hr. destruct (hash_binds _ _ Hr) as [Happ|]; [|by right].
      assert (∀ da na db nb, tree_of da na → tree_of db nb → length (getMKRoot na) = length (getMKRoot nb)) as Hrl.
      { intros ???? K1 K2. apply tree_root in K1 as [? ->], K2 as [? ->]. apply Hlen. }
      apply app_inj_1 in Happ as [Hra Hrb]; [|by eapply Hrl].
      destruct (IHa _ _ Ha' ltac:(lia) Hra) as [->|]; [|by right].
      destruct (IHb _ _ Hb' ltac:(lia) Hrb) as [->|]; [|by right]. by left.
Qed.

(** A root commits to the data: when two lists of the same length (an [int]) have the
    same root, they are the same, or two different inputs with the same hash can be shown.
    There is a root exactly when no item is empty; with an empty one asking for it panics.
    (The length matters: leaves and branches are hashed alike, so the two roots of a tree
    joined are a single item with the same root.) *)
Theorem root_binds (data1 data2 : list bytes) (r : bytes) :
  (∀ x y, length (hash x) = length (hash y)) → data1 ≠ [] → length data1 = length data2 →
  Z.of_nat (length data1) < 2 ^ 63 →
  (GetMtHash (New hash data1) = Panic ↔ [] ∈ data1) ∧
  (GetMtHash (New hash data1) = Ok r → GetMtHash (New hash data2) = Ok r → data1 = data2 ∨ collision).
Proof.
  intros Hlen Hne Heq Hmax.
  destruct (New_cases data1 Hne Hmax) as [(n1 & E1 & Ht1)|[E1 Hin]]; rewrite E1; cbn [GetMtHash].
  2: { split; [done|]. by intros. }
  split; [split; [done|]; by intros ?%(tree_data _ _ Ht1)|]. intros [= Hr] E2'.
  assert (data2 ≠ []) as Hne2 by (intros ->; by destruct data1).
  destruct (New_cases data2 Hne2 ltac:(lia)) as [(n2 & E2 & Ht2)|[E2 _]]; rewrite E2 in E2'; [|done].
  injection E2' as Hr2. eapply tree_binds; try done. congruence.
Qed.

(** ** Proofs *)

Fixpoint depth n : nat := match n with Leaf _ _ => 0 | Branch _ l r => S (max (depth l) (depth r)) end.
Fixpoint leaves n : list bytes := match n with Leaf _ r => [r] | Branch _ l r => leaves l ++ leaves r end.

Lemma tree_leaves data n : tree_of data n → leaves n = hash <$> data.
Proof. induction 1 as [|k d1 d2 n1 n2 _ IH1 _ IH2]; [done|]. simpl. by rewrite IH1, IH2, fmap_app. Qed.

Lemma tree_depth data n : tree_of data n → ∀ j, (length data ≤ 2 ^ j)%nat → (depth n ≤ j)%nat.
Proof.
  induction 1 as [|k d1 d2 n1 n2 H1 IH1 H2 IH2 Hk Hle]; intros j Hj; simpl; [lia|].
  rewrite length_app in Hj. apply tree_nonempty in H2. destruct j as [|j]; [simpl in Hj; lia|].
  rewrite Nat.pow_succ_r' in Hj. destruct (decide (j < k)%nat) as [Hl|Hl].
  { apply (Nat.pow_le_mono_r 2) in Hl; [|done]. rewrite Nat.pow_succ_r' in Hl. lia. }
  assert (2 ^ k ≤ 2 ^ j)%nat by (apply Nat.pow_le_mono_r; lia).
  specialize (IH1 j ltac:(lia)). specialize (IH2 j ltac:(lia)). lia.
Qed.

(** The reference: the path down to the first leaf with the root [r]. *)
Definition l_elem (l r : MerkleNode) : ProofElem := MkElem true (getMKRoot l) (getMKRoot r).
Definition r_elem (l r : MerkleNode) : ProofElem := MkElem false (getMKRoot r) (getMKRoot l).
Fixpoint find_path n (x : bytes) : option (list ProofElem) :=
  match n with
  | Leaf _ r => if decide (r = x) then Some [] else None
  | Branch _ l r =>
      match find_path l x with
      | Some p => Some (l_elem l r :: p)
      | None => (r_elem l r ::.) <$> find_path r x
      end
  end.

Lemma find_path_leaf n x : is_Some (find_path n x) ↔ x ∈ leaves n.
Proof.
  induction n as [d r|r l IHl n IHn]; simpl.
  - rewrite list_elem_of_singleton. case_decide; split; [done|by eexists|by intros [? ?]|by intros ->].
  - rewrite elem_of_app, <- IHl, <- IHn. destruct (find_path l x); [split; [by left|by eexists]|].
    rewrite fmap_is_Some. split; [by right|]. by intros [[? ?]|].
Qed.

(** Checking a path from its end arrives at the root. *)
Lemma validate_path data n x p q root : tree_of data n → find_path n x = Some p →
  validate_rev hash (rev p ++ q) root x = validate_rev hash q root (getMKRoot n).
Proof.
  intros Ht. revert p q. induction Ht as [d Hd|k d1 d2 n1 n2 _ IH1 _ IH2]; intros p q; simpl.
  - case_decide as Hx; [|done]. subst. by intros [= <-].
  - destruct (find_path n1 x) as [p1|] eqn:E1.
    + intros [= <-]. simpl. rewrite <- app_assoc, (IH1 p1) by done. simpl. by rewrite decide_False by auto.
    + destruct (find_path n2 x) as [p2|] eqn:E2; [|done]. intros [= <-]. simpl.
      rewrite <- app_assoc, (IH2 p2) by done. simpl. by rewrite decide_False by auto.
Qed.

(** *** Slices *)

Implicit Types (s : slice) (h : heap).

Definition wf s h : Prop := length (content s h) = len s.

Lemma content_prefix s h h' : wf s h → h `prefix_of` h' → content s h' = content s h ∧ wf s h'.
Proof.
  unfold wf, content. intros Hw Hp. destruct (h !! arr s) as [a|] eqn:E.
  - rewrite (prefix_lookup_Some _ _ _ _ E Hp). by simpl in *.
  - simpl in *. rewrite take_nil in Hw. simpl in Hw. by rewrite <- Hw.
Qed.

Variable grow : nat → nat → nat.

Lemma append_fresh s xs h : wf s h → (cap s < len s + length xs)%nat →
  ∃ s' h', append grow s xs h = (s', h') ∧ h `prefix_of` h' ∧ wf s' h' ∧ content s' h' = content s h ++ xs ∧
    len s' = (len s + length xs)%nat ∧ cap s' = grow (cap s) (len s + length xs).
Proof.
  intros Hw Hc. unfold append. rewrite decide_False by lia. eexists _, _. split; [done|].
  assert (content (MkSlice (length h) (len s + length xs) (grow (cap s) (len s + length xs)))
    (h ++ [content s h ++ xs]) = content s h ++ xs) as Hcon.
  { unfold content at 1. simpl. rewrite lookup_app_r, Nat.sub_diag by done. simpl.
    apply take_ge. rewrite length_app. unfold wf in Hw. lia. }
  split; [by eexists|]. split; [|by split]. unfold wf in *. rewrite Hcon, length_app. simpl. lia.
Qed.

Lemma alter_same {A} (f : A → A) i (l : list A) : (∀ x, f x = x) → alter f i l = l.
Proof.
  intros Hf. apply list_eq. intros j. destruct (decide (j = i)) as [->|Hj].
  - rewrite list_lookup_alter_eq. destruct (l !! i); simpl; by rewrite ?Hf.
  - by rewrite list_lookup_alter_ne by done.
Qed.

Lemma append_nothing s h : (len s ≤ cap s)%nat → append grow s [] h = (s, h).
Proof.
  intros Hl. unfold append. simpl. rewrite decide_True by lia. rewrite Nat.add_0_r. destruct s. simpl. f_equal.
  apply alter_same. intros a. apply take_drop.
Qed.

Lemma nil_wf h : wf nil_slice h ∧ content nil_slice h = [].
Proof. done. Qed.

(** A proof of at most two elements fills its array, as long as the array grows to what is
    needed; so every proof of a tree of depth three is in an array of its own. *)
Definition full s : Prop := (len s ≤ cap s)%nat ∧ ((len s ≤ 2)%nat → cap s = len s).

Hypothesis Hgrow : ∀ c, (c ≤ 1)%nat → grow c (S c) = S c.
Hypothesis Hroom : ∀ c need, (need ≤ grow c need)%nat.

Lemma append_elem s e h : wf s h → full s → (len s ≤ 2)%nat →
  ∃ s' h', append grow s [e] h = (s', h') ∧ h `prefix_of` h' ∧ wf s' h' ∧ content s' h' = content s h ++ [e] ∧
    len s' = S (len s) ∧ full s'.
Proof.
  intros Hw [Hf1 Hf2] Hl. specialize (Hf2 Hl).
  destruct (append_fresh s [e] h Hw) as (s' & h' & K1 & K2 & K3 & K4 & K5 & K6); [simpl; lia|].
  simpl in *. rewrite Nat.add_1_r in *. exists s', h'. split_and!; try done. split.
  - rewrite K5, K6. apply Hroom.
  - intros Hl'. rewrite K6, K5, Hf2. apply Hgrow. lia.
Qed.

Lemma constructPath_finds n x : NoDup (leaves n) → ∀ s h, (depth n + len s ≤ 3)%nat → wf s h → full s →
  ∃ s' h', constructPath grow s n x h = (s', h') ∧ h `prefix_of` h' ∧ wf s' h' ∧ (len s' ≤ cap s')%nat ∧
    match find_path n x with Some p => content s' h' = content s h ++ p | None => s' = nil_slice end.
Proof.
  induction n as [d r|r l IHl n IHn]; intros Hnd s h Hd Hw Hf; cbn [constructPath find_path leaves depth] in *.
  { case_decide; eexists _, _; (split; [done|]); (split; [done|]).
    - split; [done|]. split; [apply Hf|]. by rewrite app_nil_r.
    - by split_and!. }
  apply NoDup_app in Hnd as (Hnl & Hdis & Hnr). cbn zeta. fold (l_elem l n) (r_elem l n).
  destruct (append_elem s (l_elem l n) h Hw Hf ltac:(lia)) as (s1 & h1 & -> & P1 & W1 & C1 & L1 & F1).
  destruct (IHl Hnl s1 h1 ltac:(lia) W1 F1) as (s2 & h2 & -> & P2 & W2 & F2 & C2).
  destruct (content_prefix s h h2 Hw) as [Cs Ws]; [by etrans|].
  destruct (append_elem s (r_elem l n) h2 Ws Hf ltac:(lia)) as (s3 & h3 & -> & P3 & W3 & C3 & L3 & F3).
  destruct (IHn Hnr s3 h3 ltac:(lia) W3 F3) as (s4 & h4 & -> & P4 & W4 & F4 & C4).
  destruct (content_prefix s2 h2 h4 W2) as [C2' W2']; [by etrans|].
  assert (h `prefix_of` h4) as Pall by (etrans; [exact P1|]; etrans; [exact P2|]; by etrans).
  destruct (find_path l x) as [p|] eqn:El.
  - assert (find_path n x = None) as En.
    { apply eq_None_not_Some. rewrite find_path_leaf. apply Hdis. rewrite <- find_path_leaf, El. by eexists. }
    rewrite En in C4. subst s4. change (content nil_slice h4) with (@nil ProofElem). rewrite append_nothing by done.
    eexists _, _. split; [done|]. split; [done|]. split; [done|]. split; [done|].
    rewrite C2', C2, C1, <- app_assoc. done.
  - subst s2. destruct (find_path n x) as [p|] eqn:En; cbn [fmap option_fmap option_map].
    + assert (content s4 h4 = content s h ++ r_elem l n :: p) as Hc by (by rewrite C4, C3, Cs, <- app_assoc).
      destruct (append_fresh nil_slice (content s4 h4) h4) as (s5 & h5 & -> & P5 & W5 & C5 & L5 & K5);
        [done|rewrite Hc, length_app; simpl; lia|].
      eexists _, _. split; [done|]. split; [by etrans|]. split; [done|]. split; [rewrite L5, K5; apply Hroom|].
      by rewrite C5, Hc.
    + subst s4. change (content nil_slice h4) with (@nil ProofElem). rewrite append_nothing by done.
      eexists _, _. by split_and!.
Qed.

(** Up to eight items, [VerifyNode] is right: it finds exactly the data whose hash is
    that of a leaf, or is the root itself.  (From nine items on it misses some that are
    there; and two roots joined are accepted as an item.) *)
Theorem VerifyNode_small (data : list bytes) (d : bytes) :
  data ≠ [] → (length data ≤ 8)%nat → [] ∉ data → NoDup (hash <$> data) → d ≠ [] →
  ∃ root, GetMtHash (New hash data) = Ok root ∧
    VerifyNode hash grow (New hash data) d = Ok (bool_decide (hash d ∈ hash <$> data ∨ hash d = root)).
Proof.
  intros Hne Hlen Hin Hnd Hd. destruct (New_cases data Hne ltac:(lia)) as [(n & E & Ht)|[_ ?]]; [|done].
  exists (getMKRoot n). rewrite E. split; [done|]. unfold VerifyNode, mkLeaf. rewrite decide_False by done. cbn [getMKRoot].
  unfold merkleProof, validate. rewrite <- (tree_leaves _ _ Ht) in *.
  destruct (constructPath_finds n (hash d) Hnd nil_slice []) as (s & h & -> & _ & _ & _ & Hc);
    [pose proof (tree_depth _ _ Ht 3 Hlen); simpl; lia|done|done|].
  f_equal. destruct (find_path n (hash d)) as [p|] eqn:Ep.
  - rewrite Hc. simpl. pose proof (validate_path _ _ _ _ [] (getMKRoot n) Ht Ep) as Hv. rewrite app_nil_r in Hv.
    rewrite Hv. simpl. rewrite !bool_decide_eq_true_2; [done| |done]. left. apply find_path_leaf. by rewrite Ep.
  - subst s. simpl. apply bool_decide_ext. split; [by right|]. intros [Hl|]; [|done].
    apply find_path_leaf in Hl as [? Hl]. congruence.
Qed.

End Facts.

Module MerkleSample.

(** A hash without collisions, of no fixed length. *)
Definition marked (b : bytes) : bytes := Byte.x00 :: b ++ [Byte.xff].
(** One with lengths of 2. *)
Definition short (b : bytes) : bytes := take 2 (b ++ [Byte.x00; Byte.x00]).
Definition item (n : Z) : bytes := [byte.of_Z n].
Definition items (n : Z) : list bytes := item <$> seqZ 1 n.

(** The first of nine items is not found: the two proofs of the first pair of leaves are in
    the same array. *)
Theorem ninth_item_hides_first :
  VerifyNode marked go_grow (New marked (items 8)) (item 1) = Ok true ∧
  VerifyNode marked go_grow (New marked (items 9)) (item 1) = Ok false.
Proof. vm_compute. split; reflexivity. Qed.

(** Data that was never in the tree is found: the roots of both halves, joined. *)
Theorem joined_roots_accepted :
  VerifyNode marked go_grow (New marked (items 2)) (marked (item 1) ++ marked (item 2)) = Ok true.
Proof. vm_compute. reflexivity. Qed.

Lemma short_length x y : length (short x) = length (short y).
Proof. unfold short. rewrite !length_take, !length_app. cbn [length]. lia. Qed.

End MerkleSample.

Lemma root_binds_witness :
  GetMtHash (New MerkleSample.short (MerkleSample.items 3)) = Ok [Byte.x01; Byte.x00] ∧
  (MerkleSample.items 3 = MerkleSample.items 3 ∨ collision MerkleSample.short).
Proof.
  assert (Hr : GetMtHash (New MerkleSample.short (MerkleSample.items 3)) = Ok [Byte.x01; Byte.x00])
    by (vm_compute; reflexivity).
  split; [exact Hr|].
  refine (proj2 (root_binds MerkleSample.short (MerkleSample.items 3) (MerkleSample.items 3) [Byte.x01; Byte.x00]
    MerkleSample.short_length _ eq_refl _) Hr Hr); [discriminate|vm_compute; reflexivity].
Defined.

Lemma VerifyNode_small_witness : ∃ root,
  GetMtHash (New MerkleSample.marked (MerkleSample.items 8)) = Ok root ∧
  VerifyNode MerkleSample.marked go_grow (New MerkleSample.marked (MerkleSample.items 8)) (MerkleSample.item 5) =
    Ok (bool_decide (MerkleSample.marked (MerkleSample.item 5) ∈ MerkleSample.marked <$> MerkleSample.items 8 ∨
                     MerkleSample.marked (MerkleSample.item 5) = root)).
Proof.
  refine (VerifyNode_small MerkleSample.marked go_grow _ _ (MerkleSample.items 8) (MerkleSample.item 5) _ _ _ _ _).
  - intros [|[|n]] Hn; [reflexivity|reflexivity|lia].
  - intros c n. unfold go_grow. case_decide; lia.
  - discriminate.
  - vm_compute. lia.
  - apply (bool_decide_unpack _). vm_compute. exact I.
  - apply (bool_decide_unpack _). vm_compute. exact I.
  - discriminate.
Defined.
