(* ===== verification/Mining.v ===== *)
(** Mining: making a block of the pool's transactions ([Blockchain.NewBlock] in
    [pkg/blockchain/blockchain.go]), the search for its nonce, the targets, and what the
    miner does with blocks ([pkg/miner/miner.go]).

    The node of this file is the consensus component, the pool and the miner over one
    chain.  SHA3-256 and the proof-of-work hash are arguments, and so are the clock and the
    orders in which maps are walked; channels and goroutines are left out: each handler of
    the miner's loop is an operation. *)

From S2P Require Import Prelude Misc Badger BgStore Base58 Cbor Address Transaction Block Ledger.
From S2P Require Import Difficulty Economics World Apply Chain Consensus ConsensusChain.
From S2P Require Import Merkle Strconv Queue Pool PoolChain.

Section Mining.
Context {D SD T : Type} `{!Badger T, !BadgerDB D T, !StateDB SD, !StateStore D SD, !EvmRuntime SD}.
Context `{!CborHeader, !Crypto, !EthCommon, !EvmData}.
Variables (g : globals) (cfg : ChainConfig).
Variables (sha3_Sum256 diffhash_Hash : bytes → bytes).
Implicit Types (c : chain D SD) (b : Block).

(** ** A new block *)

(** Currency distribution: the coinbase of the block, at its end.  An error of the genesis
    address is dropped, and the address is [Undef] then. *)
Definition distr (txs : list SignedTransaction) (minaddr : Address) (height : Z) : res (list SignedTransaction) :=
  total ← GetMinerAmount height;
  genesis ← (match NewAddrFromString g (GenesisAddress g) with Err _ => Ok Undef | r => r end);
  let txm := Tx 0 CoinBaseTransaction genesis minaddr total height 0 0 0 [] in
  Ok (txs ++ [STx txm (Sig Byte.x00 [])]).

Fixpoint sum_gas (gasUsed : Z) (txs : list SignedTransaction) : Z :=
  match txs with
  | [] => gasUsed
  | st :: txs => sum_gas (gasUsed +₆₄ (GasLimit (st_tx st) *₆₄ GasPrice (st_tx st))) txs
  end.

(** NewBlock create a new block for the blockchain; its hash is not set yet. *)
Definition NewBlock (now : Z) (txs : list SignedTransaction) (minaddr : Address) c : res Block :=
  prevHeight ← getMaxBlockHeight (Dbase (db c));
  let height := prevHeight +₆₄ 1 in
  prevHash ← (if decide (height > InitHeight) then getHash prevHeight (Dbase (db c)) else Ok (replicate 32 Byte.x00));
  txs ← distr txs minaddr height;
  root ← GetMtHash (Merkle.New sha256_Sum256 (STx_Serialize <$> txs));
  snapRoot ← getSnapRoot (D := D) (S := SD) (Dbase (db c));
  Ok (MkBlock height prevHash [] ((λ st, FTx st 0 height) <$> txs) root snapRoot 1 (u64 now) 0 minaddr
        (Some 0) (Some 0) 1 (CfgGasLimit cfg) (sum_gas 0 txs)).

(** ** The nonce *)

Definition with_nonce (n : Z) (d : option Z) b : Block :=
  MkBlock (Height b) (PrevHash b) (BHash b) (Transactions b) (Root b) (SnapRoot b) (BVersion b) (Timestamp b)
    (UsedTime b) (Miner b) d (GlobalDifficulty b) n (BGasLimit b) (BGasUsed b).

(** The loop of one processor over [n] nonces, up to the first that reaches the target. *)
Fixpoint sectionCalcDifficulty (n : nat) (start : Z) (target : Z) b : option Block :=
  match n with
  | O => None
  | S n =>
      let b := with_nonce start (Some target) b in
      if decide (HashToBig (diffhash_Hash (MinerHash sha3_Sum256 b)) < target) then Some b
      else sectionCalcDifficulty n (start + 1) target b
  end.

(** ** The targets *)

(** The variables [globalBits] and [localBits]. *)
Record bits := Bits { globalBits : Z; localBits : Z }.

Definition miner_GetBasePledge c : res Z :=
  h ← getMaxBlockHeight (Dbase (db c));
  basePledge (wholeNetworkNum h) 0.

(** An error of [Tip] is only logged, and there is no tip then. *)
Definition UpdateDifficultyFromLastBlock c (x : bits) : res (option Block * bits) :=
  tip ← (match Tip (Dbase (db c)) with Ok t => Ok (Some t) | Err _ => Ok None | Panic => Panic end);
  let newGlobalBits := match tip with Some t => GlobalDifficulty t | None => Some (CompactToBig (globalBits x)) end in
  pledge ← miner_GetBasePledge c;
  newlocalBits ← (match newGlobalBits with Some gd => NextMinerDifficulty gd 0 pledge | None => Panic end);
  gb ← BigToCompact newGlobalBits;
  lb ← BigToCompact (Some newlocalBits);
  Ok (tip, Bits gb lb).

(** The used times of the [n] blocks back from [hash]. *)
Fixpoint used_times (n : nat) (hash : bytes) (subTime : Z) c : res Z :=
  match n with
  | O => Ok subTime
  | S n =>
      ob ← getBlockByHash hash (Dbase (db c));
      used_times n (PrevHash ob) (subTime +₆₄ UsedTime ob) c
  end.

(** On an error after the first step the targets of that step stay. *)
Definition calcNextRequiredDifficulty c : stM bits unit := λ x,
  match UpdateDifficultyFromLastBlock c x with
  | Ok (tip, x) =>
      match tip with
      | Some tip =>
          if decide (Height tip > 1 ∧ (Height tip -₆₄ 1) mod Cycle = 0) then
            match (
              subTime ← used_times 10 (BHash tip) 0 c;
              newGlobalBits ← CalcNextGlobalRequiredDifficulty 0 (i64 subTime) (globalBits x);
              pledge ← getBasePledge (db_begin (db c));
              newlocalBits ← NextMinerDifficulty (CompactToBig newGlobalBits) 0 pledge;
              lb ← BigToCompact (Some newlocalBits);
              Ok (Bits newGlobalBits lb)) with
            | Ok x => (Ok tt, x)
            | Err e => (Err e, x)
            | Panic => (Panic, x)
            end
          else (Ok tt, x)
      | None => (Ok tt, x)
      end
  | Err e => (Err e, x)
  | Panic => (Panic, x)
  end.

(** ** The node *)

Record node := Node {
  cons : BlockChain (chain D SD); queue : orderlyQueue; buffer : list SignedTransaction;
  targets : bits; coinbaseAddr : Address; lastblocktime : Z;
}.
Abbreviation N := (stM node).

(** Consensus and the pool share the chain. *)
#[local] Instance node_pool : IBlockchain (chain D SD) := chain_pool g.

Definition on_pool {A} : stM (Pool (chain D SD)) A → N A :=
  zoom (λ n, MkPool (queue n) (Bc (cons n)) (buffer n))
       (λ p n, Node (cons n) (pq p) (pendingBuf p) (targets n) (coinbaseAddr n) (lastblocktime n)).
Definition on_cons {A} : stM (BlockChain (chain D SD)) A → N A :=
  zoom cons (λ x n, Node x (queue n) (buffer n) (targets n) (coinbaseAddr n) (lastblocktime n)).
Definition on_targets {A} (m : chain D SD → stM bits A) : N A := λ n,
  zoom targets (λ x n, Node (cons n) (queue n) (buffer n) x (coinbaseAddr n) (lastblocktime n)) (m (Bc (cons n))) n.
Definition set_blocktime (t : Z) : N unit :=
  st_modify (λ n, Node (cons n) (queue n) (buffer n) (targets n) (coinbaseAddr n) t).

(** A round of [MultiCalcDifficulty]: the block to find a nonce for, and its target.  An
    error ends the goroutine. *)
Definition MultiCalcDifficulty (now : Z) : N (Block * Z) :=
  txs ← on_pool (Pending g);
  b ← (λ n, (NewBlock now txs (coinbaseAddr n) (Bc (cons n)), n));
  target ← st_gets (λ n, CompactToBig (localBits (targets n)));
  mret (b, target).

(** The block is finished: its targets, the time it took, and its hash; an error panics. *)
Definition seal (now : Z) (n : node) b : res Block :=
  let x := targets n in
  let t := now - lastblocktime n in
  let b := MkBlock (Height b) (PrevHash b) (BHash b) (Transactions b) (Root b) (SnapRoot b) (BVersion b) (Timestamp b)
    (if decide (t > 0) then u64 t else UsedTime b) (Miner b)
    (Some (CompactToBig (localBits x))) (Some (CompactToBig (globalBits x))) (BNonce b) (BGasLimit b) (BGasUsed b) in
  match SetHash sha3_Sum256 b with Ok b => Ok b | _ => Panic end.

(** What all three handlers do with a block. *)
Definition process (fuel : nat) (now : Z) (order : list bytes) b : N (option bool) :=
  on_cons (ProcessBlock (Blockchains0 := chain_blockchains (T := T) g now cfg sha3_Sum256 diffhash_Hash) fuel now order b).

Definition filter_block (now : Z) (order : list bytes) b : N unit :=
  on_pool (λ p, match FilterTransaction g now order (ft_st <$> Transactions b) p with
                | Ok p => (Ok tt, p) | Err e => (Err e, p) | Panic => (Panic, p) end).

(** [case b := <-m.c]: the miner's own block.  Its transactions leave the pool whether or
    not the block is accepted. *)
Definition on_mined (fuel : nat) (now : Z) (order1 order2 : list bytes) b : N (option bool) :=
  b ← (λ n, (seal now n b, n));
  st_lift (log_texts g [Miner b]) ;;
  or_return (λ n, (miner_GetBasePledge (Bc (cons n)), n)) (Some false) (λ _,
  r ← process fuel now order1 b;
  match r with
  | None => mret None
  | Some ok =>
      (if (ok : bool) then set_blocktime now ;; ignore_err (on_targets calcNextRequiredDifficulty) tt else mret tt) ;;
      filter_block now order2 b ;;
      mret (Some ok)
  end).

(** [case p := <-m.p] and [case p := <-m.r]: a block from the network. *)
Definition on_received (fuel : nat) (now : Z) (order1 order2 : list bytes) b : N (option bool) :=
  or_return (λ n, (miner_GetBasePledge (Bc (cons n)), n)) (Some false) (λ _,
  r ← process fuel now order1 b;
  match r with
  | None => mret None
  | Some ok =>
      (if (ok : bool) then
         set_blocktime now ;; ignore_err (on_targets calcNextRequiredDifficulty) tt ;; filter_block now order2 b
       else mret tt) ;;
      mret (Some ok)
  end).

End Mining.
