(* ===== verification/MiningFacts.v ===== *)
(** What mining promises: a block that the miner makes on the tip of its chain passes the
    chain's own check, and the transactions of a block made of the pool's can be applied. *)

From S2P Require Import Prelude Misc Badger BgStore Base58 Cbor Address Transaction Block.
From S2P Require Import Ledger Difficulty Economics World Apply Chain Frames ChainFacts Supply.
From S2P Require Import Merkle Strconv Queue QueueFacts Pool PoolFacts PoolChain Consensus ConsensusChain Mining.

Section Regular.
Context {D SD T : Type} `{!Badger T, !BadgerDB D T, !StateDB SD, !StateStore D SD, !EvmRuntime SD}.
Context `{!BadgerLaws T, !CborHeader, !Crypto, !EthCommon, !EvmData}.
Variables (g : globals) (cfg : ChainConfig).
Variables (sha3_Sum256 diffhash_Hash : bytes → bytes).
Implicit Types (c : chain D SD) (d : D) (b tip : Block) (x : bits).

(** ** Reading outside of a transaction *)

(** A key is read in a transaction of its own. *)
Lemma kv_Get_begin k d : kv_Get k (Dbase d) = kv_Get (X := T) k (db_begin d).
Proof.
  reflexivity.
Qed.
Lemma height_begin d : getMaxBlockHeight (Dbase d) = getMaxBlockHeight (X := T) (db_begin d).
Proof. unfold getMaxBlockHeight. by rewrite kv_Get_begin. Qed.
Lemma byHash_begin h d : getBlockByHash h (Dbase d) = getBlockByHash (X := T) h (db_begin d).
Proof. unfold getBlockByHash. by rewrite kv_Get_begin. Qed.
Lemma byHeight_begin h d : getBlockByHeight h (Dbase d) = getBlockByHeight (X := T) h (db_begin d).
Proof.
  unfold getBlockByHeight. case_decide; [done|]. rewrite kv_Get_begin. unfold mbind, res_bind.
  destruct (kv_Get (X := T) _ _); [|done..]. by rewrite kv_Get_begin.
Qed.

(** ** The last ten blocks *)

(** The blocks of the [n] heights down from [h] name their predecessors on the chain. *)
Definition linked (n : nat) (h : Z) d : Prop := ∀ k ob, h - Z.of_nat n < k ≤ h →
  getBlockByHeight k (Dbase d) = Ok ob → getBlockByHash (PrevHash ob) (Dbase d) = getBlockByHeight (k - 1) (Dbase d).

Lemma linked_S n h d : linked (S n) h d → linked n (h - 1) d.
Proof. intros Hl k ob Hk. apply Hl. lia. Qed.

(** The miner's walk by hash and the check's walk by height see the same times. *)
Lemma used_times_sub_time n : ∀ h hash s c, Z.of_nat n ≤ h → is_u64 h →
  getBlockByHash hash (Dbase (db c)) = getBlockByHeight h (Dbase (db c)) → linked (n - 1) h (db c) →
  used_times n hash s c = sub_time n h s (db_begin (T := T) (db c)).
Proof.
  induction n as [|n IH]; intros h hash s c Hn Hh Heq Hl; [done|].
  cbn [used_times sub_time]. rewrite Heq, byHeight_begin.
  destruct (getBlockByHeight (X := T) h _) as [ob|e|] eqn:Hob; [|done..]. cbn [mbind res_bind].
  destruct n as [|n]; [done|]. rewrite (sub64_small h) by (unfold is_u64 in *; lia). apply IH; [lia|unfold is_u64 in *; lia| |].
  - apply Hl; [lia|]. by rewrite byHeight_begin.
  - replace (S n - 1)%nat with n by lia. apply linked_S. by replace (S n) with (S (S n) - 1)%nat by lia.
Qed.

(** ** Agreement on the targets *)

(** When the targets change. *)
Definition retargets (h : Z) : Prop := h ≠ 1 ∧ h mod 10 = 1.

Lemma retargets_miner h : is_u64 h → (h > 1 ∧ (h -₆₄ 1) mod Cycle = 0) ↔ retargets h.
Proof.
  intros Hh. unfold retargets, Cycle, is_u64 in *. destruct (decide (h = 0)) as [->|].
  { split; [lia|]. by intros [_ ?]. }
  rewrite sub64_small by lia. split; intros [K1 K2]; Z.to_euclidean_division_equations; lia.
Qed.

(** The miner's new targets are the compact forms of those that the check computes. *)
Lemma targets_agree c tip gd x x' :
  Tip (Dbase (db c)) = Ok tip → getMaxBlockHeight (Dbase (db c)) = Ok (Height tip) → 1 ≤ Height tip →
  GlobalDifficulty tip = Some gd → gd ≤ powLimit →
  (retargets (Height tip) → getBlockByHash (BHash tip) (Dbase (db c)) = Ok tip ∧ linked 9 (Height tip) (db c)) →
  calcNextRequiredDifficulty (T := T) c x = (Ok tt, x') →
  ∃ gd' pledge t, updateDifficulty (Height tip) (db_begin (T := T) (db c)) = Ok (Some gd') ∧
    getBasePledge (db_begin (T := T) (db c)) = Ok pledge ∧ NextMinerDifficulty gd' 0 pledge = Ok t ∧
    BigToCompact (Some t) = Ok (localBits x') ∧ gd' ≤ powLimit ∧
    (BigToCompact (Some gd') = Ok (globalBits x') ∨ gd' = CompactToBig (globalBits x')).
Proof.
  intros Htip Hmax Hge Hgd Hcap Hlink Hcalc. pose proof (getMaxBlockHeight_range _ _ Hmax) as Hh.
  assert (getBlockByHeight (Height tip) (Dbase (db c)) = Ok tip) as Hby.
  { unfold getBlockByHeight. rewrite decide_False by lia. unfold Tip in Htip. by rewrite Hmax in Htip. }
  unfold updateDifficulty. rewrite <- height_begin, Hmax. cbn [mbind res_bind].
  rewrite <- byHeight_begin, Hby. cbn [mbind res_bind]. rewrite (decide_False (P := _ ≠ _)) by (intros Hne; by apply Hne).
  unfold calcNextRequiredDifficulty, UpdateDifficultyFromLastBlock in Hcalc. rewrite Htip in Hcalc.
  cbn [mbind res_bind] in Hcalc. rewrite Hgd in Hcalc. unfold miner_GetBasePledge in Hcalc. rewrite Hmax in Hcalc.
  cbn [mbind res_bind] in Hcalc.
  assert (getBasePledge (db_begin (T := T) (db c)) = basePledge (wholeNetworkNum (Height tip)) 0) as Hpl.
  { unfold getBasePledge, getWholeNetworkPledgeAndNum, getWholeNetworkNum. by rewrite <- height_begin, Hmax. }
  rewrite Hpl in *. destruct (basePledge _ _) as [pledge|e|] eqn:Hpledge; [|done..]. cbn [mbind res_bind] in Hcalc.
  destruct (NextMinerDifficulty gd 0 pledge) as [t|e|] eqn:Ht; [|done..]. cbn [mbind res_bind] in Hcalc.
  destruct (BigToCompact (Some gd)) as [gb|e|] eqn:Hgb; [|done..]. cbn [mbind res_bind] in Hcalc.
  destruct (BigToCompact (Some t)) as [lb|e|] eqn:Hlb; [|done..]. cbn [mbind res_bind] in Hcalc.
  rewrite (decide_ext _ (retargets (Height tip))) in Hcalc by by apply retargets_miner.
  rewrite Hgd. unfold retargets in *. destruct (decide (Height tip ≠ 1 ∧ Height tip mod 10 = 1)) as [Hre|Hre].
  - destruct (Hlink Hre) as [Hhash Hl]. rewrite (used_times_sub_time 10 (Height tip)) in Hcalc; try done;
      [|Z.to_euclidean_division_equations; lia|by rewrite Hby].
    destruct (sub_time _ _ _ _) as [sub|e|]; [|done..]. cbn [mbind res_bind] in *. rewrite Hgb. cbn [mbind res_bind] in *.
    cbn [globalBits] in Hcalc.
    destruct (CalcNextGlobalRequiredDifficulty 0 (i64 sub) gb) as [gb'|e|] eqn:Hnext; [|done..].
    cbn [mbind res_bind] in Hcalc.
    destruct (NextMinerDifficulty (CompactToBig gb') 0 pledge) as [t'|e|] eqn:Ht'; [|done..]. cbn [mbind res_bind] in Hcalc.
    destruct (BigToCompact (Some t')) as [lb'|e|] eqn:Hlb'; [|done..]. cbn [mbind res_bind] in Hcalc.
    injection Hcalc as <-. exists (CompactToBig gb'), pledge, t'. cbn [globalBits localBits].
    split_and!; try done; [by eapply retarget_capped|by right].
  - injection Hcalc as <-. exists gd, pledge, t. cbn [globalBits localBits]. split_and!; try done. by left.
Qed.

(** A block with these targets whose hash reaches its own passes the check. *)
Lemma difficultDetection_passes b c gd' pledge t σ root gb lb :
  updateDifficulty (Height b -₆₄ 1) (db_begin (T := T) (db c)) = Ok (Some gd') →
  getBasePledge (db_begin (T := T) (db c)) = Ok pledge → NextMinerDifficulty gd' 0 pledge = Ok t →
  BigToCompact (Some t) = Ok lb → gd' ≤ powLimit → BigToCompact (Some gd') = Ok gb ∨ gd' = CompactToBig gb →
  getSnapRoot (D := D) (S := SD) (db_begin (T := T) (db c)) = Ok root → state_New (S := SD) root (db c) = Ok σ →
  GlobalDifficulty b = Some (CompactToBig gb) → Difficulty b = Some (CompactToBig lb) →
  HashToBig (diffhash_Hash (MinerHash sha3_Sum256 b)) < CompactToBig lb →
  difficultDetection (SD := SD) sha3_Sum256 diffhash_Hash b (db c) (db_begin (T := T) (db c)) = Ok tt.
Proof.
  intros Hup Hpl Ht Hlb Hcap Hgb Hroot Hσ Hg Hd Hhash.
  assert (∀ l, 0 ≤ HashToBig l) as Hnn.
  { intros l. unfold HashToBig. apply big_SetBytes_bound. }
  pose proof (Hnn (diffhash_Hash (MinerHash sha3_Sum256 b))) as Hn.
  pose proof (NextMinerDifficulty_bounds _ _ _ _ Ht) as Hb.
  assert (0 < t) as Hpos.
  { destruct (decide (t ≤ 0)) as [Hz|]; [|lia]. pose proof (compact_sign t lb Hz Hlb). lia. }
  destruct (compact_stable t lb) as [Hst _]; [lia|done|].
  unfold difficultDetection. rewrite Hup. cbn [mbind res_bind]. rewrite Hg, Hd.
  assert (BigToCompact (Some gd') = BigToCompact (Some (CompactToBig gb))) as Hsame.
  { destruct Hgb as [Hgb| ->]; [|done]. rewrite Hgb. symmetry. apply (compact_stable gd'); [lia|done]. }
  rewrite Hsame. destruct (BigToCompact (Some (CompactToBig gb))) as [c1|e|] eqn:E; [|done..].
  cbn [mbind res_bind]. rewrite (decide_False (P := c1 ≠ c1)) by (intros Hne; by apply Hne).
  rewrite Hroot. cbn [mbind res_bind]. rewrite Hσ. cbn [mbind res_bind]. rewrite Hpl. cbn [mbind res_bind].
  rewrite Ht. cbn [mbind res_bind]. rewrite Hlb, Hst. cbn [mbind res_bind].
  rewrite (decide_False (P := lb ≠ lb)) by (intros Hne; by apply Hne). cbn zeta. by rewrite decide_False by lia.
Qed.

(** ** The block of a round *)

Lemma sectionCalcDifficulty_found k : ∀ start target b b',
  sectionCalcDifficulty sha3_Sum256 diffhash_Hash k start target b = Some b' →
  (∃ nonce, b' = with_nonce nonce (Some target) b) ∧
  HashToBig (diffhash_Hash (MinerHash sha3_Sum256 b')) < target.
Proof.
  induction k as [|k IH]; intros start target b b'; [done|]. cbn [sectionCalcDifficulty]. cbn zeta.
  case_decide as Hlt; [intros [= <-]; split; [by eexists|done]|].
  intros Hk. destruct (IH _ _ _ _ Hk) as [[nonce ->] Hh]. split; [by exists nonce|done].
Qed.

(** What a new block has, whatever the clock. *)
Lemma NewBlock_inv now txs a c b :
  NewBlock g cfg now txs a c = Ok b →
  ∃ h prevHash txs' root, getMaxBlockHeight (Dbase (db c)) = Ok h ∧ distr g txs a (h +₆₄ 1) = Ok txs' ∧
    getSnapRoot (D := D) (S := SD) (Dbase (db c)) = Ok root ∧ SnapRoot b = root ∧
    (h +₆₄ 1 > InitHeight → getHash h (Dbase (db c)) = Ok prevHash) ∧ PrevHash b = prevHash ∧
    Height b = h +₆₄ 1 ∧ Miner b = a ∧ Transactions b = (λ st, FTx st 0 (h +₆₄ 1)) <$> txs'.
Proof.
  unfold NewBlock. intros H'. destruct (getMaxBlockHeight _) as [h|e|] eqn:Hh; [|done..]. cbn [mbind res_bind] in H'.
  cbn zeta in H'. destruct (if decide _ then _ else _) as [ph|e|] eqn:Hp in H'; [|done..]. cbn [mbind res_bind] in H'.
  destruct (distr _ _ _ _) as [txs'|e|] eqn:Hd in H'; [|done..]. cbn [mbind res_bind] in H'.
  destruct (GetMtHash _) as [rt|e|] in H'; [|done..]. cbn [mbind res_bind] in H'.
  destruct (getSnapRoot _) as [sr|e|] eqn:Hs in H'; [|done..]. cbn [mbind res_bind] in H'. injection H' as <-.
  exists h, ph, txs', sr. split_and!; try done. intros Hi. by rewrite decide_True in Hp.
Qed.

Lemma distr_app txs a h txs' : distr g txs a h = Ok txs' → ∃ total from,
  GetMinerAmount h = Ok total ∧ txs' = txs ++ [STx (Tx 0 CoinBaseTransaction from a total h 0 0 0 []) (Sig Byte.x00 [])].
Proof.
  unfold distr. intros H'. destruct (GetMinerAmount h) as [total|e|]; [|done..]. cbn [mbind res_bind] in H'.
  destruct (match NewAddrFromString _ _ with Ok _ => _ | Err _ => _ | Panic => _ end) as [from|e|]; [|done..].
  injection H' as <-. by exists total, from.
Qed.

Lemma seal_inv now n b b' : seal (D := D) (SD := SD) sha3_Sum256 now n b = Ok b' →
  MinerHash sha3_Sum256 b' = MinerHash sha3_Sum256 b ∧ Height b' = Height b ∧ Transactions b' = Transactions b ∧
  PrevHash b' = PrevHash b ∧ SnapRoot b' = SnapRoot b ∧
  Difficulty b' = Some (CompactToBig (localBits (targets n))) ∧
  GlobalDifficulty b' = Some (CompactToBig (globalBits (targets n))).
Proof.
  unfold seal. cbn zeta. set (b0 := MkBlock _ _ _ _ _ _ _ _ _ _ _ _ _ _ _).
  destruct (SetHash sha3_Sum256 b0) as [b1|e|] eqn:Hs; [|done..]. intros [= <-]. unfold SetHash in Hs.
  destruct (Serialize _) as [data|e|] in Hs; [|done..]. injection Hs as <-. done.
Qed.

Lemma check_gas_mined h coinbase txs : IsCoinBaseTransaction (st_tx coinbase) = true →
  Forall (λ st, checkGas (GasLimit (st_tx st)) (GasPrice (st_tx st)) = Ok tt) txs →
  check_gas_all ((λ st, FTx st 0 h) <$> txs ++ [coinbase]) = Ok tt.
Proof.
  intros Hcb. rewrite fmap_app. induction 1 as [|st txs Hst _ IH]; cbn [app fmap list_fmap check_gas_all].
  - unfold ft_tx. cbn [ft_st]. by rewrite Hcb.
  - unfold ft_tx. cbn [ft_st]. rewrite Hst. cbn [mbind res_bind]. by destruct (IsCoinBaseTransaction (st_tx st)).
Qed.

Lemma snapRoot_begin d : getSnapRoot (D := D) (S := SD) (Dbase d) = getSnapRoot (D := D) (S := SD) (db_begin (T := T) d).
Proof. unfold getSnapRoot. by rewrite kv_Get_begin. Qed.

(** C6: the miner and the check agree: a block made on the tip of the chain, with the
    targets set for that tip, a nonce found for them and sealed with them, passes the
    chain's own check of blocks; in particular, when the targets change after ten blocks,
    both compute the same ones, though the miner walks back by hash and the check by
    height.  The tip's target is at most the limit, the blocks name their predecessors,
    the state can be opened, and the transactions are at most a hundred with gas in
    bounds, as the pool's are. *)
Theorem mined_block_regular (n : node (D := D) (SD := SD)) tip gd x now now' txs a k start b0 b1 b :
  let c := Bc (cons n) in
  Tip (Dbase (db c)) = Ok tip → getMaxBlockHeight (Dbase (db c)) = Ok (Height tip) → 1 ≤ Height tip < MAXUINT64 →
  GlobalDifficulty tip = Some gd → gd ≤ powLimit →
  (retargets (Height tip) → getBlockByHash (BHash tip) (Dbase (db c)) = Ok tip ∧ linked 9 (Height tip) (db c)) →
  (∀ root, getSnapRoot (D := D) (S := SD) (Dbase (db c)) = Ok root → is_Ok (state_New (S := SD) root (db c))) →
  (length txs ≤ PendingLimit)%nat →
  Forall (λ st, checkGas (GasLimit (st_tx st)) (GasPrice (st_tx st)) = Ok tt) txs →
  calcNextRequiredDifficulty (T := T) c x = (Ok tt, targets n) →
  NewBlock g cfg now txs a c = Ok b0 →
  sectionCalcDifficulty sha3_Sum256 diffhash_Hash k start (CompactToBig (localBits (targets n))) b0 = Some b1 →
  seal sha3_Sum256 now' n b1 = Ok b →
  CheckBlockRegular (T := T) sha3_Sum256 diffhash_Hash b c = Ok tt.
Proof.
  intros c Htip Hmax Hh Hgd Hcap Hlink Hstate Hlen Hgas Hcalc Hnew Hnonce Hseal.
  destruct (targets_agree c tip gd x (targets n)) as (gd' & pledge & t & Hup & Hpl & Ht & Hlb & Hcap' & Hgb); try done; [lia|].
  destruct (NewBlock_inv _ _ _ _ _ Hnew) as (h & ph & txs' & root & Hmax' & Hd & Hroot & _ & _ & _ & Hb0 & _ & Htx).
  rewrite Hmax in Hmax'. injection Hmax' as <-.
  destruct (sectionCalcDifficulty_found _ _ _ _ _ Hnonce) as [[nonce ->] Hhash].
  destruct (seal_inv _ _ _ _ Hseal) as (Hmh & Hb & Htx' & _ & _ & Hdif & Hglob).
  cbn [with_nonce Height Transactions] in Hb, Htx'. rewrite Htx in Htx'.
  destruct (distr_app _ _ _ _ Hd) as (total & from & _ & ->).
  destruct (Hstate root Hroot) as [σ Hσ]. unfold CheckBlockRegular, checkBlockRegular.
  rewrite decide_False by (rewrite Htx', length_fmap, length_app; unfold PendingLimit in *; simpl; lia).
  rewrite (difficultDetection_passes b c gd' pledge t σ root (globalBits (targets n)) (localBits (targets n))); try done.
  - cbn [mbind res_bind]. rewrite Htx'. by apply check_gas_mined.
  - rewrite Hb, Hb0. replace (Height tip +₆₄ 1 -₆₄ 1) with (Height tip); [done|].
    rewrite add64_small, sub64_small by (unfold MAXUINT64 in *; lia). lia.
  - by rewrite Hmh.
Qed.

End Regular.

(** ** The transactions of a mined block *)

Section Applies.
Context {D SD T : Type} `{!Badger T, !BadgerDB D T, !StateDB SD, !StateDBLaws SD, !StateStore D SD, !EvmRuntime SD}.
Context `{!BadgerLaws T, !CborHeader, !Crypto, !EthCommon, !EvmData}.
Variables (g : globals) (cfg : ChainConfig) (L : list bytes) (HL : NoDup L).
Context (Hfrozen : ∀ c, c ∈ L → frozen_acct c ∉ L).
Context (As : list Address) (Hsep : ∀ a a', a ∈ As → a' ∈ As → separate g a a').
Context (Has : ∀ a, a ∈ As → known a ∧ listed g L a).
Implicit Types (w : world D SD T) (b : Block).

#[local] Instance mined_chain : IBlockchain (chain D SD) := chain_pool g.
#[local] Instance mined_chain_laws : IBlockchainLaws (chain D SD) := chain_pool_laws g.

(** The loop runs over two lists one after the other. *)
Lemma apply_txs_app b h l k : ∀ i gas w out gas1 w1 r w2,
  apply_txs g true b h i gas l w = (Ok (out, gas1), w1) →
  apply_txs g true b h (i + Z.of_nat (length l)) gas1 k w1 = (Ok r, w2) →
  ∃ r', apply_txs g true b h i gas (l ++ k) w = (Ok r', w2).
Proof.
  induction l as [|tx l IH]; intros i gas w out gas1 w1 r w2 Hl Hk.
  { injection Hl as <- <- <-. exists r. by rewrite Z.add_0_r in Hk. }
  cbn [apply_txs app] in *. apply stM_bind_Ok in Hl as (u & w3 & Hlog & Hl).
  apply stM_bind_Ok in Hl as (tx' & w4 & Hap & Hl). apply stM_bind_Ok in Hl as ([l' gas'] & w5 & Hrec & Hl).
  injection Hl as <- <- <-. destruct (IH _ _ _ _ _ _ _ _ Hrec ltac:(by rewrite <- Zplus_assoc, Z.add_1_l, <- Nat2Z.inj_succ)) as [[l2 g2] Hrun].
  eexists. rewrite (st_bind_eq _ _ _ _ _ Hlog), (st_bind_eq _ _ _ _ _ Hap), (st_bind_eq _ _ _ _ _ Hrun). done.
Qed.

(** The coinbase pays its whole amount. *)
Lemma coinbase_runs b h i gas from total w :
  let tx := FTx (STx (Tx 0 CoinBaseTransaction from (Miner b) total h 0 0 0 []) (Sig Byte.x00 [])) 0 h in
  is_Some (prefixSet (CurrentNetWork g)) → known from → listed g L (Miner b) → is_u64 total →
  balances_ok (w_sdb w) → Supply.total L (w_sdb w) + total ≤ MAXUINT64 →
  ∃ out w', apply_txs g true b h i gas [tx] w = (Ok out, w') ∧ changes L total (w_sdb w) (w_sdb w').
Proof.
  intros tx Hnet Hfrom Hmin Htot Hok Hmax. pose proof Hmin as (cm & Hcm & HmL). destruct w as [d σ t e]. cbn [w_sdb] in *.
  destruct (setTxbyaddr_run (Bytes (Miner b)) (Hash (ft_tx tx)) h i t) as [t1 Ht1].
  pose proof (balance_le_total L σ cm Hok HmL) as Hb. pose proof (Hok cm) as Hcmr. unfold is_u64 in *.
  assert (log_texts g [from] = Ok tt) as Hlog.
  { destruct (known_roundtrip g from Hnet Hfrom) as (text & Henc & _). cbn [log_texts]. unfold String. by rewrite Henc. }
  pose (σ1 := sdb_SetBalance cm (sdb_GetBalance cm σ + 0) σ).
  assert (changes L 0 σ σ1) as [Hok1 Ht'].
  { split; [apply balances_ok_set; [done|unfold is_u64; lia]|]. unfold σ1. rewrite total_set by done. lia. }
  assert (sdb_GetBalance cm σ1 = sdb_GetBalance cm σ) as Hb1.
  { unfold σ1. rewrite balance_SetBalance, decide_True by done. lia. }
  eexists _, (World d (sdb_SetBalance cm (sdb_GetBalance cm σ1 + total) σ1) t1 e). split.
  - cbn [apply_txs]. unfold ft_tx. cbn [ft_st tx st_tx From].
    rewrite (st_bind_eq _ _ (World d σ t e) tt (World d σ t e)) by (unfold st_lift; by rewrite Hlog).
    erewrite st_bind_eq; [done|]. unfold apply_tx. unfold ft_tx. cbn [ft_st tx st_tx].
    change (IsCoinBaseTransaction _) with true. cbn iota zeta. cbn [To GasLimit GasPrice From].
    erewrite st_bind_eq by (apply on_tx_run; exact Ht1).
    erewrite st_bind_eq.
    2:{ apply logged_run, on_sdb_run. rewrite (setMinerFee_run g _ cm) by (try done; apply mul64_range).
        cbn [w_sdb GasUsed set_gas]. change (0 *₆₄ 0) with 0. rewrite decide_True by lia. fold σ1. done. }
    erewrite st_bind_eq; [done|]. apply logged_run, on_sdb_run. cbn [w_sdb].
    rewrite (setToAccount_run g _ cm) by (try done; cbn [Amount]; unfold is_u64; lia).
    cbn [Amount]. rewrite decide_True by lia. done.
  - cbn [w_sdb]. split; [apply balances_ok_set; [done|unfold is_u64; lia]|]. rewrite total_set by done. lia.
Qed.

(** C5: a block made of what the pool offers can be applied: for transfers in the pool,
    the loop that applies a block carries out every transaction of the block that
    [NewBlock] makes of them, the coinbase included, in their order; afterwards there is
    more money by exactly the reward.  No nonce is wrong and no balance too small when its
    turn comes.  The accounts are in the list [L], which holds no account of frozen money;
    no account has more frozen than it has, and the supply with the reward stays
    [2 * MAXGASLIMIT] below 2^64. *)
Theorem mined_block_applies (p p' : Pool (chain D SD)) (ts : list SignedTransaction) (from : Address)
    (now reward : Z) (b b' : Block) w :
  reachable g (pq p) → Forall fine (stList (pq p)) → Forall (λ st, transfer As (st_tx st)) (stList (pq p)) →
  Pending g p = (Ok ts, p') → NewBlock g cfg now ts (Miner b') (pbc p) = Ok b →
  Transactions b' = Transactions b → Height b' = Height b →
  NewAddrFromString g (GenesisAddress g) = Ok from → known from → GetMinerAmount (Height b) = Ok reward →
  w_sdb w = sdb (pbc p) → listed g L (Miner b') → balances_ok (w_sdb w) →
  Supply.total L (w_sdb w) + reward + 2 * MAXGASLIMIT ≤ MAXUINT64 →
  (∀ c, c ∈ L → sdb_GetBalance (frozen_acct c) (w_sdb w) ≤ sdb_GetBalance c (w_sdb w)) →
  is_Some (prefixSet (CurrentNetWork g)) →
  ∃ out w', apply_txs g true b' (Height b') 0 0 (Transactions b') w = (Ok out, w') ∧
    Supply.total L (w_sdb w') = Supply.total L (w_sdb w) + reward.
Proof.
  intros Hr Hfine Htr HP Hnew Htx Hh Hgen Hknown Hreward Hw Hmin Hok Hmax Hfz Hnet.
  destruct (NewBlock_inv _ _ _ _ _ _ _ Hnew) as (h & ph & txs' & root & _ & Hd & _ & _ & _ & _ & Hb & _ & Htxs).
  rewrite <- Hb in Hd, Htxs. unfold distr in Hd. rewrite Hreward, Hgen in Hd. cbn [mbind res_bind] in Hd. injection Hd as <-.
  pose proof (GetMinerAmount_range _ _ Hreward) as Hrw.
  destruct (Pending_runs g L HL Hfrozen As Hsep Has p p' ts ((λ st, FTx st 0 (Height b)) <$> ts) b' (Height b) 0 0 w)
    as ([out gas1] & w1 & Hrun & Hok1 & Ht1); try done.
  { rewrite <- list_fmap_compose. apply list_fmap_id. }
  { unfold is_u64 in *. lia. }
  destruct (coinbase_runs b' (Height b) (0 + Z.of_nat (length ((λ st, FTx st 0 (Height b)) <$> ts))) gas1 from reward w1)
    as (out2 & w2 & Hcb & _ & Ht2); try done; [unfold MAXGASLIMIT in *; lia|].
  rewrite Htx, Hh, Htxs, fmap_app. destruct (apply_txs_app _ _ _ _ _ _ _ _ _ _ _ _ Hrun Hcb) as [r' Hall].
  exists r', w2. split; [exact Hall|]. lia.
Qed.

End Applies.

(** ** Witnesses *)

(** A miner on the chain of [ChainSample] after its first block, with a transfer to mine;
    the proof-of-work hash is the first two bytes of the input. *)
Module MiningSample.
Import MapTxn MapState MapWorld CryptoInstance.

Definition diffhash (b : bytes) : bytes := take 2 b.
Definition calc : res unit * bits := calcNextRequiredDifficulty (T := MapTxn.txn) ChainSample.c1 (Bits 0 0).
Definition x : bits := Eval vm_compute in calc.2.
Definition txs : list SignedTransaction := [PoolChainSample.send Sample.bob 2 300].
Definition made : res Block := NewBlock Sample.g ChainSample.cfg 1600000100 txs Sample.bob ChainSample.c1.
Definition b0 : Block := Eval vm_compute in match made with Ok b => b | _ => ChainSample.b0 end.
Definition found : option Block := sectionCalcDifficulty id diffhash 3 7 (CompactToBig (localBits x)) b0.
Definition b1 : Block := Eval vm_compute in default b0 found.
Definition n : node := Node (Consensus.New ChainSample.c1) newQueue [] x Sample.bob 1600000000.
Definition b : Block := Eval vm_compute in match seal id 1600000130 n b1 with Ok b => b | _ => b1 end.

Example made_Ok : made = Ok b0.
Proof. vm_compute. reflexivity. Qed.
Example calc_Ok : calc = (Ok tt, x).
Proof. vm_compute. reflexivity. Qed.
Example found_Some : found = Some b1.
Proof. vm_compute. reflexivity. Qed.
End MiningSample.

Lemma mined_block_regular_witness :
  Height MiningSample.b = 60350424 ∧ length (Transactions MiningSample.b) = 2%nat ∧
  CheckBlockRegular (T := MapTxn.txn) id MiningSample.diffhash MiningSample.b ChainSample.c1 = Ok tt.
Proof.
  split; [reflexivity|]. split; [reflexivity|].
  refine (mined_block_regular Sample.g ChainSample.cfg id MiningSample.diffhash MiningSample.n ChainSample.b1 70000
    (Bits 0 0) 1600000100 1600000130 MiningSample.txs Sample.bob 3 7 MiningSample.b0 MiningSample.b1 MiningSample.b
    _ _ _ _ _ _ _ _ _ _ _ _ _).
  - vm_compute. reflexivity.
  - vm_compute. reflexivity.
  - vm_compute. split; [discriminate|reflexivity].
  - reflexivity.
  - vm_compute. discriminate.
  - intros [_ Hmod]. vm_compute in Hmod. discriminate.
  - intros root Hroot. apply is_Ok_check. vm_compute in Hroot. injection Hroot as <-. vm_compute. reflexivity.
  - vm_compute. lia.
  - constructor; [vm_compute; reflexivity|constructor].
  - exact MiningSample.calc_Ok.
  - exact MiningSample.made_Ok.
  - exact MiningSample.found_Some.
  - vm_compute. reflexivity.
Defined.

(** The two transfers of [PoolChainSample], mined by bob. *)
Module AppliesSample.
Import MapTxn MapState MapWorld CryptoInstance.

Definition gen : Address := Eval vm_compute in
  match NewAddrFromString Sample.g (GenesisAddress Sample.g) with Ok a => a | _ => Undef end.
Definition run : res (list SignedTransaction) * Pool (chain mdb state) := Pending Sample.g PoolChainSample.p.
Definition ts : list SignedTransaction := Eval vm_compute in match run.1 with Ok ts => ts | _ => [] end.
Definition b : Block := Eval vm_compute in
  match NewBlock Sample.g ChainSample.cfg 1600000100 ts Sample.bob (pbc PoolChainSample.p) with Ok b => b | _ => ChainSample.b0 end.
Definition reward : Z := Eval vm_compute in match GetMinerAmount (Height b) with Ok a => a | _ => 0 end.

Lemma offered : run = (Ok ts, run.2).
Proof. by_run. Qed.
End AppliesSample.

Lemma mined_block_applies_witness : length (Transactions AppliesSample.b) = 3%nat ∧
  ∃ out w', apply_txs (T := MapTxn.txn) Sample.g true AppliesSample.b 60350423 0 0 (Transactions AppliesSample.b)
      ChainSample.w0 = (Ok out, w') ∧
    total PoolChainSample.L (w_sdb w') = total PoolChainSample.L (w_sdb ChainSample.w0) + AppliesSample.reward.
Proof.
  split; [reflexivity|].
  assert (Hnd : NoDup PoolChainSample.L) by (apply (bool_decide_unpack _); vm_compute; exact I).
  refine (mined_block_applies Sample.g ChainSample.cfg PoolChainSample.L Hnd PoolChainSample.L_frozen PoolChainSample.As
    PoolChainSample.As_separate PoolChainSample.As_listed PoolChainSample.p AppliesSample.run.2 AppliesSample.ts
    AppliesSample.gen 1600000100 AppliesSample.reward AppliesSample.b AppliesSample.b ChainSample.w0
    (QueueSample.feed_reachable _) _ _ AppliesSample.offered _ eq_refl eq_refl _ _ _ eq_refl _ Sample.s0_ok _
    PoolChainSample.L_covered _).
  - apply PoolChainSample.Forall_feed. repeat (apply Forall_cons; split); [..|apply Forall_nil, I];
      (split; [left; vm_compute; reflexivity|]; split; [left; vm_compute; reflexivity|];
       split; [split|]; vm_compute; reflexivity || discriminate).
  - apply PoolChainSample.Forall_feed. repeat (apply Forall_cons; split); [..|apply Forall_nil, I];
      (split; [reflexivity|]; split; [split; [split|]; vm_compute; reflexivity || discriminate|];
       split; [left|]; split; [apply (bool_decide_unpack _); vm_compute; exact I|];
       vm_compute; discriminate).
  - vm_compute. reflexivity.
  - vm_compute. reflexivity.
  - left. vm_compute. reflexivity.
  - vm_compute. reflexivity.
  - exists Sample.cb. split; [exact Sample.bob_cb|right; left].
  - vm_compute. discriminate.
  - eexists. vm_compute. reflexivity.
Defined.
