(* ===== verification/ClassGroup.v ===== *)
(** The class group the proof-of-work hash computes in: binary quadratic forms
    ([pkg/util/difficulty/hash/group.go], of which [pkg/miner/hash] has an identical copy).

    A [big.Int] is a [Z].  Go's division by zero panics and [Z]'s does not; the divisors are
    never zero for positive definite forms, which are the ones the theorems are about.  The
    cached discriminant is computed anew here, as forms are never changed. *)

From S2P Require Import Prelude Base58.

(** The form [ga x^2 + gb x y + gc y^2]. *)
Record group := newGroup { ga : Z; gb : Z; gc : Z }.

#[global] Instance group_eq_dec : EqDecision group.
Proof. solve_decision. Defined.

(** ** [math/big] *)

(** [x.QuoRem(y)] truncates; the quotient is lowered when the signs of the remainder and
    the divisor differ. *)
Definition floorDivision (x y : Z) : Z :=
  let q := Z.quot x y in
  let r := Z.rem x y in
  if decide ((Z.sgn r = 1 ∧ Z.sgn y = -1) ∨ (Z.sgn r = -1 ∧ Z.sgn y = 1)) then q - 1 else q.

(** [x.DivMod(y)] is Euclidean division, and [x.Mod(y)] its remainder. *)
Definition big_Mod (x y : Z) : Z := x mod Z.abs y.
Definition big_Div (x y : Z) : Z := Z.sgn y * (x / Z.abs y).

(** [x.GCD(nil, nil, ...)] of positive numbers. *)
Definition allInputValueGCD (a b : Z) : Z :=
  if decide (Z.sgn a = 0) then Z.abs b else
  if decide (Z.sgn b = 0) then Z.abs a else Z.gcd (Z.abs a) (Z.abs b).

(** ** Linear congruences *)

(** The loop of [extendedGCD]. *)
Fixpoint egcd_loop (fuel : nat) (r0 r1 s0 s1 t0 t1 : Z) : Z * Z * Z :=
  match fuel with
  | O => (r0, s0, t0)
  | S fuel =>
      if decide (Z.sgn r1 = 1) then
        let q := big_Div r0 r1 in
        egcd_loop fuel r1 (big_Mod r0 r1) s1 (s0 - q * s1) t1 (t0 - q * t1)
      else (r0, s0, t0)
  end.

(** Two steps halve the remainder, so that these are enough ([egcd_spec]). *)
Definition egcd_fuel (a b : Z) : nat := Z.to_nat (2 * Z.log2 (Z.max a b)) + 3.

(** It starts with the smaller number. *)
Definition extendedGCD (a b : Z) : Z * Z * Z :=
  if decide (a > b) then egcd_loop (egcd_fuel a b) b a 0 1 1 0
  else egcd_loop (egcd_fuel a b) a b 1 0 0 1.

(** The [s] with [a s = b] modulo [m], and the distance [t] of the solutions. *)
Definition solveMod (a b m : Z) : option (Z * Z) :=
  let '(g, d, _) := extendedGCD a m in
  if decide (big_Mod b g ≠ 0) then None
  else Some (big_Mod (big_Div b g * d) m, floorDivision m g).

(** ** Forms *)

Definition newGroupFromDiscriminant (a b d : Z) : group :=
  newGroup a b (floorDivision (b * b - d) (a * 4)).

Definition identityForDiscriminant (d : Z) : group := newGroupFromDiscriminant 1 1 d.

Definition discriminant (g : group) : Z := gb g * gb g - ga g * gc g * 4.

Definition identity (g : group) : group := newGroupFromDiscriminant 1 1 (discriminant g).

(** [Bytes] is the absolute value. *)
Definition Serialize (g : group) : bytes := (big_Bytes (ga g) ++ big_Bytes (gb g)) ++ big_Bytes (gc g).

Definition normalized (g : group) : group :=
  let '(newGroup a b c) := g in
  if decide (b > - a ∧ b <= a) then g else
  let r := floorDivision (a - b) (a * 2) in
  newGroup a (b + 2 * r * a) (c + a * r * r + b * r).

(** The loop of [reduced]. *)
Fixpoint reduce_loop (fuel : nat) (g : group) : group :=
  match fuel with
  | O => g
  | S fuel =>
      let '(newGroup a b c) := g in
      if decide (a > c ∨ (a = c ∧ Z.sgn b = -1)) then
        let s := floorDivision (c + b) (c + c) in
        reduce_loop fuel (newGroup c (- b + 2 * s * c) (c * s * s - b * s + a))
      else g
  end.

(** Every round but the last three divides the first coefficient by at least three, so
    that these are enough ([reduced_spec]). *)
Definition reduce_fuel (g : group) : nat := Z.to_nat (Z.log2 (ga g)) + 4.

Definition reduced (g : group) : group :=
  let g := normalized g in
  normalized (reduce_loop (reduce_fuel g) g).

(** ** Composition; [None] is nil *)

Definition multiply (g0 g1 : group) : option group :=
  let x := reduced g0 in
  let y := reduced g1 in
  let g := floorDivision (gb x + gb y) 2 in
  let h := floorDivision (gb y - gb x) 2 in
  let w1 := allInputValueGCD (ga y) g in
  let w := allInputValueGCD (ga x) w1 in
  let j := w in
  let r := 0 in
  let s := floorDivision (ga x) w in
  let t := floorDivision (ga y) w in
  let u := floorDivision g w in
  let sc := s * gc x in
  let b := h * u + sc in
  '(k_temp, constant_factor) ← solveMod (t * u) b (s * t);
  '(n, _) ← solveMod (t * constant_factor) (h - t * k_temp) s;
  let k := k_temp + constant_factor * n in
  let l := floorDivision (t * k - h) s in
  let tuk := t * u * k - h * u - sc in
  let st := s * t in
  let m := floorDivision tuk st in
  let a3 := st - r * u in
  let b3 := j * u + m * r - (k * t + l * s) in
  let c3 := k * l - j * m in
  Some (reduced (newGroup a3 b3 c3)).

Definition square (g : group) : option group :=
  '(u, _) ← solveMod (gb g) (gc g) (ga g);
  let A := ga g * ga g in
  let au := ga g * u in
  let B := gb g - au * 2 in
  let C := u * u in
  let m := floorDivision (gb g * u - gc g) (ga g) in
  let C := C - m in
  Some (reduced (newGroup A B C)).

(** The loop of [pow]; an [int64] has 63 bits above zero. *)
Fixpoint pow_loop (fuel : nat) (n : Z) (x items_prod : group) : option group :=
  match fuel with
  | O => Some items_prod
  | S fuel =>
      if decide (n > 0) then
        items_prod ← (if decide (Z.land n 1 = 1) then multiply items_prod x else Some items_prod);
        x ← square x;
        pow_loop fuel (Z.shiftr n 1) x items_prod
      else Some items_prod
  end.
Definition pow (g : group) (n : Z) : option group := pow_loop 64 n g (identity g).
