(* ===== verification/ClassGroupFacts.v ===== *)
(** The class group is one: congruences are solved exactly when they can be, reduction ends
    and finds the one reduced form of each class, and composition is total, commutative and
    has a unit. *)

From Stdlib Require Import Znumtheory.
From S2P Require Import Prelude Base58 ClassGroup.

(** ** Division *)

Lemma floorDivision_div x y : y ≠ 0 → floorDivision x y = x / y.
Proof.
  intros Hy. unfold floorDivision. pose proof (Z.quot_rem x y Hy) as Hq.
  pose proof (Z.rem_bound_abs x y Hy) as Hb. pose proof (Z.rem_sign_nz x y Hy) as Hs.
  case_decide as Hd.
  - destruct (decide (0 < y)).
    + apply Z.div_unique with (Z.rem x y + y); [left; destruct Hd as [[]|[]]; lia|lia].
    + apply Z.div_unique with (Z.rem x y + y); [right; destruct Hd as [[]|[]]; lia|lia].
  - destruct (decide (0 < y)).
    + apply Z.div_unique with (Z.rem x y); [left|]; [|done]. destruct (decide (Z.rem x y < 0)); [|lia].
      exfalso. apply Hd. right. split; [by apply Z.sgn_neg|by apply Z.sgn_pos].
    + apply Z.div_unique with (Z.rem x y); [right|]; [|done]. destruct (decide (0 < Z.rem x y)); [|lia].
      exfalso. apply Hd. left. split; [by apply Z.sgn_pos|apply Z.sgn_neg; lia].
Qed.

Lemma floorDivision_exact x y q : y ≠ 0 → x = y * q → floorDivision x y = q.
Proof. intros Hy ->. rewrite floorDivision_div, Z.mul_comm by done. by apply Z.div_mul. Qed.

Lemma big_Mod_pos x y : 0 < y → big_Mod x y = x mod y.
Proof. intros Hy. unfold big_Mod. by rewrite Z.abs_eq by lia. Qed.
Lemma big_Div_pos x y : 0 < y → big_Div x y = x / y.
Proof. intros Hy. unfold big_Div. rewrite Z.sgn_pos, Z.abs_eq by lia. lia. Qed.

Lemma allInputValueGCD_gcd a b : allInputValueGCD a b = Z.gcd a b.
Proof.
  unfold allInputValueGCD. case_decide as Ha; [apply Z.sgn_null_iff in Ha as ->; by symmetry; apply Z.gcd_0_l|].
  case_decide as Hb; [apply Z.sgn_null_iff in Hb as ->; by symmetry; apply Z.gcd_0_r|].
  by rewrite Z.gcd_abs_l, Z.gcd_abs_r.
Qed.

(** ** The extended Euclidean algorithm *)

(** A step uses up one of the two logarithms; [a s + b t = r] throughout. *)
Lemma egcd_loop_spec a b fuel : ∀ r0 r1 s0 s1 t0 t1,
  0 ≤ r1 ≤ r0 → 0 < r0 → r1 = 0 ∨ Z.log2 r0 + Z.log2 r1 < Z.of_nat fuel →
  r0 = a * s0 + b * t0 → r1 = a * s1 + b * t1 → Z.gcd r0 r1 = Z.gcd a b →
  let '(r, s, t) := egcd_loop (S fuel) r0 r1 s0 s1 t0 t1 in r = Z.gcd a b ∧ a * s + b * t = r.
Proof.
  induction fuel as [|fuel IH]; intros r0 r1 s0 s1 t0 t1 Hle Hpos Hf H0 H1 Hg.
  { assert (r1 = 0) as -> by (pose proof (Z.log2_nonneg r0); pose proof (Z.log2_nonneg r1); lia).
    rewrite Z.gcd_0_r, Z.abs_eq in Hg by lia. cbn [egcd_loop]. rewrite decide_False by done. split; [done|lia]. }
  set (f := S fuel) in *. cbn [egcd_loop]. subst f. destruct (decide (Z.sgn r1 = 1)) as [Hs|Hs].
  2:{ assert (r1 = 0) as -> by (destruct (decide (r1 = 0)); [done|]; exfalso; apply Hs, Z.sgn_pos; lia).
      rewrite Z.gcd_0_r, Z.abs_eq in Hg by lia. split; [done|lia]. }
  apply Z.sgn_pos_iff in Hs. rewrite big_Mod_pos, big_Div_pos by done.
  pose proof (Z.div_mod r0 r1 ltac:(lia)) as Hd. pose proof (Z.mod_pos_bound r0 r1 Hs) as Hm.
  assert (1 ≤ r0 / r1) as Hq by (apply Z.div_le_lower_bound; lia).
  apply IH; try lia.
  - destruct (decide (r0 mod r1 = 0)) as [Hz|Hnz]; [by left|right].
    enough (Z.log2 (r0 mod r1) < Z.log2 r0) by lia.
    pose proof (Z.log2_double (r0 mod r1) ltac:(lia)) as H2.
    pose proof (Z.log2_le_mono (2 * (r0 mod r1)) r0 ltac:(nia)). lia.
  - rewrite <- Hg. rewrite (Z.gcd_comm r0 r1). rewrite Z.gcd_comm. apply Z.gcd_mod. lia.
Qed.

(** The first step makes the second number the larger one. *)
Lemma egcd_start a b r0 r1 s0 s1 t0 t1 :
  r0 ≤ r1 → 0 < r1 → r0 = a * s0 + b * t0 → r1 = a * s1 + b * t1 → Z.gcd r0 r1 = Z.gcd a b →
  let '(r, s, t) := egcd_loop (Z.to_nat (2 * Z.log2 r1) + 3) r0 r1 s0 s1 t0 t1 in
  r = Z.gcd a b ∧ a * s + b * t = r.
Proof.
  intros Hle Hpos H0 H1 Hg. pose proof (Z.mod_pos_bound r0 r1 Hpos) as Hm. pose proof (Z.log2_nonneg r1) as Hl.
  replace (Z.to_nat (2 * Z.log2 r1) + 3)%nat with (S (S (S (Z.to_nat (2 * Z.log2 r1))))) by lia.
  set (f := S (S (Z.to_nat (2 * Z.log2 r1)))). cbn [egcd_loop]. subst f. rewrite decide_True by by apply Z.sgn_pos.
  rewrite big_Mod_pos, big_Div_pos by done. pose proof (Z.div_mod r0 r1 ltac:(lia)) as Hd.
  apply egcd_loop_spec; try lia.
  - right. pose proof (Z.log2_le_mono (r0 mod r1) r1 ltac:(lia)). lia.
  - rewrite <- Hg, Z.gcd_mod_r. apply Z.gcd_comm.
Qed.

Lemma gcd_pos a m : 0 < m → 0 < Z.gcd a m.
Proof.
  intros Hm. pose proof (Z.gcd_nonneg a m). destruct (decide (Z.gcd a m = 0)) as [E|]; [|lia].
  apply Z.gcd_eq_0 in E. lia.
Qed.

Lemma extendedGCD_spec a m : 0 < m →
  let '(g, s, t) := extendedGCD a m in g = Z.gcd a m ∧ a * s + m * t = g ∧ 0 < g.
Proof.
  intros Hm. pose proof (gcd_pos a m Hm) as Hg.
  unfold extendedGCD, egcd_fuel. case_decide as Ha.
  - rewrite Z.max_l by lia. pose proof (egcd_start a m m a 0 1 1 0 ltac:(lia) ltac:(lia) ltac:(lia) ltac:(lia) (Z.gcd_comm m a)) as Hs.
    destruct (egcd_loop _ _ _ _ _ _ _) as [[g s] t]. destruct Hs as [-> Hs]. by rewrite Hs.
  - rewrite Z.max_r by lia. pose proof (egcd_start a m a m 1 0 0 1 ltac:(lia) ltac:(lia) ltac:(lia) ltac:(lia) eq_refl) as Hs.
    destruct (egcd_loop _ _ _ _ _ _ _) as [[g s] t]. destruct Hs as [-> Hs]. by rewrite Hs.
Qed.

(** ** Congruences *)

(** [solveMod] finds the solutions of [a s = b] modulo [m], and they are all [t] apart; it
    fails when there are none. *)
Lemma solveMod_cases a b m : 0 < m →
  match solveMod a b m with
  | Some (s, t) => 0 ≤ s < m ∧ (m | a * s - b) ∧ t = m / Z.gcd a m ∧ (Z.gcd a m | b)
  | None => ¬ (Z.gcd a m | b)
  end.
Proof.
  intros Hm. unfold solveMod. pose proof (extendedGCD_spec a m Hm) as He.
  destruct (extendedGCD a m) as [[g d] e]. destruct He as (Hg & Hd & Hpos).
  rewrite big_Mod_pos by done. rewrite <- Hg. destruct (decide (b mod g ≠ 0)) as [Hb|Hb].
  { rewrite <- Z.mod_divide by lia. done. }
  apply dec_stable in Hb. rewrite big_Mod_pos, big_Div_pos by done.
  split; [by apply Z.mod_pos_bound|]. split; [|split; [apply floorDivision_div; lia|by apply Z.mod_divide; lia]].
  rewrite (Z.mod_eq (b / g * d) m) by lia. exists (- (b / g) * e - a * (b / g * d / m)).
  pose proof (Z.div_mod b g ltac:(lia)) as Hq. rewrite Hb in Hq. set (q := b / g) in *. clearbody q. nia.
Qed.

(** [solveMod] solves a linear congruence: for a positive modulus it gives the solution
    [s] in range and the distance [t] of the solutions, so that every solution is one of
    [s + t n]; and it gives nothing exactly when there is no solution. *)
Theorem solveMod_correct (a b m : Z) : 0 < m →
  match solveMod a b m with
  | Some (s, t) => 0 ≤ s < m ∧ 0 < t ∧ ∀ x, (m | a * x - b) ↔ ∃ n, x = s + t * n
  | None => ∀ x, ¬ (m | a * x - b)
  end.
Proof.
  intros Hm. pose proof (solveMod_cases a b m Hm) as Hs. pose proof (Z.gcd_divide_l a m) as [a' Ha].
  pose proof (Z.gcd_divide_r a m) as [m' Hm']. pose proof (gcd_pos a m Hm) as Hg.
  destruct (solveMod a b m) as [[s t]|].
  - destruct Hs as (Hr & Hd & -> & _). set (g := Z.gcd a m) in *.
    assert (m / g = m') as Hq by (rewrite Hm'; apply Z.div_mul; lia). rewrite Hq.
    assert (Z.gcd m' a' = 1) as H1.
    { rewrite Z.gcd_comm, <- Hq. replace a' with (a / g) by (rewrite Ha at 1; apply Z.div_mul; lia).
      by apply Z.gcd_div_gcd; lia. }
    split; [done|]. split; [generalize dependent g; intros; clear - Hm Hm' Hg; nia|]. intros x. split.
    + intros Hx. assert (m | a * (x - s)) as Hdx.
      { replace (a * (x - s)) with ((a * x - b) - (a * s - b)) by lia. by apply Z.divide_sub_r. }
      assert (m' | a' * (x - s)) as Hdx'.
      { apply (Z.mul_divide_cancel_r _ _ g); [lia|]. rewrite <- Hm'.
        replace (a' * (x - s) * g) with (a * (x - s)) by (rewrite Ha at 1; lia). done. }
      apply Z.gauss in Hdx' as [n Hn]; [|done]. exists n. lia.
    + intros [n ->]. assert (a * m' = a' * m) as Ham by (clearbody g; rewrite Ha, Hm'; lia).
      replace (a * (s + m' * n) - b) with ((a * s - b) + a' * n * m) by lia.
      apply Z.divide_add_r; [done|]. by exists (a' * n).
  - intros x [k Hk]. apply Hs. exists (a' * x - k * m'). rewrite Z.mul_sub_distr_r. nia.
Qed.

(** ** Equivalence of forms *)

(** [f (p x + q y, r x + s y)]. *)
Definition transform (p q r s : Z) (f : group) : group :=
  let '(newGroup a b c) := f in
  newGroup (a * p * p + b * p * r + c * r * r)
           (2 * a * p * q + b * (p * s + q * r) + 2 * c * r * s)
           (a * q * q + b * q * s + c * s * s).

(** Two forms are in the same class: a substitution of determinant one makes one of the
    other. *)
Definition equivalent (f g : group) : Prop := ∃ p q r s, p * s - q * r = 1 ∧ g = transform p q r s f.

#[global] Instance equivalent_equivalence : Equivalence equivalent.
Proof.
  split.
  - intros [a b c]. exists 1, 0, 0, 1. split; [done|]. unfold transform. f_equal; lia.
  - intros [a b c] g (p & q & r & s & Hdet & ->). exists s, (- q), (- r), p. split; [lia|].
    assert (∀ x y, x * (p * s - q * r) = y → x = y) as Hmul by (intros x y; rewrite Hdet; lia).
    unfold transform. f_equal; do 2 apply Hmul; ring.
  - intros [a b c] f g (p & q & r & s & Hdet & ->) (p' & q' & r' & s' & Hdet' & ->).
    exists (p * p' + q * r'), (p * q' + q * s'), (r * p' + s * r'), (r * q' + s * s').
    split; [transitivity ((p * s - q * r) * (p' * s' - q' * r')); [ring|by rewrite Hdet, Hdet']|].
    unfold transform. f_equal; ring.
Qed.

#[global] Instance discriminant_equivalent : Proper (equivalent ==> eq) discriminant.
Proof.
  intros [a b c] g (p & q & r & s & Hdet & ->). unfold discriminant, transform. cbn [ga gb gc].
  transitivity ((b * b - a * c * 4) * (p * s - q * r) * (p * s - q * r)); [rewrite Hdet; ring|ring].
Qed.

(** Positive definite forms. *)
Definition definite (f : group) : Prop := 0 < ga f ∧ discriminant f < 0.

Lemma definite_gc f : definite f → 0 < gc f.
Proof. destruct f as [a b c]. unfold definite, discriminant. cbn [ga gb gc]. intros [Ha Hd]. nia. Qed.

#[global] Instance definite_equivalent : Proper (equivalent ==> iff) definite.
Proof.
  assert (∀ f g, equivalent f g → definite f → definite g) as Hone.
  { intros f g Hfg [Ha Hd]. pose proof (discriminant_equivalent f g Hfg) as He.
    destruct f as [a b c], Hfg as (p & q & r & s & Hdet & ->). split; [|by rewrite <- He].
    revert Hd. unfold discriminant, transform. cbn [ga gb gc] in *. intros Hd.
    (* 4 a f(p, r) = (2 a p + b r)^2 - D r^2 *)
    assert (p ≠ 0 ∨ r ≠ 0) as Hpr by (destruct (decide (p = 0)), (decide (r = 0)); subst; lia).
    assert (4 * a * (a * p * p + b * p * r + c * r * r) =
      (2 * a * p + b * r) * (2 * a * p + b * r) + (a * c * 4 - b * b) * (r * r)) as Hsq by ring.
    assert (∀ x, x ≠ 0 → 0 < x * x) as Hsquare by (intros x Hx; nia).
    destruct (decide (r = 0)) as [->|Hr].
    { replace (a * p * p + b * p * 0 + c * 0 * 0) with (a * (p * p)) by ring.
      apply Z.mul_pos_pos; [lia|]. apply Hsquare. lia. }
    pose proof (Hsquare r Hr) as Hrr. pose proof (Z.square_nonneg (2 * a * p + b * r)) as Hnn.
    assert (0 < (a * c * 4 - b * b) * (r * r)) by (apply Z.mul_pos_pos; lia).
    apply (Z.mul_pos_cancel_l (4 * a)); lia. }
  intros f g Hfg. split; apply Hone; [done|by symmetry].
Qed.

(** ** Reduction *)

Definition normal (f : group) : Prop := - ga f < gb f ≤ ga f.
Definition is_reduced (f : group) : Prop := normal f ∧ (ga f < gc f ∨ ga f = gc f ∧ 0 ≤ gb f).

Lemma normalized_normal f : 0 < ga f → normal (normalized f).
Proof.
  destruct f as [a b c]. unfold normal, normalized. cbn [ga]. intros Ha. case_decide; cbn [ga gb]; [lia|].
  rewrite floorDivision_div by lia. pose proof (Z.div_mod (a - b) (a * 2) ltac:(lia)).
  pose proof (Z.mod_pos_bound (a - b) (a * 2) ltac:(lia)). nia.
Qed.

Lemma normalized_equivalent f : equivalent f (normalized f).
Proof.
  destruct f as [a b c]. unfold normalized. case_decide; [done|].
  exists 1, (floorDivision (a - b) (a * 2)), 0, 1. split; [lia|]. unfold transform. f_equal; ring.
Qed.

Lemma normalized_id f : normal f → normalized f = f.
Proof. destruct f as [a b c]. unfold normal, normalized. cbn [ga gb]. intros. by rewrite decide_True by lia. Qed.

Lemma normalized_ga f : ga (normalized f) = ga f.
Proof. destruct f as [a b c]. unfold normalized. by case_decide. Qed.

(** The round of the loop. *)
Definition rho (f : group) : group :=
  let s := floorDivision (gc f + gb f) (gc f + gc f) in
  newGroup (gc f) (- gb f + 2 * s * gc f) (gc f * s * s - gb f * s + ga f).

Lemma rho_equivalent f : equivalent f (rho f).
Proof.
  destruct f as [a b c]. unfold rho. cbn [ga gb gc].
  exists 0, (-1), 1, (floorDivision (c + b) (c + c)). split; [lia|]. unfold transform. f_equal; ring.
Qed.

Lemma rho_normal f : 0 < gc f → normal (rho f).
Proof.
  intros Hc. unfold rho, normal. cbn [ga gb gc]. rewrite floorDivision_div by lia.
  pose proof (Z.div_mod (gc f + gb f) (gc f + gc f) ltac:(lia)).
  pose proof (Z.mod_pos_bound (gc f + gb f) (gc f + gc f) ltac:(lia)). nia.
Qed.

(** When the loop shrinks the form twice, it divides the first coefficient by three. *)
Lemma rho_shrinks f : definite f → normal f → ga f > gc f → gc (rho f) < gc f → 3 * gc f ≤ ga f.
Proof.
  intros Hd [Hn1 Hn2] Hgt. pose proof (definite_gc f Hd) as Hc. destruct f as [a b c].
  unfold rho. cbn [ga gb gc] in *. rewrite floorDivision_div by lia. intros Hs.
  pose proof (Z.div_mod (c + b) (c + c) ltac:(lia)) as Hdm. pose proof (Z.mod_pos_bound (c + b) (c + c) ltac:(lia)) as Hm.
  set (s := (c + b) / (c + c)) in *. clearbody s.
  destruct (decide (s ≤ -2 ∨ 2 ≤ s)) as [Hbig|Hsmall]; [nia|].
  assert (s = -1 ∨ s = 0 ∨ s = 1) as [->|[->| ->]] by lia; lia.
Qed.

(** The condition of the loop. *)
Definition shrinks (f : group) : Prop := ga f > gc f ∨ ga f = gc f ∧ gb f < 0.

Lemma reduce_loop_S fuel f :
  (shrinks f → reduce_loop (S fuel) f = reduce_loop fuel (rho f)) ∧
  (¬ shrinks f → reduce_loop (S fuel) f = f).
Proof.
  destruct f as [a b c]. unfold shrinks. cbn [reduce_loop ga gb gc]. rewrite <- Z.sgn_neg_iff.
  split; intros Hs; [by rewrite decide_True|by rewrite decide_False].
Qed.

Lemma reduce_loop_stop fuel f : definite f → normal f → ¬ shrinks f →
  equivalent f (reduce_loop (S fuel) f) ∧ is_reduced (reduce_loop (S fuel) f).
Proof.
  intros Hd Hn Hs. rewrite (proj2 (reduce_loop_S fuel f) Hs). split; [done|]. split; [done|]. unfold shrinks in Hs. lia.
Qed.

Lemma rho_step f : definite f → normal f → definite (rho f) ∧ normal (rho f).
Proof.
  intros Hd Hn. split; [exact (proj1 (definite_equivalent _ _ (rho_equivalent f)) Hd)|]. apply rho_normal. by apply definite_gc.
Qed.

(** Equal outer coefficients are dealt with in one round. *)
Lemma rho_flip f : definite f → normal f → ga f = gc f → gb f < 0 → ¬ shrinks (rho f).
Proof.
  intros Hd [Hn1 Hn2] He Hb. pose proof (definite_gc f Hd). destruct f as [a b c]. unfold rho, shrinks.
  cbn [ga gb gc] in *. rewrite floorDivision_div, Z.div_small by lia. lia.
Qed.

Lemma reduce_loop_flip fuel f : definite f → normal f → ga f = gc f → gb f < 0 →
  equivalent f (reduce_loop (S (S fuel)) f) ∧ is_reduced (reduce_loop (S (S fuel)) f).
Proof.
  intros Hd Hn He Hb. rewrite (proj1 (reduce_loop_S (S fuel) f)) by (right; lia).
  destruct (rho_step f Hd Hn) as [Hd' Hn'].
  destruct (reduce_loop_stop fuel (rho f) Hd' Hn') as [Heq Hr]; [by apply rho_flip|].
  split; [by etrans; [apply rho_equivalent|]|done].
Qed.

Lemma reduce_loop_ends n : ∀ f, definite f → normal f → ga f < 2 ^ Z.of_nat n →
  equivalent f (reduce_loop (3 + n) f) ∧ is_reduced (reduce_loop (3 + n) f).
Proof.
  induction n as [|n IH]; intros f Hd Hn Hlt; [destruct Hd; simpl in *; lia|].
  destruct (decide (ga f > gc f)) as [Hgt|Hle].
  2:{ destruct (decide (ga f = gc f ∧ gb f < 0)) as [[He Hb]|Hs]; [by apply (reduce_loop_flip (2 + n))|].
      apply (reduce_loop_stop (3 + n)); [done..|]. unfold shrinks. lia. }
  change (3 + S n)%nat with (S (3 + n)). rewrite (proj1 (reduce_loop_S (3 + n) f)) by (left; lia).
  destruct (rho_step f Hd Hn) as [Hd' Hn'].
  enough (equivalent (rho f) (reduce_loop (3 + n) (rho f)) ∧ is_reduced (reduce_loop (3 + n) (rho f))) as [Heq Hr]
    by (split; [by etrans; [apply rho_equivalent|]|done]).
  destruct (decide (gc (rho f) < gc f)) as [Hs|Hs].
  - pose proof (rho_shrinks f Hd Hn Hgt Hs). pose proof (definite_gc f Hd). apply IH; [done..|].
    change (ga (rho f)) with (gc f). rewrite Nat2Z.inj_succ, Z.pow_succ_r in Hlt by lia. lia.
  - change (ga (rho f)) with (gc f) in *.
    destruct (decide (gc f = gc (rho f) ∧ gb (rho f) < 0)) as [[He Hb]|Hb].
    + by apply (reduce_loop_flip (1 + n)).
    + apply (reduce_loop_stop (2 + n)); [done..|]. unfold shrinks. change (ga (rho f)) with (gc f). lia.
Qed.

(** The fuel is enough, whatever the form. *)
Lemma reduced_spec f : definite f → equivalent f (reduced f) ∧ is_reduced (reduced f).
Proof.
  intros Hd. unfold reduced. set (f' := normalized f). assert (definite f') as Hd' by exact (proj1 (definite_equivalent _ _ (normalized_equivalent f)) Hd).
  assert (normal f') as Hn' by (apply normalized_normal, Hd).
  destruct (reduce_loop_ends (S (Z.to_nat (Z.log2 (ga f')))) f' Hd' Hn') as [He Hr].
  { rewrite Nat2Z.inj_succ, Z2Nat.id by apply Z.log2_nonneg. apply Z.log2_spec, Hd'. }
  replace (3 + S (Z.to_nat (Z.log2 (ga f'))))%nat with (reduce_fuel f') in * by (unfold reduce_fuel; lia).
  rewrite normalized_id by apply Hr. split; [|done]. etrans; [apply normalized_equivalent|exact He].
Qed.

Lemma reduced_id f : definite f → is_reduced f → reduced f = f.
Proof.
  intros Hd [Hn Hr]. unfold reduced. rewrite (normalized_id f Hn). unfold reduce_fuel. rewrite Nat.add_comm.
  change (4 + Z.to_nat (Z.log2 (ga f)))%nat with (S (3 + Z.to_nat (Z.log2 (ga f)))).
  rewrite (proj2 (reduce_loop_S _ f)); [by apply normalized_id|]. unfold shrinks. lia.
Qed.

(** ** Each class has one reduced form *)

Lemma same_form f g : 0 < ga f → ga f = ga g → gb f = gb g → discriminant f = discriminant g → f = g.
Proof.
  destruct f as [a b c], g as [a' b' c']. unfold discriminant. cbn [ga gb gc]. intros Ha <- <- Hd. f_equal. nia.
Qed.

(** The value of a reduced form is at most its first coefficient only where one of the
    variables is zero or both are one. *)
Lemma small_product a b c p r : 0 < a → - a < b ≤ a → a ≤ c → a * p * p + b * p * r + c * r * r ≤ a → -1 ≤ p * r ≤ 1.
Proof.
  intros Ha Hb Hc Hle. pose proof (Z.square_nonneg r) as Hr.
  assert (a * (p * p + r * r) + b * (p * r) ≤ a) as Hle' by nia.
  pose proof (Z.square_nonneg (p - r)) as H1. pose proof (Z.square_nonneg (p + r)) as H2.
  set (k := p * r) in *. assert (2 * k ≤ p * p + r * r ∧ - 2 * k ≤ p * p + r * r) as [H3 H4] by (unfold k; lia).
  set (n := p * p + r * r) in *. clearbody k n. clear - Ha Hb Hle' H3 H4. nia.
Qed.

Lemma unit_product x y : x * y = 1 → (x = 1 ∧ y = 1) ∨ (x = -1 ∧ y = -1).
Proof. intros H. destruct (Z.mul_eq_1 x y H) as [->| ->]; lia. Qed.

(** The coefficients of a reduced form that a reduced form is turned into. *)
Lemma reduced_le f g : definite f → is_reduced f → is_reduced g → equivalent f g → ga g ≤ ga f → f = g.
Proof.
  intros Hd [[Hb1 Hb2] Hc] [[Hb1' Hb2'] Hc'] Heq Hle. pose proof (discriminant_equivalent f g Heq) as Hdisc.
  destruct Hd as [Ha _]. enough (ga f = ga g ∧ gb f = gb g) as [] by by apply same_form.
  destruct f as [a b c], g as [a' b' c'], Heq as (p & q & r & s & Hdet & Hg). injection Hg as Ega Egb _.
  unfold discriminant in Hdisc. cbn [ga gb gc] in *.
  assert (-1 ≤ p * r ≤ 1) as Hpr by (apply (small_product a b c); lia).
  assert (p * r = 0 ∨ p * r = 1 ∨ - p * r = 1) as [Hz|[Ho|Hm]] by lia.
  - apply Z.mul_eq_0 in Hz as [-> | ->].
    + assert (q * - r = 1) as Hqr by lia. destruct (unit_product _ _ Hqr) as [[-> Hr]|[-> Hr]];
        first [assert (r = -1) as -> by lia|assert (r = 1) as -> by lia].
      all: assert (a' = c) as -> by lia; assert (c = a) as -> by lia; assert (0 ≤ b) as Hb0 by lia.
      all: assert (∃ k, b' + b = 2 * a * k) as [k Hk] by (first [exists s; lia|exists (- s); lia]).
      all: assert (k = 0 ∨ k = 1) as [-> | ->] by (clear - Ha Hk Hb1 Hb2 Hb1' Hb2' Hb0; nia); [|lia].
      all: assert (b' = - b) as -> by lia; assert (c' = a) as -> by (clear - Ha Hdisc; nia); lia.
    + rewrite Z.mul_0_r, Z.sub_0_r in Hdet. destruct (unit_product _ _ Hdet) as [[-> ->]|[-> ->]].
      all: assert (a' = a) as -> by lia; split; [done|].
      all: assert (∃ k, b' - b = 2 * a * k) as [k Hk] by (first [exists q; lia|exists (- q); lia]).
      all: assert (k = 0) as -> by (clear - Ha Hk Hb1 Hb2 Hb1' Hb2'; nia); lia.
  - destruct (unit_product _ _ Ho) as [[-> ->]|[-> ->]]; lia.
  - destruct (unit_product _ _ Hm) as [[Hp ->]|[Hp ->]].
    all: assert (p = -1 ∨ p = 1) as [-> | ->] by lia; try lia.
    all: assert (b = a ∧ c = a ∧ a' = a) as (-> & -> & ->) by lia; split; [done|].
    all: assert (a ≤ c') as Hge by lia; clear - Ha Hdisc Hge Hb1' Hb2'; nia.
Qed.

Lemma reduced_unique f g : definite f → is_reduced f → is_reduced g → equivalent f g → f = g.
Proof.
  intros Hd Hf Hg Heq. destruct (decide (ga g ≤ ga f)); [by apply reduced_le|].
  symmetry. apply reduced_le; try done; [exact (proj1 (definite_equivalent _ _ Heq) Hd)|lia].
Qed.

(** C31: reduction ends, however large the form, and finds the canonical form of its class:
    the reduced form is reduced, has the same discriminant and is equivalent to the form by
    a substitution of determinant one; and two forms are equivalent exactly when they have
    the same reduced form. *)
Theorem reduced_canonical (f g : group) : definite f → definite g →
  is_reduced (reduced f) ∧ equivalent f (reduced f) ∧ discriminant (reduced f) = discriminant f ∧
  (equivalent f g ↔ reduced f = reduced g).
Proof.
  intros Hf Hg. destruct (reduced_spec f Hf) as [Ef Rf], (reduced_spec g Hg) as [Eg Rg].
  split; [done|]. split; [done|]. split; [symmetry; by apply discriminant_equivalent|]. split.
  - intros Hfg. apply reduced_unique; [exact (proj1 (definite_equivalent _ _ Ef) Hf)|done..|].
    etrans; [symmetry; exact Ef|]. by etrans.
  - intros Hr. rewrite Ef, Hr. by symmetry.
Qed.

(** ** Composition *)

(** What makes [f] a composition of [x] and [y]: [w] is what the first coefficients and the
    mean of the middle ones have in common, and [k] solves two congruences. *)
Definition composes (x y f : group) : Prop := ∃ w s t u h k,
  0 < w ∧ ga x = w * s ∧ ga y = w * t ∧ gb x + gb y = 2 * (w * u) ∧ gb y - gb x = 2 * h ∧
  Z.gcd s (Z.gcd t u) = 1 ∧ (s | t * k - h) ∧ (s | u * k - gc y) ∧
  ga f = s * t ∧ gb f = gb y - 2 * k * t ∧ discriminant f = discriminant x.

(** What the discriminants have in common, without the common factor. *)
Lemma compose_identity x y w s t u h : 0 < w →
  ga x = w * s → ga y = w * t → gb x + gb y = 2 * (w * u) → gb y - gb x = 2 * h →
  discriminant x = discriminant y → h * u + s * gc x = t * gc y.
Proof.
  intros Hw Ha1 Ha2 Hg Hh. unfold discriminant. rewrite Ha1, Ha2.
  replace (gb y) with (w * u + h) by lia. replace (gb x) with (w * u - h) by lia. intros Hd.
  apply (Z.mul_reg_l _ _ w); [lia|]. lia.
Qed.

Lemma same_a_equivalent f g : 0 < ga f → ga f = ga g → discriminant f = discriminant g →
  (2 * ga f | gb g - gb f) → equivalent f g.
Proof.
  intros Ha Hga Hd [k Hk]. exists 1, k, 0, 1. split; [lia|]. apply same_form; [lia| | |].
  - destruct f as [a b c], g as [a' b' c']; cbn [ga gb gc transform] in *. lia.
  - destruct f as [a b c], g as [a' b' c']; cbn [ga gb gc transform] in *. lia.
  - rewrite <- Hd. apply discriminant_equivalent. exists 1, k, 0, 1. split; [lia|done].
Qed.

Lemma divide_coprime3 s t u z : Z.gcd s (Z.gcd t u) = 1 → (s | t * z) → (s | u * z) → (s | z).
Proof.
  intros Hg Ht Hu. apply (Z.gauss s (Z.gcd t u)); [|done].
  destruct (Z.gcd_bezout t u _ eq_refl) as (p & q & <-).
  replace ((p * t + q * u) * z) with (p * (t * z) + q * (u * z)) by ring.
  by apply Z.divide_add_r; apply Z.divide_mul_r.
Qed.

(** A composition is determined up to equivalence. *)
Lemma composes_unique x y f f' : definite x → definite y → composes x y f → composes x y f' → equivalent f f'.
Proof.
  intros [Hx _] [Hy _] (w & s & t & u & h & k & Hw & Ha1 & Ha2 & Hg & Hh & H1 & Hk1 & Hk2 & Hga & Hgb & Hd)
    (w' & s' & t' & u' & h' & k' & Hw' & Ha1' & Ha2' & Hg' & Hh' & H1' & Hk1' & Hk2' & Hga' & Hgb' & Hd').
  assert (∀ w s t u, 0 < w → Z.gcd s (Z.gcd t u) = 1 → Z.gcd (w * s) (Z.gcd (w * t) (w * u)) = w) as Hgcd.
  { clear. intros w s t u Hw H1. rewrite Z.gcd_mul_mono_l, Z.abs_eq by lia. rewrite Z.gcd_mul_mono_l, H1. lia. }
  assert (w' = w) as ->.
  { rewrite <- (Hgcd w' s' t' u'), <- (Hgcd w s t u) by done.
    rewrite <- Ha1, <- Ha2, <- Ha1', <- Ha2'. do 2 f_equal. lia. }
  assert (s' = s ∧ t' = t ∧ u' = u ∧ h' = h) as (-> & -> & -> & ->) by (clear - Hw Ha1 Ha2 Hg Hh Ha1' Ha2' Hg' Hh'; nia).
  assert (s | k' - k) as [j Hj].
  { apply (divide_coprime3 s t u); [done| |].
    - replace (t * (k' - k)) with ((t * k' - h) - (t * k - h)) by ring. by apply Z.divide_sub_r.
    - replace (u * (k' - k)) with ((u * k' - gc y) - (u * k - gc y)) by ring. by apply Z.divide_sub_r. }
  assert (0 < s ∧ 0 < t) as [Hs Ht] by (clear - Hw Ha1 Ha2 Hx Hy; nia).
  apply same_a_equivalent; [rewrite Hga; nia|congruence|congruence|].
  exists (- j). rewrite Hga, Hgb, Hgb'. replace k' with (k + j * s) by lia. ring.
Qed.

Lemma composes_comm x y f : definite x → definite y → discriminant x = discriminant y → composes x y f → composes y x f.
Proof.
  intros [Hx _] _ Hd (w & s & t & u & h & k & Hw & Ha1 & Ha2 & Hg & Hh & H1 & [l Hl] & [m Hm] & Hga & Hgb & Hdf).
  assert (0 < s) as Hs by (clear - Hw Ha1 Hx; nia).
  pose proof (compose_identity x y w s t u h Hw Ha1 Ha2 Hg Hh Hd) as Hid.
  exists w, t, s, u, (- h), l. split_and!; try done; [lia|lia| | | | |lia|congruence].
  - by rewrite Z.gcd_assoc, (Z.gcd_comm t s), <- Z.gcd_assoc.
  - exists k. lia.
  - exists m. apply (Z.mul_reg_l _ _ s); [lia|]. replace (s * (u * l - gc x)) with (u * (l * s) - s * gc x) by ring.
    rewrite <- Hl. replace (s * (m * t)) with (t * (m * s)) by ring. rewrite <- Hm. lia.
  - lia.
Qed.

(** The form that the numbers of a composition make. *)
Definition composed (w s t u k l m : Z) : group := newGroup (s * t) (w * u - (k * t + l * s)) (k * l - w * m).

Lemma composed_composes x y w s t u h k l m : definite x → definite y → discriminant x = discriminant y →
  0 < w → ga x = w * s → ga y = w * t → gb x + gb y = 2 * (w * u) → gb y - gb x = 2 * h →
  Z.gcd s (Z.gcd t u) = 1 → l * s = t * k - h → m * (s * t) = t * u * k - h * u - s * gc x →
  composes x y (composed w s t u k l m) ∧ definite (composed w s t u k l m).
Proof.
  intros [Hx Hdx] [Hy _] Hd Hw Ha1 Ha2 Hg Hh H1 Hl Hm.
  assert (0 < s ∧ 0 < t) as [Hs Ht] by (clear - Hw Ha1 Ha2 Hx Hy; nia).
  pose proof (compose_identity x y w s t u h Hw Ha1 Ha2 Hg Hh Hd) as Hid.
  assert (discriminant (composed w s t u k l m) = discriminant x) as Hdisc.
  { unfold discriminant, composed. cbn [ga gb gc]. rewrite Ha1.
    replace (gb x) with (w * u - h) by lia.
    replace (s * t * (k * l - w * m) * 4) with (4 * k * t * (l * s) - 4 * w * (m * (s * t))) by ring.
    rewrite Hl, Hm. ring. }
  split.
  - exists w, s, t, u, h, k. split_and!; try done; [by exists l| |unfold composed; cbn [gb]; rewrite Hl; lia].
    exists m. apply (Z.mul_reg_l _ _ t); [lia|]. replace (t * (m * s)) with (m * (s * t)) by ring.
    rewrite Hm, Z.mul_sub_distr_l, <- Hid. ring.
  - split; [unfold composed; cbn [ga]; nia|by rewrite Hdisc].
Qed.

(** Both congruences of a composition have solutions. *)
Lemma compose_solvable x y w s t u h : definite x → definite y → discriminant x = discriminant y →
  0 < w → ga x = w * s → ga y = w * t → gb x + gb y = 2 * (w * u) → gb y - gb x = 2 * h →
  Z.gcd s (Z.gcd t u) = 1 →
  ∃ k cf n e, solveMod (t * u) (h * u + s * gc x) (s * t) = Some (k, cf) ∧
    solveMod (t * cf) (h - t * k) s = Some (n, e) ∧
    (s | t * (k + cf * n) - h) ∧ (s * t | t * u * (k + cf * n) - h * u - s * gc x).
Proof.
  intros [Hx _] [Hy _] Hd Hw Ha1 Ha2 Hg Hh H1.
  assert (0 < s ∧ 0 < t) as [Hs Ht] by (clear - Hw Ha1 Ha2 Hx Hy; nia).
  pose proof (compose_identity x y w s t u h Hw Ha1 Ha2 Hg Hh Hd) as Hid.
  set (c2 := gc y) in *. set (e := Z.gcd u s).
  assert (0 < e) as He by by apply gcd_pos.
  destruct (Z.gcd_divide_l u s) as [u' Hu'], (Z.gcd_divide_r u s) as [s' Hs']. fold e in Hu', Hs'.
  assert (Z.gcd (t * u) (s * t) = t * e) as Hge by (rewrite (Z.mul_comm s t), Z.gcd_mul_mono_l, Z.abs_eq by lia; done).
  assert (Z.gcd e t = 1) as Het.
  { unfold e. rewrite (Z.gcd_comm u s), <- Z.gcd_assoc, (Z.gcd_comm u t). done. }
  assert (Z.gcd s' u' = 1) as Hsu.
  { replace s' with (s / e) by (rewrite Hs' at 1; apply Z.div_mul; lia).
    replace u' with (u / e) by (rewrite Hu' at 1; apply Z.div_mul; lia). apply Z.gcd_div_gcd; [lia|]. apply Z.gcd_comm. }
  assert (0 < s') as Hs'pos by (clear - Hs Hs' He; nia).
  (* the first *)
  pose proof (solveMod_cases (t * u) (h * u + s * gc x) (s * t) ltac:(nia)) as Hfirst. rewrite Hge, Hid in Hfirst.
  destruct (solveMod (t * u) _ (s * t)) as [[k cf]|] eqn:E1.
  2:{ exfalso. apply Hfirst. apply Z.mul_divide_mono_l. apply (Z.gauss e t); [|done]. rewrite <- Hid.
      exists (h * u' + s' * gc x). rewrite Hu' at 1. rewrite Hs' at 1. ring. }
  destruct Hfirst as (_ & [q Hq] & Hcf & _).
  assert (cf = s') as ->.
  { rewrite Hcf. rewrite Hs' at 1. replace (s' * e * t) with (s' * (t * e)) by ring. apply Z.div_mul. nia. }
  assert (u * k - c2 = q * s) as Huk by (apply (Z.mul_reg_l _ _ t); lia).
  assert (s' | h - t * k) as Hdiv.
  { apply (Z.gauss s' u'); [|done]. apply (Z.mul_divide_cancel_r _ _ e); [lia|]. rewrite <- Hs'.
    replace (u' * (h - t * k) * e) with (- t * (u * k - c2) + (h * u - t * c2)) by (clearbody e; rewrite Hu'; ring).
    rewrite Huk. exists (- t * q - gc x). lia. }
  (* the second *)
  assert (Z.gcd (t * s') s = s') as Hge2.
  { rewrite Hs' at 1. rewrite (Z.mul_comm t s'), Z.gcd_mul_mono_l, Z.abs_eq, (Z.gcd_comm t), Het by lia. lia. }
  pose proof (solveMod_cases (t * s') (h - t * k) s Hs) as Hsecond. rewrite Hge2 in Hsecond.
  destruct (solveMod (t * s') (h - t * k) s) as [[n d]|] eqn:E2; [|done].
  destruct Hsecond as (_ & [r Hr] & _ & _). exists k, s', n, d. split; [by rewrite Hid|]. split; [done|]. split.
  - exists r. lia.
  - exists (q + u' * n). rewrite Z.mul_add_distr_r.
    replace (t * u * (k + s' * n) - h * u - s * gc x) with (t * (u * k - c2) + t * u * s' * n) by lia.
    assert (u * s' = u' * s) as Hus by (clearbody e; rewrite Hu', Hs'; ring).
    rewrite Huk. replace (t * u * s' * n) with (t * n * (u * s')) by ring. rewrite Hus. ring.
Qed.

(** [multiply] never fails, and composes the reduced forms. *)
Lemma multiply_composes x y : definite x → definite y → discriminant x = discriminant y →
  ∃ f, multiply x y = Some (reduced f) ∧ composes (reduced x) (reduced y) f ∧ definite f.
Proof.
  intros Hdx Hdy Hdisc. destruct (reduced_spec x Hdx) as [Ex _], (reduced_spec y Hdy) as [Ey _].
  unfold multiply. cbv zeta. set (x' := reduced x) in *. set (y' := reduced y) in *.
  assert (definite x') as Hx by exact (proj1 (definite_equivalent _ _ Ex) Hdx).
  assert (definite y') as Hy by exact (proj1 (definite_equivalent _ _ Ey) Hdy).
  assert (discriminant x' = discriminant y') as Hd by (rewrite <- (discriminant_equivalent _ _ Ex), <- (discriminant_equivalent _ _ Ey); done).
  clearbody x' y'. clear x y Hdx Hdy Hdisc Ex Ey. pose proof Hx as [Hax _]. pose proof Hy as [Hay _].
  assert (∃ g, gb x' + gb y' = 2 * g) as [g Hg].
  { exists ((gb x' + gb y') / 2). unfold discriminant in Hd. Z.to_euclidean_division_equations. nia. }
  assert (gb y' - gb x' = 2 * (g - gb x')) as Hh by lia. set (h := g - gb x') in *.
  rewrite (floorDivision_exact (gb x' + gb y') 2 g), (floorDivision_exact (gb y' - gb x') 2 h) by lia.
  rewrite !allInputValueGCD_gcd. set (w := Z.gcd (ga x') (Z.gcd (ga y') g)).
  assert (0 < w) as Hw by (unfold w; rewrite Z.gcd_comm; by apply gcd_pos).
  destruct (Z.gcd_divide_l (ga x') (Z.gcd (ga y') g)) as [s Hs]. fold w in Hs.
  assert ((w | ga y') ∧ (w | g)) as [[t Ht] [u Hu]]
    by (split; (etrans; [apply Z.gcd_divide_r|]); [apply Z.gcd_divide_l|apply Z.gcd_divide_r]).
  rewrite (floorDivision_exact (ga x') w s), (floorDivision_exact (ga y') w t), (floorDivision_exact g w u) by lia.
  assert (Z.gcd s (Z.gcd t u) = 1) as H1.
  { apply (Z.mul_reg_l _ _ w); [lia|]. rewrite <- (Z.abs_eq w) at 1 by lia. rewrite <- Z.gcd_mul_mono_l.
    rewrite <- (Z.abs_eq w) at 2 by lia. rewrite <- Z.gcd_mul_mono_l.
    rewrite (Z.mul_comm w s), (Z.mul_comm w t), (Z.mul_comm w u), <- Hs, <- Ht, <- Hu. fold w. lia. }
  clearbody w. rewrite (Z.mul_comm s w) in Hs. rewrite (Z.mul_comm t w) in Ht. rewrite Hu, (Z.mul_comm u w) in Hg.
  clearbody h. clear Hu g.
  destruct (compose_solvable x' y' w s t u h Hx Hy Hd Hw Hs Ht Hg Hh H1) as (k & cf & n & e & E1 & E2 & [l Hl] & [m Hm]).
  rewrite E1. cbn [mbind option_bind]. rewrite E2. cbn [mbind option_bind].
  assert (0 < s ∧ 0 < t) as [Hspos Htpos] by (clear - Hw Hs Ht Hax Hay; nia).
  rewrite (floorDivision_exact (t * (k + cf * n) - h) s l) by lia.
  rewrite (floorDivision_exact (t * u * (k + cf * n) - h * u - s * gc x') (s * t) m) by nia.
  destruct (composed_composes x' y' w s t u h (k + cf * n) l m) as [Hc Hdef]; try done; [lia..|].
  eexists. split; [|split; [exact Hc|exact Hdef]]. do 2 f_equal. unfold composed. f_equal; ring.
Qed.

Lemma reduced_eq f g : definite f → equivalent f g → reduced f = reduced g.
Proof.
  intros Hf He. pose proof (proj1 (definite_equivalent _ _ He) Hf) as Hg.
  destruct (reduced_spec f Hf) as [Ef Rf], (reduced_spec g Hg) as [Eg Rg].
  apply reduced_unique; [exact (proj1 (definite_equivalent _ _ Ef) Hf)|done..|].
  etrans; [symmetry; exact Ef|]. etrans; [exact He|exact Eg].
Qed.

Lemma reduced_definite f : definite f → definite (reduced f) ∧ discriminant (reduced f) = discriminant f.
Proof.
  intros Hf. destruct (reduced_spec f Hf) as [Ef _].
  split; [exact (proj1 (definite_equivalent _ _ Ef) Hf)|symmetry; by apply discriminant_equivalent].
Qed.

(** Whatever composes the reduced forms, its reduced form is the product. *)
Lemma multiply_is x y f : definite x → definite y → discriminant x = discriminant y →
  composes (reduced x) (reduced y) f → definite f → multiply x y = Some (reduced f).
Proof.
  intros Hx Hy Hd Hc Hf. destruct (multiply_composes x y Hx Hy Hd) as (f' & -> & Hc' & Hf').
  f_equal. apply reduced_eq; [done|].
  eapply composes_unique; [apply (reduced_definite x Hx)|apply (reduced_definite y Hy)|exact Hc'|exact Hc].
Qed.

Lemma multiply_comm x y : definite x → definite y → discriminant x = discriminant y → multiply x y = multiply y x.
Proof.
  intros Hx Hy Hd. destruct (multiply_composes x y Hx Hy Hd) as (f & -> & Hc & Hf). symmetry.
  destruct (reduced_definite x Hx) as [Hx' Ex], (reduced_definite y Hy) as [Hy' Ey].
  apply multiply_is; try done. apply composes_comm; [done|done|congruence|done].
Qed.

(** The form of the unit, for discriminants one more than a multiple of four. *)
Lemma identity_definite d : d < 0 → d mod 4 = 1 →
  let i := identityForDiscriminant d in definite i ∧ is_reduced i ∧ discriminant i = d ∧ ga i = 1 ∧ gb i = 1.
Proof.
  intros Hd H4. cbn zeta. unfold identityForDiscriminant, newGroupFromDiscriminant, definite, is_reduced, normal, discriminant.
  cbn [ga gb gc]. pose proof (Z.div_mod d 4 ltac:(lia)) as Hdm.
  rewrite (floorDivision_exact (1 * 1 - d) (1 * 4) (- (d / 4))) by lia. split_and!; try done; lia.
Qed.

Lemma multiply_identity d y : definite y → discriminant y = d → d mod 4 = 1 →
  multiply (identityForDiscriminant d) y = Some (reduced y).
Proof.
  intros Hy Hd H4. destruct (identity_definite d) as (Hi & Hr & Hdi & Ha & Hb); [rewrite <- Hd; apply Hy|done|].
  destruct (reduced_spec y Hy) as [Ey Ry], (reduced_definite y Hy) as [Hy' Dy].
  replace (reduced y) with (reduced (reduced y)) by by apply reduced_id.
  apply multiply_is; [done..|congruence| |done]. rewrite (reduced_id _ Hi Hr). set (i := identityForDiscriminant d) in *.
  set (y' := reduced y) in *. clearbody i y'.
  assert (∃ k, gb y' = 2 * k + 1) as [k Hk].
  { exists (gb y' / 2). assert (discriminant y' mod 4 = 1) as Hm by (rewrite Dy, Hd; done). unfold discriminant in Hm.
    Z.to_euclidean_division_equations. nia. }
  exists 1, 1, (ga y'), (k + 1), k, 0. split_and!; try lia; [by rewrite Z.gcd_1_l|apply Z.divide_1_l..].
Qed.

(** C30: composition: on forms of one negative discriminant [multiply] never fails, its
    product is a reduced form of that discriminant, it depends only on the classes of its
    arguments, it is commutative, and the identity form is its unit (for discriminants
    that are one modulo four, as those of the proof of work are). *)
Theorem multiply_laws (x y : group) : definite x → definite y → discriminant x = discriminant y →
  (∃ z, multiply x y = Some z ∧ is_reduced z ∧ definite z ∧ discriminant z = discriminant x) ∧
  (∀ x' y', equivalent x x' → equivalent y y' → multiply x' y' = multiply x y) ∧
  multiply x y = multiply y x ∧
  (discriminant y mod 4 = 1 → multiply (identity x) y = Some (reduced y) ∧ multiply y (identity x) = Some (reduced y)).
Proof.
  intros Hx Hy Hd. split; [|split; [|split; [by apply multiply_comm|]]].
  - destruct (multiply_composes x y Hx Hy Hd) as (f & -> & Hc & Hf). eexists. split; [done|].
    destruct (reduced_spec f Hf) as [_ Hr], (reduced_definite f Hf) as [Hd' He]. split; [done|]. split; [done|].
    rewrite He. destruct Hc as (? & ? & ? & ? & ? & ? & ? & ? & ? & ? & ? & ? & ? & ? & ? & ? & ->).
    by apply reduced_definite.
  - intros x' y' Hxx Hyy. unfold multiply. by rewrite <- (reduced_eq x x'), <- (reduced_eq y y').
  - intros H4. unfold identity. rewrite Hd. split; [by apply multiply_identity|].
    destruct (identity_definite (discriminant y)) as (Hi & _ & Hdi & _); [apply Hy|done|].
    rewrite multiply_comm by (done || congruence). by apply multiply_identity.
Qed.

(** ** Squaring *)

Lemma square_composes f : definite f → is_reduced f → Z.gcd (ga f) (gb f) = 1 →
  ∃ z, square f = Some (reduced z) ∧ composes f f z ∧ definite z.
Proof.
  intros Hf Hr H1. pose proof Hf as [Ha _]. unfold square. pose proof (solveMod_cases (gb f) (gc f) (ga f) Ha) as Hs.
  rewrite Z.gcd_comm, H1 in Hs. destruct (solveMod (gb f) (gc f) (ga f)) as [[u t]|]; [|exfalso; apply Hs, Z.divide_1_l].
  destruct Hs as (_ & [m Hm] & _). cbn [mbind option_bind]. rewrite (floorDivision_exact _ (ga f) m) by lia.
  destruct (composed_composes f f 1 (ga f) (ga f) (gb f) 0 u u m) as [Hc Hd]; try done; try lia.
  { by rewrite H1, Z.gcd_1_r. }
  eexists. split; [|split; [exact Hc|exact Hd]]. do 2 f_equal. unfold composed. f_equal; ring.
Qed.

(** [square] is [multiply] with itself, on the reduced forms whose first two
    coefficients have no common factor, and only fails when their common factor does not
    divide the third, which [multiply] does not need. *)
Theorem square_multiply (f : group) : definite f → is_reduced f →
  (Z.gcd (ga f) (gb f) = 1 → square f = multiply f f) ∧
  (square f = None ↔ ¬ (Z.gcd (ga f) (gb f) | gc f)).
Proof.
  intros Hf Hr. split.
  - intros H1. destruct (square_composes f Hf Hr H1) as (z & -> & Hc & Hz). symmetry.
    apply multiply_is; [done..| |done]. by rewrite (reduced_id f Hf Hr).
  - unfold square. pose proof (solveMod_cases (gb f) (gc f) (ga f) (proj1 Hf)) as Hs. rewrite Z.gcd_comm in Hs.
    destruct (solveMod (gb f) (gc f) (ga f)) as [[u t]|]; cbn [mbind option_bind]; [|done].
    split; [done|]. intros Hn. by destruct Hs as (_ & _ & _ & ?).
Qed.

(** ** Witnesses *)

(** Two forms of discriminant -47, the second far from reduced. *)
Module GroupSample.

Definition f : group := newGroup 2 1 6.
Definition g : group := transform 3 2 4 3 (newGroup 3 (-1) 4).

Lemma f_definite : definite f.
Proof. split; vm_compute; reflexivity. Qed.
Lemma g_definite : definite g.
Proof. split; vm_compute; reflexivity. Qed.
Lemma f_reduced : is_reduced f.
Proof. unfold is_reduced, normal, f. cbn [ga gb gc]. lia. Qed.

Example products : reduced g = newGroup 3 (-1) 4 ∧ multiply f f = Some (newGroup 3 (-1) 4) ∧
  multiply f g = Some (newGroup 3 1 4) ∧ square f = Some (newGroup 3 (-1) 4) ∧ pow f 5 = Some (identity f).
Proof. vm_compute. done. Qed.

(** A form and its inverse have the same text: [Serialize] loses the sign. *)
Lemma inverse_same_text : Serialize (newGroup 3 1 4) = Serialize (newGroup 3 (-1) 4) ∧
  multiply (newGroup 3 1 4) (newGroup 3 (-1) 4) = Some (identity f).
Proof. vm_compute. done. Qed.

End GroupSample.

Lemma solveMod_correct_witness : solveMod 6 4 10 = Some (4, 5) ∧ ∀ x, (10 | 6 * x - 4) ↔ ∃ n, x = 4 + 5 * n.
Proof.
  pose proof (solveMod_correct 6 4 10 ltac:(lia)) as H.
  assert (solveMod 6 4 10 = Some (4, 5)) as E by (vm_compute; reflexivity). split; [exact E|].
  rewrite E in H. destruct H as (_ & _ & H). exact H.
Defined.

Lemma reduced_canonical_witness : reduced GroupSample.g = newGroup 3 (-1) 4 ∧ equivalent GroupSample.g (newGroup 3 (-1) 4) ∧
  ¬ equivalent GroupSample.f GroupSample.g.
Proof.
  assert (reduced GroupSample.g = newGroup 3 (-1) 4) as E by (vm_compute; reflexivity). split; [exact E|]. split.
  - destruct (reduced_canonical GroupSample.g GroupSample.f GroupSample.g_definite GroupSample.f_definite) as (_ & H & _).
    rewrite E in H. exact H.
  - destruct (reduced_canonical GroupSample.f GroupSample.g GroupSample.f_definite GroupSample.g_definite) as (_ & _ & _ & H & _).
    intros Heq. apply H in Heq. vm_compute in Heq. discriminate Heq.
Defined.

Lemma multiply_laws_witness :
  multiply GroupSample.f GroupSample.g = multiply GroupSample.g GroupSample.f ∧
  multiply (identity GroupSample.f) GroupSample.g = Some (newGroup 3 (-1) 4).
Proof.
  destruct (multiply_laws GroupSample.f GroupSample.g GroupSample.f_definite GroupSample.g_definite eq_refl)
    as (_ & _ & Hc & Hi). split; [exact Hc|]. exact (proj1 (Hi eq_refl)).
Defined.

Lemma square_multiply_witness : square GroupSample.f = multiply GroupSample.f GroupSample.f.
Proof. exact (proj1 (square_multiply GroupSample.f GroupSample.f_definite GroupSample.f_reduced) eq_refl). Defined.
