(* ===== verification/PowHash.v ===== *)
(** The proof-of-work hash: a discriminant made of the data, one power of a fixed form in
    its class group and a proof of that power
    ([pkg/util/difficulty/hash/hash.go], of which [pkg/miner/hash] has an identical copy).

    SHA-256 and the primality test of [math/big] are arguments, and so are the two numbers
    [L] and [k] of [approximateParameters], which computes them in floating point: for the
    one iteration that [Hash] asks for, [k] is the conversion of a NaN to an integer, which
    is [-2^63] on amd64, and [L] is 1.  Go's [int] has 64 bits. *)

From stdpp Require Import sorting.
From S2P Require Import Prelude Misc Base58 ClassGroup.

Definition sizeInBits : Z := 2048.

(** ** Loops *)

Fixpoint steps (n : nat) (i step : Z) : list Z :=
  match n with O => [] | S n => i :: steps n (i + step) step end.

(** The [i] of [for i := a; i < b; i += step]. *)
Definition for_range (a b step : Z) : list Z := steps (Z.to_nat ((b - a + step - 1) / step)) a step.

(** ** Tables *)

(** A sieve is a slice of booleans; the entries that are set are in the map. *)
Abbreviation sieve := (gmap Z unit).
Definition marked (s : sieve) (i : Z) : bool := bool_decide (is_Some (s !! i)).
Definition mark_all (l : list Z) (s : sieve) : sieve := foldl (λ s j, <[j := ()]> s) s l.

(** The odd primes up to [num]. *)
Definition primeLessThanN (num : Z) : list Z :=
  let s := foldl (λ s i, if marked s i then s else mark_all (for_range (i * 2) (num + 1) i) s)
             ∅ (for_range 3 (Z.sqrt num + 1) 2) in
  filter (λ i, marked s i = false) (for_range 3 (num + 1) 2).

Definition m : Z := 8 * 3 * 5 * 7 * 11 * 13.

Definition residues : list Z :=
  filter (λ x, x mod 3 ≠ 0 ∧ x mod 5 ≠ 0 ∧ x mod 7 ≠ 0 ∧ x mod 11 ≠ 0 ∧ x mod 13 ≠ 0) (for_range 7 m 8).

(** The numbers are below [2^16], so that the products do not wrap. *)
Definition modExp (base exponent modulus : Z) : Z :=
  if decide (modulus = 1) then 0 else
  let base := Z.rem base modulus in
  Nat.iter (Z.to_nat exponent) (λ result, Z.rem (result * base) modulus) 1.

Definition odd_primes : list Z := primeLessThanN 65536.

(** A prime [p] and the inverse of [m] modulo [p]. *)
Definition sieve_info : list (Z * Z) :=
  (λ prime, (prime, modExp (Z.rem m prime) (prime - 2) prime)) <$> drop 5 odd_primes.

Section Hash.
Variable sha256_Sum256 : bytes → bytes.
(** [x.ProbablyPrime(1)] *)
Variable ProbablyPrime : Z → bool.
(** The primes of [sieve_info]; an argument so that short tables can be tried. *)
Variable info : list (Z * Z).

(** ** The discriminant *)

(** The loop writes whole digests, until there are more than [byte_count] bytes. *)
Fixpoint entropy_loop (fuel : nat) (seed : bytes) (byte_count extra bufferSize : Z) : bytes :=
  match fuel with
  | O => []
  | S fuel =>
      if decide (bufferSize <= byte_count) then
        sha256_Sum256 (seed ++ EB16func extra) ++
        entropy_loop fuel seed byte_count (extra + 1) (bufferSize + 32)
      else []
  end.
Definition entropyFromSeed (seed : bytes) (byte_count : Z) : bytes :=
  take (Z.to_nat byte_count) (entropy_loop (Z.to_nat byte_count + 1) seed byte_count 0 0).

(** What is marked in a window, for the opposite of its start. *)
Definition sieve_of (negN : Z) : sieve :=
  foldl (λ s '(p, q), mark_all (for_range (Z.rem (big_Mod negN p * q) p) 65536 p) s) ∅ info.

Definition is_candidate (n : Z) (s : sieve) (i : Z) : bool := negb (marked s i) && ProbablyPrime (n + m * i).

(** One window after the other, up to the first candidate; [n] moves and [negN] does not. *)
Fixpoint search_prime (fuel : nat) (negN n : Z) : option Z :=
  match fuel with
  | O => None
  | S fuel =>
      let s := sieve_of negN in
      match list_find (λ i, is_candidate n s i = true) (for_range 0 65536 1) with
      | Some (_, i) => Some (- (n + m * i))
      | None => search_prime fuel negN (n + m * 65536)
      end
  end.

(** Where the search starts: [length] bits of entropy with the top bit set, on a residue. *)
Definition start_of (entropy : bytes) (length : Z) : Z :=
  let extra := Z.land length 7 in
  let cut := (Datatypes.length entropy - 2)%nat in
  let n := big_SetBytes (take cut entropy) in
  let n := Z.shiftr n (Z.land (8 - extra) 7) in
  let n := Z.lor n (2 ^ (length - 1)) in
  let n := n - big_Mod n m in
  let idx := big_SetBytes (drop cut entropy) mod Z.of_nat (Datatypes.length residues) in
  n + default 0 (residues !! Z.to_nat idx).

Definition newDiscriminant (fuel : nat) (seed : bytes) (length : Z) : option Z :=
  let byte_count := Z.shiftr (length + 7) 3 + 2 in
  let n := start_of (entropyFromSeed seed byte_count) length in
  search_prime fuel (- n) n.

(** ** The power and its proof

    A nil group is [None]; a map or slice access that fails panics. *)

Definition nilable : Type := res (option group).
Definition bind_nil (x : nilable) (f : group → nilable) : nilable :=
  match x with Ok (Some g) => f g | r => r end.

(** [int64(math.Pow(2, float64(k)))], for [k] below 63. *)
Definition pow2f (k : Z) : Z := if decide (k < 0) then 0 else 2 ^ k.
(** [int(math.Ceil(float64(a) / float64(b)))], for a [b] other than 0. *)
Definition ceil_div (a b : Z) : Z := - (- a / b).

(** The powers of [x] at the exponents, in order. *)
Fixpoint squarings (n : nat) (x : group) : option group :=
  match n with
  | O => Some x
  | S n => x ← pow x 2; squarings n x
  end.
Fixpoint powers_loop (l : list Z) (previous_power : Z) (currX : group) (powers : gmap Z group) : option (gmap Z group) :=
  match l with
  | [] => Some powers
  | current_power :: l =>
      currX ← squarings (Z.to_nat (current_power - previous_power)) currX;
      powers_loop l current_power currX (<[current_power := currX]> powers)
  end.
Definition iterateSquarings (x : group) (powers_to_calculate : list Z) : option (gmap Z group) :=
  powers_loop (merge_sort (≤) powers_to_calculate) 0 x ∅.

(** The loop has no bound; [fuel] bounds the rounds. *)
Fixpoint hashPrime (fuel : nat) (x y : bytes) (j : Z) : option Z :=
  match fuel with
  | O => None
  | S fuel =>
      let z := big_SetBytes (take 16 (sha256_Sum256 (((bs "prime" ++ EB64func j) ++ x) ++ y))) in
      if ProbablyPrime z then Some z else hashPrime fuel x y (j +₆₄ 1)
  end.

Definition getBlock (i k T B : Z) : Z :=
  let p1 := pow2f k in
  let p2 := 2 ^ (T - k * (i + 1)) mod B in
  floorDivision (p1 * p2) B.

(** [for x in l { acc = f(acc, x); if acc == nil { return nil } }] *)
Definition fold_nil (f : group → Z → nilable) (l : list Z) (acc : group) : nilable :=
  foldl (λ acc x, bind_nil acc (λ acc, f acc x)) (Ok (Some acc)) l.

Definition at_ys (ys : list group) (b : Z) : nilable :=
  match ys !! Z.to_nat b with Some y => if decide (b < 0) then Panic else Ok (Some y) | None => Panic end.

(** The loop that multiplies the powers into [ys]. *)
Fixpoint fill_ys (idxs : list Z) (j k l T B : Z) (C : gmap Z group) (ys : list group) : res (option (list group)) :=
  match idxs with
  | [] => Ok (Some ys)
  | i :: idxs =>
      if decide (T - k * (i * l + j + 1) < 0) then fill_ys idxs j k l T B C ys else
      let b := getBlock (i * l + j) k T B in
      match at_ys ys b, C !! (i * k * l) with
      | Ok (Some y), Some c =>
          match multiply y c with
          | Some y => fill_ys idxs j k l T B C (<[Z.to_nat b := y]> ys)
          | None => Ok None
          end
      | _, _ => Panic
      end
  end.

(** One of the two last loops: for each [b], the product of a row or column of [ys], to the
    power [e b], is multiplied into [x]. *)
Definition collect (outer inner : Z) (at_ : Z → Z → Z) (e : Z → Z) (identity : group) (ys : list group) (x : group) : nilable :=
  fold_nil (λ x b,
    bind_nil (fold_nil (λ z b', bind_nil (at_ys ys (at_ b b')) (λ y, Ok (multiply z y))) (seqZ 0 inner) identity) (λ z,
    bind_nil (Ok (pow z (e b))) (λ c, Ok (multiply x c)))) (seqZ 0 outer) x.

Definition evalOptimized (identity h : group) (B T k l : Z) (C : gmap Z group) : nilable :=
  let k1 := Z.quot k 2 in
  let k0 := k - k1 in
  fold_nil (λ x j,
    let b_limit := pow2f k in
    bind_nil (Ok (pow x b_limit)) (λ x,
    match fill_ys (seqZ 0 (ceil_div T (k * l))) j k l T B C (replicate (Z.to_nat b_limit) identity) with
    | Ok (Some ys) =>
        bind_nil (collect (pow2f k1) (pow2f k0) (λ b1 b0, b1 * pow2f k0 + b0) (λ b1, b1 * pow2f k0) identity ys x) (λ x,
        collect (pow2f k0) (pow2f k1) (λ b0 b1, b1 * pow2f k0 + b0) (λ b0, b0) identity ys x)
    | Ok None => Ok None
    | Err e => Err e
    | Panic => Panic
    end)) (reverse (seqZ 0 l)) identity.

Definition generateProof (fuel : nat) (identity x y : group) (T k l : Z) (powers : gmap Z group) : option nilable :=
  B ← hashPrime fuel (Serialize x) (Serialize y) 0;
  Some (evalOptimized identity x B T k l powers).

(** The power and the proof, or nils.  [k * L] is not 0. *)
Definition calculate (fuel : nat) (L k : Z) (discriminant : Z) (x : group) (iterations : Z) : option (res (option (group * group))) :=
  let loopCount := ceil_div iterations (k * L) in
  if decide (loopCount + 1 < 0) then Some Panic else
  let powers_to_calculate := ((λ i, i * k * L) <$> seqZ 0 (loopCount + 1)) ++ [iterations] in
  match iterateSquarings x powers_to_calculate with
  | None => Some (Ok None)
  | Some powers =>
      match powers !! iterations with
      | None => Some Panic
      | Some y =>
          let identity := identityForDiscriminant discriminant in
          proof ← generateProof fuel identity x y iterations k L powers;
          Some (match proof with
                | Ok (Some p) => Ok (Some (y, p))
                | Ok None => Ok None
                | Err e => Err e
                | Panic => Panic
                end)
      end
  end.

(** [None] when the fuel runs out, in one of the two searches for a prime. *)
Definition Hash (fuel : nat) (L k : Z) (data : bytes) : option (res bytes) :=
  d ← newDiscriminant fuel data sizeInBits;
  let x := newGroupFromDiscriminant 2 1 d in
  r ← calculate fuel L k d x 1;
  Some (match r with
        | Ok (Some (a, b)) => Ok (sha256_Sum256 (Serialize a ++ Serialize b))
        | Ok None => Ok (replicate 32 Byte.x00)
        | Err e => Err e
        | Panic => Panic
        end).

End Hash.
