(* ===== verification/PowHashFacts.v ===== *)
(** The proof-of-work hash: its tables hold the odd primes and the inverses they should, the
    discriminants are what the class group needs, no candidate is overlooked, and the power
    it computes is a single squaring that cannot fail. *)

From Stdlib Require Import Znumtheory Zpow_facts Zmod.
From S2P Require Import Prelude Misc Base58 Difficulty ClassGroup ClassGroupFacts PowHash.

(** ** Loops *)

Lemma elem_of_steps n : ∀ i step x, x ∈ steps n i step ↔ ∃ k, 0 ≤ k < Z.of_nat n ∧ x = i + k * step.
Proof.
  induction n as [|n IH]; intros i step x; cbn [steps]; [split; [by intros ?%elem_of_nil|intros (k & Hk & _); lia]|].
  rewrite elem_of_cons, IH. split.
  - intros [->|(k & Hk & ->)]; [exists 0; lia|exists (k + 1); lia].
  - intros (k & Hk & ->). destruct (decide (k = 0)) as [->|]; [left; lia|right; exists (k - 1); lia].
Qed.

Lemma elem_of_for_range a b step x : 0 < step →
  x ∈ for_range a b step ↔ ∃ k, 0 ≤ k ∧ x = a + k * step ∧ x < b.
Proof.
  intros Hs. unfold for_range. rewrite elem_of_steps.
  assert (∀ k, 0 ≤ k → k < Z.of_nat (Z.to_nat ((b - a + step - 1) / step)) ↔ a + k * step < b) as Hk.
  { intros k Hk. pose proof (Z.div_mod (b - a + step - 1) step ltac:(lia)) as Hd.
    pose proof (Z.mod_pos_bound (b - a + step - 1) step Hs) as Hm.
    set (q := (b - a + step - 1) / step) in *. clearbody q. destruct (decide (0 ≤ q)); [rewrite Z2Nat.id by lia|]; split; nia. }
  split; intros (k & K1 & K2); exists k; specialize (Hk k); naive_solver lia.
Qed.

(** The indices of a loop in order. *)
Lemma steps_app n : ∀ k i step, steps (n + k) i step = steps n i step ++ steps k (i + Z.of_nat n * step) step.
Proof.
  induction n as [|n IH]; intros k i step; cbn [steps app Nat.add]; [f_equal; lia|]. rewrite IH. do 3 f_equal. lia.
Qed.

Lemma marked_mark_all l : ∀ s i, marked (mark_all l s) i = marked s i || bool_decide (i ∈ l).
Proof.
  induction l as [|j l IH]; intros s i; cbn [mark_all foldl].
  { rewrite bool_decide_eq_false_2 by apply not_elem_of_nil. by rewrite orb_false_r. }
  change (foldl (λ s j, <[j := ()]> s) (<[j := ()]> s) l) with (mark_all l (<[j := ()]> s)). rewrite IH.
  unfold marked. destruct (decide (i = j)) as [->|Hne].
  - rewrite lookup_insert_eq. rewrite (bool_decide_eq_true_2 (is_Some (Some ()))) by done.
    rewrite (bool_decide_eq_true_2 (j ∈ j :: l)) by set_solver. by rewrite orb_true_r.
  - rewrite lookup_insert_ne by done. f_equal. apply bool_decide_ext. set_solver.
Qed.

(** ** Primes *)

Lemma prime_factor n : 1 < n → ∃ p, Z.prime p ∧ (p | n).
Proof.
  intros Hn. assert (∀ N k, (Z.to_nat k < N)%nat → 1 < k → ∃ p, Z.prime p ∧ (p | k)) as Hall.
  { induction N as [|N IH]; intros k HN Hk; [lia|]. destruct (prime_dec k) as [Hp|Hp].
    - exists k. split; [by apply prime_alt|done].
    - destruct (not_prime_divide k Hk Hp) as (j & Hj & Hd). destruct (IH j ltac:(lia) ltac:(lia)) as (p & Hpp & Hpj).
      exists p. split; [done|]. by etrans. }
  by apply (Hall (S (Z.to_nat n))); lia.
Qed.

(** What is not prime has a prime factor whose square is no larger. *)
Lemma composite_factor n : 1 < n → ¬ Z.prime n → ∃ p, Z.prime p ∧ (p | n) ∧ p * p ≤ n ∧ p < n.
Proof.
  intros Hn Hc. destruct (not_prime_divide n Hn) as (a & Ha & [b Hb]); [by rewrite <- prime_alt|].
  assert (1 < b) as Hb1 by nia. assert (∃ c, 1 < c ∧ (c | n) ∧ c * c ≤ n) as (c & Hc1 & Hcn & Hcc).
  { destruct (decide (a ≤ b)); [exists a|exists b]; split_and!; try nia; first [by exists b|exists a; lia]. }
  destruct (prime_factor c Hc1) as (p & Hp & Hpc). pose proof (Z.divide_pos_le p c ltac:(lia) Hpc) as Hle.
  pose proof (proj1 Hp). exists p. split; [done|]. split; [by etrans|]. split; nia.
Qed.

Lemma odd_divisor p n : Z.odd n = true → (p | n) → Z.odd p = true.
Proof. intros Hn [k ->]. rewrite Z.odd_mul in Hn. by apply andb_true_iff in Hn as [_ ?]. Qed.

(** The sieve after the loop up to [i]: the numbers with a smaller odd prime factor below
    [i] are marked. *)
Definition sieved (num i : Z) (s : sieve) : Prop := ∀ x, 0 < x ≤ num → Z.odd x = true →
  marked s x = true ↔ ∃ p, Z.prime p ∧ p < i ∧ (p | x) ∧ p < x.

Lemma sieve_round num i s : 3 ≤ i ≤ num → Z.odd i = true → sieved num i s →
  sieved num (i + 2) (if marked s i then s else mark_all (for_range (i * 2) (num + 1) i) s).
Proof.
  intros Hi Hodd Hs.
  assert (marked s i = true ↔ ¬ Z.prime i) as Hmark.
  { rewrite (Hs i) by (done || lia). split.
    - intros (p & Hp & _ & Hpi & Hlt) Hprime. pose proof (proj1 Hp) as Hp1. by apply (proj2 Hprime p).
    - intros Hc. destruct (composite_factor i ltac:(lia) Hc) as (p & Hp & Hd & _ & Hlt). by exists p. }
  assert (∀ x p, Z.odd x = true → Z.prime p → (p | x) → p < i + 2 ↔ p < i ∨ p = i) as Hnext.
  { intros x p Hx Hp Hd. pose proof (odd_divisor p x Hx Hd) as Hop. split; [|lia]. intros Hlt.
    destruct (decide (p = i + 1)) as [->|]; [|lia].
    rewrite Z.add_1_r, Z.odd_succ, <- Z.negb_odd, Hodd in Hop. done. }
  destruct (marked s i) eqn:Hm.
  - intros x Hx Hox. rewrite (Hs x Hx Hox). split; intros (p & Hp & Hlt & Hd & Hpx); exists p.
    + split_and!; try done; lia.
    + apply (Hnext x p Hox Hp Hd) in Hlt as [Hlt| ->]; [done|]. by destruct (proj1 Hmark eq_refl).
  - assert (Z.prime i) as Hip by (destruct (prime_dec i) as [Hp|Hp]; [by apply prime_alt|];
      rewrite <- prime_alt in Hp; by apply Hmark in Hp).
    intros x Hx Hox. rewrite marked_mark_all. rewrite orb_true_iff, (Hs x Hx Hox), bool_decide_eq_true, elem_of_for_range by lia.
    split.
    + intros [(p & Hp & Hlt & Hd & Hpx)|(k & Hk & -> & Hlt)]; [exists p; split_and!; try done; lia|].
      exists i. split_and!; [done|lia|exists (2 + k); lia|nia].
    + intros (p & Hp & Hlt & Hd & Hpx). apply (Hnext x p Hox Hp Hd) in Hlt as [Hlt| ->]; [left; by exists p|right].
      destruct Hd as [k ->]. exists (k - 2). split; [nia|]. split; lia.
Qed.

Lemma sieve_loop num n : ∀ i s, Z.odd i = true → 3 ≤ i → i + (Z.of_nat n - 1) * 2 ≤ num → sieved num i s →
  sieved num (i + Z.of_nat n * 2)
    (foldl (λ s i, if marked s i then s else mark_all (for_range (i * 2) (num + 1) i) s) s (steps n i 2)).
Proof.
  induction n as [|n IH]; intros i s Ho Hi Hle Hs; cbn [steps foldl]; [by replace (i + Z.of_nat 0 * 2) with i by lia|].
  replace (i + Z.of_nat (S n) * 2) with (i + 2 + Z.of_nat n * 2) by lia. apply IH; [|lia|lia|].
  - by rewrite Z.odd_add, Ho.
  - apply sieve_round; [lia|done..].
Qed.

(** The sieve finds the odd primes up to its argument, and nothing else. *)
Lemma primeLessThanN_primes (num p : Z) : 3 ≤ num → p ∈ primeLessThanN num ↔ Z.prime p ∧ 2 < p ≤ num.
Proof.
  intros Hnum. unfold primeLessThanN. cbv zeta. set (r := Z.sqrt num). pose proof (Z.sqrt_spec num ltac:(lia)) as Hsq. fold r in Hsq.
  unfold for_range at 2. set (n := Z.to_nat ((r + 1 - 3 + 2 - 1) / 2)).
  assert (Z.of_nat n = Z.max 0 ((r - 1) / 2)) as Hn by (unfold n; replace (r + 1 - 3 + 2 - 1) with (r - 1) by lia; lia).
  assert (∀ y, 0 ≤ y → y * y ≤ num → y ≤ num) as Hself by (clear; intros y Hy Hyy; destruct (decide (y = 0)); nia).
  assert (0 ≤ r ≤ num) as Hr by (split; [apply Z.sqrt_nonneg|apply Hself; [apply Z.sqrt_nonneg|apply Hsq]]).
  pose proof (sieve_loop num n 3 ∅ eq_refl ltac:(lia) ltac:(Z.to_euclidean_division_equations; lia)) as Hs.
  assert (sieved num 3 ∅) as H0.
  { intros x Hx Hox. unfold marked. rewrite lookup_empty. split; [done|]. intros (q & Hq & Hlt & Hd & _).
    pose proof (odd_divisor q x Hox Hd) as Ho. pose proof (proj1 Hq). by assert (q = 2) as -> by lia. }
  specialize (Hs H0). set (s := foldl _ ∅ _) in *. clearbody s. rewrite list_elem_of_filter, elem_of_for_range by lia.
  assert (∀ x, 3 ≤ x ≤ num → Z.odd x = true → marked s x = false ↔ Z.prime x) as Hmark.
  { intros x Hx Ho. specialize (Hs x ltac:(lia) Ho). rewrite <- not_true_iff_false, Hs. split.
    - intros Hno. destruct (prime_dec x) as [Hp|Hc]; [by apply prime_alt|]. rewrite <- prime_alt in Hc. exfalso. apply Hno.
      destruct (composite_factor x ltac:(lia) Hc) as (q & Hq & Hd & Hqq & Hlt). exists q. split_and!; try done.
      rewrite Hn. pose proof (proj1 Hq). assert (q ≤ r) by (apply Z.sqrt_le_square; lia). pose proof (odd_divisor q x Ho Hd) as Hoq.
      apply Z.odd_spec in Hoq as [k ->]. Z.to_euclidean_division_equations; lia.
    - intros Hp (q & Hq & _ & Hd & Hlt). pose proof (proj1 Hq). by apply (proj2 Hp q). }
  split.
  - intros [Hm (k & Hk & -> & Hlt)]. split; [|lia]. apply Hmark; [lia| |done].
    rewrite Z.odd_add, Z.odd_mul. by rewrite andb_comm.
  - intros [Hp Hle]. assert (Z.odd p = true) as Ho.
    { destruct (Z.odd p) eqn:E; [done|]. rewrite <- Z.negb_even in E. apply negb_false_iff, Z.even_spec in E as [k ->].
      exfalso. apply (proj2 Hp 2); [lia|]. exists k. lia. }
    split; [apply Hmark; [lia|done..]|]. apply Z.odd_spec in Ho as [k ->]. exists (k - 1). lia.
Qed.

(** ** The inverses *)

Lemma modExp_spec base e p : 0 ≤ base → 0 ≤ e → 1 < p → modExp base e p = base ^ e mod p.
Proof.
  intros Hb He Hp. unfold modExp. rewrite decide_False by lia. rewrite Z.rem_mod_nonneg by lia.
  rewrite <- (Z2Nat.id e) at 2 by done. generalize (Z.to_nat e). intros n.
  induction n as [|n IH]; [change (1 = 1 mod p); by rewrite Z.mod_small by lia|]. rewrite Nat.iter_succ, IH.
  pose proof (Z.mod_pos_bound (base ^ Z.of_nat n) p ltac:(lia)). pose proof (Z.mod_pos_bound base p ltac:(lia)).
  rewrite Z.rem_mod_nonneg by nia. rewrite <- Z.mul_mod by lia. f_equal. rewrite Nat2Z.inj_succ, Z.pow_succ_r; lia.
Qed.

Lemma m_pos : 0 < m.
Proof. reflexivity. Qed.

(** An entry of the table: a prime and the inverse of [m]. *)
Definition entry_ok (e : Z * Z) : Prop := 1 < e.1 ∧ 0 ≤ e.2 ∧ (e.1 | m * e.2 - 1).

(** The power to the prime less two is the inverse, by Fermat's little theorem. *)
Lemma modExp_inverse p : Z.prime p → m mod p ≠ 0 → (p | m * modExp (Z.rem m p) (p - 2) p - 1).
Proof.
  intros Hp Hm. pose proof (proj1 Hp) as Hp1. pose proof m_pos. rewrite Z.rem_mod_nonneg by lia.
  pose proof (Z.mod_pos_bound m p ltac:(lia)) as Hmb. pose proof (Z.prime_ge_2 p Hp).
  rewrite modExp_spec by lia. apply Z.mod_divide; [lia|]. rewrite Zminus_mod.
  enough ((m * ((m mod p) ^ (p - 2) mod p)) mod p = 1) as -> by (rewrite (Z.mod_small 1) by lia; done).
  rewrite Z.mul_mod_idemp_r by lia. rewrite <- Z.mul_mod_idemp_l by lia.
  rewrite <- Z.pow_succ_r by lia. replace (Z.succ (p - 2)) with (p - 1) by lia.
  apply Z.fermat_nz; [done|]. by rewrite Z.mod_mod by lia.
Qed.

Lemma forallb_elem {A} (f : A → bool) l x : forallb f l = true → x ∈ l → f x = true.
Proof. rewrite forallb_forall. intros Hall Hin. by apply Hall, list_elem_of_In. Qed.

Lemma table_tail : forallb (λ p, (13 <? p) && negb (m mod p =? 0)) (drop 5 odd_primes) = true.
Proof. vm_compute. reflexivity. Qed.
Lemma table_head : take 5 odd_primes = [3; 5; 7; 11; 13].
Proof. vm_compute. reflexivity. Qed.

Lemma elem_of_odd_primes p : p ∈ odd_primes ↔ Z.prime p ∧ 2 < p ≤ 65536.
Proof. apply primeLessThanN_primes. lia. Qed.

Lemma sieve_info_primes : Forall (λ e, Z.prime e.1 ∧ 13 < e.1 ≤ 65536 ∧ entry_ok e) sieve_info.
Proof.
  unfold sieve_info. apply Forall_fmap, Forall_forall. intros p Hin. cbn [compose fst].
  pose proof (proj2 (elem_of_app (take 5 odd_primes) (drop 5 odd_primes) p) (or_intror Hin)) as Hall.
  rewrite take_drop in Hall. apply elem_of_odd_primes in Hall as [Hp Hle].
  pose proof (forallb_elem _ _ p table_tail Hin) as Ht.
  apply andb_true_iff in Ht as [H13%Z.ltb_lt Hm%negb_true_iff%Z.eqb_neq].
  split; [done|]. split; [lia|]. split; [apply Hp|]. cbn [snd]. split; [|by apply modExp_inverse].
  pose proof (proj1 Hp) as Hp1. pose proof m_pos. rewrite Z.rem_mod_nonneg by lia.
  rewrite modExp_spec by (pose proof (Z.mod_pos_bound m p); lia). apply Z.mod_pos_bound. lia.
Qed.

Lemma sieve_info_has p : Z.prime p → 13 < p ≤ 65536 → ∃ q, (p, q) ∈ sieve_info.
Proof.
  intros Hp Hr. eexists. unfold sieve_info. apply list_elem_of_fmap. exists p. split; [done|].
  assert (p ∈ odd_primes) as Hin by (apply elem_of_odd_primes; split; [done|lia]).
  rewrite <- (take_drop 5 odd_primes), table_head in Hin. apply elem_of_app in Hin as [Hin|Hin]; [|done].
  exfalso. repeat (apply elem_of_cons in Hin as [->|Hin]; [lia|]). by apply elem_of_nil in Hin.
Qed.

(** ** The search *)

Lemma lookup_steps n : ∀ k i step, (k < n)%nat → steps n i step !! k = Some (i + Z.of_nat k * step).
Proof.
  induction n as [|n IH]; intros [|k] i step Hk; [lia|lia|cbn; f_equal; lia|].
  cbn [steps]. rewrite lookup_cons_ne_0, IH by lia. f_equal. simpl. lia.
Qed.
Lemma length_steps n : ∀ i step, length (steps n i step) = n.
Proof. induction n as [|n IH]; intros; simpl; [done|]. by rewrite IH. Qed.

Section Search.
Variables (ProbablyPrime : Z → bool) (info : list (Z * Z)).
Context (Hinfo : Forall entry_ok info).

(** A prime of the table divides [t]. *)
Definition small_factor (t : Z) : Prop := ∃ e, e ∈ info ∧ (e.1 | t).

(** The table marks the indices at which the number has the prime as a factor. *)
Lemma marked_window n e i : entry_ok e → 0 ≤ i < 65536 →
  i ∈ for_range (Z.rem (big_Mod (- n) e.1 * e.2) e.1) 65536 e.1 ↔ (e.1 | n + m * i).
Proof.
  destruct e as [p q]. intros (Hp & Hnn & Hq) Hi. cbn [fst snd] in *. rewrite elem_of_for_range by lia.
  rewrite big_Mod_pos by lia. pose proof (Z.mod_pos_bound (- n) p ltac:(lia)) as Hb.
  set (i0 := Z.rem _ p). assert (0 ≤ i0 < p ∧ (p | n + m * i0)) as [Hi0 Hd0].
  { unfold i0. rewrite Z.rem_mod_nonneg by nia. split; [apply Z.mod_pos_bound; lia|].
    pose proof (Z.div_mod (- n) p ltac:(lia)) as H1. pose proof (Z.div_mod (- n mod p * q) p ltac:(lia)) as H2.
    set (k1 := - n / p) in *. set (r1 := - n mod p) in *. set (k2 := r1 * q / p) in *. set (r2 := (r1 * q) mod p) in *.
    assert (r1 = - n - p * k1) as E1 by lia. assert (r2 = r1 * q - p * k2) as E2 by lia. clearbody r1 r2. rewrite E2, E1.
    replace (n + m * ((- n - p * k1) * q - p * k2)) with (- n * (m * q - 1) + - m * (k1 * q + k2) * p) by ring.
    apply Z.divide_add_r; [by apply Z.divide_mul_r|]. by exists (- m * (k1 * q + k2)). }
  split.
  - intros (k & _ & -> & _). replace (n + m * (i0 + k * p)) with ((n + m * i0) + m * k * p) by ring.
    apply Z.divide_add_r; [done|]. by exists (m * k).
  - intros Hd. assert (p | i - i0) as [k Hk].
    { assert (p | m * (i - i0)) as Hm by (replace (m * (i - i0)) with ((n + m * i) - (n + m * i0)) by ring; by apply Z.divide_sub_r).
      replace (i - i0) with (q * (m * (i - i0)) - (i - i0) * (m * q - 1)) by ring.
      apply Z.divide_sub_r; by apply Z.divide_mul_r. }
    exists k. split; [nia|]. lia.
Qed.

Lemma marked_sieve_of n i : 0 ≤ i < 65536 → marked (sieve_of info (- n)) i = true ↔ small_factor (n + m * i).
Proof.
  intros Hi. unfold sieve_of, small_factor.
  assert (∀ l s, Forall entry_ok l →
    marked (foldl (λ s '(p, q), mark_all (for_range (Z.rem (big_Mod (- n) p * q) p) 65536 p) s) s l) i = true ↔
    marked s i = true ∨ ∃ e, e ∈ l ∧ (e.1 | n + m * i)) as Hall.
  { induction l as [|[p q] l IH]; intros s Hl; cbn [foldl]; [set_solver|].
    apply Forall_cons in Hl as [He Hl]. rewrite IH by done.
    rewrite marked_mark_all, orb_true_iff, bool_decide_eq_true, (marked_window n (p, q) i He Hi).
    split; [intros [[?|?]|(e & ? & ?)]|intros [?|(e & [->|?]%elem_of_cons & ?)]]; set_solver. }
  rewrite Hall by done. unfold marked. rewrite lookup_empty. naive_solver.
Qed.

Lemma candidate_iff n0 n i : 0 ≤ i < 65536 →
  is_candidate ProbablyPrime n (sieve_of info (- n0)) i = true ↔
    ¬ small_factor (n0 + m * i) ∧ ProbablyPrime (n + m * i) = true.
Proof.
  intros Hi. unfold is_candidate. rewrite andb_true_iff, negb_true_iff, <- (marked_sieve_of n0 i Hi).
  by rewrite not_true_iff_false.
Qed.

Lemma not_candidate n0 n i : 0 ≤ i < 65536 → ¬ is_candidate ProbablyPrime n (sieve_of info (- n0)) i = true →
  ProbablyPrime (n + m * i) = true → small_factor (n0 + m * i).
Proof.
  intros Hi Hn Hp. rewrite candidate_iff in Hn by done.
  destruct (decide (marked (sieve_of info (- n0)) i = true)) as [Hm|Hm]; [by apply marked_sieve_of in Hm|].
  rewrite marked_sieve_of in Hm by done. by exfalso; apply Hn.
Qed.

(** The search returns the first number that passes the test at an index that is not marked;
    all windows have the marks of the first. *)
Lemma search_prime_first fuel n0 : ∀ w d, 0 ≤ w →
  search_prime ProbablyPrime info fuel (- n0) (n0 + m * (65536 * w)) = Some d →
  ∃ i, 65536 * w ≤ i ∧ - d = n0 + m * i ∧ ProbablyPrime (- d) = true ∧ ¬ small_factor (n0 + m * (i mod 65536)) ∧
    ∀ i', 65536 * w ≤ i' < i → ProbablyPrime (n0 + m * i') = true → small_factor (n0 + m * (i' mod 65536)).
Proof.
  induction fuel as [|fuel IH]; intros w d Hw; [done|]. cbn [search_prime]. cbv zeta. set (n := n0 + m * (65536 * w)).
  change (for_range 0 65536 1) with (steps (Z.to_nat 65536) 0 1). set (N := Z.to_nat 65536).
  assert (∀ r, 0 ≤ r < 65536 → (65536 * w + r) mod 65536 = r) as Hmod.
  { intros r Hr. rewrite Z.add_comm, Z.mul_comm, Z.mod_add by lia. by apply Z.mod_small. }
  assert (∀ r, n0 + m * (65536 * w + r) = n + m * r) as Hn by (intros; unfold n; ring).
  destruct (list_find _ _) as [[idx r]|] eqn:Hf.
  - intros [= <-]. apply list_find_Some in Hf as (Hl & Hc & Hfirst).
    pose proof (lookup_lt_Some _ _ _ Hl) as Hlt. rewrite length_steps in Hlt. rewrite lookup_steps in Hl by done.
    injection Hl as <-. set (r := 0 + Z.of_nat idx * 1) in *. assert (0 ≤ r < 65536) as Hr by (unfold r, N in *; lia).
    apply candidate_iff in Hc as [Hs Hp]; [|done]. rewrite Z.opp_involutive in *.
    exists (65536 * w + r). rewrite Hn, Hmod by done. do 4 (split; [lia || done|]). intros i' Hi' Hpp.
    replace i' with (65536 * w + (i' - 65536 * w)) in * by lia. rewrite Hn in Hpp. rewrite Hmod by lia.
    apply (not_candidate n0 n); [lia| |done]. apply (Hfirst (Z.to_nat (i' - 65536 * w))); [|unfold r in *; lia].
    rewrite lookup_steps by (unfold N; lia). f_equal. lia.
  - intros Hs. replace (n + m * 65536) with (n0 + m * (65536 * (w + 1))) in Hs by (unfold n; ring).
    destruct (IH (w + 1) d ltac:(lia) Hs) as (i & Hi & Hd & Hp & Hsf & Hfirst).
    exists i. split; [lia|]. do 3 (split; [done|]). intros i' Hi' Hpp.
    destruct (decide (65536 * (w + 1) ≤ i')) as [Hge|Hlt]; [apply Hfirst; [lia|done]|].
    replace i' with (65536 * w + (i' - 65536 * w)) in * by lia. rewrite Hn in Hpp. rewrite Hmod by lia.
    apply list_find_None in Hf. rewrite Forall_forall in Hf. apply (not_candidate n0 n); [lia| |done].
    apply Hf, elem_of_steps. exists (i' - 65536 * w). unfold N. lia.
Qed.

End Search.

(** ** Discriminants *)

Lemma residue_ok x : x ∈ residues → 0 ≤ x < m ∧ x mod 8 = 7 ∧
  x mod 3 ≠ 0 ∧ x mod 5 ≠ 0 ∧ x mod 7 ≠ 0 ∧ x mod 11 ≠ 0 ∧ x mod 13 ≠ 0.
Proof.
  intros ((H3 & H5 & H7 & H11 & H13) & (k & Hk & -> & Hlt)%elem_of_for_range)%list_elem_of_filter; [|lia].
  split_and!; try done; [lia|]. rewrite Z.mod_add by lia. done.
Qed.

Lemma residues_length : length residues = Z.to_nat 5760.
Proof. vm_compute. reflexivity. Qed.

Lemma le_lor_pow2 n k : 0 ≤ n → 0 ≤ k → 2 ^ k ≤ Z.lor n (2 ^ k).
Proof.
  intros Hn Hk. pose proof (Z.add_lor_land n (2 ^ k)) as Hal. rewrite land_pow2 in Hal by done.
  destruct (Z.testbit n k) eqn:Hb; [|lia]. enough (2 ^ k ≤ n) by lia.
  pose proof (Z.pow_pos_nonneg 2 k ltac:(lia) Hk). destruct (decide (n < 2 ^ k)) as [Hlt|]; [|lia].
  apply Z.testbit_true in Hb; [|done]. by rewrite Z.div_small in Hb by lia.
Qed.

Lemma start_of_spec entropy length : 0 < length →
  2 ^ (length - 1) - m < start_of entropy length ∧ ∃ r, r ∈ residues ∧ (m | start_of entropy length - r).
Proof.
  intros Hl. unfold start_of. cbv zeta. pose proof m_pos as Hm. set (n0 := Z.shiftr _ _).
  assert (0 ≤ n0) as Hn0 by (apply Z.shiftr_nonneg, big_SetBytes_bound).
  pose proof (le_lor_pow2 n0 (length - 1) Hn0 ltac:(lia)) as Hlow. set (n := Z.lor _ _) in *. clearbody n.
  rewrite big_Mod_pos by done. pose proof (Z.div_mod n m ltac:(lia)) as Hd. pose proof (Z.mod_pos_bound n m Hm) as Hb.
  set (idx := big_SetBytes _ mod _). assert (0 ≤ idx < 5760) as Hidx.
  { unfold idx. rewrite residues_length, Z2Nat.id by lia. apply Z.mod_pos_bound. lia. }
  destruct (lookup_lt_is_Some_2 residues (Z.to_nat idx)) as [r Hr]; [rewrite residues_length; apply Z2Nat.inj_lt; lia|].
  rewrite Hr. cbn [default]. apply list_elem_of_lookup_2 in Hr. destruct (residue_ok r Hr) as [Hrange _].
  unfold id. split; [lia|]. exists r. split; [done|]. exists (n / m). lia.
Qed.

(** The small primes are those of the modulus and those of the table. *)
Lemma small_primes p : Z.prime p → p ≤ 65536 → p = 2 ∨ p ∈ [3; 5; 7; 11; 13] ∨ ∃ q, (p, q) ∈ sieve_info.
Proof.
  intros Hp Hle. pose proof (Z.prime_ge_2 p Hp) as Hge. destruct (decide (13 < p)) as [H13|H13].
  { right; right. apply sieve_info_has; [done|lia]. }
  destruct (decide (p = 2)); [by left|]. right; left.
  assert (p ∈ odd_primes) as Hin by (apply elem_of_odd_primes; split; [done|lia]).
  rewrite <- (take_drop 5 odd_primes), table_head in Hin. apply elem_of_app in Hin as [Hin|Hin]; [done|].
  pose proof (forallb_elem _ _ p table_tail Hin) as Ht. apply andb_true_iff in Ht as [?%Z.ltb_lt _]. lia.
Qed.

(** What is on a residue has no factor in the modulus. *)
Lemma residue_coprime t r : r ∈ residues → (m | t - r) →
  t mod 8 = 7 ∧ ¬ (2 | t) ∧ Forall (λ p, ¬ (p | t)) [3; 5; 7; 11; 13].
Proof.
  intros Hr [k Hk]. destruct (residue_ok r Hr) as (_ & H8 & H3 & H5 & H7 & H11 & H13).
  assert (∀ p j, 0 < p → m = j * p → t mod p = r mod p) as Hmod.
  { intros p j Hp Hj. replace t with (r + k * j * p) by lia. by apply Z.mod_add; lia. }
  assert (t mod 8 = 7) as Ht8 by (rewrite (Hmod 8 15015) by done; done).
  split; [done|]. split; [intros [q Hq]; Z.to_euclidean_division_equations; lia|].
  assert (∀ p j, 0 < p → m = j * p → r mod p ≠ 0 → ¬ (p | t)) as Hno.
  { intros p j Hp Hj Hne Hd. apply Hne. rewrite <- (Hmod p j Hp Hj). apply Z.mod_divide; [lia|done]. }
  repeat constructor; [apply (Hno 3 40040)|apply (Hno 5 24024)|apply (Hno 7 17160)|apply (Hno 11 10920)|apply (Hno 13 9240)]; done.
Qed.

Section Discriminant.
Variables (sha256_Sum256 : bytes → bytes) (ProbablyPrime : Z → bool) (info : list (Z * Z)).
Context (Hinfo : Forall entry_ok info).

Lemma newDiscriminant_cases fuel seed d :
  newDiscriminant sha256_Sum256 ProbablyPrime info fuel seed sizeInBits = Some d →
  let start := start_of (entropyFromSeed sha256_Sum256 seed 258) sizeInBits in
  2 ^ 2047 - m < - d ∧ (- d) mod 8 = 7 ∧ ProbablyPrime (- d) = true ∧
  Forall (λ p, ¬ (p | - d)) [2; 3; 5; 7; 11; 13] ∧
  ∃ i, 0 ≤ i ∧ - d = start + m * i ∧ ¬ small_factor info (start + m * (i mod 65536)) ∧
    ∀ i', 0 ≤ i' < i → ProbablyPrime (start + m * i') = true → small_factor info (start + m * (i' mod 65536)).
Proof.
  intros Hd. cbv zeta. unfold newDiscriminant in Hd. change (Z.shiftr (sizeInBits + 7) 3 + 2) with 258 in Hd. cbv zeta in Hd.
  set (start := start_of _ _) in *. pose proof m_pos as Hm.
  destruct (search_prime_first ProbablyPrime info Hinfo fuel start 0 d ltac:(lia)) as (i & Hi & Hdi & Hpp & Hsf & Hfirst);
    [by replace (start + m * (65536 * 0)) with start by lia|].
  destruct (start_of_spec (entropyFromSeed sha256_Sum256 seed 258) sizeInBits ltac:(done)) as [Hlow (r & Hr & Hmr)].
  fold start in Hlow, Hmr. change (sizeInBits - 1) with 2047 in Hlow.
  assert (m | - d - r) as Hdr.
  { rewrite Hdi. replace (start + m * i - r) with ((start - r) + i * m) by ring. apply Z.divide_add_r; [done|by exists i]. }
  destruct (residue_coprime _ r Hr Hdr) as (H8 & H2 & Hsmall).
  split; [nia|]. split; [done|]. split; [done|]. split; [by constructor|]. exists i. done.
Qed.

(** ** The power *)

(** The fixed form of a discriminant. *)
Definition base_form (d : Z) : group := newGroupFromDiscriminant 2 1 d.
(** Its square, without any work. *)
Definition base_square (d : Z) : group :=
  let c := (1 - d) / 8 in
  let u := c mod 2 in
  newGroup 4 (1 - 4 * u) (u * u - (u - c) / 2).

Lemma base_form_ok d : d mod 8 = 1 → d < 0 →
  base_form d = newGroup 2 1 ((1 - d) / 8) ∧ definite (base_form d) ∧ discriminant (base_form d) = d.
Proof.
  intros H8 Hneg. unfold base_form, newGroupFromDiscriminant. pose proof (Z.div_mod d 8 ltac:(lia)) as Hd.
  rewrite (floorDivision_exact _ (2 * 4) (- (d / 8))) by lia.
  assert ((1 - d) / 8 = - (d / 8)) as -> by (symmetry; apply Z.div_unique with 0; lia).
  assert (discriminant (newGroup 2 1 (- (d / 8))) = d) as Hdisc by (unfold discriminant; cbn [ga gb gc]; lia).
  split; [done|]. split; [|done]. split; [done|]. by rewrite Hdisc.
Qed.

Lemma base_square_ok d : d mod 8 = 1 → d < - 64 →
  square (base_form d) = Some (base_square d) ∧ definite (base_square d) ∧ is_reduced (base_square d) ∧
  discriminant (base_square d) = d.
Proof.
  intros H8 Hneg. destruct (base_form_ok d H8 ltac:(lia)) as (Hf & Hdef & _). unfold base_square. cbv zeta.
  set (c := (1 - d) / 8) in *. assert (1 - d = 8 * c) as Hc.
  { unfold c. pose proof (Z.div_mod d 8 ltac:(lia)). pose proof (Z.div_mod (1 - d) 8 ltac:(lia)).
    pose proof (Z.mod_pos_bound (1 - d) 8 ltac:(lia)). lia. }
  pose proof (Z.div_mod c 2 ltac:(lia)) as Hcm. pose proof (Z.mod_pos_bound c 2 ltac:(lia)) as Hu. set (u := c mod 2) in *.
  assert ((u - c) / 2 = - (c / 2)) as Hm by (symmetry; apply Z.div_unique with 0; lia). rewrite Hm.
  set (f := newGroup 4 (1 - 4 * u) (u * u - - (c / 2))).
  assert (discriminant f = d) as Hdisc.
  { unfold f, discriminant. cbn [ga gb gc]. assert (u * u = u) by (assert (u = 0 ∨ u = 1) as [->| ->] by lia; lia). lia. }
  assert (definite f) as Hfd by (split; [done|rewrite Hdisc; lia]).
  assert (is_reduced f) as Hr.
  { unfold f, is_reduced, normal. cbn [ga gb gc]. assert (0 ≤ u * u) by nia. lia. }
  split; [|done]. rewrite Hf. unfold square. cbn [ga gb gc].
  pose proof (solveMod_cases 1 c 2 ltac:(lia)) as Hs. rewrite Z.gcd_1_l in Hs.
  destruct (solveMod 1 c 2) as [[u' t]|]; [|by exfalso; apply Hs, Z.divide_1_l].
  destruct Hs as (Hu' & [k Hk] & _). cbn [mbind option_bind].
  assert (u' = u) as -> by (clear - Hu' Hk Hu Hcm; lia).
  rewrite (floorDivision_exact (1 * u - c) 2 (- (c / 2))) by lia. f_equal. rewrite <- (reduced_id f Hfd Hr).
  unfold f. do 2 f_equal. lia.
Qed.

(** The odd middle coefficient has nothing in common with four. *)
Lemma base_square_again d : d mod 8 = 1 → d < - 64 → ∃ z, square (base_square d) = Some z.
Proof.
  intros H8 Hneg. destruct (base_square_ok d H8 Hneg) as (_ & Hdef & Hr & _).
  destruct (square_composes (base_square d) Hdef Hr) as (z & Hz & _); [|by eexists].
  unfold base_square. cbn [ga gb]. set (u := (1 - d) / 8 mod 2). clearbody u.
  replace (1 - 4 * u) with (1 + - u * 4) by lia. rewrite Z.gcd_add_mult_diag_r. done.
Qed.

Lemma pow_two d : d mod 8 = 1 → d < - 64 → pow (base_form d) 2 = Some (base_square d).
Proof.
  intros H8 Hneg. destruct (base_square_ok d H8 Hneg) as (Hsq & Hdef & Hr & Hdisc).
  destruct (base_form_ok d H8 ltac:(lia)) as (_ & _ & Hd). destruct (base_square_again d H8 Hneg) as [z Hz].
  unfold pow. change 64%nat with (S (S (S 61))). cbn [pow_loop].
  rewrite (decide_True (P := 2 > 0)) by lia. rewrite (decide_False (P := Z.land 2 1 = 1)) by done.
  cbn [mbind option_bind]. rewrite Hsq. cbn [mbind option_bind]. change (Z.shiftr 2 1) with 1.
  rewrite (decide_True (P := 1 > 0)) by lia. rewrite (decide_True (P := Z.land 1 1 = 1)) by done.
  unfold identity. rewrite Hd.
  rewrite (multiply_identity d) by (done || Z.to_euclidean_division_equations; lia).
  rewrite reduced_id by done. cbn [mbind option_bind]. rewrite Hz. cbn [mbind option_bind].
  change (Z.shiftr 1 1) with 0. by rewrite (decide_False (P := 0 > 0)) by lia.
Qed.

(** With a negative [k] there is nothing to prove with, and the proof is the unit. *)
Lemma proof_is_unit d h B k C : d mod 8 = 1 → d < 0 → k ≤ -2 →
  evalOptimized (identityForDiscriminant d) h B 1 k 1 C = Ok (Some (identityForDiscriminant d)).
Proof.
  intros H8 Hneg Hk. destruct (identity_definite d Hneg) as (_ & _ & Hdisc & _); [Z.to_euclidean_division_equations; lia|].
  assert (∀ j, j < 0 → pow2f j = 0) as Hp by (intros; unfold pow2f; by rewrite decide_True).
  assert (Z.quot k 2 < 0 ∧ k - Z.quot k 2 < 0) as [Hk1 Hk0] by (Z.to_euclidean_division_equations; lia).
  assert (ceil_div 1 (k * 1) = 0) as Hceil by (unfold ceil_div; Z.to_euclidean_division_equations; nia).
  unfold evalOptimized. cbv zeta. rewrite Hceil. change (reverse (seqZ 0 1)) with [0]. cbn [fold_nil foldl].
  rewrite (Hp k) by lia. change (seqZ 0 0) with (@nil Z). cbn [fill_ys bind_nil].
  assert (pow (identityForDiscriminant d) 0 = Some (identityForDiscriminant d)) as ->.
  { unfold pow. change 64%nat with (S 63). cbn [pow_loop]. rewrite decide_False by lia. unfold identity. by rewrite Hdisc. }
  cbn [bind_nil]. unfold collect. rewrite (Hp _ Hk1), (Hp _ Hk0). reflexivity.
Qed.

Lemma calculate_one fuel k d : d mod 8 = 1 → d < - 64 → k ≤ -2 →
  calculate sha256_Sum256 ProbablyPrime fuel 1 k d (base_form d) 1 =
    _ ← hashPrime sha256_Sum256 ProbablyPrime fuel (Serialize (base_form d)) (Serialize (base_square d)) 0;
    Some (Ok (Some (base_square d, identityForDiscriminant d))).
Proof.
  intros H8 Hneg Hk. unfold calculate.
  assert (ceil_div 1 (k * 1) = 0) as -> by (unfold ceil_div; Z.to_euclidean_division_equations; nia).
  cbv zeta. rewrite decide_False by lia. change (seqZ 0 (0 + 1)) with [0]. cbn [fmap list_fmap app].
  replace (0 * k * 1) with 0 by lia. unfold iterateSquarings.
  change (merge_sort (≤) [0; 1]) with [0; 1]. cbn [powers_loop]. change (squarings (Z.to_nat (0 - 0)) (base_form d)) with (Some (base_form d)).
  cbn [mbind option_bind]. change (Z.to_nat (1 - 0)) with 1%nat. cbn [squarings].
  rewrite (pow_two d H8 Hneg). cbn [mbind option_bind]. rewrite lookup_insert_eq.
  unfold generateProof. destruct (hashPrime _ _ _ _ _ _); [|done]. cbn [mbind option_bind].
  by rewrite proof_is_unit by (done || lia).
Qed.

(** The discriminants: the one made of the data is a negative number of 2047 bits or
    more whose opposite is seven modulo eight, passes the primality test and has no prime
    factor up to 13.  It is the first such number from the starting point on whose index is
    not marked, and the marks of every window of 2^16 indices are those of the first: there
    (where the search practically ends) a number without a small factor is found, none up
    to 2^16 with the table of the program, and only numbers with one are left out; later
    both fail. *)
Theorem newDiscriminant_correct (fuel : nat) (seed : bytes) (d : Z) :
  newDiscriminant sha256_Sum256 ProbablyPrime info fuel seed sizeInBits = Some d →
  let start := start_of (entropyFromSeed sha256_Sum256 seed 258) sizeInBits in
  2 ^ 2047 - m < - d ∧ (- d) mod 8 = 7 ∧ ProbablyPrime (- d) = true ∧
  Forall (λ p, ¬ (p | - d)) [2; 3; 5; 7; 11; 13] ∧
  (∃ i, 0 ≤ i ∧ - d = start + m * i ∧ ¬ small_factor info (start + m * (i mod 65536)) ∧
    ∀ i', 0 ≤ i' < i → ProbablyPrime (start + m * i') = true → small_factor info (start + m * (i' mod 65536))) ∧
  (info = sieve_info → - d < start + m * 65536 → ∀ p, Z.prime p → p ≤ 65536 → ¬ (p | - d)).
Proof.
  intros Hd. destruct (newDiscriminant_cases fuel seed d Hd) as (Hlow & H8 & Hpp & H13 & i & Hi & Hdi & Hsf & Hfirst).
  cbv zeta. do 4 (split; [assumption|]). split; [by exists i|]. intros Hinf Hwin p Hp Hle Hpd.
  pose proof (proj1 (Forall_forall _ _) H13) as Hall. destruct (small_primes p Hp Hle) as [->|[Hin|[q Hq]]].
  - by apply (Hall 2); [left|].
  - by apply (Hall p); [right|].
  - pose proof m_pos. rewrite Z.mod_small, <- Hdi in Hsf by (rewrite Hdi in Hwin; nia).
    apply Hsf. exists (p, q). split; [by rewrite Hinf|done].
Qed.

(** C32: the hash is what one can compute without any power: with the parameters of one
    iteration (where [k] is negative) it is the digest of the square of the fixed form,
    known in closed form, and of the unit of the group.  It neither panics nor meets a nil
    form, for which it would be 32 zero bytes and reach every target, whatever the
    primality test lets through. *)
Theorem Hash_value (fuel : nat) (k : Z) (data : bytes) : k ≤ -2 →
  Hash sha256_Sum256 ProbablyPrime info fuel 1 k data =
    d ← newDiscriminant sha256_Sum256 ProbablyPrime info fuel data sizeInBits;
    _ ← hashPrime sha256_Sum256 ProbablyPrime fuel (Serialize (base_form d)) (Serialize (base_square d)) 0;
    Some (Ok (sha256_Sum256 (Serialize (base_square d) ++ Serialize (identityForDiscriminant d)))).
Proof.
  intros Hk. unfold Hash. destruct (newDiscriminant _ _ _ _ _ _) as [d|] eqn:Hd; [|done]. cbn [mbind option_bind]. cbv zeta.
  destruct (newDiscriminant_cases fuel data d Hd) as (Hlow & H8 & _).
  assert (d < - 64) as Hneg by (assert (64 < 2 ^ 2047 - m) by reflexivity; lia).
  change (newGroupFromDiscriminant 2 1 d) with (base_form d).
  rewrite calculate_one by (done || Z.to_euclidean_division_equations; lia).
  by destruct (hashPrime _ _ _ _ _ _).
Qed.

End Discriminant.

(** [primeLessThanN] finds the odd primes up to its argument, and nothing else; the
    table of the sieve holds exactly the primes above 13 up to 2^16, each with the inverse
    of [m] modulo it. *)
Theorem tables_correct :
  (∀ num p, 3 ≤ num → p ∈ primeLessThanN num ↔ Z.prime p ∧ 2 < p ≤ num) ∧
  (∀ p q, (p, q) ∈ sieve_info → Z.prime p ∧ 13 < p ≤ 65536 ∧ (p | m * q - 1)) ∧
  (∀ p, Z.prime p → 13 < p ≤ 65536 → ∃ q, (p, q) ∈ sieve_info).
Proof.
  split; [intros num p; apply primeLessThanN_primes|]. split; [|apply sieve_info_has].
  intros p q Hin. destruct (proj1 (Forall_forall _ _) sieve_info_primes _ Hin) as (Hp & Hr & _ & _ & Hd). done.
Qed.

(** ** Witnesses *)

Module PowSample.

(** A digest of 32 bytes, a test that lets every number through, and the data. *)
Definition sha (b : bytes) : bytes := take 32 (b ++ replicate 32 Byte.x07).
Definition every (_ : Z) : bool := true.
Definition data : bytes := [Byte.x01].
(** A short table. *)
Definition table : list (Z * Z) := [(17, modExp (m mod 17) 15 17); (19, modExp (m mod 19) 17 19)].
Definition d : Z := Eval vm_compute in default 0 (newDiscriminant sha every table 1 data sizeInBits).

Lemma table_ok : Forall entry_ok table.
Proof. repeat constructor; try (vm_compute; done); [exists 56527|exists 63221]; vm_compute; reflexivity. Qed.
Lemma found : newDiscriminant sha every table 1 data sizeInBits = Some d.
Proof. vm_compute. reflexivity. Qed.

(** A number of the second window that has no small factor is left out when the number at
    its index in the first window has one. *)
Lemma second_window_overlooks : let t := 7 + m * (65536 + 12) in
  (7 + m * 12) mod 17 = 0 ∧ forallb (λ e, negb (t mod e.1 =? 0)) table = true ∧
  search_prime (λ x, x =? t) table 2 (-7) 7 = None.
Proof. vm_compute. done. Qed.

End PowSample.

Lemma newDiscriminant_correct_witness :
  (- PowSample.d) mod 8 = 7 ∧ ¬ (13 | - PowSample.d).
Proof.
  pose proof (newDiscriminant_correct PowSample.sha PowSample.every PowSample.table PowSample.table_ok 1
    PowSample.data PowSample.d PowSample.found) as (_ & H8 & _ & H13 & _).
  split; [exact H8|]. apply (proj1 (Forall_forall _ _) H13). apply (bool_decide_unpack _). vm_compute. exact I.
Defined.

Lemma Hash_value_witness :
  Hash PowSample.sha PowSample.every PowSample.table 1 1 (-9223372036854775808) PowSample.data =
    Some (Ok (PowSample.sha (Serialize (base_square PowSample.d) ++ Serialize (identityForDiscriminant PowSample.d)))).
Proof.
  rewrite (Hash_value PowSample.sha PowSample.every PowSample.table PowSample.table_ok 1 (-9223372036854775808)
    PowSample.data ltac:(lia)).
  rewrite PowSample.found. reflexivity.
Defined.

Lemma tables_correct_witness : ∃ q, (17, q) ∈ sieve_info ∧ (17 | m * q - 1).
Proof.
  destruct tables_correct as (_ & Hin & Hall). destruct (Hall 17) as [q Hq]; [|lia|].
  - apply (elem_of_odd_primes 17). apply (bool_decide_unpack _). vm_compute. exact I.
  - exists q. split; [exact Hq|]. apply (Hin 17 q Hq).
Defined.
