(* ===== verification/Script.v ===== *)
(** Token scripts: the characters, words and grammar of [pkg/contract/parser], what a
    script asks for, and its binary form.

    A script is read from a [bytes.Reader]; a loop of the code that has no other bound takes
    fuel, and [Parser] gives it one more than the bytes there are, which is enough
    ([ScriptFacts.Parser_parses]). *)

From S2P Require Import Prelude Misc Strconv.

(** ** Computations that need fuel

    [None] is a computation that ran out of fuel. *)

Definition runM (S A : Type) : Type := S → option (res A * S).
#[global] Instance runM_ret {S} : MRet (runM S) := λ A a s, Some (Ok a, s).
#[global] Instance runM_bind {S} : MBind (runM S) := λ A B f m s,
  match m s with
  | Some (Ok a, s') => f a s'
  | Some (Err e, s') => Some (Err e, s')
  | Some (Panic, s') => Some (Panic, s')
  | None => None
  end.
Definition run_st {S A} (m : stM S A) : runM S A := λ s, Some (m s).
Definition no_fuel {S A} : runM S A := λ _, None.

(** ** Characters ([ctypes.go]) *)

Definition EOF : Z := -1.
Definition RET : Z := -2.
Definition ERR : Z := -3.

Definition _DDG : Z := 1.    (* decimal digit *)
Definition _ODG : Z := 2.    (* octal digit *)
Definition _XDG : Z := 4.    (* hexadecimal digits or letters *)
Definition _PHA : Z := 8.
Definition _SPC : Z := 16.
Definition _AMP : Z := 32.   (* all possible ambiguous symbols *)
Definition _NLN : Z := 64.
Definition _CMT : Z := 128.  (* notes *)
Definition _SQU : Z := 256.  (* single quotation mark *)
Definition _DQU : Z := 512.  (* double quotation mark *)
Definition _LIM : Z := 255.

Definition charList : list Z :=
  let HT := _SPC in let VT := _SPC in let FF := _SPC in let LF := _NLN in let CR := _NLN in
  let oct := Z.lor (Z.lor _ODG _DDG) _XDG in
  let dec := Z.lor _DDG _XDG in
  let hex := Z.lor _PHA _XDG in
  replicate 8 0 ++ [0; HT; LF; VT; FF; CR; 0; 0] ++ replicate 8 0 ++ replicate 8 0 ++
  [_SPC; _AMP; _DQU; _CMT; 0; _AMP; _AMP; _SQU] ++
  [0; 0; _AMP; _AMP; 0; _AMP; 0; _AMP] ++
  replicate 8 oct ++ [dec; dec; 0; 0; _AMP; _AMP; _AMP; 0] ++
  0 :: replicate 6 hex ++ [_PHA] ++ replicate 8 _PHA ++ replicate 8 _PHA ++
  [_PHA; _PHA; _PHA; 0; 0; 0; _AMP; _PHA] ++
  0 :: replicate 6 hex ++ [_PHA] ++ replicate 8 _PHA ++ replicate 8 _PHA ++
  [_PHA; _PHA; _PHA; 0; _AMP; 0; 0; 0] ++
  replicate 128 0.

(** [charList[c&_LIM] & mask != 0] *)
Definition in_class (mask c : Z) : bool :=
  negb (Z.land (nth (Z.to_nat (Z.land c _LIM)) charList 0) mask =? 0).

Definition isEof (c : Z) : bool := c =? EOF.
Definition isSpace (c : Z) : bool := in_class _SPC c.
Definition isDigit (c : Z) : bool := in_class _DDG c.
Definition isXdigit (c : Z) : bool := in_class _XDG c.
Definition isAlpha (c : Z) : bool := in_class _PHA c.
Definition isAlnum (c : Z) : bool := in_class (Z.lor _PHA _DDG) c.
Definition isNewline (c : Z) : bool := in_class _NLN c.
Definition isSingleQuotation (c : Z) : bool := in_class _SQU c.
Definition isDoubleQuotation (c : Z) : bool := in_class _DQU c.

(** Every entry of the table is [ERR]. *)
Definition charTypeList : list Z := replicate 256 ERR.

(** ** Words ([word.go], [wtypes.go]) *)

Definition ROLLSIZE : Z := 2.
Definition BUFFSIZE : Z := 1024.

Definition IDENTIFIER : Z := 0.
Definition INT_CONSTANT : Z := 1.
Definition STRING_CONSTANT : Z := 2.

(** A value of type [interface{}]. *)
Inductive value :=
  | VNil
  | VUint64 (n : Z)
  | VString (s : bytes).

Record scriptWord := MkWord { typ : Z; name : bytes; val : value }.

(** The buffer of what was read last, for characters and for words. *)
Record rollBuf (A : Type) := MkRoll { cnt : Z; slots : list A }.
Arguments MkRoll {A} cnt slots.
Arguments cnt {A} r.
Arguments slots {A} r.

(** [putc], [putw].  The loop that should shift the older entries counts down while its
    index is negative, so it never runs. *)
Definition roll_put {A} (c : A) (r : rollBuf A) : rollBuf A := MkRoll (cnt r) (<[0%nat := c]> (slots r)).
(** [getc], [getw]; [none] is what they return when nothing was rolled back. *)
Definition roll_get {A} (none : A) (r : rollBuf A) : A * rollBuf A :=
  if decide (cnt r > 0) then
    let r := MkRoll (cnt r - 1) (slots r) in (nth (Z.to_nat (cnt r)) (slots r) none, r)
  else (none, r).
(** [ungetc], [ungetw] *)
Definition roll_unget {A} (r : rollBuf A) : rollBuf A :=
  if decide (cnt r < ROLLSIZE) then MkRoll (cnt r + 1) (slots r) else r.

(** [buffer] is [wt.buffer.buffer[pos:lim]], [fd] what the reader still has. *)
Record scriptLex := MkLex {
  lex_err : option error;
  fd : bytes;
  curr : scriptWord;
  buffer : bytes;
  rollBuffer : rollBuf Z;
}.

Definition set_err (e : error) (wt : scriptLex) : scriptLex :=
  MkLex (Some e) (fd wt) (curr wt) (buffer wt) (rollBuffer wt).
Definition set_fd b (wt : scriptLex) : scriptLex := MkLex (lex_err wt) b (curr wt) (buffer wt) (rollBuffer wt).
Definition set_curr w (wt : scriptLex) : scriptLex := MkLex (lex_err wt) (fd wt) w (buffer wt) (rollBuffer wt).
Definition set_buffer b (wt : scriptLex) : scriptLex := MkLex (lex_err wt) (fd wt) (curr wt) b (rollBuffer wt).
Definition set_roll r (wt : scriptLex) : scriptLex := MkLex (lex_err wt) (fd wt) (curr wt) (buffer wt) r.

Definition NewLex (data : bytes) : scriptLex :=
  MkLex None data (MkWord 0 [] VNil) [] (MkRoll 0 [0; 0]).

(** [wt.rollBuffer.putc(c)] *)
Definition putc (c : Z) : stM scriptLex Z :=
  st_modify (λ wt, set_roll (roll_put c (rollBuffer wt)) wt) ;; mret c.

Definition getc : stM scriptLex Z :=
  r ← st_gets (λ wt, roll_get RET (rollBuffer wt));
  let '(c, r) := r in
  st_modify (set_roll r) ;;
  if decide (c ≠ RET) then mret c else
  buf ← st_gets buffer;
  buf ← (if decide (buf = []) then
           data ← st_gets fd;
           st_modify (set_fd (drop (Z.to_nat BUFFSIZE) data)) ;;
           mret (take (Z.to_nat BUFFSIZE) data)
         else mret buf);
  match buf with
  | [] => putc EOF
  | b :: buf =>
      c ← putc (byte.unsigned b);
      st_modify (set_buffer buf) ;;
      mret c
  end.

Definition ungetc : stM scriptLex unit := st_modify (λ wt, set_roll (roll_unget (rollBuffer wt)) wt).

Definition set_typ (t : Z) : stM scriptLex unit :=
  st_modify (λ wt, set_curr (MkWord t (name (curr wt)) (val (curr wt))) wt).
Definition set_name (n : bytes) : stM scriptLex unit :=
  st_modify (λ wt, set_curr (MkWord (typ (curr wt)) n (val (curr wt))) wt).
Definition set_val (v : value) : stM scriptLex unit :=
  st_modify (λ wt, set_curr (MkWord (typ (curr wt)) (name (curr wt)) v) wt).

(** Skip blank lines *)
Fixpoint skipNewline (fuel : nat) : runM scriptLex unit :=
  match fuel with
  | O => no_fuel
  | S fuel =>
      c ← run_st getc;
      if isEof c || negb (isNewline c) then run_st ungetc else skipNewline fuel
  end.

Fixpoint getWord_loop (fuel : nat) (word : bytes) : runM scriptLex Z :=
  match fuel with
  | O => no_fuel
  | S fuel =>
      c ← run_st getc;
      if isEof c || negb (isAlnum c) then
        run_st (ungetc ;; set_typ IDENTIFIER ;; set_name word ;; mret IDENTIFIER)
      else getWord_loop fuel (word ++ [byte.of_Z c])
  end.
Definition getWord (fuel : nat) (a : Z) : runM scriptLex Z := getWord_loop fuel [byte.of_Z a].

Definition backquote : byte := Byte.x60.
Definition carriage_return : byte := Byte.x0d.

(** [strconv.Unquote] of a text in backquotes. *)
Definition Unquote (s : bytes) : res bytes :=
  let inner := removelast (drop 1 s) in
  if decide (backquote ∈ inner) then err "invalid syntax" else Ok (filter (λ b, b ≠ carriage_return) inner).

(** [v[1 : len(v)-1]] *)
Definition strip_quotes (v : bytes) : res bytes :=
  if decide (length v < 2)%nat then Panic else Ok (removelast (drop 1 v)).

Definition illegal_literal : error := ErrMsg "Fate: Illegal Literal Constant Format".

(** Parse character constant or string constant.  [typ] is always [STRING_CONSTANT]. *)
Fixpoint getLiteral_loop (fuel : nat) (a : Z) (s : bytes) : runM scriptLex Z :=
  match fuel with
  | O => no_fuel
  | S fuel =>
      c ← run_st getc;
      if isEof c || isNewline c then
        run_st (st_modify (set_err illegal_literal) ;; mret ERR)
      else if decide (a = c) then
        match Unquote (s ++ [byte.of_Z c; backquote]) with
        | Ok v =>
            run_st (
              set_typ STRING_CONSTANT ;;
              v ← st_lift (strip_quotes v);
              set_val (VString v) ;;
              mret STRING_CONSTANT)
        | _ => run_st (st_modify (set_err illegal_literal) ;; mret ERR)
        end
      else getLiteral_loop fuel a (s ++ [byte.of_Z c])
  end.
Definition getLiteral (fuel : nat) (a : Z) : runM scriptLex Z := getLiteral_loop fuel a [backquote; byte.of_Z a].

(** [strconv.ParseUint(s, 0, 64)] of a text of hexadecimal digits that begins with a decimal
    digit: a leading zero makes it octal (a letter in second place would be a prefix, but
    [getDigit] stops before it). *)
Definition hex_value (b : byte) : option Z :=
  let c := byte.unsigned b in
  if decide (48 ≤ c ≤ 57) then Some (c - 48)
  else if decide (97 ≤ c ≤ 102) then Some (c - 97 + 10)
  else if decide (65 ≤ c ≤ 70) then Some (c - 65 + 10) else None.
Fixpoint parse_base (base acc : Z) (s : bytes) : option Z :=
  match s with
  | [] => Some acc
  | b :: s =>
      d ← hex_value b;
      if decide ((d >= base)%Z ∨ (acc * base + d > MAXUINT64)%Z) then None else parse_base base (acc * base + d)%Z s
  end.
Definition ParseUint0 (s : bytes) : option Z :=
  match s with
  | [] => None
  | b :: s' => if decide (b = Byte.x30) then parse_base 8 0 s' else parse_base 10 0 s
  end.

(** From the label [out] on. *)
Definition digit_out (word : bytes) : stM scriptLex Z :=
  ungetc ;;
  set_typ INT_CONSTANT ;;
  match ParseUint0 word with
  | None => st_modify (set_err (ErrMsg "invalid syntax or value out of range")) ;; mret ERR
  | Some v => set_val (VUint64 v) ;; mret INT_CONSTANT
  end.
Fixpoint getDigit_loop (fuel : nat) (word : bytes) : runM scriptLex Z :=
  match fuel with
  | O => no_fuel
  | S fuel =>
      c ← run_st getc;
      if isEof c || negb (isXdigit c) then run_st (digit_out word)
      else getDigit_loop fuel (word ++ [byte.of_Z c])
  end.
(** Analytic number *)
Definition getDigit (fuel : nat) (a : Z) : runM scriptLex Z :=
  let word := [byte.of_Z a] in
  if decide (a = 48) then
    c ← run_st getc;
    if isEof c || (negb (c =? 120) && negb (c =? 88) && negb (isDigit c)) then run_st (digit_out word)
    else run_st ungetc ;; getDigit_loop fuel word
  else getDigit_loop fuel word.

(** [fuel] bounds the rounds of each loop by itself. *)
Fixpoint symbol_loop (n fuel : nat) : runM scriptLex Z :=
  match n with
  | O => no_fuel
  | S n =>
      c ← run_st getc;
      if isEof c then mret c
      else if isSpace c then symbol_loop n fuel
      else if isNewline c then skipNewline fuel ;; symbol_loop n fuel
      else if isAlpha c then getWord fuel c
      else if isDigit c then getDigit fuel c
      else if isSingleQuotation c || isDoubleQuotation c then getLiteral fuel c
      else
        let t := nth (Z.to_nat (Z.land c _LIM)) charTypeList 0 in
        run_st (set_typ t ;; mret t)
  end.
Definition symbol (fuel : nat) : runM scriptLex Z := symbol_loop fuel fuel.

(** ** Grammar ([ptypes.go], [parser.go]) *)

Definition SUB_OFF : Z := 8.
Definition TYP_MASK : Z := 255.
Definition SUB_MASK : Z := 65280.

Definition O_INT : Z := 1.
Definition O_STRING : Z := 2.

Definition O_CALL : Z := 1.
Definition O_NAME : Z := 2.
Definition O_CONST : Z := 3.
Definition O_ELIST : Z := 4.

Definition FunctionCALL : Z := 1.
Definition ArgumentExpressionList : Z := 2.
Definition PrimaryExpression : Z := 4.

(** By the type of a word, what can begin with it. *)
Definition firstList : list Z :=
  [FunctionCALL; Z.lor PrimaryExpression ArgumentExpressionList; Z.lor PrimaryExpression ArgumentExpressionList].

Inductive scriptNode := MkNode (op : Z) (left right : option scriptNode) (val : value).

Definition node_op (n : scriptNode) : Z := let '(MkNode op _ _ _) := n in op.
Definition node_left (n : scriptNode) : option scriptNode := let '(MkNode _ l _ _) := n in l.
Definition node_right (n : scriptNode) : option scriptNode := let '(MkNode _ _ r _) := n in r.
Definition node_val (n : scriptNode) : value := let '(MkNode _ _ _ v) := n in v.

(** A nil word is [None]. *)
Record scriptParser := MkParser {
  wt : scriptLex;
  ns : list scriptNode;
  wordBuffer : rollBuf (option scriptWord);
}.

Definition set_words r (wp : scriptParser) : scriptParser := MkParser (wt wp) (ns wp) r.
Definition add_node n (wp : scriptParser) : scriptParser := MkParser (wt wp) (ns wp ++ [n]) (wordBuffer wp).

Definition NewParser (data : bytes) : scriptParser := MkParser (NewLex data) [] (MkRoll 0 [None; None]).

(** A computation of the lexer. *)
Definition on_lex {A} (m : runM scriptLex A) : runM scriptParser A := λ wp,
  match m (wt wp) with
  | Some (r, l) => Some (r, MkParser l (ns wp) (wordBuffer wp))
  | None => None
  end.

Definition ungetw : stM scriptParser unit := st_modify (λ wp, set_words (roll_unget (wordBuffer wp)) wp).

Section Grammar.
Variable fuel : nat.

Definition getw : runM scriptParser (option scriptWord) :=
  r ← run_st (st_gets (λ wp, roll_get None (wordBuffer wp)));
  let '(w, r) := r in
  run_st (st_modify (set_words r)) ;;
  match w with
  | Some w => mret (Some w)
  | None =>
      o ← on_lex (symbol fuel);
      if decide (o = EOF ∨ o = ERR) then mret None else
      run_st (
        w ← st_gets (λ wp, curr (wt wp));
        st_modify (λ wp, set_words (roll_put (Some w) (wordBuffer wp)) wp) ;;
        mret (Some w))
  end.

Definition peek : runM scriptParser Z :=
  w ← getw;
  match w with
  | Some w => run_st (ungetw ;; mret (typ w))
  | None => mret EOF
  end.

Definition detect0 (t : Z) : runM scriptParser bool :=
  p ← peek; mret (bool_decide (p = t)).

Definition detect1 (grm : Z) : runM scriptParser bool :=
  t ← peek;
  if decide (t = EOF) then mret false else
  match firstList !! Z.to_nat t with
  | Some f => if decide (t < 0) then run_st st_panic else mret (negb (Z.land f grm =? 0))
  | None => run_st st_panic
  end.

(** [wp.getw().name], [wp.getw().value] *)
Definition taken {A} (f : scriptWord → A) : runM scriptParser A :=
  w ← getw;
  match w with Some w => mret (f w) | None => run_st st_panic end.

(** PrimaryExpression *)
Definition parser2 : runM scriptParser scriptNode :=
  i ← detect0 INT_CONSTANT;
  if (i : bool) then
    v ← taken val; mret (MkNode (Z.lor O_CONST (Z.shiftl O_INT SUB_OFF)) None None v)
  else
  s ← detect0 STRING_CONSTANT;
  if (s : bool) then
    v ← taken val; mret (MkNode (Z.lor O_CONST (Z.shiftl O_STRING SUB_OFF)) None None v)
  else run_st (st_err (ErrMsg "Expect PrimaryExpression")).

(** ArgumentExpressionList -- left = PrimaryExpression, next = ArgumentExpressionList *)
Fixpoint parser1 (n : nat) : runM scriptParser scriptNode :=
  match n with
  | O => no_fuel
  | S n =>
      n1 ← parser2;
      e ← detect0 EOF;
      if (e : bool) then getw ;; mret n1 else
      p ← detect1 PrimaryExpression;
      if negb p then run_st (st_err (ErrMsg "Expect PrimaryExpression")) else
      n2 ← parser1 n;
      mret (MkNode O_ELIST (Some n1) (Some n2) VNil)
  end.

(** FunctionCALL *)
Definition parser0 : runM scriptParser scriptNode :=
  i ← detect0 IDENTIFIER;
  if negb i then run_st (st_err (ErrMsg "Expect Function Name")) else
  nm ← taken name;
  let n1 := MkNode O_NAME None None (VString nm) in
  e ← detect0 EOF;
  if (e : bool) then getw ;; mret (MkNode O_CALL (Some n1) None VNil) else
  n2 ← parser1 fuel;
  mret (MkNode O_CALL (Some n1) (Some n2) VNil).

(** The method [Parser]. *)
Fixpoint parser_loop (n : nat) : runM scriptParser unit :=
  match n with
  | O => no_fuel
  | S n =>
      t ← peek;
      if decide (t = EOF) then mret tt
      else if decide (t = IDENTIFIER) then
        node ← parser0;
        run_st (st_modify (add_node node)) ;;
        parser_loop n
      else run_st (st_err (ErrMsg "Expect Function Call"))
  end.

End Grammar.

(** ** Scripts ([operate.go], [otypes.go]) *)

Definition ORDER : Z := 0.
Definition AMOUNT : Z := 1.
Definition ADDRESS : Z := 2.
Definition TOKENID : Z := 3.
Definition PERCENTAGE : Z := 4.

Definition typList : list Z := [O_STRING; O_INT; O_STRING; O_STRING; O_INT].

Record ScriptArgument := MkArg { arg_typ : Z; arg_val : value }.
Record Script := MkScript { sc_name : bytes; sc_args : list ScriptArgument }.

Definition argumentValue (np : scriptNode) : option scriptNode :=
  if decide (Z.land (node_op np) TYP_MASK = O_ELIST) then node_left np else Some np.

Definition nextArgument (np : scriptNode) : option scriptNode :=
  if decide (Z.land (node_op np) TYP_MASK = O_ELIST) then node_right np else None.

Definition takeArgument (t : Z) (np : scriptNode) (args : list ScriptArgument) : res (list ScriptArgument) :=
  match argumentValue np with
  | None => Panic
  | Some arg =>
      if decide (Z.shiftr (Z.land (node_op arg) SUB_MASK) SUB_OFF ≠ nth (Z.to_nat t) typList 0) then err "type mismatch"
      else Ok (args ++ [MkArg t (node_val arg)])
  end.

(** The arguments of the given types, in order; nil, for the wrong ones, is [None]. *)
Fixpoint takeArguments (types : list Z) (np : option scriptNode) (args : list ScriptArgument) :
    res (option (list ScriptArgument)) :=
  match types with
  | [] => Ok (Some args)
  | t :: types =>
      match np with
      | None => Ok None
      | Some np =>
          match takeArgument t np args with
          | Ok args => takeArguments types (nextArgument np) args
          | Err _ => Ok None
          | Panic => Panic
          end
      end
  end.

Definition operate (nm : bytes) (types : list Z) (np : option scriptNode) : res (option Script) :=
  option_map (MkScript nm) <$> takeArguments types np [].

(** new tokenId total_amount precision *)
Definition operate0 := operate (bs "new") [TOKENID; AMOUNT; AMOUNT].
(** mint tokenId amount *)
Definition operate1 := operate (bs "mint") [TOKENID; AMOUNT].
(** transfer tokenId amount address *)
Definition operate2 := operate (bs "transfer") [TOKENID; AMOUNT; ADDRESS].
(** freeze tokenId address amount *)
Definition operate3 := operate (bs "freeze") [TOKENID; ADDRESS; AMOUNT].
(** unfreeze tokenId address amount *)
Definition operate4 := operate (bs "unfreeze") [TOKENID; ADDRESS; AMOUNT].

Definition operateRegistry (nm : bytes) : option (option scriptNode → res (option Script)) :=
  if decide (nm = bs "new") then Some operate0
  else if decide (nm = bs "mint") then Some operate1
  else if decide (nm = bs "transfer") then Some operate2
  else if decide (nm = bs "freeze") then Some operate3
  else if decide (nm = bs "unfreeze") then Some operate4
  else None.

(** The scripts of the calls, the name always being that of the first ([wp.ns[0]]). *)
Fixpoint operate_all (count : nat) (first : option scriptNode) (xs : list (option Script)) : res (list (option Script)) :=
  match count with
  | O => Ok xs
  | S count =>
      match first with
      | None => Panic
      | Some n0 =>
          match node_left n0 with
          | None => Panic
          | Some nm =>
              match operateRegistry (match node_val nm with VString s => s | _ => [] end) with
              | None => Ok []
              | Some fp => x ← fp (node_right n0); operate_all count first (xs ++ [x])
              end
          end
      end
  end.

(** The function [Parser]; nil is no scripts. *)
Definition Parser (data : bytes) : option (res (list (option Script))) :=
  let fuel := (length data + 1)%nat in
  match parser_loop fuel fuel (NewParser data) with
  | Some (Ok _, wp) => Some (operate_all (length (ns wp)) (head (ns wp)) [])
  | Some (Err _, _) => Some (Ok [])
  | Some (Panic, _) => Some Panic
  | None => None
  end.

(** *** The binary form *)

Definition Arg_Show (a : ScriptArgument) : bytes :=
  E32func (arg_typ a) ++
  match arg_val a with
  | VUint64 v => E64func v
  | VString v => Eslice v
  | VNil => []
  end.

(** args count || typ || name || args *)
Definition Script_Show (a : Script) : bytes :=
  E32func (u32 (Z.of_nat (length (sc_args a)))) ++ Eslice (sc_name a) ++ mjoin (Arg_Show <$> sc_args a).

(** The methods change their receiver. *)
Definition Arg_Read (data : bytes) : stM ScriptArgument bytes :=
  if decide (length data < 4)%nat then st_err (ErrMsg "ScriptArgument Read: Illegal Length") else
  t ← st_lift (D32func (take 4 data));
  st_modify (λ a, MkArg t (arg_val a)) ;;
  if decide (t = AMOUNT ∨ t = PERCENTAGE) then
    let data := drop 4 data in
    if decide (length data < 8)%nat then st_err (ErrMsg "ScriptArgument Read: Illegal Length") else
    v ← st_lift (D64func (take 8 data));
    st_modify (λ a, MkArg (arg_typ a) (VUint64 v)) ;;
    mret (drop 8 data)
  else if decide (t = ORDER ∨ t = ADDRESS ∨ t = TOKENID) then
    r ← st_lift (Dslice (drop 4 data));
    let '(v, data) := r in
    st_modify (λ a, MkArg (arg_typ a) (VString v)) ;;
    mret data
  else mret data.

(** The arguments from the [i]-th on; the [i]-th is there or nil. *)
Fixpoint Args_Read (n : nat) (i : nat) (data : bytes) : stM (list (option ScriptArgument)) bytes :=
  match n with
  | O => mret data
  | S n =>
      a ← st_gets (λ l, default (MkArg 0 VNil) (mjoin (l !! i)));
      let '(r, a) := Arg_Read data a in
      st_modify (λ l, <[i := Some a]> l) ;;
      data ← st_lift r;
      Args_Read n (S i) data
  end.

(** A script being read: its arguments may be nil. *)
Record partScript := MkPart { ps_name : bytes; ps_args : list (option ScriptArgument) }.

Definition Script_Read (data : bytes) : stM partScript bytes :=
  if decide (length data < 4)%nat then st_err (ErrMsg "Script Read: Illegal Length") else
  n ← st_lift (D32func (take 4 data));
  r ← st_lift (Dslice (drop 4 data));
  let '(nm, data) := r in
  st_modify (λ a, MkPart nm (ps_args a)) ;;
  st_modify (λ a, if decide (u32 (Z.of_nat (length (ps_args a))) < n) then MkPart (ps_name a) (replicate (Z.to_nat n) None) else a) ;;
  zoom ps_args (λ l a, MkPart (ps_name a) l) (Args_Read (Z.to_nat n) 0 data).
