(* ===== verification/ScriptFacts.v ===== *)
(** What a script means: the words and the grammar of the parser as functions on lists, the
    scripts as they are written, and their binary form.

    The parser reads through buffers that can give back one character and one word; the
    functions of this file read lists. *)

From S2P Require Import Prelude Misc Strconv Script.

(** ** Running computations *)

Section Runs.
Context {S : Type}.

Lemma runM_bind_run {A B} (m : runM S A) (f : A → runM S B) s a s' :
  m s = Some (Ok a, s') → (m ≫= f) s = f a s'.
Proof. unfold mbind, runM_bind. by intros ->. Qed.
Lemma runM_bind_err {A B} (m : runM S A) (f : A → runM S B) s e s' :
  m s = Some (Err e, s') → (m ≫= f) s = Some (Err e, s').
Proof. unfold mbind, runM_bind. by intros ->. Qed.
Lemma run_st_run {A} (m : stM S A) s r : m s = r → run_st m s = Some r.
Proof. by intros <-. Qed.
End Runs.

(** [run H]: the first computation of the goal runs as [H] says. *)
Ltac run H := rewrite (runM_bind_run _ _ _ _ _ H); cbv beta iota.

(** ** A text, character by character *)

(** The first character of a text, as [getc] returns it. *)
Definition char (b : byte) : Z := byte.unsigned b.
Definition first_char (s : bytes) : Z := match s with [] => EOF | b :: _ => char b end.

Fixpoint take_while (p : byte → bool) (s : bytes) : bytes :=
  match s with [] => [] | b :: s => if p b then b :: take_while p s else [] end.
Fixpoint drop_while (p : byte → bool) (s : bytes) : bytes :=
  match s with [] => [] | b :: s' => if p b then drop_while p s' else s end.

Lemma drop_while_length p s : (length (drop_while p s) ≤ length s)%nat.
Proof. induction s as [|b s IH]; [done|]. cbn. destruct (p b); cbn; lia. Qed.
Lemma take_drop_while p s : take_while p s ++ drop_while p s = s.
Proof. induction s as [|b s IH]; [done|]. cbn. destruct (p b); cbn; [by rewrite IH|done]. Qed.

Lemma char_not_eof b : isEof (char b) = false.
Proof. unfold isEof, char, EOF. pose proof (byte.unsigned_range b). lia. Qed.
Lemma char_not_ret b : char b ≠ RET.
Proof. unfold char, RET. pose proof (byte.unsigned_range b). lia. Qed.
Lemma of_char b : byte.of_Z (char b) = b.
Proof. apply byte.of_Z_unsigned. Qed.

(** Nothing is rolled back and [s] is ahead. *)
Definition ahead (s : bytes) (l : scriptLex) : Prop :=
  cnt (rollBuffer l) = 0 ∧ length (slots (rollBuffer l)) = 2%nat ∧ buffer l ++ fd l = s.
(** The first character of [s] has been rolled back. *)
Definition rolled (s : bytes) (l : scriptLex) : Prop :=
  cnt (rollBuffer l) = 1 ∧ (∃ x, slots (rollBuffer l) = [first_char s; x]) ∧ buffer l ++ fd l = tail s.
(** The lexer has [s] still to read. *)
Definition reads (s : bytes) (l : scriptLex) : Prop := ahead s l ∨ rolled s l.
(** The same, and [getc] returned the first character just now. *)
Definition reading (s : bytes) (l : scriptLex) : Prop :=
  ahead (tail s) l ∧ ∃ x, slots (rollBuffer l) = [first_char s; x].

Lemma reads_new data : reads data (NewLex data).
Proof. by left. Qed.

Lemma unget_reads s l : reading s l → ∃ l', ungetc l = (Ok tt, l') ∧ reads s l' ∧ curr l' = curr l.
Proof.
  intros [(Hc & Hl & Ha) [x Hx]]. unfold ungetc, st_modify, roll_unget. rewrite Hc. cbn [decide].
  eexists. split; [done|]. split; [|done]. right. split; [done|]. split; [|done]. by exists x.
Qed.

Lemma getc_reads s l : reads s l → ∃ l', getc l = (Ok (first_char s), l') ∧ reading s l' ∧ curr l' = curr l.
Proof.
  assert (∃ k, Z.to_nat BUFFSIZE = S k) as [k Hk] by by eexists.
  destruct l as [le f cu bu [rc rs]]. unfold reads, ahead, rolled, reading, getc, mbind, stM_bind. rewrite Hk. cbn.
  intros [(-> & Hl & Ha)|(-> & [x ->] & Ha)].
  - destruct rs as [|r0 [|r1 [|]]]; [done..| |done]. cbn. destruct bu as [|b bu]; cbn in Ha; subst.
    + destruct s as [|b s]; cbn; (eexists; split; [done|]); (split; [|done]); (split; [|by exists r1]); [done|].
      split; [done|]. split; [done|]. cbn. apply take_drop.
    + eexists. split; [done|]. split; [|done]. split; [done|]. by exists r1.
  - change (roll_get RET _) with (first_char s, MkRoll 0 [first_char s; x]). cbv beta iota.
    rewrite decide_True; [|destruct s as [|b s]; [done|apply char_not_ret]].
    eexists. split; [done|]. split; [|done]. split; [done|]. by exists x.
Qed.

(** ** Words *)

Inductive word := Ident (nm : bytes) | Int (v : Z) | Str (s : bytes).

Definition word_typ (w : word) : Z :=
  match w with Ident _ => IDENTIFIER | Int _ => INT_CONSTANT | Str _ => STRING_CONSTANT end.

(** What lies between two quotes; nothing when the line or the text ends before. *)
Fixpoint literal (q : byte) (s : bytes) : option bytes * bytes :=
  match s with
  | [] => (None, [])
  | b :: s =>
      if isNewline (char b) then (None, s)
      else if decide (b = q) then (Some [], s)
      else let '(o, r) := literal q s in (cons b <$> o, r)
  end.

Definition starts_digit (s : bytes) : bool := match s with [] => false | c :: _ => isDigit (char c) end.

(** The digits of a number that begins with [b]; a zero stands for itself unless another
    digit follows. *)
Definition number (b : byte) (s : bytes) : bytes * bytes :=
  if bool_decide (b = Byte.x30) && negb (starts_digit s) then ([b], s)
  else (b :: take_while (λ c, isXdigit (char c)) s, drop_while (λ c, isXdigit (char c)) s).

(** The next word of a text and what follows it; [None] in place of a word is something
    that cannot be read. *)
Fixpoint next (s : bytes) : option (option word * bytes) :=
  match s with
  | [] => None
  | b :: s =>
      let c := char b in
      if isSpace c then next s
      else if isNewline c then next s
      else if isAlpha c then
        Some (Some (Ident (b :: take_while (λ c, isAlnum (char c)) s)), drop_while (λ c, isAlnum (char c)) s)
      else if isDigit c then let '(w, r) := number b s in Some (Int <$> ParseUint0 w, r)
      else if isSingleQuotation c || isDoubleQuotation c then
        let '(o, r) := literal b s in
        Some (match o with Some l => if decide (backquote ∈ l) then None else Some (Str l) | None => None end, r)
      else Some (None, s)
  end.

(** [sw] is how the lexer holds [w]. *)
Definition is_word (w : word) (sw : scriptWord) : Prop :=
  typ sw = word_typ w ∧
  match w with Ident n => name sw = n | Int v => val sw = VUint64 v | Str s => val sw = VString s end.

(** The fuel is enough for what is still to be read. *)
Definition enough (fuel : nat) (s : bytes) : Prop := (length s < fuel)%nat.

Section Loops.
Implicit Types (s : bytes) (l : scriptLex).

Ltac step_char Hr Hg Hc := 
  let l1 := fresh "l" in let H1 := fresh "H1" in
  destruct (getc_reads _ _ Hr) as (l1 & H1 & Hg & Hc); run (run_st_run _ _ _ H1).

Lemma reading_reads b s l : reading (b :: s) l → reads s l.
Proof. intros [Ha _]. by left. Qed.

Lemma skipNewline_run fuel : ∀ s l, reads s l → enough fuel s →
  ∃ l', skipNewline fuel l = Some (Ok tt, l') ∧ reads (drop_while (λ c, isNewline (char c)) s) l'.
Proof.
  unfold enough. induction fuel as [|fuel IH]; intros s l Hr Hf; [lia|]. cbn [skipNewline]. step_char Hr Hg Hc.
  destruct s as [|b s]; cbn [first_char drop_while].
  - destruct (unget_reads _ _ Hg) as (l2 & H2 & Hr2 & _). exists l2. split; [|done]. cbn. by apply run_st_run.
  - rewrite char_not_eof. cbn [orb]. destruct (isNewline (char b)); cbn [negb].
    + apply IH; [by eapply reading_reads|cbn in Hf; lia].
    + destruct (unget_reads _ _ Hg) as (l2 & H2 & Hr2 & _). exists l2. split; [|done]. by apply run_st_run.
Qed.

Lemma getWord_run fuel : ∀ s w l, reads s l → enough fuel s →
  ∃ l', getWord_loop fuel w l = Some (Ok IDENTIFIER, l') ∧ reads (drop_while (λ c, isAlnum (char c)) s) l' ∧
    is_word (Ident (w ++ take_while (λ c, isAlnum (char c)) s)) (curr l').
Proof.
  unfold enough. induction fuel as [|fuel IH]; intros s w l Hr Hf; [lia|]. cbn [getWord_loop]. step_char Hr Hg Hc.
  assert (∀ s', reading s' l0 → ∃ l',
    run_st (ungetc;; set_typ IDENTIFIER;; set_name w;; mret IDENTIFIER) l0 = Some (Ok IDENTIFIER, l') ∧ reads s' l' ∧
    is_word (Ident w) (curr l')) as Hend.
  { intros s' Hg'. destruct (unget_reads _ _ Hg') as (l2 & H2 & Hr2 & _).
    eexists. split; [apply run_st_run; rewrite (st_bind_eq _ _ _ _ _ H2); reflexivity|]. by split. }
  destruct s as [|b s]; cbn [first_char drop_while take_while].
  - rewrite app_nil_r. apply (Hend [] Hg).
  - rewrite char_not_eof. cbn [orb]. destruct (isAlnum (char b)); cbn [negb].
    + rewrite of_char. destruct (IH s (w ++ [b]) l0) as (l' & H' & Hr' & Hw'); [by eapply reading_reads|cbn in Hf; lia|].
      exists l'. by rewrite <- app_assoc in Hw'.
    + rewrite app_nil_r. apply (Hend (b :: s) Hg).
Qed.

Lemma digit_out_run s w l : reading s l →
  ∃ l', digit_out w l = (Ok (match ParseUint0 w with Some _ => INT_CONSTANT | None => ERR end), l') ∧ reads s l' ∧
    match ParseUint0 w with Some v => is_word (Int v) (curr l') | None => True end.
Proof.
  intros Hg. destruct (unget_reads _ _ Hg) as (l2 & H2 & Hr2 & _). unfold digit_out. rewrite (st_bind_eq _ _ _ _ _ H2).
  destruct (ParseUint0 w); (eexists; split; [reflexivity|]); by split.
Qed.

Lemma getDigit_loop_run fuel : ∀ s w l, reads s l → enough fuel s →
  let w' := w ++ take_while (λ c, isXdigit (char c)) s in
  ∃ l', getDigit_loop fuel w l = Some (Ok (match ParseUint0 w' with Some _ => INT_CONSTANT | None => ERR end), l') ∧
    reads (drop_while (λ c, isXdigit (char c)) s) l' ∧
    match ParseUint0 w' with Some v => is_word (Int v) (curr l') | None => True end.
Proof.
  unfold enough. induction fuel as [|fuel IH]; intros s w l Hr Hf; [lia|]. cbn [getDigit_loop]. cbv zeta. step_char Hr Hg Hc.
  destruct s as [|b s]; cbn [first_char drop_while take_while].
  - rewrite app_nil_r. destruct (digit_out_run [] w l0 Hg) as (l' & H' & H''). exists l'. split; [by apply run_st_run|done].
  - rewrite char_not_eof. cbn [orb]. destruct (isXdigit (char b)); cbn [negb].
    + rewrite of_char. destruct (IH s (w ++ [b]) l0) as (l' & H' & Hr' & Hw'); [by eapply reading_reads|cbn in Hf; lia|].
      rewrite <- app_assoc in H', Hw'. cbn [app] in *. by exists l'.
    + rewrite app_nil_r. destruct (digit_out_run (b :: s) w l0 Hg) as (l' & H' & H''). exists l'.
      split; [by apply run_st_run|done].
Qed.

Lemma getDigit_run fuel b s l : isDigit (char b) = true → reads s l → enough fuel s →
  let '(w, r) := number b s in
  ∃ l', getDigit fuel (char b) l = Some (Ok (match ParseUint0 w with Some _ => INT_CONSTANT | None => ERR end), l') ∧
    reads r l' ∧ match ParseUint0 w with Some v => is_word (Int v) (curr l') | None => True end.
Proof.
  intros Hb Hr Hf. unfold number, getDigit. rewrite of_char.
  assert (bool_decide (b = Byte.x30) = bool_decide (char b = 48)) as ->.
  { apply bool_decide_ext. split; [by intros ->|]. intros H. by rewrite <- (of_char b), H. }
  case_bool_decide as H48; [|rewrite decide_False by done; by apply (getDigit_loop_run fuel s [b])]. rewrite decide_True by done. cbn [andb].
  step_char Hr Hg Hc.
  assert (starts_digit s = false → ∃ l' : scriptLex,
    run_st (digit_out [b]) l0 = Some (Ok (match ParseUint0 [b] with Some _ => INT_CONSTANT | None => ERR end), l') ∧
    reads s l' ∧ match ParseUint0 [b] with Some v => is_word (Int v) (curr l') | None => True end) as Hzero.
  { intros _. destruct (digit_out_run s [b] l0 Hg) as (l' & H' & H''). exists l'. split; [by apply run_st_run|done]. }
  destruct s as [|c s]; cbn [first_char starts_digit negb]; [by apply Hzero|]. rewrite char_not_eof. cbn [orb].
  destruct (isDigit (char c)) eqn:Hd; cbn [negb].
  - rewrite !andb_false_r. destruct (unget_reads _ _ Hg) as (l2 & H2 & Hr2 & _). run (run_st_run _ _ _ H2).
    by apply (getDigit_loop_run fuel (c :: s) [b]).
  - rewrite !andb_true_r. destruct (negb (char c =? 120) && negb (char c =? 88)) eqn:Hx; [by apply Hzero|].
    destruct (unget_reads _ _ Hg) as (l2 & H2 & Hr2 & _). run (run_st_run _ _ _ H2).
    pose proof (getDigit_loop_run fuel (c :: s) [b] l2 Hr2 Hf) as H. cbn [take_while drop_while] in H.
    assert (isXdigit (char c) = false) as Hxd.
    { apply andb_false_iff in Hx as [Hx|Hx]; apply negb_false_iff, Z.eqb_eq in Hx; by rewrite Hx. }
    rewrite Hxd in H. exact H.
Qed.

Lemma removelast_snoc {A} (l : list A) x : removelast (l ++ [x]) = l.
Proof. apply removelast_last. Qed.

(** A quoted text without line ends, unquoted and stripped. *)
Lemma Unquote_quoted q body : q ≠ backquote → q ≠ carriage_return → carriage_return ∉ body →
  Unquote ([backquote; q] ++ body ++ [q; backquote]) =
    (if decide (backquote ∈ body) then err "invalid syntax" else Ok (q :: body ++ [q])).
Proof.
  intros Hq Hcr Hb. unfold Unquote. cbn [app]. rewrite skipn_cons, drop_0.
  replace (q :: body ++ [q; backquote]) with ((q :: body ++ [q]) ++ [backquote]) by by rewrite <- app_comm_cons, <- app_assoc.
  rewrite removelast_snoc.
  assert (backquote ∈ q :: body ++ [q] ↔ backquote ∈ body) as Hin.
  { rewrite elem_of_cons, elem_of_app, list_elem_of_singleton. naive_solver. }
  case_decide as H1; case_decide as H2; [done|tauto|tauto|]. f_equal. apply filter_every, Forall_forall. intros b. rewrite elem_of_cons, elem_of_app, list_elem_of_singleton. naive_solver.
Qed.

Lemma getLiteral_loop_run q fuel : q ≠ backquote → q ≠ carriage_return → isNewline (char carriage_return) = true → ∀ s acc l,
  carriage_return ∉ acc → reads s l → enough fuel s →
  ∃ l' t, getLiteral_loop fuel (char q) ([backquote; q] ++ acc) l = Some (Ok t, l') ∧ reads (literal q s).2 l' ∧
    match (literal q s).1 with
    | Some body => if decide (backquote ∈ acc ++ body) then t = ERR else t = STRING_CONSTANT ∧ is_word (Str (acc ++ body)) (curr l')
    | None => t = ERR
    end.
Proof.
  intros Hq Hcr Hnl. unfold enough. induction fuel as [|fuel IH]; intros s acc l Hacc Hr Hf; [lia|].
  cbn [getLiteral_loop]. step_char Hr Hg Hc. destruct s as [|b s]; cbn [first_char literal].
  { do 2 eexists. split; [by apply run_st_run|]. split; [|done]. by left; destruct Hg as [Ha _]. }
  apply reading_reads in Hg as Hr0. rewrite char_not_eof. cbn [orb]. destruct (isNewline (char b)) eqn:Hb.
  { do 2 eexists. split; [by apply run_st_run|]. split; [|done]. destruct Hr0 as [(H2 & H3 & H4)|(H2 & H3 & H4)]; [by left|by right]. }
  assert (b ≠ carriage_return) as Hbcr by congruence.
  destruct (decide (b = q)) as [->|Hne].
  - rewrite decide_True by done. cbn [fst snd]. rewrite app_nil_r. cbn [app].
    rewrite of_char. pose proof (Unquote_quoted q acc Hq Hcr Hacc) as HU. cbn [app] in HU. rewrite HU.
    case_decide as Hbq.
    + do 2 eexists. split; [by apply run_st_run|]. split; [|done]. by destruct Hr0 as [?|?]; [left|right].
    + do 2 eexists. split; [apply run_st_run|].
      * unfold strip_quotes. rewrite decide_False by (cbn; rewrite length_app; cbn; lia). rewrite skipn_cons, drop_0, removelast_snoc. reflexivity.
      * split; [|done]. by destruct Hr0 as [?|?]; [left|right].
  - rewrite decide_False by (intros H; apply Hne; by rewrite <- (of_char b), <- H, of_char).
    rewrite of_char.
    destruct (IH s (acc ++ [b]) l0) as (l' & t & H' & Hr' & Ht); [by rewrite elem_of_app, list_elem_of_singleton; naive_solver|done|cbn in Hf; lia|].
    destruct (literal q s) as [o r]. cbn [fst snd] in *. exists l', t.
    split; [by rewrite <- app_assoc|]. split; [done|]. destruct o as [body|]; cbn; [|done]. by rewrite <- app_assoc in Ht.
Qed.

End Loops.

Lemma quotes b : isSingleQuotation (char b) || isDoubleQuotation (char b) = true → b = Byte.x27 ∨ b = Byte.x22.
Proof. destruct b; vm_compute; (try done); auto. Qed.

Lemma literal_length q s : (length (literal q s).2 ≤ length s)%nat.
Proof.
  induction s as [|b s IH]; [done|]. cbn [literal]. destruct (isNewline _); [cbn; lia|].
  case_decide; [cbn; lia|]. destruct (literal q s). cbn in *. lia.
Qed.
Lemma number_length b s : (length (number b s).2 ≤ length s)%nat.
Proof. unfold number. destruct (_ && _); [done|]. apply drop_while_length. Qed.

Lemma next_length s o r : next s = Some (o, r) → (length r < length s)%nat.
Proof.
  induction s as [|b s IH]; [done|]. cbn [next length].
  destruct (isSpace _); [intros H; apply IH in H; lia|]. destruct (isNewline _); [intros H; apply IH in H; lia|].
  destruct (isAlpha _); [intros [= _ <-]; pose proof (drop_while_length (λ c, isAlnum (char c)) s); lia|].
  destruct (isDigit _); [|destruct (_ || _); [|intros [= _ <-]; lia]].
  - pose proof (number_length b s). destruct (number b s). intros [= _ <-]. cbn in *. lia.
  - pose proof (literal_length b s). destruct (literal b s). intros [= _ <-]. cbn in *. lia.
Qed.

(** Line ends are skipped one by one or all at once. *)
Lemma next_newlines s : next (drop_while (λ c, isNewline (char c)) s) = next s.
Proof.
  induction s as [|b s IH]; [done|]. cbn [drop_while]. destruct (isNewline (char b)) eqn:Hb; [|done].
  rewrite IH. cbn [next]. rewrite Hb. by destruct (isSpace _).
Qed.

(** What [symbol] returns for the next word, if there is one. *)
Definition symbol_result (n : option (option word * bytes)) (t : Z) (l : scriptLex) : Prop :=
  match n with
  | None => t = EOF ∧ reads [] l
  | Some (None, r) => t = ERR ∧ reads r l
  | Some (Some w, r) => t = word_typ w ∧ reads r l ∧ is_word w (curr l)
  end.

Lemma symbol_loop_run fuel n : ∀ s l, reads s l → enough fuel s → enough n s →
  ∃ l' t, symbol_loop n fuel l = Some (Ok t, l') ∧ symbol_result (next s) t l'.
Proof.
  unfold enough. induction n as [|n IH]; intros s l Hr Hf Hn; [lia|]. cbn [symbol_loop].
  destruct (getc_reads _ _ Hr) as (l0 & H0 & Hg & _). run (run_st_run _ _ _ H0). destruct s as [|b s]; cbn [first_char next].
  { exists l0, EOF. split; [done|]. split; [done|]. by left; destruct Hg. }
  apply reading_reads in Hg as Hr0. cbn [length] in *. rewrite char_not_eof.
  destruct (isSpace (char b)); [apply IH; (done || lia)|]. destruct (isNewline (char b)).
  { destruct (skipNewline_run fuel s l0 Hr0) as (l1 & H1 & Hr1); [unfold enough; lia|]. run H1. rewrite <- next_newlines.
    pose proof (drop_while_length (λ c, isNewline (char c)) s). apply IH; (done || lia). }
  destruct (isAlpha (char b)).
  { unfold getWord. rewrite of_char. destruct (getWord_run fuel s [b] l0 Hr0) as (l1 & H1 & Hr1 & Hw); [unfold enough; lia|].
    by exists l1, IDENTIFIER. }
  destruct (isDigit (char b)) eqn:Hd.
  { pose proof (getDigit_run fuel b s l0 Hd Hr0) as H. destruct (number b s) as [w r].
    destruct H as (l1 & H1 & Hr1 & Hw); [unfold enough; lia|]. do 2 eexists. split; [exact H1|].
    by destruct (ParseUint0 w) as [v|]. }
  destruct (_ || _) eqn:Hq.
  { assert (b ≠ backquote ∧ b ≠ carriage_return) as [Hbq Hbc] by (apply quotes in Hq as [->| ->]; done).
    unfold getLiteral. rewrite of_char.
    destruct (getLiteral_loop_run b fuel Hbq Hbc eq_refl s [] l0) as (l1 & t & H1 & Hr1 & Ht);
      [apply not_elem_of_nil|done|unfold enough; lia|].
    exists l1, t. split; [done|]. destruct (literal b s) as [[body|] r]; cbn in *; [|by subst].
    case_decide; [by subst|]. by destruct Ht as [-> Hw]. }
  eexists _, ERR. split.
  - apply run_st_run. change charTypeList with (replicate 256 ERR).
    assert (nth (Z.to_nat (Z.land (char b) _LIM)) (replicate 256 ERR) 0 = ERR) as ->; [|reflexivity].
    clear. destruct b; reflexivity.
  - split; [done|]. by destruct Hr0 as [?|?]; [left|right].
Qed.

Lemma symbol_run fuel s l : reads s l → enough fuel s →
  ∃ l' t, symbol fuel l = Some (Ok t, l') ∧ symbol_result (next s) t l'.
Proof. intros. by apply symbol_loop_run. Qed.

(** All the words of a text. *)
Fixpoint words_of (n : nat) (s : bytes) : list (option word) :=
  match n with
  | O => []
  | S n => match next s with None => [] | Some (o, r) => o :: words_of n r end
  end.
Definition words (s : bytes) : list (option word) := words_of (length s) s.

Lemma words_of_enough n : ∀ m s, (length s ≤ n)%nat → (length s ≤ m)%nat → words_of n s = words_of m s.
Proof.
  induction n as [|n IH]; intros m s Hn Hm.
  { destruct s; [|cbn in Hn; lia]. by destruct m. }
  destruct m as [|m]; [by destruct s; [|cbn in Hm; lia]|]. cbn. destruct (next s) as [[o r]|] eqn:E; [|done].
  apply next_length in E. f_equal. apply IH; lia.
Qed.
Lemma words_next s : words s = match next s with None => [] | Some (o, r) => o :: words r end.
Proof.
  unfold words. destruct s as [|b s]; [done|]. cbn [length words_of]. destruct (next (b :: s)) as [[o r]|] eqn:E; [|done].
  apply next_length in E. cbn in E. f_equal. apply words_of_enough; lia.
Qed.

(** ** Calls *)

Definition const_node (w : word) : scriptNode :=
  match w with
  | Int v => MkNode (Z.lor O_CONST (Z.shiftl O_INT SUB_OFF)) None None (VUint64 v)
  | Str s => MkNode (Z.lor O_CONST (Z.shiftl O_STRING SUB_OFF)) None None (VString s)
  | Ident _ => MkNode 0 None None VNil
  end.

(** The tree of a list of arguments, and of a call. *)
Fixpoint args_node (l : list word) : option scriptNode :=
  match l with
  | [] => None
  | w :: l =>
      Some (match args_node l with
            | None => const_node w
            | Some n2 => MkNode O_ELIST (Some (const_node w)) (Some n2) VNil
            end)
  end.
Definition call : Type := bytes * list word.
Definition call_node (c : call) : scriptNode :=
  MkNode O_CALL (Some (MkNode O_NAME None None (VString c.1))) (args_node c.2) VNil.

Definition is_const (w : word) : bool := match w with Ident _ => false | _ => true end.

(** The constants from the beginning of a list of words, up to its end or to something that
    cannot be read, which is skipped together with what follows it. *)
Fixpoint constants (l : list (option word)) : option (list word * list (option word)) :=
  match l with
  | [] => Some ([], [])
  | None :: l => Some ([], tail l)
  | Some w :: l => if is_const w then '(c, r) ← constants l; Some (w :: c, r) else None
  end.

(** A list of words as calls, up to its end or to something that cannot be read in the
    place of a name. *)
Fixpoint calls_of (n : nat) (l : list (option word)) : option (list call) :=
  match n with
  | O => None
  | S n =>
      match l with
      | [] | None :: _ => Some []
      | Some (Ident nm) :: l => '(args, r) ← constants l; cs ← calls_of n r; Some ((nm, args) :: cs)
      | _ => None
      end
  end.
Definition calls (l : list (option word)) : option (list call) := calls_of (S (length l)) l.

Lemma constants_length l c r : constants l = Some (c, r) → (length r ≤ length l)%nat.
Proof.
  revert c r. induction l as [|[w|] l IH]; intros c r; cbn.
  - by intros [= <- <-].
  - destruct (is_const w); [|done]. destruct (constants l) as [[c' r']|]; [|done]. intros [= <- <-].
    pose proof (IH _ _ eq_refl). lia.
  - intros [= <- <-]. destruct l; cbn; lia.
Qed.

Section Parsing.
Variable fuel : nat.
Implicit Types (l : list (option word)) (wp : scriptParser).

Definition words_left l wp : Prop := ∃ s, reads s (wt wp) ∧ enough fuel s ∧ words s = l.
Definition word_ahead l wp : Prop :=
  cnt (wordBuffer wp) = 0 ∧ length (slots (wordBuffer wp)) = 2%nat ∧ words_left l wp.
Definition word_rolled l wp : Prop :=
  cnt (wordBuffer wp) = 1 ∧ ∃ w sw x, head l = Some (Some w) ∧ is_word w sw ∧
    slots (wordBuffer wp) = [Some sw; x] ∧ words_left (tail l) wp.
(** The parser has the words [l] still to read. *)
Definition holds l wp : Prop := word_ahead l wp ∨ word_rolled l wp.

(** [o] is the word in front of [l]. *)
Definition front l (o : option scriptWord) wp : Prop :=
  match head l with
  | Some (Some w) => ∃ sw x, o = Some sw ∧ is_word w sw ∧ slots (wordBuffer wp) = [Some sw; x]
  | _ => o = None
  end.

Lemma getw_run l wp : holds l wp →
  ∃ o wp', getw fuel wp = Some (Ok o, wp') ∧ ns wp' = ns wp ∧ word_ahead (tail l) wp' ∧ front l o wp'.
Proof.
  destruct wp as [lx nodes [wc ws]]. unfold front.
  intros [(Hc & Hl & s & Hr & Hf & Hw)|(Hc & w & sw & x & Hh & Hw & Hs & Hleft)]; cbn in *; subst.
  - destruct (symbol_run fuel s lx Hr Hf) as (lx' & t & Hsym & Hres).
    assert (∀ wp0, wt wp0 = lx → on_lex (symbol fuel) wp0 = Some (Ok t, MkParser lx' (ns wp0) (wordBuffer wp0))) as Hon.
    { intros wp0 <-. unfold on_lex. by rewrite Hsym. }
    unfold getw, mbind, runM_bind, run_st, mbind, stM_bind. cbn -[on_lex symbol].
    change (roll_get None _) with (@None scriptWord, MkRoll 0 ws). cbv beta iota.
    rewrite Hon by done. cbn. rewrite words_next. destruct (next s) as [[[w|] r]|] eqn:En; cbn in Hres |- *.
    + destruct Hres as (-> & Hr' & Hw). rewrite decide_False by by destruct w as [?|?|?]; intros [?|?].
      destruct ws as [|w0 [|w1 [|]]]; try done. cbn.
      do 2 eexists. split; [reflexivity|]. split; [done|]. split; [|by do 2 eexists].
      split; [done|]. split; [done|]. exists r. split; [done|]. split; [|done].
      apply next_length in En. unfold enough in *. lia.
    + destruct Hres as (-> & Hr'). rewrite decide_True by by right. do 2 eexists. split; [reflexivity|]. split; [done|].
      split; [|done]. split; [done|]. split; [done|]. exists r. split; [done|]. split; [|done].
      apply next_length in En. unfold enough in *. lia.
    + destruct Hres as (-> & Hr'). rewrite decide_True by by left. do 2 eexists. split; [reflexivity|]. split; [done|].
      split; [|done]. split; [done|]. split; [done|]. exists []. split; [done|]. split; [|done]. unfold enough in *. cbn. lia.
  - destruct l as [|[w'|] l]; [done| |done]. cbn in *. injection Hh as ->.
    do 2 eexists. split; [reflexivity|]. split; [done|]. split; [by split|]. by do 2 eexists.
Qed.

(** [peek] tells the type of the next word and leaves it, or takes what cannot be read. *)
Lemma peek_run l wp : holds l wp →
  ∃ wp', ns wp' = ns wp ∧
    match l with
    | Some w :: _ => peek fuel wp = Some (Ok (word_typ w), wp') ∧ holds l wp'
    | _ => peek fuel wp = Some (Ok EOF, wp') ∧ holds (tail l) wp'
    end.
Proof.
  intros Hh. destruct (getw_run l wp Hh) as (o & wp' & Hg & Hns & Ha & Hf). unfold peek. run Hg. unfold front in Hf.
  destruct l as [|[w|] l]; cbn in *; [subst; exists wp'; split; [done|]; split; [done|]; by left| |
    subst; exists wp'; split; [done|]; split; [done|]; by left].
  destruct Hf as (sw & x & -> & Hw & Hs). destruct Ha as (Hc & Hl & Hleft).
  eexists. split; [|split]; [|apply run_st_run; unfold ungetw, mbind, stM_bind; cbn; unfold roll_unget; rewrite Hc; cbn; destruct Hw as [-> _]; reflexivity|].
  - done.
  - right. split; [done|]. exists w, sw, x. by split_and!.
Qed.

Lemma taken_run {A} (f : scriptWord → A) w l wp : holds (Some w :: l) wp →
  ∃ sw wp', taken fuel f wp = Some (Ok (f sw), wp') ∧ ns wp' = ns wp ∧ holds l wp' ∧ is_word w sw.
Proof.
  intros Hh. destruct (getw_run _ wp Hh) as (o & wp' & Hg & Hns & Ha & sw & x & -> & Hw & _).
  exists sw, wp'. unfold taken. run Hg. split; [done|]. split; [done|]. split; [by left|done].
Qed.

Lemma detect0_word t w l wp : holds (Some w :: l) wp →
  ∃ wp', detect0 fuel t wp = Some (Ok (bool_decide (word_typ w = t)), wp') ∧ ns wp' = ns wp ∧ holds (Some w :: l) wp'.
Proof. intros Hh. destruct (peek_run _ wp Hh) as (wp' & Hns & Hp & Hh'). exists wp'. unfold detect0. by run Hp. Qed.
Lemma detect0_end l wp : head l = None ∨ head l = Some None → holds l wp →
  ∃ wp', detect0 fuel EOF wp = Some (Ok true, wp') ∧ ns wp' = ns wp ∧ holds (tail l) wp'.
Proof.
  intros Hl Hh. destruct (peek_run _ wp Hh) as (wp' & Hns & Hp). exists wp'. unfold detect0.
  destruct l as [|[w|] l]; [|by destruct Hl|]; destruct Hp as [Hp Hh']; run Hp; done.
Qed.

Lemma detect1_word w l wp : holds (Some w :: l) wp →
  ∃ wp', detect1 fuel PrimaryExpression wp = Some (Ok (is_const w), wp') ∧ ns wp' = ns wp ∧ holds (Some w :: l) wp'.
Proof.
  intros Hh. destruct (peek_run _ wp Hh) as (wp' & Hns & Hp & Hh'). exists wp'. unfold detect1. run Hp.
  by destruct w.
Qed.

Lemma parser2_run w l wp : holds (Some w :: l) wp →
  if is_const w then ∃ wp', parser2 fuel wp = Some (Ok (const_node w), wp') ∧ ns wp' = ns wp ∧ holds l wp'
  else ∃ e wp', parser2 fuel wp = Some (Err e, wp').
Proof.
  intros Hh. unfold parser2. destruct (detect0_word INT_CONSTANT _ _ _ Hh) as (wp1 & H1 & Hn1 & Hh1). run H1.
  destruct w as [nm|v|s]; cbn [is_const word_typ].
  1: rewrite bool_decide_false by done; destruct (detect0_word STRING_CONSTANT _ _ _ Hh1) as (wp2 & H2 & Hn2 & Hh2); run H2;
    by do 2 eexists.
  1: rewrite bool_decide_true by done; destruct (taken_run val _ _ _ Hh1) as (sw & wp3 & H3 & Hn3 & Hh3 & _ & Hv).
  2: rewrite bool_decide_false by done; destruct (detect0_word STRING_CONSTANT _ _ _ Hh1) as (wp2 & H2 & Hn2 & Hh2); run H2.
  2: rewrite bool_decide_true by done; destruct (taken_run val _ _ _ Hh2) as (sw & wp3 & H3 & Hn3 & Hh3 & _ & Hv).
  all: run H3; exists wp3; cbn [const_node]; rewrite Hv; split; [done|]; split; [congruence|done].
Qed.

(** At the end of the arguments one more word is taken. *)
Lemma end_run l wp : holds l wp → head l = None ∨ head l = Some None →
  ∃ wp1 o wp2, detect0 fuel EOF wp = Some (Ok true, wp1) ∧ getw fuel wp1 = Some (Ok o, wp2) ∧ ns wp2 = ns wp ∧
    holds (tail (tail l)) wp2.
Proof.
  intros Hh Hl. destruct (detect0_end l wp Hl Hh) as (wp1 & H1 & Hn1 & Hh1).
  destruct (getw_run _ _ Hh1) as (o & wp2 & H2 & Hn2 & Hh2 & _). exists wp1, o, wp2. split; [done|]. split; [done|].
  split; [congruence|by left].
Qed.

Lemma parser1_run n : ∀ w l wp, holds (Some w :: l) wp → (length l < n)%nat →
  match constants (Some w :: l) with
  | Some (c, r) =>
      ∃ nd wp', parser1 fuel n wp = Some (Ok nd, wp') ∧ args_node c = Some nd ∧ ns wp' = ns wp ∧ holds r wp'
  | None => ∃ e wp', parser1 fuel n wp = Some (Err e, wp')
  end.
Proof.
  induction n as [|n IH]; intros w l wp Hh Hlen; [lia|]. cbn [parser1 constants].
  pose proof (parser2_run _ _ _ Hh) as H2. destruct (is_const w).
  2: destruct H2 as (e & wp' & H2); exists e, wp'; by apply runM_bind_err.
  destruct H2 as (wp1 & H1 & Hn1 & Hh1). run H1.
  destruct l as [|[w2|] l].
  1,3: destruct (end_run _ wp1 Hh1 ltac:(first [by left|by right])) as (wp2 & o & wp3 & H2 & H3 & Hn3 & Hh3); run H2; run H3;
    do 2 eexists; (split; [done|]); (split; [done|]); split; [congruence|done].
  destruct (detect0_word EOF _ _ _ Hh1) as (wp3 & H3 & Hn3 & Hh3). run H3. rewrite bool_decide_false by by destruct w2.
  destruct (detect1_word _ _ _ Hh3) as (wp4 & H4 & Hn4 & Hh4). run H4. cbn [constants].
  destruct (is_const w2) eqn:Hw2; cbn [negb].
  2: by do 2 eexists.
  pose proof (IH w2 l wp4 Hh4 ltac:(cbn in Hlen; lia)) as HI. cbn [constants] in HI. rewrite Hw2 in HI.
  destruct (constants l) as [[c r]|]; cbn [mbind option_bind] in *.
  - destruct HI as (nd & wp5 & H5 & Hnd & Hn5 & Hh5). run H5. do 2 eexists. split; [done|]. split.
    + cbn [args_node] in *. by rewrite Hnd.
    + split; [congruence|done].
  - destruct HI as (e & wp5 & H5). exists e, wp5. by apply runM_bind_err.
Qed.

Lemma parser0_run nm l wp : holds (Some (Ident nm) :: l) wp → (length l < fuel)%nat →
  match constants l with
  | Some (c, r) =>
      ∃ wp', parser0 fuel wp = Some (Ok (call_node (nm, c)), wp') ∧ ns wp' = ns wp ∧ holds r wp'
  | None => ∃ e wp', parser0 fuel wp = Some (Err e, wp')
  end.
Proof.
  intros Hh Hlen. unfold parser0. destruct (detect0_word IDENTIFIER _ _ _ Hh) as (wp1 & H1 & Hn1 & Hh1). run H1.
  rewrite bool_decide_true by done. cbn [negb].
  destruct (taken_run name _ _ _ Hh1) as (sw & wp2 & H2 & Hn2 & Hh2 & _ & Hv). run H2. rewrite Hv. clear Hv.
  destruct l as [|[w|] l].
  1,3: destruct (end_run _ wp2 Hh2 ltac:(first [by left|by right])) as (wp3 & o & wp4 & H3 & H4 & Hn4 & Hh4); run H3; cbv zeta;
    run H4; exists wp4; (split; [done|]); split; [congruence|done].
  destruct (detect0_word EOF _ _ _ Hh2) as (wp3 & H3 & Hn3 & Hh3). run H3. rewrite bool_decide_false by by destruct w.
  pose proof (parser1_run fuel w l wp3 Hh3 ltac:(cbn in Hlen; lia)) as HP. destruct (constants (Some w :: l)) as [[c r]|].
  - destruct HP as (nd & wp4 & H4 & Hnd & Hn4 & Hh4). run H4. exists wp4.
    split; [unfold call_node; cbn [fst snd]; by rewrite Hnd|]. split; [congruence|done].
  - destruct HP as (e & wp4 & H4). exists e, wp4. by apply runM_bind_err.
Qed.

Lemma parser_loop_run n : ∀ l wp, holds l wp → (length l < n)%nat → (length l < fuel)%nat →
  match calls_of n l with
  | Some cs => ∃ wp', parser_loop fuel n wp = Some (Ok tt, wp') ∧ ns wp' = ns wp ++ (call_node <$> cs)
  | None => ∃ e wp', parser_loop fuel n wp = Some (Err e, wp')
  end.
Proof.
  induction n as [|n IH]; intros l wp Hh Hn Hf; [lia|]. cbn [parser_loop calls_of].
  destruct (peek_run l wp Hh) as (wp1 & Hn1 & Hp). destruct l as [|[w|] l].
  1,3: destruct Hp as [Hp _]; run Hp; exists wp1; (split; [done|]); by rewrite app_nil_r.
  destruct Hp as [Hp Hh1]. run Hp. rewrite decide_False by by destruct w. cbn [length] in *.
  destruct w as [nm|v|s]; cbn [word_typ].
  2,3: rewrite decide_False by done; by do 2 eexists.
  rewrite decide_True by done. pose proof (parser0_run nm l wp1 Hh1 ltac:(lia)) as H0.
  destruct (constants l) as [[c r]|] eqn:Hc; cbn [mbind option_bind].
  2: destruct H0 as (e & wp2 & H2); exists e, wp2; by apply runM_bind_err.
  destruct H0 as (wp2 & H2 & Hn2 & Hh2). run H2. apply constants_length in Hc.
  pose proof (IH r (add_node (call_node (nm, c)) wp2) ltac:(by destruct wp2) ltac:(lia) ltac:(lia)) as HI.
  rewrite (runM_bind_run _ _ _ () (add_node (call_node (nm, c)) wp2) eq_refl).
  destruct (calls_of n r) as [cs|]; cbn [mbind option_bind]; [|done].
  destruct HI as (wp3 & H3 & Hn3). exists wp3. split; [done|]. rewrite Hn3. cbn [ns add_node]. rewrite Hn2, Hn1.
  by rewrite <- app_assoc.
Qed.

End Parsing.

(** ** Scripts *)

(** The arguments of the five operations. *)
Definition shape (nm : bytes) : option (list Z) :=
  if decide (nm = bs "new") then Some [TOKENID; AMOUNT; AMOUNT]
  else if decide (nm = bs "mint") then Some [TOKENID; AMOUNT]
  else if decide (nm = bs "transfer") then Some [TOKENID; AMOUNT; ADDRESS]
  else if decide (nm = bs "freeze") then Some [TOKENID; ADDRESS; AMOUNT]
  else if decide (nm = bs "unfreeze") then Some [TOKENID; ADDRESS; AMOUNT]
  else None.

Definition kind (t : Z) : Z := nth (Z.to_nat t) typList 0.

Definition arg_of (t : Z) (w : word) : option ScriptArgument :=
  match w with
  | Int v => if decide (kind t = O_INT) then Some (MkArg t (VUint64 v)) else None
  | Str s => if decide (kind t = O_STRING) then Some (MkArg t (VString s)) else None
  | Ident _ => None
  end.

(** The first words as arguments of the given types; more words are ignored. *)
Fixpoint match_args (types : list Z) (l : list word) : option (list ScriptArgument) :=
  match types, l with
  | [], _ => Some []
  | t :: types, w :: l => a ← arg_of t w; args ← match_args types l; Some (a :: args)
  | _ :: _, [] => None
  end.

(** What [Parser] makes of a text: as many copies of its first call as there are calls, or
    nothing. *)
Definition scripts_of (data : bytes) : list (option Script) :=
  match calls (words data) with
  | Some ((nm, args) :: cs) =>
      match shape nm with
      | Some types => replicate (S (length cs)) (MkScript nm <$> match_args types args)
      | None => []
      end
  | _ => []
  end.

Lemma argumentValue_args w l nd : is_const w = true → args_node (w :: l) = Some nd →
  argumentValue nd = Some (const_node w) ∧ nextArgument nd = args_node l.
Proof.
  cbn [args_node]. intros Hw [= <-]. destruct (args_node l) as [n2|]; [done|]. by destruct w.
Qed.

Lemma takeArguments_match types : ∀ l acc, Forall (λ w, is_const w = true) l →
  takeArguments types (args_node l) acc = Ok (app acc <$> match_args types l).
Proof.
  induction types as [|t types IH]; intros l acc Hl; cbn [takeArguments match_args].
  { cbn. by rewrite app_nil_r. }
  destruct l as [|w l]; [done|]. apply Forall_cons in Hl as [Hw Hl].
  destruct (args_node (w :: l)) as [nd|] eqn:Hnd; [|done]. destruct (argumentValue_args w l nd Hw Hnd) as [Hv Hnext].
  unfold takeArgument. rewrite Hv, Hnext. fold (kind t).
  assert (∀ a, takeArguments types (args_node l) (acc ++ [a]) = Ok (app acc <$> (args ← match_args types l; Some (a :: args)))) as Hgo.
  { intros a. rewrite IH by done. destruct (match_args types l); cbn; [by rewrite <- app_assoc|done]. }
  destruct w as [nm|v|s]; [done|..]; cbn [const_node node_op node_val arg_of].
  - change (Z.shiftr (Z.land _ SUB_MASK) SUB_OFF) with O_INT.
    case_decide; case_decide; try congruence; [done|]. apply Hgo.
  - change (Z.shiftr (Z.land _ SUB_MASK) SUB_OFF) with O_STRING.
    case_decide; case_decide; try congruence; [done|]. apply Hgo.
Qed.

Lemma operateRegistry_shape nm l : Forall (λ w, is_const w = true) l →
  match operateRegistry nm with
  | Some fp => ∃ types, shape nm = Some types ∧ fp (args_node l) = Ok (MkScript nm <$> match_args types l)
  | None => shape nm = None
  end.
Proof.
  intros Hl. unfold operateRegistry, shape.
  repeat (case_decide as H; [subst nm; eexists; split; [done|]; 
    unfold operate0, operate1, operate2, operate3, operate4, operate; rewrite takeArguments_match by done;
    by destruct (match_args _ _)|clear H]).
  done.
Qed.

Lemma constants_const l c r : constants l = Some (c, r) → Forall (λ w, is_const w = true) c.
Proof.
  revert c r. induction l as [|[w|] l IH]; intros c r; cbn; [by intros [= <- <-]| |by intros [= <- <-]].
  destruct (is_const w) eqn:Hw; [|done]. destruct (constants l) as [[c' r']|]; [|done]. intros [= <- <-].
  constructor; [done|by eapply IH].
Qed.

Lemma calls_of_const n : ∀ l cs, calls_of n l = Some cs → Forall (λ c, Forall (λ w, is_const w = true) c.2) cs.
Proof.
  induction n as [|n IH]; intros l cs; [done|]. cbn. destruct l as [|[[nm|v|s]|] l]; [by intros [= <-]| |done|done|by intros [= <-]].
  destruct (constants l) as [[c r]|] eqn:Hc; [|done]. cbn. destruct (calls_of n r) as [cs'|] eqn:E; [|done].
  intros [= <-]. constructor; [by eapply constants_const|by eapply IH].
Qed.

Lemma calls_of_enough n : ∀ m l, (length l < n)%nat → (length l < m)%nat → calls_of n l = calls_of m l.
Proof.
  induction n as [|n IH]; intros m l Hn Hm; [lia|]. destruct m as [|m]; [lia|]. cbn.
  destruct l as [|[[nm|v|s]|] l]; try done. cbn in Hn, Hm. destruct (constants l) as [[c r]|] eqn:Hc; [|done]. cbn.
  apply constants_length in Hc. by rewrite (IH m r) by lia.
Qed.

Lemma words_length s : (length (words s) ≤ length s)%nat.
Proof.
  unfold words. generalize (length s) as n. intros n. revert s. induction n as [|n IH]; intros s; [done|].
  cbn. destruct (next s) as [[o r]|]; cbn; [|lia]. pose proof (IH r). lia.
Qed.

Lemma operate_all_replicate count n0 nm fp x : ∀ xs, node_left n0 = Some nm →
  operateRegistry (match node_val nm with VString s => s | _ => [] end) = Some fp → fp (node_right n0) = Ok x →
  operate_all count (Some n0) xs = Ok (xs ++ replicate count x).
Proof.
  induction count as [|count IH]; intros xs Hl Hr Hx; cbn [operate_all replicate]; [by rewrite app_nil_r|].
  rewrite Hl, Hr, Hx. cbn [mbind res_bind]. rewrite IH by done. by rewrite <- app_assoc.
Qed.

Lemma Parser_scripts data : Parser data = Some (Ok (scripts_of data)).
Proof.
  unfold Parser. cbv zeta. set (fuel := (length data + 1)%nat). pose proof (words_length data) as Hlen.
  assert (holds fuel (words data) (NewParser data)) as Hh.
  { left. split; [done|]. split; [done|]. exists data. split; [apply reads_new|]. split; [unfold enough, fuel; lia|done]. }
  pose proof (parser_loop_run fuel fuel (words data) (NewParser data) Hh ltac:(unfold fuel; lia) ltac:(unfold fuel; lia)) as HP.
  rewrite (calls_of_enough fuel (S (length (words data)))) in HP by (unfold fuel; lia). fold (calls (words data)) in HP.
  unfold scripts_of. destruct (calls (words data)) as [cs|] eqn:Hcs.
  2: by destruct HP as (e & wp' & ->).
  destruct HP as (wp' & -> & Hns). cbn [ns NewParser app] in Hns. rewrite Hns. f_equal.
  destruct cs as [|[nm args] cs]; [done|]. cbn [fmap list_fmap head length]. rewrite length_fmap.
  apply calls_of_const in Hcs as [Hc _]%Forall_cons. cbn [snd] in Hc.
  pose proof (operateRegistry_shape nm args Hc) as Hop. destruct (operateRegistry nm) as [fp|] eqn:Hr.
  - destruct Hop as (types & -> & Hfp).
    by rewrite (operate_all_replicate _ (call_node (nm, args)) (MkNode O_NAME None None (VString nm)) fp _ [] eq_refl Hr Hfp).
  - rewrite Hop. cbn [operate_all node_left call_node fst node_val]. by rewrite Hr.
Qed.

(** C28: the parser always ends, never panics, and makes of a text what its words say: the
    first call, as often as there are calls.  The fuel is enough for every text. *)
Theorem Parser_parses (data : bytes) : Parser data = Some (Ok (scripts_of data)).
Proof. apply Parser_scripts. Qed.

(** ** Writing scripts *)

Definition space : byte := Byte.x20.
Definition quote : byte := Byte.x22.
Definition apostrophe : byte := Byte.x27.

Definition print_value (v : value) : bytes :=
  match v with
  | VUint64 n => FormatUint n
  | VString s => let q := if decide (quote ∈ s) then apostrophe else quote in q :: s ++ [q]
  | VNil => []
  end.
Definition print (s : Script) : bytes :=
  sc_name s ++ mjoin ((λ a, space :: print_value (arg_val a)) <$> sc_args s).

(** What can be written between quotes of one of the two kinds. *)
Definition printable (s : bytes) : Prop :=
  Forall (λ b, isNewline (char b) = false) s ∧ backquote ∉ s ∧ (quote ∉ s ∨ apostrophe ∉ s).
Definition fits (t : Z) (v : value) : Prop :=
  match v with
  | VUint64 n => kind t = O_INT ∧ is_u64 n
  | VString s => kind t = O_STRING ∧ printable s
  | VNil => False
  end.
(** A script with the arguments of its operation. *)
Definition well_formed (s : Script) : Prop :=
  ∃ types, shape (sc_name s) = Some types ∧ Forall2 (λ t a, arg_typ a = t ∧ fits t (arg_val a)) types (sc_args s).

Definition word_of (v : value) : word :=
  match v with VUint64 n => Int n | VString s => Str s | VNil => Ident [] end.

Definition breaks (r : bytes) : Prop := match r with [] => True | b :: _ => b = space end.

Lemma take_while_breaks p l r : Forall (λ b, p b = true) l → p space = false → breaks r →
  take_while p (l ++ r) = l ∧ drop_while p (l ++ r) = r.
Proof.
  intros Hl Hs Hr. induction Hl as [|b l Hb _ IH]; cbn.
  - destruct r as [|c r]; [done|]. cbn in Hr. subst. cbn. by rewrite Hs.
  - rewrite Hb. destruct IH as [-> ->]. done.
Qed.

Lemma digit_classes b : is_Some (byte_digit b) →
  isSpace (char b) = false ∧ isNewline (char b) = false ∧ isAlpha (char b) = false ∧ isDigit (char b) = true ∧
  isXdigit (char b) = true ∧ hex_value b = byte_digit b ∧ isSingleQuotation (char b) = false.
Proof. destruct b; vm_compute; try (intros [? ?]; discriminate); done. Qed.

Lemma format_digits_head fuel : ∀ n, 0 < n < 10 ^ Z.of_nat fuel → ∃ b s, format_digits fuel n = b :: s ∧ b ≠ Byte.x30.
Proof.
  induction fuel as [|fuel IH]; intros n Hn; [change (10 ^ Z.of_nat 0) with 1 in Hn; lia|]. cbn [format_digits]. case_decide.
  - exists (digit_byte n), []. split; [done|]. intros Hd. apply (f_equal byte_digit) in Hd. rewrite byte_digit_byte in Hd by lia.
    change (byte_digit Byte.x30) with (Some 0) in Hd. injection Hd. lia.
  - rewrite Nat2Z.inj_succ, Z.pow_succ_r in Hn by lia. destruct (IH (n / 10)) as (b & s & -> & Hb).
    { Z.to_euclidean_division_equations. lia. }
    by exists b, (s ++ [digit_byte (n mod 10)]).
Qed.

Lemma parse_base_digits s : Forall (λ b, is_Some (byte_digit b)) s → ∀ acc,
  parse_base 10 acc s = match parse_digits acc s with Ok v => Some v | _ => None end.
Proof.
  induction 1 as [|b s Hb _ IH]; intros acc; cbn [parse_base parse_digits]; [done|].
  destruct (digit_classes b Hb) as (_ & _ & _ & _ & _ & -> & _). destruct Hb as [d Hd]. rewrite Hd. cbn [mbind option_bind].
  assert (0 ≤ d ≤ 9) as Hr.
  { unfold byte_digit in Hd. revert Hd. case_decide; [intros [= <-]; lia|done]. }
  destruct (decide (acc * 10 + d > MAXUINT64)); [rewrite decide_True by lia; done|rewrite decide_False by lia; apply IH].
Qed.

Lemma FormatUint_word n : is_u64 n → ∃ b s, FormatUint n = b :: s ∧ Forall (λ c, is_Some (byte_digit c)) (b :: s) ∧
  ParseUint0 (b :: s) = Some n ∧ (b = Byte.x30 → s = []).
Proof.
  intros Hn. assert (Forall (λ c, is_Some (byte_digit c)) (FormatUint n)) as Hd.
  { apply Forall_forall. intros c Hc. eapply FormatUint_digits; [|done]. unfold is_u64 in Hn. lia. }
  pose proof (ParseUint_FormatUint n Hn) as HP. destruct (decide (n = 0)) as [->|Hne].
  { exists Byte.x30, []. split_and!; try done. }
  destruct (format_digits_head 20 n) as (b & s & Hf & Hb).
  { unfold is_u64, MAXUINT64 in Hn. split; [lia|]. apply Z.le_lt_trans with 18446744073709551615; [lia|]. by vm_compute. }
  exists b, s. change (format_digits 20 n) with (FormatUint n) in Hf. rewrite Hf in Hd, HP. split_and!; try done.
  unfold ParseUint0. rewrite decide_False by done. rewrite parse_base_digits by done. unfold ParseUint in HP. by rewrite HP.
Qed.

Lemma literal_printed q l r : q ∉ l → Forall (λ b, isNewline (char b) = false) l → isNewline (char q) = false →
  literal q (l ++ q :: r) = (Some l, r).
Proof.
  intros Hq Hl Hnq. induction Hl as [|b l Hb _ IH]; cbn.
  - rewrite Hnq. by rewrite decide_True by done.
  - rewrite Hb. apply not_elem_of_cons in Hq as [Hne Hq]. rewrite decide_False by done. by rewrite IH.
Qed.

Lemma next_value t v r : fits t v → breaks r → next (print_value v ++ r) = Some (Some (word_of v), r).
Proof.
  intros Hf Hr. destruct v as [|n|s]; [done|..]; cbn [print_value word_of fits] in *.
  - destruct Hf as [_ Hn]. destruct (FormatUint_word n Hn) as (b & s & -> & Hd & HP & Hz).
    apply Forall_cons in Hd as [Hb Hs]. destruct (digit_classes b Hb) as (H1 & H2 & H3 & H4 & _).
    cbn [app next]. rewrite H1, H2, H3, H4. unfold number.
    assert (bool_decide (b = Byte.x30) && negb (starts_digit (s ++ r)) = true → s = []) as Hsz.
    { intros [Hbz _]%andb_true_iff. apply bool_decide_eq_true in Hbz. by apply Hz. }
    destruct (_ && _).
    + rewrite (Hsz eq_refl) in *. rewrite HP. done.
    + destruct (take_while_breaks (λ c, isXdigit (char c)) s r) as [-> ->]; [|done..|by rewrite HP].
      eapply Forall_impl; [exact Hs|]. intros c Hc. by destruct (digit_classes c Hc) as (_ & _ & _ & _ & ? & _).
  - destruct Hf as (_ & Hnl & Hbq & Hq). cbv zeta.
    assert (∀ q, q = apostrophe ∨ q = quote → q ∉ s → next ((q :: s ++ [q]) ++ r) = Some (Some (Str s), r)) as Hgo.
    { intros q Hqs Hin. replace ((q :: s ++ [q]) ++ r) with (q :: (s ++ q :: r)) by by cbn; rewrite <- app_assoc.
      assert (isSpace (char q) = false ∧ isNewline (char q) = false ∧ isAlpha (char q) = false ∧ isDigit (char q) = false ∧
        isSingleQuotation (char q) || isDoubleQuotation (char q) = true) as (H1 & H2 & H3 & H4 & H5) by by destruct Hqs as [-> | ->].
      cbn [next]. rewrite H1, H2, H3, H4, H5, literal_printed by done. by rewrite decide_False by done. }
    case_decide; (apply Hgo; [tauto|]); tauto.
Qed.

Lemma words_space s : words (space :: s) = words s.
Proof. rewrite words_next, (words_next s). reflexivity. Qed.

Lemma words_args types args : Forall2 (λ t a, arg_typ a = t ∧ fits t (arg_val a)) types args →
  words (mjoin ((λ a, space :: print_value (arg_val a)) <$> args)) = (λ a, Some (word_of (arg_val a))) <$> args.
Proof.
  induction 1 as [|t a types args [Ht Hf] _ IH]; [done|]. cbn [fmap list_fmap mjoin list_join app].
  rewrite words_space, words_next, (next_value t) by (done || by destruct args).
  exact (f_equal (cons (Some (word_of (arg_val a)))) IH).
Qed.

Lemma shape_cases nm types : shape nm = Some types →
  nm = bs "new" ∨ nm = bs "mint" ∨ nm = bs "transfer" ∨ nm = bs "freeze" ∨ nm = bs "unfreeze".
Proof. unfold shape. repeat (case_decide; [tauto|]). done. Qed.

Lemma next_name nm types r : shape nm = Some types → breaks r → next (nm ++ r) = Some (Some (Ident nm), r).
Proof.
  intros Hs Hr. apply shape_cases in Hs.
  assert (∃ b s, nm = b :: s ∧ Forall (λ c, isAlnum (char c) = true) s ∧ isAlpha (char b) = true ∧
    isSpace (char b) = false ∧ isNewline (char b) = false) as (b & s & -> & Hal & H1 & H2 & H3).
  { destruct Hs as [->|[->|[->|[->| ->]]]]; do 2 eexists; (split; [reflexivity|]); (split; [by repeat constructor|done]). }
  cbn [app next]. rewrite H1, H2, H3. by destruct (take_while_breaks (λ c, isAlnum (char c)) s r) as [-> ->].
Qed.

Lemma constants_all l : Forall (λ w, is_const w = true) l → constants (Some <$> l) = Some (l, []).
Proof. induction 1 as [|w l Hw _ IH]; [done|]. cbn. rewrite Hw, IH. done. Qed.

Lemma match_args_fits types args : Forall2 (λ t a, arg_typ a = t ∧ fits t (arg_val a)) types args →
  match_args types ((λ a, word_of (arg_val a)) <$> args) = Some args.
Proof.
  induction 1 as [|t [t' v] types args [Ht Hf] _ IH]; [done|]. cbn in *. subst t'.
  destruct v as [|n|s]; [done|..]; cbn in *; destruct Hf as [Hk _]; rewrite decide_True by done; cbn; by rewrite IH.
Qed.

Lemma scripts_of_print s : well_formed s → scripts_of (print s) = [Some s].
Proof.
  intros (types & Hs & Hargs). destruct s as [nm args]. cbn [sc_name sc_args] in *. unfold scripts_of, print. cbn [sc_name sc_args].
  assert (words (nm ++ mjoin ((λ a, space :: print_value (arg_val a)) <$> args)) =
    Some (Ident nm) :: (Some <$> ((λ a, word_of (arg_val a)) <$> args))) as ->.
  { rewrite words_next, (next_name nm types) by (done || by destruct args). f_equal.
    rewrite (words_args types) by done. by rewrite <- list_fmap_compose. }
  unfold calls. cbn [calls_of length]. rewrite constants_all. 
  - cbn. rewrite Hs, (match_args_fits types) by done. done.
  - clear Hs. induction Hargs as [|t [t' v] types args [Ht Hf] _ IH]; [constructor|]. constructor; [|done].
    by destruct v.
Qed.

(** *** What the parser accepts *)

(** The words that can be read. *)
Definition readable (o : option word) : Prop :=
  match o with Some (Int v) => is_u64 v | Some (Str s) => printable s | _ => True end.

Lemma parse_base_range base s : ∀ acc v, 0 ≤ acc ≤ MAXUINT64 → 0 ≤ base → parse_base base acc s = Some v → is_u64 v.
Proof.
  induction s as [|b s IH]; intros acc v Ha Hb; cbn; [by intros [= <-]|].
  destruct (hex_value b) as [d|] eqn:Hd; [|done]. cbn. case_decide as Hc; [done|]. apply IH; [|done].
  assert (0 ≤ d) by (unfold hex_value in Hd; pose proof (byte.unsigned_range b); repeat case_decide; naive_solver lia).
  split; [nia|lia].
Qed.
Lemma ParseUint0_range s v : ParseUint0 s = Some v → is_u64 v.
Proof.
  unfold ParseUint0. destruct s as [|b s]; [done|]. case_decide; apply parse_base_range; unfold MAXUINT64; lia.
Qed.

Lemma literal_body q s l r : literal q s = (Some l, r) → Forall (λ b, isNewline (char b) = false) l ∧ q ∉ l.
Proof.
  revert l r. induction s as [|b s IH]; intros l r; cbn; [done|]. destruct (isNewline (char b)) eqn:Hb; [done|].
  case_decide as Hq; [intros [= <- <-]; split; [done|apply not_elem_of_nil]|].
  destruct (literal q s) as [[l'|] r']; [|done]. cbn. intros [= <- <-]. destruct (IH _ _ eq_refl) as [Hl Hn].
  split; [by constructor|]. apply not_elem_of_cons. split; [congruence|done].
Qed.

Lemma next_readable s o r : next s = Some (o, r) → readable o.
Proof.
  induction s as [|b s IH]; [done|]. cbn [next]. destruct (isSpace _); [done|]. destruct (isNewline _); [done|].
  destruct (isAlpha _); [by intros [= <- <-]|]. destruct (isDigit _).
  { destruct (number b s) as [w r']. intros [= <- <-]. destruct (ParseUint0 w) eqn:E; [|done]. by eapply ParseUint0_range. }
  destruct (_ || _) eqn:Hq; [|by intros [= <- <-]]. destruct (literal b s) as [[l|] r'] eqn:E; [|by intros [= <- <-]].
  apply literal_body in E as [Hl Hn]. case_decide; intros [= <- <-]; [done|]. split; [done|]. split; [done|].
  apply quotes in Hq as [->| ->]; auto.
Qed.

Lemma words_readable s : Forall readable (words s).
Proof.
  unfold words. generalize (length s) as n. intros n. revert s. induction n as [|n IH]; intros s; cbn; [constructor|].
  destruct (next s) as [[o r]|] eqn:E; [|constructor]. constructor; [by eapply next_readable|done].
Qed.

Lemma constants_readable l c r : Forall readable l → constants l = Some (c, r) →
  Forall (λ w, readable (Some w)) c ∧ Forall readable r.
Proof.
  revert c r. induction l as [|[w|] l IH]; intros c r Hl; cbn.
  - by intros [= <- <-].
  - apply Forall_cons in Hl as [Hw Hl]. destruct (is_const w); [|done]. destruct (constants l) as [[c' r']|]; [|done].
    intros [= <- <-]. destruct (IH _ _ Hl eq_refl). split; [by constructor|done].
  - intros [= <- <-]. apply Forall_cons in Hl as [_ Hl]. split; [done|]. destruct Hl; done.
Qed.

Lemma match_args_well_formed types : ∀ l args, Forall (λ w, readable (Some w)) l → match_args types l = Some args →
  Forall2 (λ t a, arg_typ a = t ∧ fits t (arg_val a)) types args.
Proof.
  induction types as [|t types IH]; intros l args Hl; cbn; [by intros [= <-]|]. destruct l as [|w l]; [done|].
  apply Forall_cons in Hl as [Hw Hl]. destruct (arg_of t w) as [a|] eqn:Ha; [|done]. cbn.
  destruct (match_args types l) as [args'|] eqn:E; [|done]. intros [= <-]. constructor; [|by eapply IH].
  destruct w as [nm|v|s]; cbn in Ha; [done|..]; revert Ha; case_decide; (done || by intros [= <-]).
Qed.

Lemma scripts_of_typed data s : Some s ∈ scripts_of data →
  well_formed s ∧ scripts_of data = replicate (length (scripts_of data)) (Some s).
Proof.
  unfold scripts_of. destruct (calls (words data)) as [[|[nm args] cs]|] eqn:Hc; [by intros ?%not_elem_of_nil| |by intros ?%not_elem_of_nil].
  destruct (shape nm) as [types|] eqn:Hs; [|by intros ?%not_elem_of_nil]. rewrite length_replicate.
  intros [Hm _]%elem_of_replicate. rewrite Hm. split; [|done].
  destruct (match_args types args) as [sargs|] eqn:E; [|done]. injection Hm as Hm. subst s. exists types. split; [done|].
  cbn [sc_args]. apply (match_args_well_formed types args); [|done].
  unfold calls in Hc. cbn [calls_of] in Hc. pose proof (words_readable data) as Hr.
  destruct (words data) as [|[[nm'|v|s]|] l]; try done. apply Forall_cons in Hr as [_ Hr].
  destruct (constants l) as [[c r]|] eqn:Hco; [|done]. cbn [mbind option_bind] in Hc. apply (constants_readable _ _ _ Hr) in Hco as [Hcr _].
  destruct (calls_of _ r); [|done]. by injection Hc as -> -> ->.
Qed.

Lemma scripts_of_cases data : scripts_of data = [] ∨ ∃ n s, scripts_of data = replicate (S n) s.
Proof.
  unfold scripts_of. destruct (calls (words data)) as [[|[nm args] cs]|]; [by left| |by left].
  destruct (shape nm); [|by left]. right. by do 2 eexists.
Qed.

(** C29: the scripts one can write are the well formed ones: each of them, printed, is read
    back, alone; and whatever text is given, a script that comes out is well formed, and
    every call of the text has become a copy of it. *)
Theorem Parser_print :
  (∀ s, well_formed s → Parser (print s) = Some (Ok [Some s])) ∧
  (∀ data xs s, Parser data = Some (Ok xs) → Some s ∈ xs → well_formed s ∧ xs = replicate (length xs) (Some s)).
Proof.
  split.
  - intros s Hs. by rewrite Parser_scripts, scripts_of_print.
  - intros data xs s. rewrite Parser_scripts. intros [= <-]. apply scripts_of_typed.
Qed.

(** ** The binary form *)

(** An argument in the types of the format. *)
Definition encodable (a : ScriptArgument) : Prop :=
  match arg_val a with
  | VUint64 n => (arg_typ a = AMOUNT ∨ arg_typ a = PERCENTAGE) ∧ is_u64 n
  | VString s => arg_typ a = ORDER ∨ arg_typ a = ADDRESS ∨ arg_typ a = TOKENID
  | VNil => False
  end.

Lemma take_drop_prefix {A} (l r : list A) n : length l = n → take n (l ++ r) = l ∧ drop n (l ++ r) = r.
Proof. intros <-. by rewrite take_app_length, drop_app_length. Qed.

Lemma short_app_l a b : short (a ++ b) → short a.
Proof. unfold short. rewrite length_app. lia. Qed.
Lemma short_app_r a b : short (a ++ b) → short b.
Proof. unfold short. rewrite length_app. lia. Qed.

Lemma short_eslice a b : short (Eslice a ++ b) → short (a ++ b).
Proof. unfold short, Eslice. rewrite !length_app. cbn [length]. lia. Qed.

Lemma Arg_Read_Show a a0 rest : encodable a → short (Arg_Show a ++ rest) → Arg_Read (Arg_Show a ++ rest) a0 = (Ok rest, a).
Proof.
  destruct a as [t v]. unfold encodable, Arg_Show. cbn [arg_typ arg_val]. intros He Hs. rewrite <- app_assoc in Hs |- *.
  assert (is_u32 t ∧ match v with VUint64 _ => t = AMOUNT ∨ t = PERCENTAGE
    | _ => ¬ (t = AMOUNT ∨ t = PERCENTAGE) ∧ (t = ORDER ∨ t = ADDRESS ∨ t = TOKENID) end) as [Ht Hk].
  { destruct v as [|n|s]; [done|destruct He as [[->| ->] _]|destruct He as [->|[->| ->]]]; unfold is_u32;
      (split; [by vm_compute|]); auto; split; auto; by intros [?|?]. }
  unfold Arg_Read. rewrite decide_False by (rewrite length_app, length_E32func; lia).
  destruct (take_drop_prefix (E32func t) (match v with VUint64 v => E64func v | VString v => Eslice v | VNil => [] end ++ rest) 4
    ltac:(apply length_E32func)) as [H4 H4']. unfold mbind, stM_bind, st_lift. rewrite H4, H4', (D32_E32 _ Ht).
  cbn -[decide E64func Eslice Dslice D64func drop take length].
  destruct v as [|n|s]; [done|rewrite decide_True by done|destruct Hk as [Hk1 Hk2]; rewrite decide_False, decide_True by done].
  - rewrite decide_False by (rewrite length_app, length_E64func; lia).
    destruct (take_drop_prefix (E64func n) rest 8 ltac:(apply length_E64func)) as [-> ->]. by rewrite D64_E64 by apply He.
  - by rewrite Dslice_Eslice by by apply short_app_r, short_eslice in Hs.
Qed.

Lemma Args_Read_Show args : ∀ rest done l, Forall encodable args → short (mjoin (Arg_Show <$> args) ++ rest) →
  Args_Read (length args) (length done) (mjoin (Arg_Show <$> args) ++ rest) (done ++ replicate (length args) None ++ l) =
    (Ok rest, done ++ (Some <$> args) ++ l).
Proof.
  induction args as [|a args IH]; intros rest dn l He Hs; [done|]. apply Forall_cons in He as [Ha He].
  cbn [length replicate Args_Read fmap list_fmap mjoin list_join app] in *. rewrite <- app_assoc in Hs |- *.
  unfold mbind, stM_bind, st_gets. cbv beta iota.
  rewrite list_lookup_middle by done. rewrite Arg_Read_Show by done. cbv beta iota. unfold st_modify, st_lift.
  rewrite insert_app_r_alt, Nat.sub_diag by done. cbn [list_insert insert].
  pose proof (IH rest (dn ++ [Some a]) l He ltac:(by apply short_app_r in Hs)) as HI.
  rewrite length_app, Nat.add_1_r, <- !app_assoc in HI. exact HI.
Qed.

(** A script in its binary form is read back as it was, and what follows it is left, as
    long as no more than 4 GiB are read at once. *)
Theorem Script_roundtrip (s : Script) (rest : bytes) :
  Forall encodable (sc_args s) → short (Script_Show s ++ rest) →
  Script_Read (Script_Show s ++ rest) (MkPart [] []) = (Ok rest, MkPart (sc_name s) (Some <$> sc_args s)).
Proof.
  destruct s as [nm args]. cbn [sc_name sc_args]. intros He Hs. unfold Script_Show in *. cbn [sc_name sc_args] in *.
  rewrite <- !app_assoc in Hs |- *. set (n := Z.of_nat (length args)).
  assert (is_u32 n) as Hn.
  { apply short_app_r, short_app_r, short_app_l in Hs. unfold short in Hs. unfold is_u32, n.
    assert (length args ≤ length (mjoin (Arg_Show <$> args)))%nat as Hle; [|lia].
    clear. induction args as [|a args IH]; [done|].
    change (mjoin (Arg_Show <$> a :: args)) with (Arg_Show a ++ mjoin (Arg_Show <$> args)). cbn [length]. rewrite length_app. unfold Arg_Show at 1. rewrite length_app, length_E32func. lia. }
  assert (u32 n = n) as Hu by (unfold u32; rewrite Z.mod_small; done). rewrite Hu.
  unfold Script_Read. rewrite decide_False by (rewrite length_app, length_E32func; lia).
  destruct (take_drop_prefix (E32func n) (Eslice nm ++ mjoin (Arg_Show <$> args) ++ rest) 4 ltac:(apply length_E32func)) as [H4 H4'].
  unfold mbind, stM_bind, st_lift. rewrite H4, H4', (D32_E32 _ Hn), Dslice_Eslice by by apply short_app_r, short_eslice in Hs.
  cbv beta iota. unfold st_modify. cbn [ps_name ps_args length]. change (u32 (Z.of_nat 0)) with 0.
  assert ((if decide (0 < n) then MkPart nm (replicate (Z.to_nat n) None) else MkPart nm []) = MkPart nm (replicate (length args) None)) as ->.
  { unfold n. case_decide; [by rewrite Nat2Z.id|]. by assert (length args = 0%nat) as -> by lia. }
  unfold zoom. cbn [ps_args]. unfold n. rewrite Nat2Z.id.
  pose proof (Args_Read_Show args rest [] [] He ltac:(by apply short_app_r, short_app_r in Hs)) as HR.
  cbn [length app] in HR. rewrite !app_nil_r in HR. by rewrite HR.
Qed.

(** ** Witnesses *)

Module ScriptSample.

Definition q (s : string) : bytes := quote :: bs s ++ [quote].
Definition new_abc : Script :=
  MkScript (bs "new") [MkArg TOKENID (VString (bs "abc")); MkArg AMOUNT (VUint64 1000000000); MkArg AMOUNT (VUint64 8)].
Definition mint_a : Script := MkScript (bs "mint") [MkArg TOKENID (VString (bs "a")); MkArg AMOUNT (VUint64 1)].

Lemma new_abc_text : print new_abc = bs "new " ++ q "abc" ++ bs " 1000000000 8".
Proof. reflexivity. Qed.
Lemma new_abc_ok : well_formed new_abc.
Proof.
  eexists. split; [reflexivity|]. repeat constructor; cbn; try done; try (unfold MAXUINT64; lia).
  all: apply (bool_decide_unpack _); vm_compute; exact I.
Qed.

(** After something that cannot be read one word is lost, and then a second call is taken
    for the first again. *)
Lemma second_call_repeats_first :
  Parser (bs "mint " ++ q "a" ++ bs " 1 @ x mint " ++ q "b" ++ bs " 5") = Some (Ok [Some mint_a; Some mint_a]).
Proof. vm_compute. reflexivity. Qed.
(** Two lines are no two calls, and all of the text is void. *)
Lemma two_lines_void : Parser (print mint_a ++ [Byte.x0a] ++ print mint_a) = Some (Ok []).
Proof. vm_compute. reflexivity. Qed.
(** What follows something that cannot be read is not seen. *)
Lemma rest_unseen : Parser (print mint_a ++ bs " ; nothing") = Some (Ok [Some mint_a]).
Proof. vm_compute. reflexivity. Qed.
(** A number in hexadecimal is not read, one with a leading zero is octal. *)
Lemma hexadecimal_unread : Parser (bs "mint " ++ q "a" ++ bs " 0x1f") = Some (Ok []).
Proof. vm_compute. reflexivity. Qed.
Lemma leading_zero_octal : Parser (bs "mint " ++ q "a" ++ bs " 01") = Some (Ok [Some mint_a]) ∧
  scripts_of (bs "mint " ++ q "a" ++ bs " 010") = [Some (MkScript (bs "mint") [MkArg TOKENID (VString (bs "a")); MkArg AMOUNT (VUint64 8)])].
Proof. vm_compute. done. Qed.

End ScriptSample.

Lemma Parser_print_witness :
  Parser (print ScriptSample.new_abc) = Some (Ok [Some ScriptSample.new_abc]) ∧
  well_formed ScriptSample.mint_a.
Proof.
  destruct Parser_print as [Hprint Htyped]. split; [apply Hprint; exact ScriptSample.new_abc_ok|].
  apply (Htyped _ _ _ ScriptSample.second_call_repeats_first). left.
Defined.

Lemma Script_roundtrip_witness :
  Script_Read (Script_Show ScriptSample.new_abc ++ bs "rest") (MkPart [] []) =
    (Ok (bs "rest"), MkPart (bs "new") (Some <$> sc_args ScriptSample.new_abc)).
Proof.
  apply (Script_roundtrip ScriptSample.new_abc (bs "rest")); [|vm_compute; reflexivity].
  repeat constructor; cbn; auto; unfold MAXUINT64; lia.
Defined.
