(* ===== verification/Exec.v ===== *)
(** Token scripts carried out: [pkg/contract/exec] and the token methods of the blockchain
    ([pkg/blockchain/token.go]).

    A run collects what it would write in a map; balances, frozen amounts, caps and minted
    amounts not in the map are read from the account state, under the SHA-1 of their key,
    and the owner and the precision of a token from the database.  Nothing calls [Flush]. *)

From S2P Require Import Prelude Misc Badger BgStore Base58 Cbor Address Ledger World Merkle Script.

(** ** Keys *)

Definition aKey (id : bytes) : bytes := id.
Definition bKey (id addr : bytes) : bytes := bs "b" ++ bs "/" ++ id ++ addr.
Definition pKey (id : bytes) : bytes := bs "p" ++ bs "/" ++ id.
Definition fKey (id addr : bytes) : bytes := bs "F" ++ bs "/" ++ id ++ addr.
Definition tKey (id addr : bytes) : bytes := bs "t" ++ bs "/" ++ id ++ addr.
Definition cKey (id addr : bytes) : bytes := bs "c" ++ bs "/" ++ id ++ addr.

(** [binary.LittleEndian.Uint64]: the first eight bytes. *)
Definition LittleEndian_Uint64 (b : bytes) : res Z :=
  if decide (length b < 8)%nat then Panic else Ok (le_combine (take 8 b)).

Section Exec.
Context {X S : Type} `{!Reader X, !StateDB S, !EthCommon} (g : globals).
Implicit Types (db : X) (sdb : S) (id addr executor : bytes) (sc : Script).

Definition sHA1 (s : bytes) : bytes := EncodeToString (sha1_Sum s).

(** [sdb.GetBalance(common.HexToAddress(sHA1(key))).Uint64()] *)
Definition sdbGet sdb (arbKey : bytes) : Z := u64 (Z.abs (sdb_GetBalance (HexToAddress (sHA1 arbKey)) sdb)).

Definition TokenBalance sdb id addr : Z := sdbGet sdb (bKey id addr).
Definition TokenFreeze sdb id addr : Z := sdbGet sdb (fKey id addr).
Definition Precision {Y} `{!Reader Y} (db : Y) id : res Z :=
  v ← kv_Get (pKey id) db;
  LittleEndian_Uint64 v.

(** ** The operations, on the map of what is to be written *)

Abbreviation mapping := (gmap bytes bytes).

(** A number from the map, or else from the account state. *)
Definition read sdb (k : bytes) : stM mapping Z :=
  v ← st_gets (lookup k);
  match v with Some v => st_lift (LittleEndian_Uint64 v) | None => mret (sdbGet sdb k) end.
Definition write (k : bytes) (n : Z) : stM mapping unit := st_modify <[k := E64func n]>.

(** The arguments: a missing one panics, one of another type is zero. *)
Definition string_arg sc (i : nat) : stM mapping bytes :=
  match sc_args sc !! i with
  | None => st_panic
  | Some a => mret (match arg_val a with VString s => s | _ => [] end)
  end.
Definition uint_arg sc (i : nat) : stM mapping Z :=
  match sc_args sc !! i with
  | None => st_panic
  | Some a => mret (match arg_val a with VUint64 n => n | _ => 0 end)
  end.

(** new tokenId total_amount precision *)
Definition deal0 db sdb executor sc : stM mapping unit :=
  arg0 ← string_arg sc 0;
  arg1 ← uint_arg sc 1;
  arg2 ← uint_arg sc 2;
  v ← st_gets (lookup (aKey arg0));
  if decide (is_Some v) then st_err (ErrMsg "token exist") else
  match kv_Get (aKey arg0) db with
  | Ok _ => st_err (ErrMsg "token exist")
  | Panic => st_panic
  | Err _ =>
      st_modify <[arg0 := executor]> ;;
      write (bKey arg0 executor) 0 ;;
      write (tKey arg0 executor) arg1 ;;
      write (pKey arg0) arg2 ;;
      st_modify <[fKey arg0 executor := replicate 8 Byte.x00]>
  end.

(** The owner of a token, in the database, is the executor. *)
Definition owner_check db executor id : stM mapping unit :=
  v ← st_lift (kv_Get (aKey id) db);
  if decide (v ≠ executor) then st_err (ErrMsg "permission denied") else mret tt.

(** mint tokenId amount *)
Definition deal1 db sdb executor sc : stM mapping unit :=
  arg0 ← string_arg sc 0;
  arg1 ← uint_arg sc 1;
  owner_check db executor arg0 ;;
  t ← read sdb (tKey arg0 executor);
  c ← read sdb (cKey arg0 executor);
  if decide (i64 c > i64 (i64 t - i64 arg1)) then st_err (ErrMsg "overflow") else
  write (cKey arg0 executor) (c +₆₄ arg1) ;;
  b ← read sdb (bKey arg0 executor);
  write (bKey arg0 executor) (b +₆₄ arg1).

(** transfer tokenId amount address *)
Definition deal2 db sdb executor sc : stM mapping unit :=
  arg0 ← string_arg sc 0;
  arg1 ← uint_arg sc 1;
  arg2a ← string_arg sc 2;
  arg2b ← st_lift (NewAddrFromString g arg2a);
  arg2c ← st_lift (NewCommonAddr g arg2b);
  let arg2 := eth_Hex arg2c in
  v ← st_gets (lookup (aKey arg0));
  (if decide (is_Some v) then mret tt else st_lift (kv_Get (aKey arg0) db) ;; mret tt) ;;
  free ← read sdb (fKey arg0 executor);
  from ← read sdb (bKey arg0 executor);
  if decide (from < arg1 +₆₄ free) then st_err (ErrMsg "insufficient balance") else
  to ← read sdb (bKey arg0 arg2);
  if decide (bKey arg0 arg2 = bKey arg0 executor) then mret tt else
  write (bKey arg0 executor) (from -₆₄ arg1) ;;
  write (bKey arg0 arg2) (to +₆₄ arg1).

(** freeze tokenId address amount *)
Definition deal3 db sdb executor sc : stM mapping unit :=
  arg0 ← string_arg sc 0;
  arg1 ← string_arg sc 1;
  arg2 ← uint_arg sc 2;
  owner_check db executor arg0 ;;
  b ← read sdb (bKey arg0 arg1);
  f ← read sdb (fKey arg0 arg1);
  let f := f +₆₄ arg2 in
  write (fKey arg0 arg1) (if decide (f > b) then b else f).

(** unfreeze tokenId address amount *)
Definition deal4 db sdb executor sc : stM mapping unit :=
  arg0 ← string_arg sc 0;
  arg1 ← string_arg sc 1;
  arg2 ← uint_arg sc 2;
  owner_check db executor arg0 ;;
  t ← read sdb (fKey arg0 arg1);
  write (fKey arg0 arg1) (if decide (t < arg2) then 0 else t -₆₄ arg2).

(** The operation of a name; calling one that is not there panics. *)
Definition dealRegistry (nm : bytes) : X → S → bytes → Script → stM mapping unit :=
  if decide (nm = bs "new") then deal0
  else if decide (nm = bs "mint") then deal1
  else if decide (nm = bs "transfer") then deal2
  else if decide (nm = bs "freeze") then deal3
  else if decide (nm = bs "unfreeze") then deal4
  else λ _ _ _ _, st_panic.

Definition deal db sdb (owner : bytes) (sc : option Script) : stM mapping unit :=
  match sc with
  | None => st_err (ErrMsg "parser script error")
  | Some sc => dealRegistry (sc_name sc) db sdb owner sc
  end.

(** An [exec] is its map. *)
Definition New db sdb (scs : list (option Script)) (owner : bytes) : res mapping :=
  match st_iter (deal db sdb owner) scs ∅ with
  | (Ok _, mp) => Ok mp
  | (Err e, _) => Err e
  | (Panic, _) => Panic
  end.

(** [sort.Strings] on the keys, each followed by its value. *)
Definition sorted_keys (mp : mapping) : list bytes := merge_sort key_le (map_to_list mp).*1.
Definition root_items (mp : mapping) : list bytes :=
  flat_map (λ k, [k; default [] (mp !! k)]) (sorted_keys mp).
Definition Root (sha3_256 : bytes → bytes) (mp : mapping) : res bytes :=
  GetMtHash (Merkle.New sha3_256 (root_items mp)).

(** *** Writing the map *)

(** [byteK[:2]], padded with zeros where the slice has the room: [room k] is the capacity
    Go gives a slice made of the string [k]. *)
Definition first_two (room : bytes → nat) (k : bytes) : res bytes :=
  if decide (2 ≤ length k ∨ 2 ≤ room k)%nat then Ok (take 2 (k ++ [Byte.x00; Byte.x00])) else Panic.

Definition numeric_prefix (p : bytes) : Prop := p = bs "b/" ∨ p = bs "F/" ∨ p = bs "t/" ∨ p = bs "c/".
#[global] Instance numeric_prefix_dec p : Decision (numeric_prefix p).
Proof. unfold numeric_prefix. apply _. Defined.

Context {T : Type} `{!Badger T}.

Definition flush_one (room : bytes → nat) (k v : bytes) : stM (T * S) unit :=
  p ← st_lift (first_two room k);
  if decide (numeric_prefix p) then
    n ← st_lift (LittleEndian_Uint64 v);
    zoom snd (λ s w, (w.1, s)) (st_modify (sdb_SetBalance (HexToAddress (sHA1 k)) n))
  else zoom fst (λ t w, (t, w.2)) (set k v).

(** The map is walked in the order [items]. *)
Definition Flush (room : bytes → nat) (items : list (bytes * bytes)) : stM (T * S) unit :=
  st_iter (λ kv, flush_one room kv.1 kv.2) items.

End Exec.

(** ** The blockchain's methods ([token.go]) *)

Section Token.
Context {D S T : Type} `{!Badger T, !BadgerDB D T, !StateStore D S, !StateDB S, !EthCommon}.
Variable g : globals.
Variable sha3_256 : bytes → bytes.
Implicit Types (c : chain D S) (addr : Address) (symbol : bytes).

(** GetTokenBalance get the balance of tokens *)
Definition GetTokenBalance addr symbol c : res Z :=
  coAddr ← NewCommonAddr g addr;
  Ok (TokenBalance (sdb c) symbol (eth_Hex coAddr)).

(** GetFrozenTokenBal get the frozen balance of tokens *)
Definition GetFrozenTokenBal addr symbol c : res Z :=
  coAddr ← NewCommonAddr g addr;
  Ok (TokenFreeze (sdb c) symbol (eth_Hex coAddr)).

(** GetTokenRoot get token root; the error of the commit is dropped.  [None] would be a
    parser that ran out of fuel. *)
Definition GetTokenRoot addr (script : bytes) : chain D S → option (res bytes * chain D S) := λ c,
  match NewCommonAddr g addr with
  | Err e => Some (Err e, c)
  | Panic => Some (Panic, c)
  | Ok coAddr =>
      parsed ← Parser script;
      Some (with_txn (
        scs ← st_lift parsed;
        w ← st_get;
        e ← from_tx (λ t : T, New g t (w_sdb w) scs (eth_Hex coAddr));
        ignore_err Commit tt ;;
        st_lift (Root sha3_256 e)) c)
  end.

(** GetTokenDemic get token precision *)
Definition GetTokenDemic symbol c : res Z := Precision (Dbase (db c)) symbol.

End Token.
