(* ===== verification/ExecFacts.v ===== *)
(** What token scripts do: the ledger of a token stays sound as long as the amounts are
    moderate, and what else a script can do. *)

From S2P Require Import Prelude Misc Badger BgStore Base58 Cbor Address Ledger World Merkle MerkleFacts.
From S2P Require Import Script ScriptFacts Exec.

(** ** Sums *)

Definition sum_over (f : bytes → Z) (L : list bytes) : Z := foldr (λ a acc, f a + acc) 0 L.

Lemma sum_over_ext f f' L : (∀ a, a ∈ L → f' a = f a) → sum_over f' L = sum_over f L.
Proof.
  induction L as [|a L IH]; intros He; [done|]. cbn. rewrite He by by left.
  unfold sum_over in IH. rewrite IH; [done|]. intros b Hb. apply He. by right.
Qed.
Lemma sum_over_update f f' L a : NoDup L → a ∈ L → (∀ b, b ∈ L → b ≠ a → f' b = f b) →
  sum_over f' L = sum_over f L - f a + f' a.
Proof.
  induction 1 as [|b L Hb Hnd IH]; [by intros ?%not_elem_of_nil|]. intros Ha He. cbn.
  fold (sum_over f L) (sum_over f' L). apply elem_of_cons in Ha as [->|Ha].
  - rewrite (sum_over_ext f f' L); [lia|]. intros c Hc. apply He; [by right|]. by intros ->.
  - rewrite (He b); [|by left|by intros ->]. rewrite IH; [lia|done|]. intros c Hc. apply He. by right.
Qed.
Lemma sum_over_le f L a : (∀ b, b ∈ L → 0 ≤ f b) → a ∈ L → f a ≤ sum_over f L.
Proof.
  intros Hf Ha. assert (0 ≤ sum_over f L ∧ f a ≤ sum_over f L) as [_ ?]; [|done].
  assert (∀ L', (∀ b, b ∈ L' → 0 ≤ f b) → 0 ≤ sum_over f L') as Hnn.
  { induction L' as [|b L' IH]; intros H'; cbn; [done|]. pose proof (H' b ltac:(by left)).
    assert (0 ≤ sum_over f L') by (apply IH; intros; apply H'; by right). unfold sum_over in *. lia. }
  split; [by apply Hnn|]. induction L as [|b L IH]; [by apply not_elem_of_nil in Ha|]. cbn. fold (sum_over f L).
  assert (0 ≤ sum_over f L) by (apply Hnn; intros; apply Hf; by right). pose proof (Hf b ltac:(by left)).
  apply elem_of_cons in Ha as [->|Ha]; [lia|]. pose proof (IH ltac:(intros; apply Hf; by right) Ha). lia.
Qed.

(** ** Amounts *)

Section Amounts.
Context {X S : Type} `{!Reader X, !StateDB S, !EthCommon} (g : globals).
Variable db : X.
Variable sdb : S.
Implicit Types (mp : gmap bytes bytes) (k id a : bytes).

Definition numeric k : Prop := numeric_prefix (take 2 k).

(** What a key with a number stands for. *)
Definition amt mp k : Z :=
  match mp !! k with Some v => le_combine (take 8 v) | None => sdbGet sdb k end.

(** The numbers are eight bytes each. *)
Definition wf mp : Prop := ∀ k v, numeric k → mp !! k = Some v → length v = 8%nat.

Lemma wf_empty : wf ∅.
Proof. intros k v _. by rewrite lookup_empty. Qed.

Lemma read_run mp k : wf mp → numeric k → read sdb k mp = (Ok (amt mp k), mp).
Proof.
  intros Hwf Hk. unfold read, amt, mbind, stM_bind, st_gets. destruct (mp !! k) as [v|] eqn:E; [|done].
  unfold st_lift, LittleEndian_Uint64. rewrite (Hwf k v) by done. by rewrite decide_False by lia.
Qed.

Lemma amt_range mp k : wf mp → numeric k → is_u64 (amt mp k).
Proof.
  intros Hwf Hk. unfold amt. destruct (mp !! k) as [v|] eqn:E; [|apply u64_range].
  apply Hwf in E; [|done]. rewrite take_ge by lia. pose proof (le_combine_bound v) as Hb. rewrite E in Hb.
  unfold_words. lia.
Qed.

Lemma amt_write mp k n k' : is_u64 n → amt (<[k := E64func n]> mp) k' = if decide (k = k') then n else amt mp k'.
Proof.
  intros Hn. unfold amt. rewrite lookup_insert. case_decide; [|done].
  rewrite take_ge by (rewrite length_E64func; lia). pose proof (D64_E64 n Hn) as HD. unfold D64func, dec_le in HD.
  rewrite decide_True in HD by apply length_E64func. by injection HD.
Qed.
Lemma wf_write mp k n : wf mp → wf (<[k := E64func n]> mp).
Proof.
  intros Hwf k' v Hk'. rewrite lookup_insert. case_decide; [|by apply Hwf]. intros [= <-]. apply length_E64func.
Qed.

(** A key without a number. *)
Lemma amt_other mp k v k' : ¬ numeric k → numeric k' → amt (<[k := v]> mp) k' = amt mp k'.
Proof. intros Hk Hk'. unfold amt. rewrite lookup_insert_ne; [done|]. by intros ->. Qed.
Lemma wf_other mp k v : ¬ numeric k → wf mp → wf (<[k := v]> mp).
Proof. intros Hk Hwf k' v' Hk'. rewrite lookup_insert_ne by (by intros ->). by apply Hwf. Qed.

End Amounts.

(** ** Keys *)

Lemma numeric_bKey id a : numeric (bKey id a).
Proof. by left. Qed.
Lemma numeric_fKey id a : numeric (fKey id a).
Proof. by right; left. Qed.
Lemma numeric_tKey id a : numeric (tKey id a).
Proof. by right; right; left. Qed.
Lemma numeric_cKey id a : numeric (cKey id a).
Proof. by right; right; right. Qed.
Lemma not_numeric_pKey id : ¬ numeric (pKey id).
Proof. unfold numeric, numeric_prefix, pKey. cbn. rewrite take_0. intros [?|[?|[?|?]]]; done. Qed.

#[export] Hint Resolve numeric_bKey numeric_fKey numeric_tKey numeric_cKey wf_write : token.

(** A token and an address of fixed length can be told from their concatenation. *)
Lemma key_inj (p id a id' a' : bytes) : length a = length a' → p ++ id ++ a = p ++ id' ++ a' → id = id' ∧ a = a'.
Proof. intros Hl Heq. apply (inj (app p)) in Heq. by apply app_inj_2 in Heq. Qed.
Lemma bKey_inj id a id' a' : length a = length a' → bKey id a = bKey id' a' → id = id' ∧ a = a'.
Proof. apply (key_inj (bs "b/")). Qed.
Lemma fKey_inj id a id' a' : length a = length a' → fKey id a = fKey id' a' → id = id' ∧ a = a'.
Proof. apply (key_inj (bs "F/")). Qed.
Lemma cKey_inj id a id' a' : length a = length a' → cKey id a = cKey id' a' → id = id' ∧ a = a'.
Proof. apply (key_inj (bs "c/")). Qed.
Lemma tKey_inj id a id' a' : length a = length a' → tKey id a = tKey id' a' → id = id' ∧ a = a'.
Proof. apply (key_inj (bs "t/")). Qed.

(** ** What the operations do *)

(** A script as an operation with its arguments. *)
Inductive operation :=
  | NewToken (id : bytes) (total precision : Z)
  | Mint (id : bytes) (n : Z)
  | Transfer (id : bytes) (n : Z) (to : bytes)
  | Freeze (id addr : bytes) (n : Z)
  | Unfreeze (id addr : bytes) (n : Z).

Definition op_script (o : operation) : Script :=
  match o with
  | NewToken id total precision =>
      MkScript (bs "new") [MkArg TOKENID (VString id); MkArg AMOUNT (VUint64 total); MkArg AMOUNT (VUint64 precision)]
  | Mint id n => MkScript (bs "mint") [MkArg TOKENID (VString id); MkArg AMOUNT (VUint64 n)]
  | Transfer id n to =>
      MkScript (bs "transfer") [MkArg TOKENID (VString id); MkArg AMOUNT (VUint64 n); MkArg ADDRESS (VString to)]
  | Freeze id addr n =>
      MkScript (bs "freeze") [MkArg TOKENID (VString id); MkArg ADDRESS (VString addr); MkArg AMOUNT (VUint64 n)]
  | Unfreeze id addr n =>
      MkScript (bs "unfreeze") [MkArg TOKENID (VString id); MkArg ADDRESS (VString addr); MkArg AMOUNT (VUint64 n)]
  end.

(** The token and the amounts of an operation. *)
Definition op_id (o : operation) : bytes :=
  match o with NewToken id _ _ | Mint id _ | Transfer id _ _ | Freeze id _ _ | Unfreeze id _ _ => id end.
Definition op_amount (o : operation) : Z :=
  match o with NewToken _ n _ | Mint _ n | Transfer _ n _ | Freeze _ _ n | Unfreeze _ _ n => n end.

Lemma string_fits v t : kind t = O_STRING → fits t v → ∃ s, v = VString s.
Proof. intros Hk. destruct v as [|n|s]; cbn [fits]; [done| |by eexists]. rewrite Hk. by intros [? _]. Qed.
Lemma uint_fits v t : kind t = O_INT → fits t v → ∃ n, v = VUint64 n ∧ is_u64 n.
Proof. intros Hk. destruct v as [|n|s]; cbn [fits]; [done|naive_solver|]. rewrite Hk. by intros [? _]. Qed.

(** Every script that the parser makes is an operation. *)
Lemma well_formed_operation s : well_formed s → ∃ o, s = op_script o ∧ is_u64 (op_amount o).
Proof.
  destruct s as [nm args]. intros (types & Hs & Hargs). cbn [sc_name sc_args] in *. unfold shape in Hs.
  repeat (case_decide; [subst nm; injection Hs as <-|]); [..|done].
  all: repeat match goal with
    | H : Forall2 _ (_ :: _) _ |- _ =>
        let Ht := fresh "Ht" in let Hf := fresh "Hf" in
        let H' := fresh "H" in let t := fresh "t" in let v := fresh "v" in
        apply Forall2_cons_inv_l in H as ([t v] & ? & [Ht Hf] & H' & ->); cbn [arg_typ arg_val] in Ht, Hf; subst
    | H : Forall2 _ [] _ |- _ => apply Forall2_nil_inv_l in H; subst
    end.
  all: repeat match goal with
    | H : fits ?t ?v |- _ =>
        first [destruct (string_fits v t eq_refl H) as [? ->] | destruct (uint_fits v t eq_refl H) as (? & -> & ?)]; clear H
    end.
  - by eexists (NewToken _ _ _).
  - by eexists (Mint _ _).
  - by eexists (Transfer _ _ _).
  - by eexists (Freeze _ _ _).
  - by eexists (Unfreeze _ _ _).
Qed.

Section Deals.
Context {X S : Type} `{!Reader X, !StateDB S, !EthCommon} (g : globals).
Variable db : X.
Variable sdb : S.
Implicit Types (mp : gmap bytes bytes) (k id a e to : bytes) (n : Z).

Abbreviation amount := (amt sdb).
Abbreviation run e o := (deal g db sdb e (Some (op_script o))).

Lemma owner_check_run e id mp : owner_check db e id mp =
  (match kv_Get id db with
   | Ok v => if decide (v = e) then Ok tt else Err (ErrMsg "permission denied")
   | Err x => Err x
   | Panic => Panic
   end, mp).
Proof.
  unfold owner_check, aKey, mbind, stM_bind, st_lift. destruct (kv_Get id db) as [v|x|]; [|done..].
  case_decide; case_decide; (done || by subst).
Qed.

(** What only the owner may do. *)
Lemma owned {B} e id (m : stM (gmap bytes bytes) B) mp : (owner_check db e id ;; m) mp =
  match kv_Get id db with
  | Ok v => if decide (v = e) then m mp else (Err (ErrMsg "permission denied"), mp)
  | Err x => (Err x, mp)
  | Panic => (Panic, mp)
  end.
Proof. unfold mbind, stM_bind. rewrite owner_check_run. destruct (kv_Get id db); [|done..]. by case_decide. Qed.

Ltac reads := erewrite st_bind_eq by (apply read_run; auto with token); cbv beta iota zeta.

Lemma mint_run e id n mp : wf mp → kv_Get id db = Ok e →
  run e (Mint id n) mp =
    let c := amount mp (cKey id e) in
    let b := amount mp (bKey id e) in
    if decide (i64 c > i64 (i64 (amount mp (tKey id e)) - i64 n)) then (Err (ErrMsg "overflow"), mp)
    else (Ok tt, <[bKey id e := E64func (b +₆₄ n)]> (<[cKey id e := E64func (c +₆₄ n)]> mp)).
Proof.
  intros Hwf Ho. change (run e (Mint id n) mp) with
    ((owner_check db e id ;; t ← read sdb (tKey id e); c ← read sdb (cKey id e);
      if decide (i64 c > i64 (i64 t - i64 n)) then st_err (ErrMsg "overflow") else
      write (cKey id e) (c +₆₄ n) ;; b ← read sdb (bKey id e); write (bKey id e) (b +₆₄ n)) mp).
  rewrite owned, Ho, decide_True by done. reads. reads. case_decide; [done|].
  erewrite st_bind_eq by reflexivity. reads. rewrite amt_write by apply add64_range. by rewrite decide_False.
Qed.

Lemma transfer_run e id n to mp : wf mp →
  run e (Transfer id n to) mp =
    match NewAddrFromString g to with
    | Err x => (Err x, mp)
    | Panic => (Panic, mp)
    | Ok a =>
        match NewCommonAddr g a with
        | Err x => (Err x, mp)
        | Panic => (Panic, mp)
        | Ok c =>
            let r := eth_Hex c in
            match (if decide (is_Some (mp !! id)) then Ok [] else kv_Get id db) with
            | Err x => (Err x, mp)
            | Panic => (Panic, mp)
            | Ok _ =>
                let from := amount mp (bKey id e) in
                if decide (from < n +₆₄ amount mp (fKey id e)) then (Err (ErrMsg "insufficient balance"), mp)
                else if decide (bKey id r = bKey id e) then (Ok tt, mp)
                else (Ok tt, <[bKey id r := E64func (amount mp (bKey id r) +₆₄ n)]>
                               (<[bKey id e := E64func (from -₆₄ n)]> mp))
            end
        end
    end.
Proof.
  intros Hwf. change (run e (Transfer id n to) mp) with
    ((arg2b ← st_lift (NewAddrFromString g to); arg2c ← st_lift (NewCommonAddr g arg2b);
      let arg2 := eth_Hex arg2c in
      v ← st_gets (lookup id);
      (if decide (is_Some v) then mret tt else st_lift (kv_Get id db) ;; mret tt) ;;
      free ← read sdb (fKey id e); from ← read sdb (bKey id e);
      if decide (from < n +₆₄ free) then st_err (ErrMsg "insufficient balance") else
      to ← read sdb (bKey id arg2);
      if decide (bKey id arg2 = bKey id e) then mret tt else
      write (bKey id e) (from -₆₄ n) ;; write (bKey id arg2) (to +₆₄ n)) mp).
  destruct (NewAddrFromString g to) as [a|x|]; [|done..]. erewrite st_bind_eq by reflexivity.
  destruct (NewCommonAddr g a) as [c|x|]; [|done..]. erewrite st_bind_eq by reflexivity. cbv zeta.
  erewrite st_bind_eq by reflexivity. cbv beta.
  assert ((if decide (is_Some (mp !! id)) then mret tt else st_lift (kv_Get id db) ;; mret tt : stM (gmap bytes bytes) unit) mp =
    (match (if decide (is_Some (mp !! id)) then Ok [] else kv_Get id db) with Ok _ => Ok tt | Err x => Err x | Panic => Panic end, mp))
    as Hthere.
  { case_decide; [done|]. by destruct (kv_Get id db). }
  destruct (if decide (is_Some (mp !! id)) then Ok [] else kv_Get id db) as [v|x|].
  2: by rewrite (st_bind_err _ _ _ _ _ Hthere).
  2: by rewrite (st_bind_panic _ _ _ _ Hthere).
  rewrite (st_bind_eq _ _ _ _ _ Hthere). reads. reads. destruct (decide (amount mp (bKey id e) < _)); [done|]. reads. by destruct (decide (bKey id (eth_Hex c) = _)).
Qed.

Lemma freeze_run e id a n mp : wf mp → kv_Get id db = Ok e →
  run e (Freeze id a n) mp =
    let f := amount mp (fKey id a) +₆₄ n in
    let b := amount mp (bKey id a) in
    (Ok tt, <[fKey id a := E64func (if decide (f > b) then b else f)]> mp).
Proof.
  intros Hwf Ho. change (run e (Freeze id a n) mp) with
    ((owner_check db e id ;; b ← read sdb (bKey id a); f ← read sdb (fKey id a);
      let f := f +₆₄ n in write (fKey id a) (if decide (f > b) then b else f)) mp).
  rewrite owned, Ho, decide_True by done. reads. by reads.
Qed.

Lemma unfreeze_run e id a n mp : wf mp → kv_Get id db = Ok e →
  run e (Unfreeze id a n) mp =
    let f := amount mp (fKey id a) in
    (Ok tt, <[fKey id a := E64func (if decide (f < n) then 0 else f -₆₄ n)]> mp).
Proof.
  intros Hwf Ho. change (run e (Unfreeze id a n) mp) with
    ((owner_check db e id ;; t ← read sdb (fKey id a);
      write (fKey id a) (if decide (t < n) then 0 else t -₆₄ n)) mp).
  rewrite owned, Ho, decide_True by done. by reads.
Qed.

Lemma new_run e id total precision mp :
  run e (NewToken id total precision) mp =
    if decide (is_Some (mp !! id)) then (Err (ErrMsg "token exist"), mp) else
    match kv_Get id db with
    | Ok _ => (Err (ErrMsg "token exist"), mp)
    | Panic => (Panic, mp)
    | Err _ =>
        (Ok tt, <[fKey id e := E64func 0]> (<[pKey id := E64func precision]> (<[tKey id e := E64func total]>
                  (<[bKey id e := E64func 0]> (<[id := e]> mp)))))
    end.
Proof.
  change (run e (NewToken id total precision) mp) with
    ((if decide (is_Some (mp !! id)) then st_err (ErrMsg "token exist") else
      match kv_Get id db with
      | Ok _ => st_err (ErrMsg "token exist")
      | Panic => st_panic
      | Err _ =>
          st_modify <[id := e]> ;; write (bKey id e) 0 ;; write (tKey id e) total ;; write (pKey id) precision ;;
          st_modify <[fKey id e := replicate 8 Byte.x00]>
      end) mp).
  case_decide; [done|]. by destruct (kv_Get id db).
Qed.

(** An operation that only the owner may do changes nothing for another. *)
Lemma denied e o mp : match o with Mint _ _ | Freeze _ _ _ | Unfreeze _ _ _ => True | _ => False end →
  kv_Get (op_id o) db ≠ Ok e → ∃ r, (r = Panic → kv_Get (op_id o) db = Panic) ∧ run e o mp = (r, mp).
Proof.
  intros Ho Hne. destruct o as [id total p|id n|id n to|id a n|id a n]; try done; cbn [op_id] in Hne.
  1: change (run e (Mint id n) mp) with ((owner_check db e id ;; t ← read sdb (tKey id e); c ← read sdb (cKey id e);
      if decide (i64 c > i64 (i64 t - i64 n)) then st_err (ErrMsg "overflow") else
      write (cKey id e) (c +₆₄ n) ;; b ← read sdb (bKey id e); write (bKey id e) (b +₆₄ n)) mp).
  2: change (run e (Freeze id a n) mp) with ((owner_check db e id ;; b ← read sdb (bKey id a); f ← read sdb (fKey id a);
      let f := f +₆₄ n in write (fKey id a) (if decide (f > b) then b else f)) mp).
  3: change (run e (Unfreeze id a n) mp) with ((owner_check db e id ;; t ← read sdb (fKey id a);
      write (fKey id a) (if decide (t < n) then 0 else t -₆₄ n)) mp).
  all: rewrite owned; destruct (kv_Get id db) as [v|x|] eqn:E; [rewrite decide_False by congruence|..];
    (eexists; split; [|reflexivity]; done).
Qed.

End Deals.

(** ** The ledger of a token *)

Definition moderate (n : Z) : Prop := 0 ≤ n < 9223372036854775808.

Section Ledger.
Context {X S : Type} `{!Reader X, !StateDB S, !EthCommon} (g : globals).
Variable db : X.
Variable sdb : S.
(** A token, its owner, and the addresses that take part. *)
Variables id owner : bytes.
Variable L : list bytes.
Variable m : nat.
Context (HL : NoDup L) (Hlen : Forall (λ a, length a = m) L).
Context (Howner : kv_Get id db = Ok owner) (HownerL : owner ∈ L).
Implicit Types (mp : gmap bytes bytes) (a e : bytes).

Abbreviation amount := (amt sdb).
Abbreviation run e o := (deal g db sdb e (Some (op_script o))).

(** The balances are what was minted, which is within the cap, and nothing is frozen that
    is not there. *)
Record ledger_ok mp : Prop := {
  lo_wf : wf mp;
  lo_sum : sum_over (λ a, amount mp (bKey id a)) L = amount mp (cKey id owner);
  lo_minted : amount mp (cKey id owner) ≤ amount mp (tKey id owner);
  lo_cap : moderate (amount mp (tKey id owner));
  lo_frozen : ∀ a, a ∈ L → amount mp (fKey id a) ≤ amount mp (bKey id a);
}.

(** The amounts are moderate, a new token's name does not begin like the keys of amounts, and
    the addresses are among those that take part, in the form the balances are kept under. *)
Definition benign (o : operation) : Prop :=
  moderate (op_amount o) ∧
  match o with
  | NewToken id' _ _ => ¬ numeric id'
  | Mint _ _ => True
  | Transfer _ _ to => ∀ ad c, NewAddrFromString g to = Ok ad → NewCommonAddr g ad = Ok c → eth_Hex c ∈ L
  | Freeze _ a _ | Unfreeze _ a _ => a ∈ L
  end.

Lemma in_L_length a b : a ∈ L → b ∈ L → length a = length b.
Proof. intros Ha Hb. rewrite Forall_forall in Hlen. by rewrite (Hlen a), (Hlen b). Qed.

(** A key of another token. *)
Definition foreign (k : bytes) : Prop :=
  ∀ a, a ∈ L → k ≠ bKey id a ∧ k ≠ fKey id a ∧ k ≠ tKey id a ∧ k ≠ cKey id a.

Lemma foreign_keys id' x : id' ≠ id → x ∈ L →
  foreign (bKey id' x) ∧ foreign (fKey id' x) ∧ foreign (tKey id' x) ∧ foreign (cKey id' x).
Proof.
  intros Hne Hx. split_and!; intros a Ha; pose proof (in_L_length x a Hx Ha) as Hl; split_and!; try done; intros Heq.
  - by apply bKey_inj in Heq as [? _].
  - by apply fKey_inj in Heq as [? _].
  - by apply tKey_inj in Heq as [? _].
  - by apply cKey_inj in Heq as [? _].
Qed.

(** What touches no number of the token leaves its ledger as it was. *)
Lemma ledger_same mp mp' : wf mp' →
  (∀ a, a ∈ L → amount mp' (bKey id a) = amount mp (bKey id a) ∧ amount mp' (fKey id a) = amount mp (fKey id a) ∧
     amount mp' (tKey id a) = amount mp (tKey id a) ∧ amount mp' (cKey id a) = amount mp (cKey id a)) →
  ledger_ok mp → ledger_ok mp'.
Proof.
  intros Hwf He [? Hs Hm Hc Hf]. destruct (He owner HownerL) as (_ & _ & Ht & Hcc). constructor; [done|..].
  - rewrite (sum_over_ext (λ a, amount mp (bKey id a))); [by rewrite Hcc|]. intros a Ha. by apply He.
  - by rewrite Ht, Hcc.
  - by rewrite Ht.
  - intros a Ha. destruct (He a Ha) as (-> & -> & _). by apply Hf.
Qed.

Lemma ledger_foreign mp k n : foreign k → is_u64 n → ledger_ok mp → ledger_ok (<[k := E64func n]> mp).
Proof.
  intros Hk Hn Hok. eapply ledger_same; [apply wf_write, lo_wf, Hok| |done]. intros a Ha.
  destruct (Hk a Ha) as (? & ? & ? & ?). rewrite !amt_write by done. by rewrite !decide_False by done.
Qed.
Lemma ledger_other mp k v : ¬ numeric k → ledger_ok mp → ledger_ok (<[k := v]> mp).
Proof.
  intros Hk Hok. eapply ledger_same; [by apply wf_other, lo_wf|intros a Ha|exact Hok].
  by rewrite !amt_other by (auto with token).
Qed.

Lemma ledger_bounds mp a : ledger_ok mp → a ∈ L →
  0 ≤ amount mp (fKey id a) ≤ amount mp (bKey id a) ∧ amount mp (bKey id a) ≤ amount mp (cKey id owner) ∧
  amount mp (cKey id owner) ≤ amount mp (tKey id owner) < 9223372036854775808.
Proof.
  intros [Hwf Hs Hm [_ Hc] Hf] Ha.
  assert (∀ b, 0 ≤ amount mp (bKey id b)) as Hb by (intros b; apply amt_range; auto with token).
  split; [split; [apply amt_range; auto with token|by apply Hf]|]. split; [|done]. rewrite <- Hs.
  by apply (sum_over_le (λ a, amount mp (bKey id a))).
Qed.

Lemma i64_moderate n : moderate n → i64 n = n.
Proof. unfold moderate. intros Hn. apply i64_small. unfold is_i64. lia. Qed.

Lemma mint_ledger mp n : moderate n → ledger_ok mp →
  let c := amount mp (cKey id owner) in let b := amount mp (bKey id owner) in
  ¬ i64 c > i64 (i64 (amount mp (tKey id owner)) - i64 n) →
  ledger_ok (<[bKey id owner := E64func (b +₆₄ n)]> (<[cKey id owner := E64func (c +₆₄ n)]> mp)).
Proof.
  intros Hn Hok. cbv zeta. destruct (ledger_bounds mp owner Hok HownerL) as (Hf & Hbc & Hct).
  pose proof Hok as [Hwf Hs Hm Hc Hfr]. unfold moderate in *.
  rewrite (i64_moderate (amount mp (cKey id owner))), (i64_moderate (amount mp (tKey id owner))), (i64_moderate n) by (unfold moderate; lia).
  set (c := amount mp (cKey id owner)) in *. set (b := amount mp (bKey id owner)) in *. set (t := amount mp (tKey id owner)) in *.
  assert (i64 (t - n) = t - n) as ->.
  { unfold i64, u64. destruct (decide (n ≤ t)).
    - rewrite Z.mod_small by lia. destruct (Z.ltb_spec (t - n) 9223372036854775808); lia.
    - replace (t - n) with (t - n + 18446744073709551616 + (-1) * 18446744073709551616) by lia.
      rewrite Z.mod_add, Z.mod_small by lia.
      destruct (Z.ltb_spec (t - n + 18446744073709551616) 9223372036854775808); lia. }
  intros Hle. assert (c + n ≤ t) as Hcn by lia. rewrite !add64_small by (unfold MAXUINT64; lia).
  assert (∀ x, is_u64 x ↔ 0 ≤ x ≤ 18446744073709551615) as Hu by done.
  set (mp' := <[bKey id owner := _]> _).
  assert (∀ k, amount mp' k = if decide (bKey id owner = k) then b + n else if decide (cKey id owner = k) then c + n else amount mp k) as Ha.
  { intros k. unfold mp'. rewrite !amt_write by (apply Hu; lia). done. }
  constructor; [unfold mp'; auto with token|rewrite !Ha..|].
  - rewrite decide_False, decide_True by done. rewrite (sum_over_update (λ a, amount mp (bKey id a)) _ L owner); [| |done|].
    + rewrite Hs, Ha, decide_True by done. fold b. lia.
    + done.
    + intros x Hx Hne. rewrite Ha, !decide_False; [done|done|]. intros Heq.
      apply bKey_inj in Heq as [_ ->]; [done|by apply in_L_length].
  - rewrite decide_False, decide_True by done. rewrite !decide_False by done. fold t. lia.
  - rewrite !decide_False by done. done.
  - intros x Hx. rewrite !Ha. rewrite (decide_False (P := bKey id owner = fKey id x)), (decide_False (P := cKey id owner = fKey id x)) by done.
    pose proof (Hfr x Hx). case_decide as Heq; [|by rewrite decide_False].
    apply bKey_inj in Heq as [_ <-]; [fold b in H0; lia|by apply in_L_length].
Qed.

Lemma transfer_ledger mp n e r : moderate n → e ∈ L → r ∈ L → ledger_ok mp →
  let from := amount mp (bKey id e) in
  ¬ from < n +₆₄ amount mp (fKey id e) → bKey id r ≠ bKey id e →
  ledger_ok (<[bKey id r := E64func (amount mp (bKey id r) +₆₄ n)]> (<[bKey id e := E64func (from -₆₄ n)]> mp)).
Proof.
  intros Hn He Hr Hok. cbv zeta. destruct (ledger_bounds mp e Hok He) as (Hf & Hbc & Hct).
  destruct (ledger_bounds mp r Hok Hr) as (Hf' & Hbc' & _).
  pose proof Hok as [Hwf Hs Hm Hc Hfr]. unfold moderate in *. intros Hle Hne.
  rewrite (add64_small n) in Hle by (unfold MAXUINT64; lia).
  rewrite add64_small, sub64_small by (unfold MAXUINT64; lia).
  set (f := amount mp (bKey id e)) in *. set (w := amount mp (bKey id r)) in *.
  assert (∀ x, is_u64 x ↔ 0 ≤ x ≤ 18446744073709551615) as Hu by done.
  set (mp1 := <[bKey id e := _]> mp). set (mp2 := <[bKey id r := _]> mp1).
  assert (∀ k, amount mp1 k = if decide (bKey id e = k) then f - n else amount mp k) as H1.
  { intros k. unfold mp1. by rewrite amt_write by (apply Hu; lia). }
  assert (∀ k, amount mp2 k = if decide (bKey id r = k) then w + n else amount mp1 k) as H2.
  { intros k. unfold mp2. by rewrite amt_write by (apply Hu; lia). }
  assert (∀ x y, x ∈ L → y ∈ L → bKey id x = bKey id y → x = y) as Hinj.
  { intros x y Hx Hy Heq. by apply bKey_inj in Heq as [_ ?]; [|by apply in_L_length]. }
  constructor; [unfold mp2, mp1; auto with token|..].
  - rewrite !H2, !H1, !decide_False by done. rewrite <- Hs.
    rewrite (sum_over_update (λ a, amount mp1 (bKey id a)) _ L r); [|done|done|].
    + rewrite H2, H1, (decide_True (P := bKey id r = bKey id r)), (decide_False (P := bKey id e = bKey id r)) by done. fold w.
      rewrite (sum_over_update (λ a, amount mp (bKey id a)) _ L e); [|done|done|].
      * rewrite H1, decide_True by done. fold f. lia.
      * intros x Hx Hxe. rewrite H1, decide_False; [done|]. intros Heq. by apply Hinj in Heq.
    + intros x Hx Hxr. rewrite H2, decide_False; [done|]. intros Heq. by apply Hinj in Heq.
  - by rewrite !H2, !H1, !decide_False by done.
  - by rewrite !H2, !H1, !decide_False by done.
  - intros x Hx. rewrite !H2, !H1. rewrite (decide_False (P := bKey id r = fKey id x)), (decide_False (P := bKey id e = fKey id x)) by done.
    pose proof (Hfr x Hx) as Hfx.
    case_decide as Hrx; [assert (r = x) as <- by (by apply Hinj); fold w in Hfx; lia|].
    case_decide as Hex; [assert (e = x) as <- by (by apply Hinj); lia|done].
Qed.

(** Setting a frozen amount within the balance. *)
Lemma frozen_ledger mp a v : a ∈ L → ledger_ok mp → 0 ≤ v ≤ amount mp (bKey id a) → ledger_ok (<[fKey id a := E64func v]> mp).
Proof.
  intros Ha Hok Hv. destruct (ledger_bounds mp a Hok Ha) as (Hf & Hbc & Hct). pose proof Hok as [Hwf Hs Hm Hc Hfr].
  assert (is_u64 v) as Hu by (unfold is_u64, MAXUINT64; lia).
  assert (∀ k, amount (<[fKey id a := E64func v]> mp) k = if decide (fKey id a = k) then v else amount mp k) as H1.
  { intros k. by rewrite amt_write. }
  constructor; [auto with token|..].
  - rewrite H1, decide_False by done. rewrite <- Hs. apply sum_over_ext. intros x Hx. by rewrite H1, decide_False.
  - by rewrite !H1, !decide_False by done.
  - by rewrite !H1, !decide_False by done.
  - intros x Hx. rewrite !H1, (decide_False (P := fKey id a = bKey id x)) by done. case_decide as Heq; [|by apply Hfr].
    apply fKey_inj in Heq as [_ <-]; [lia|by apply in_L_length].
Qed.

Lemma operation_ledger mp e o r mp' : e ∈ L → benign o → ledger_ok mp → run e o mp = (r, mp') → ledger_ok mp'.
Proof.
  intros He [Hn Ho] Hok. pose proof (lo_wf _ Hok) as Hwf.
  assert (match o with Mint _ _ | Freeze _ _ _ | Unfreeze _ _ _ => kv_Get (op_id o) db ≠ Ok e | _ => False end →
    run e o mp = (r, mp') → ledger_ok mp') as Hdenied.
  { intros Hd Hrun. destruct (denied g db sdb e o mp) as (r0 & _ & Hr0); [by destruct o|by destruct o|].
    rewrite Hr0 in Hrun. by injection Hrun as _ <-. }
  destruct o as [id' total p|id' n|id' n to|id' a n|id' a n]; cbn [op_id op_amount] in *.
  - rewrite new_run. case_decide; [by intros [= _ <-]|]. destruct (decide (id' = id)) as [->|Hne].
    { rewrite Howner. by intros [= _ <-]. }
    destruct (kv_Get id' db); [by intros [= _ <-]| |by intros [= _ <-]]. intros [= _ <-].
    destruct (foreign_keys id' e Hne He) as (Hb & Hf & Ht & _).
    apply ledger_foreign; [done|done|]. apply ledger_other; [apply not_numeric_pKey|].
    apply ledger_foreign; [done|unfold moderate in Hn; unfold is_u64, MAXUINT64; lia|]. apply ledger_foreign; [done|done|].
    by apply ledger_other.
  - destruct (decide (kv_Get id' db = Ok e)) as [Hd|Hd]; [|by apply Hdenied]. clear Hdenied.
    rewrite mint_run by done. cbv zeta. case_decide as Hc; [by intros [= _ <-]|]. intros [= _ <-].
    destruct (decide (id' = id)) as [->|Hne].
    + rewrite Howner in Hd. injection Hd as <-. by apply mint_ledger.
    + destruct (foreign_keys id' e Hne He) as (Hb & _ & _ & Hcc).
      apply ledger_foreign; [done|apply add64_range|]. by apply ledger_foreign; [|apply add64_range|].
  - rewrite transfer_run by done. destruct (NewAddrFromString g to) as [ad|x|] eqn:Had; [|by intros [= _ <-]..].
    destruct (NewCommonAddr g ad) as [c|x|] eqn:Hc; [|by intros [= _ <-]..]. cbv zeta. specialize (Ho ad c eq_refl Hc).
    destruct (if decide (is_Some (mp !! id')) then _ else _) as [v|x|]; [|by intros [= _ <-]..].
    destruct (decide (_ < _)) as [|Hle]; [by intros [= _ <-]|]. destruct (decide (_ = _)) as [|Hkeys]; [by intros [= _ <-]|].
    intros [= _ <-]. destruct (decide (id' = id)) as [->|Hne]; [by apply transfer_ledger|].
    destruct (foreign_keys id' e Hne He) as (Hb & _). destruct (foreign_keys id' (eth_Hex c) Hne Ho) as (Hb' & _).
    apply ledger_foreign; [done|apply add64_range|]. by apply ledger_foreign; [|apply sub64_range|].
  - destruct (decide (kv_Get id' db = Ok e)) as [Hd|Hd]; [|by apply Hdenied]. clear Hdenied.
    rewrite freeze_run by done. cbv zeta. intros [= _ <-].
    assert (is_u64 (if decide (amount mp (fKey id' a) +₆₄ n > amount mp (bKey id' a)) then amount mp (bKey id' a)
      else amount mp (fKey id' a) +₆₄ n)) as Hu by (case_decide; [apply amt_range; auto with token|apply add64_range]).
    destruct (decide (id' = id)) as [->|Hne].
    + apply frozen_ledger; [done..|]. pose proof Hu as Hu'. unfold is_u64 in Hu'. case_decide; lia.
    + destruct (foreign_keys id' a Hne Ho) as (_ & Hf & _). by apply ledger_foreign.
  - destruct (decide (kv_Get id' db = Ok e)) as [Hd|Hd]; [|by apply Hdenied]. clear Hdenied.
    rewrite unfreeze_run by done. cbv zeta. intros [= _ <-].
    destruct (decide (id' = id)) as [->|Hne].
    + apply frozen_ledger; [done..|]. destruct (ledger_bounds mp a Hok Ho) as (Hf & Hbc & Hct). unfold moderate in Hn.
      case_decide; [lia|]. rewrite sub64_small by (unfold MAXUINT64; lia). lia.
    + destruct (foreign_keys id' a Hne Ho) as (_ & Hf & _). apply ledger_foreign; [done| |done].
      case_decide; [done|apply sub64_range].
Qed.

(** Scripts, each with the one who has it carried out. *)
Definition deal_one (eo : bytes * operation) : stM (gmap bytes bytes) unit := deal g db sdb eo.1 (Some (op_script eo.2)).

Lemma operations_ledger os : Forall (λ eo, eo.1 ∈ L ∧ benign eo.2) os → ∀ mp r mp', ledger_ok mp →
  st_iter deal_one os mp = (r, mp') → ledger_ok mp'.
Proof.
  induction 1 as [|[e o] os [He Ho] _ IH]; intros mp r mp' Hok; cbn [st_iter]; [by intros [= _ <-]|].
  change (deal_one (e, o)) with (deal g db sdb e (Some (op_script o))). cbn [fst snd] in He, Ho.
  unfold mbind, stM_bind. destruct (run e o mp) as [[[]|x|] mp1] eqn:E; intros Hrun.
  - eapply IH; [|exact Hrun]. by eapply operation_ledger.
  - injection Hrun as _ <-. by eapply operation_ledger.
  - injection Hrun as _ <-. by eapply operation_ledger.
Qed.

End Ledger.

(** C27: the ledger of a token stays sound whatever scripts are carried out, by whichever of the
    parties [L] and whether they fail or not, on this token or another: the balances add up to
    what was minted, that is within the cap, and nobody has more frozen than he has.  This
    holds as long as the scripts are [benign]: the amounts are below 2^63, no token is made
    whose name begins like the keys of amounts ([numeric]: b/, F/, t/ or c/), and the receivers
    and the addresses of a freeze, in the form balances are kept under, are among the parties;
    [TokenSample] has scripts that break it otherwise, one by a name that is the key of a
    balance ([TokenSample.name_is_balance]). *)
Theorem token_ledger {X S : Type} `{!Reader X, !StateDB S, !EthCommon} (g : globals) (db : X) (sdb : S) (id owner : bytes)
    (L : list bytes) (m : nat) (os : list (bytes * operation)) (mp mp' : gmap bytes bytes) (r : res unit) :
  NoDup L → Forall (λ a, length a = m) L → kv_Get id db = Ok owner → owner ∈ L →
  Forall (λ eo, eo.1 ∈ L ∧ benign g L eo.2) os → ledger_ok sdb id owner L mp →
  st_iter (deal_one g db sdb) os mp = (r, mp') → ledger_ok sdb id owner L mp'.
Proof. intros HL Hlen Ho HoL Hos Hok. by eapply operations_ledger. Qed.

(** ** Roots *)

Lemma NewCommonAddr_length `{!EthCommon, !EthCommonLaws} g a c : NewCommonAddr g a = Ok c → length c = 20%nat.
Proof.
  unfold NewCommonAddr. case_decide; [done|]. case_decide.
  - destruct (String g a); [|done..]. intros [= <-]. apply HexToAddress_length.
  - case_decide; [|done]. intros [= <-]. apply BytesToAddress_length.
Qed.

Lemma NewCommonAddr_no_panic `{!EthCommon} g a : is_Some (prefixSet (CurrentNetWork g)) → NewCommonAddr g a ≠ Panic.
Proof.
  intros [p Hp]. unfold NewCommonAddr. case_decide as Hu; [done|]. case_decide as He; [|by case_decide].
  unfold String, encode. rewrite decide_False, Hp by done. rewrite He.
  rewrite decide_False, decide_True by done. done.
Qed.

Section Keys.
Implicit Types (mp : gmap bytes bytes) (k : bytes).

(** Every entry of the map is one of [ks], and neither key nor value is empty. *)
Definition entries_in (ks : list bytes) mp : Prop := ∀ k v, mp !! k = Some v → k ∈ ks ∧ k ≠ [] ∧ v ≠ [].

Lemma entries_empty ks : entries_in ks ∅.
Proof. intros k v. by rewrite lookup_empty. Qed.
Lemma entries_insert ks mp k v : k ∈ ks → k ≠ [] → v ≠ [] → entries_in ks mp → entries_in ks (<[k := v]> mp).
Proof.
  intros Hk Hne Hv He k' v'. rewrite lookup_insert. case_decide as Heq; [by intros [= <-]; subst|apply He].
Qed.
Lemma E64_nonempty n : E64func n ≠ [].
Proof. intros Heq. pose proof (length_E64func n) as Hl. by rewrite Heq in Hl. Qed.

Lemma sorted_keys_perm mp : sorted_keys mp ≡ₚ (map_to_list mp).*1.
Proof. apply merge_sort_Permutation. Qed.
Lemma elem_of_sorted_keys mp k : k ∈ sorted_keys mp ↔ is_Some (mp !! k).
Proof.
  rewrite sorted_keys_perm, list_elem_of_fmap. split.
  - intros ([k' v] & -> & Hin). apply elem_of_map_to_list in Hin. by eexists.
  - intros [v Hv]. exists (k, v). split; [done|]. by apply elem_of_map_to_list.
Qed.

Lemma root_items_length mp : length (root_items mp) = (2 * size mp)%nat.
Proof.
  assert (∀ l, length (flat_map (λ k, [k; default [] (mp !! k)]) l) = (2 * length l)%nat) as Hl.
  { induction l as [|k l IH]; [done|]. cbn in *. lia. }
  unfold root_items. by rewrite Hl, sorted_keys_perm, length_fmap, length_map_to_list.
Qed.
Lemma elem_of_root_items mp x : x ∈ root_items mp ↔ ∃ k v, mp !! k = Some v ∧ (x = k ∨ x = v).
Proof.
  unfold root_items. rewrite list_elem_of_In, in_flat_map. setoid_rewrite <- list_elem_of_In.
  setoid_rewrite elem_of_sorted_keys. split.
  - intros (k & [v Hv] & Hx). rewrite Hv in Hx. cbn in Hx. exists k, v. split; [done|].
    apply elem_of_cons in Hx as [->|Hx]; [by left|]. apply list_elem_of_singleton in Hx. by right.
  - intros (k & v & Hv & Hx). exists k. split; [by eexists|]. rewrite Hv. cbn.
    destruct Hx as [->| ->]; [by left|by right; left].
Qed.

Lemma size_insert mp k v n : (size mp ≤ n)%nat → (size (<[k := v]> mp) ≤ Datatypes.S n)%nat.
Proof. intros Hs. rewrite map_size_insert. destruct (mp !! k); unfold id; lia. Qed.

Lemma entries_size ks mp : entries_in ks mp → (size mp ≤ length ks)%nat.
Proof.
  intros He. replace (size mp) with (length (map_to_list mp).*1) by by rewrite length_fmap, length_map_to_list.
  apply submseteq_length, NoDup_submseteq; [apply NoDup_fst_map_to_list|].
  intros k ([k' v] & -> & Hin)%list_elem_of_fmap. apply elem_of_map_to_list in Hin. by apply (He k' v).
Qed.

(** The root is there when no item is empty. *)
Lemma Root_entries hash ks mp : entries_in ks mp → (length ks ≤ 5)%nat → Root hash mp ≠ Panic.
Proof.
  intros He Hk. unfold Root. destruct (decide (root_items mp = [])) as [->|Hne]; [done|].
  pose proof (entries_size ks mp He). pose proof (root_items_length mp).
  destruct (New_cases hash (root_items mp) Hne) as [(n & -> & _)|[_ Hin]]; [lia|done|].
  apply elem_of_root_items in Hin as (k & v & Hv & [Hx|Hx]); apply He in Hv as (_ & ? & ?); by subst.
Qed.

(** A token without a name has no root. *)
Lemma Root_unnamed hash mp : is_Some (mp !! []) → (size mp ≤ 5)%nat → Root hash mp = Panic.
Proof.
  intros [v Hv] Hs. unfold Root. pose proof (root_items_length mp).
  assert ([] ∈ root_items mp) as Hin by (apply elem_of_root_items; exists [], v; auto).
  destruct (New_cases hash (root_items mp)) as [(n & _ & Ht)|[-> _]]; [by intros Heq; rewrite Heq in Hin; apply not_elem_of_nil in Hin|lia| |done].
  by apply (tree_data _ _ _ Ht) in Hin.
Qed.

End Keys.

Section Runs.
Context {X S : Type} `{!Reader X, !StateDB S, !EthCommon} (g : globals).
Variable db : X.
Variable sdb : S.
Variable e : bytes.
Context (Hdb : ∀ k, kv_Get k db ≠ Panic) (Hnet : is_Some (prefixSet (CurrentNetWork g))) (He : e ≠ []).
Implicit Types (mp : gmap bytes bytes).

Abbreviation run o := (deal g db sdb e (Some (op_script o))).

(** The keys an operation writes. *)
Definition op_keys (o : operation) : list bytes :=
  match o with
  | NewToken id _ _ => [id; bKey id e; tKey id e; pKey id; fKey id e]
  | Mint id _ => [cKey id e; bKey id e]
  | Transfer id _ to =>
      match NewAddrFromString g to with
      | Ok a => match NewCommonAddr g a with Ok c => [bKey id e; bKey id (eth_Hex c)] | _ => [] end
      | _ => []
      end
  | Freeze id a _ | Unfreeze id a _ => [fKey id a]
  end.

Lemma op_keys_length o : (length (op_keys o) ≤ 5)%nat.
Proof. destruct o; cbn; try lia. repeat case_match; cbn; lia. Qed.

(** An operation that can make the node panic: a token without a name, whose root does, or
    a transfer to a text on which parsing addresses does. *)
Definition fatal_text (o : operation) : Prop :=
  match o with Transfer _ _ to => NewAddrFromString g to = Panic | _ => False end.
Definition unnamed (o : operation) : Prop := match o with NewToken id _ _ => id = [] | _ => False end.

(** The maps that come up while an operation is repeated. *)
Definition reached (o : operation) mp : Prop :=
  entries_in (op_keys o) mp ∧ match o with NewToken _ _ _ => True | _ => wf mp end.

Lemma reached_write o mp k n : k ∈ op_keys o → k ≠ [] → reached o mp → reached o (<[k := E64func n]> mp).
Proof.
  intros Hk Hne [Hen Hwf]. split; [apply entries_insert; auto using E64_nonempty|]. destruct o; [done|by apply wf_write..].
Qed.

Lemma owner_step o mp : match o with Mint _ _ | Freeze _ _ _ | Unfreeze _ _ _ => True | _ => False end → reached o mp →
  ∃ r mp', run o mp = (r, mp') ∧ r ≠ Panic ∧ reached o mp'.
Proof.
  intros Ho Hr. pose proof (Hdb (op_id o)) as Hp. destruct (decide (kv_Get (op_id o) db = Ok e)) as [Hd|Hd].
  - destruct Hr as [Hen Hwf]. destruct o as [| id n | | id a n | id a n]; try done; cbn [op_id] in Hd.
    + rewrite mint_run by done. cbv zeta. case_decide; [do 2 eexists; split; [done|]; done|].
      do 2 eexists. split; [done|]. split; [done|].
      apply reached_write; [by right; left|done|]. apply reached_write; [by left|done|done].
    + rewrite freeze_run by done. do 2 eexists. split; [done|]. split; [done|]. apply reached_write; [by left|done|done].
    + rewrite unfreeze_run by done. do 2 eexists. split; [done|]. split; [done|]. apply reached_write; [by left|done|done].
  - destruct (denied g db sdb e o mp Ho Hd) as (r & Hne & Hrun). exists r, mp. split; [done|]. split; [auto|done].
Qed.

Lemma transfer_step id n to mp : NewAddrFromString g to ≠ Panic → reached (Transfer id n to) mp →
  ∃ r mp', run (Transfer id n to) mp = (r, mp') ∧ r ≠ Panic ∧ reached (Transfer id n to) mp'.
Proof.
  intros Hto Hr. pose proof Hr as [Hen Hwf]. rewrite transfer_run by done. cbn [op_keys] in Hen.
  assert (∀ k, k = bKey id e ∨ (∃ a c, NewAddrFromString g to = Ok a ∧ NewCommonAddr g a = Ok c ∧ k = bKey id (eth_Hex c)) →
    (∃ a c, NewAddrFromString g to = Ok a ∧ NewCommonAddr g a = Ok c) → k ∈ op_keys (Transfer id n to)) as Hkeys.
  { intros k Hk (a & c & Ha & Hc). cbn. rewrite Ha, Hc. destruct Hk as [->|(a' & c' & Ha' & Hc' & ->)]; [by left|].
    rewrite Ha in Ha'. injection Ha' as <-. rewrite Hc in Hc'. injection Hc' as <-. by right; left. }
  destruct (NewAddrFromString g to) as [a|x|] eqn:Ha; [|do 2 eexists; split; [done|]; done|done].
  destruct (NewCommonAddr g a) as [c|x|] eqn:Hc; [|do 2 eexists; split; [done|]; done|by apply NewCommonAddr_no_panic in Hc].
  cbv zeta. pose proof (Hdb id) as Hp.
  destruct (if decide (is_Some (mp !! id)) then _ else _) as [v|x|] eqn:Hv;
    [|do 2 eexists; split; [done|]; done|by revert Hv; case_decide].
  destruct (decide (_ < _)); [do 2 eexists; split; [done|]; done|].
  destruct (decide (_ = _)); [do 2 eexists; split; [done|]; done|]. do 2 eexists. split; [done|]. split; [done|].
  apply reached_write; [apply Hkeys; [right; eauto|eauto]|done|]. apply reached_write; [apply Hkeys; [by left|eauto]|done|done].
Qed.

Lemma new_step id t p mp : id ≠ [] → reached (NewToken id t p) mp →
  ∃ r mp', run (NewToken id t p) mp = (r, mp') ∧ r ≠ Panic ∧ reached (NewToken id t p) mp'.
Proof.
  intros Hid Hr. rewrite new_run. pose proof (Hdb id) as Hp. case_decide; [do 2 eexists; split; [done|]; done|].
  destruct (kv_Get id db) as [v|x|]; [do 2 eexists; split; [done|]; done| |done]. do 2 eexists. split; [done|]. split; [done|].
  do 4 (apply reached_write; [set_solver|done|]). split; [|done]. apply entries_insert; [by left|done|done|apply Hr].
Qed.

Lemma step o mp : ¬ fatal_text o → ¬ unnamed o → reached o mp →
  ∃ r mp', run o mp = (r, mp') ∧ r ≠ Panic ∧ reached o mp'.
Proof.
  intros Hf Hu Hr. destruct o; [by apply new_step|by apply owner_step|by apply transfer_step|by apply owner_step..].
Qed.

Lemma reached_empty o : reached o ∅.
Proof. split; [apply entries_empty|]. destruct o; [done|apply wf_empty..]. Qed.

Lemma repeat_steps o n : ¬ fatal_text o → ¬ unnamed o → ∀ mp, reached o mp →
  ∃ r mp', st_iter (deal g db sdb e) (replicate n (Some (op_script o))) mp = (r, mp') ∧ r ≠ Panic ∧ reached o mp'.
Proof.
  intros Hf Hu. induction n as [|n IH]; intros mp Hr; cbn [replicate st_iter]; [do 2 eexists; split; [done|]; done|].
  destruct (step o mp Hf Hu Hr) as (r & mp1 & Hrun & Hne & Hr1). unfold mbind, stM_bind. rewrite Hrun.
  destruct r as [[]|x|]; [by apply IH|do 2 eexists; split; [done|]; done|done].
Qed.

(** The root of a script's effects: for a list of copies of one operation, as the parser
    makes them. *)
Definition root_of (hash : bytes → bytes) (scs : list (option Script)) : res bytes :=
  mp ← New g db sdb scs e; Root hash mp.

Lemma root_of_fatal hash o n : fatal_text o → root_of hash (replicate (Datatypes.S n) (Some (op_script o))) = Panic.
Proof.
  intros Hf. destruct o as [| |id m to| |]; try done. cbn in Hf. unfold root_of, New. cbn [replicate st_iter].
  unfold mbind at 2, stM_bind. rewrite transfer_run by apply wf_empty. by rewrite Hf.
Qed.

Lemma root_of_unnamed hash t p : (∃ x, kv_Get [] db = Err x) → root_of hash [Some (op_script (NewToken [] t p))] = Panic.
Proof.
  intros [x Hx]. unfold root_of, New. cbn [st_iter]. unfold mbind at 2, stM_bind. rewrite new_run.
  rewrite decide_False by (rewrite lookup_empty; by intros []). rewrite Hx. cbn [mret stM_ret mbind res_bind].
  set (mp := <[fKey [] e := _]> _). apply Root_unnamed.
  - unfold mp. rewrite !lookup_insert_ne by done. rewrite lookup_insert_eq. by eexists.
  - unfold mp. do 5 apply size_insert. done.
Qed.

Lemma root_of_twice hash t p n : root_of hash (replicate (Datatypes.S (Datatypes.S n)) (Some (op_script (NewToken [] t p)))) ≠ Panic.
Proof.
  unfold root_of, New. cbn [replicate st_iter]. unfold mbind at 2, stM_bind. rewrite new_run.
  rewrite decide_False by (rewrite lookup_empty; by intros []). pose proof (Hdb []) as Hp.
  destruct (kv_Get [] db) as [v|x|] eqn:E; [done| |done]. unfold mbind at 2, stM_bind. rewrite new_run.
  rewrite decide_True; [done|]. rewrite !lookup_insert_ne by done. rewrite lookup_insert_eq. by eexists.
Qed.

Lemma root_of_safe hash o n : ¬ fatal_text o → ¬ unnamed o → root_of hash (replicate n (Some (op_script o))) ≠ Panic.
Proof.
  intros Hf Hu. unfold root_of, New. destruct (repeat_steps o n Hf Hu ∅ (reached_empty o)) as (r & mp & -> & Hne & Hen & _).
  destruct r as [[]|x|]; [|done..]. cbn [mbind res_bind]. apply (Root_entries hash (op_keys o)); [done|apply op_keys_length].
Qed.

(** The scripts whose root panics. *)
Definition fatal (scs : list (option Script)) : Prop :=
  (∃ t p, scs = [Some (op_script (NewToken [] t p))]) ∨
  (∃ id n to rest, scs = Some (op_script (Transfer id n to)) :: rest ∧ NewAddrFromString g to = Panic).

#[local] Instance fatal_text_dec o : Decision (fatal_text o).
Proof. destruct o; cbn; apply _. Defined.
#[local] Instance unnamed_dec o : Decision (unnamed o).
Proof. destruct o; cbn; apply _. Defined.

Lemma op_script_new o t p : op_script o = op_script (NewToken [] t p) → unnamed o.
Proof. destruct o; try done. by intros [= -> _ _]. Qed.
Lemma op_script_transfer o id n to : op_script o = op_script (Transfer id n to) → NewAddrFromString g to = Panic → fatal_text o.
Proof. destruct o; try done. by intros [= _ _ ->]. Qed.

Lemma root_of_operation hash o n : (∃ x, kv_Get [] db = Err x) →
  root_of hash (replicate (Datatypes.S n) (Some (op_script o))) = Panic ↔ fatal (replicate (Datatypes.S n) (Some (op_script o))).
Proof.
  intros Hx. destruct (decide (unnamed o)) as [Hu|Hu].
  { destruct o as [id t p| | | |]; try done. cbn in Hu. subst id. destruct n as [|n].
    - split; [intros _; left; by eexists _, _|]. intros _. by apply root_of_unnamed.
    - split; [intros Hp; by apply root_of_twice in Hp|]. intros [(? & ? & ?)|(? & ? & ? & ? & ? & _)]; done. }
  destruct (decide (fatal_text o)) as [Hf|Hf].
  { split; [|intros _; by apply root_of_fatal]. intros _. right. destruct o as [| |id m to| |]; try done.
    exists id, m, to, (replicate n (Some (op_script (Transfer id m to)))). done. }
  split; [intros Hp; by apply root_of_safe in Hp|].
  intros [(t & p & Heq)|(id & m & to & rest & Heq & Hto)]; cbn [replicate] in Heq.
  - injection Heq as Heq _. by apply op_script_new in Heq.
  - injection Heq as Heq _. by eapply op_script_transfer in Heq.
Qed.

Lemma root_of_scripts hash data : (∃ x, kv_Get [] db = Err x) →
  root_of hash (scripts_of data) = Panic ↔ fatal (scripts_of data).
Proof.
  intros Hx. destruct (scripts_of_cases data) as [->|(n & [s|] & Hs)].
  - split; [done|]. intros [(? & ? & ?)|(? & ? & ? & ? & ? & _)]; done.
  - destruct (well_formed_operation s) as (o & -> & _).
    { apply (scripts_of_typed data s). rewrite Hs. by left. }
    rewrite Hs. by apply root_of_operation.
  - rewrite Hs. split; [done|]. intros [(? & ? & ?)|(? & ? & ? & ? & ? & _)]; done.
Qed.

End Runs.

(** ** The blockchain's method *)

Section TokenRoot.
Context {D S T : Type} `{!Badger T, !BadgerDB D T, !StateStore D S, !StateDB S, !EthCommon, !EthCommonLaws}.
Context `{!BadgerLaws T, !BadgerDBLaws D T}.
Variable g : globals.
Variable sha3_256 : bytes → bytes.
Implicit Types (c : chain D S) (addr : Address).

Lemma Get_no_panic (t : T) (k : bytes) : (∃ x, kv_Get [] t = Err x) → kv_Get k t ≠ Panic.
Proof.
  intros [x Hx]. destruct (decide (k = [])) as [->|Hne]; [by rewrite Hx|]. rewrite kv_Get_tx by done. by destruct (view t !! k).
Qed.

(** Committing a transaction that wrote nothing changes nothing that can be read. *)
Lemma Commit_nothing (w : world D S T) : writes (w_tx w) = ∅ →
  ∃ d, ignore_err Commit tt w = (Ok tt, World d (w_sdb w) (w_tx w) (w_evm w)) ∧ dbview d = dbview (w_db w).
Proof.
  intros Hw. unfold ignore_err, st_catch, Commit. destruct (db_commit (w_tx w) (w_db w)) as [[[]|x|] d] eqn:E.
  - exists d. split; [done|]. apply map_eq. intros k. rewrite (commit_merge _ _ _ E). by rewrite Hw, decide_False by set_solver.
  - exists d. split; [done|]. by destruct (commit_fail _ _ _ _ E ltac:(done)) as [_ ?].
  - by destruct (commit_fail _ _ _ _ E ltac:(done)) as [? _].
Qed.

Lemma GetTokenRoot_run addr script c coAddr : NewCommonAddr g addr = Ok coAddr →
  ∃ c', GetTokenRoot g sha3_256 (T := T) addr script c =
      Some (root_of g (db_begin (T := T) (db c)) (sdb c) (eth_Hex coAddr) sha3_256 (scripts_of script), c') ∧
    dbview (db c') = dbview (db c) ∧ sdb c' = sdb c ∧ evm c' = evm c.
Proof.
  intros Ha. unfold GetTokenRoot. rewrite Ha, Parser_scripts. cbn [mbind option_bind]. unfold with_txn, root_of.
  erewrite st_bind_eq by reflexivity. erewrite st_bind_eq by reflexivity. cbn [w_sdb].
  set (w0 := World (db c) (sdb c) (db_begin (db c)) (evm c)).
  destruct (New g (db_begin (db c)) (sdb c) (scripts_of script) (eth_Hex coAddr)) as [mp|x|] eqn:Hnew.
  - rewrite (st_bind_eq (from_tx (λ t : T, New g t (sdb c) (scripts_of script) (eth_Hex coAddr))) _ w0 mp w0 (f_equal (λ r, (r, w0)) Hnew)).
    destruct (Commit_nothing (World (db c) (sdb c) (db_begin (db c)) (evm c))) as (d & Hc & Hd); [apply begin_writes|].
    rewrite (st_bind_eq _ _ _ _ _ Hc). eexists. split; [reflexivity|]. done.
  - rewrite (st_bind_err (from_tx (λ t : T, New g t (sdb c) (scripts_of script) (eth_Hex coAddr))) _ w0 x w0 (f_equal (λ r, (r, w0)) Hnew)). eexists. split; [reflexivity|]. done.
  - rewrite (st_bind_panic (from_tx (λ t : T, New g t (sdb c) (scripts_of script) (eth_Hex coAddr))) _ w0 w0 (f_equal (λ r, (r, w0)) Hnew)). eexists. split; [reflexivity|]. done.
Qed.

(** Asking for the root of a script changes nothing, and always gets an answer; the
    node panics on exactly two kinds of scripts, a single one that makes a token without a
    name, and one that transfers to a text on which parsing addresses panics. *)
Theorem GetTokenRoot_panics (addr : Address) (script : bytes) (c : chain D S) :
  is_Some (prefixSet (CurrentNetWork g)) → (∀ a, length a = 20%nat → eth_Hex a ≠ []) → (∀ t : T, ∃ x, kv_Get [] t = Err x) →
  ∃ r c', GetTokenRoot g sha3_256 (T := T) addr script c = Some (r, c') ∧
    dbview (db c') = dbview (db c) ∧ sdb c' = sdb c ∧
    (r = Panic ↔ (∃ a, NewCommonAddr g addr = Ok a) ∧ fatal g (scripts_of script)).
Proof.
  intros Hnet Hhex Hempty. destruct (NewCommonAddr g addr) as [a|x|] eqn:Ha.
  - destruct (GetTokenRoot_run addr script c a Ha) as (c' & Hrun & Hd & Hs & _). do 2 eexists. split; [exact Hrun|].
    split; [done|]. split; [done|]. apply NewCommonAddr_length in Ha as Hlen.
    rewrite root_of_scripts; [split; [eauto|by intros [_ ?]]|..]; auto using Get_no_panic.
  - exists (Err x), c. unfold GetTokenRoot. rewrite Ha. do 3 (split; [done|]). split; [done|]. by intros [[? ?] _].
  - by apply NewCommonAddr_no_panic in Ha.
Qed.

End TokenRoot.

(** ** Writing the map *)

Section Flush.
Context {S T : Type} `{!StateDB S, !StateDBLaws S, !EthCommon, !Badger T, !BadgerLaws T}.
Variable room : bytes → nat.
Implicit Types (items : list (bytes * bytes)) (k v : bytes).

(** The account of a number. *)
Definition account k : bytes := HexToAddress (sHA1 k).

Lemma first_two_numeric k p : first_two room k = Ok p → numeric_prefix p ↔ numeric k.
Proof.
  unfold first_two, numeric. case_decide as Hl; [|done]. intros [= <-].
  destruct k as [|a [|b k]]; [| |by cbn; rewrite !take_0]; unfold numeric_prefix; cbn; split; intros [?|[?|[?|?]]]; try done.
  all: by simplify_eq.
Qed.

Lemma flush_one_numeric k v t (s : S) r ts : numeric k → length v = 8%nat →
  flush_one room k v (t, s) = (r, ts) → r = Ok tt → ts = (t, sdb_SetBalance (account k) (le_combine v) s).
Proof.
  intros Hk Hv. unfold flush_one, mbind, stM_bind, st_lift. destruct (first_two room k) as [p|x|] eqn:E; [|by intros [= <- _]..].
  rewrite decide_True by by apply (first_two_numeric k). unfold LittleEndian_Uint64. rewrite Hv, decide_False by lia.
  rewrite take_ge by lia. by intros [= <- <-].
Qed.

Lemma flush_one_other k v t (s : S) r ts : ¬ numeric k → flush_one room k v (t, s) = (r, ts) → r = Ok tt → ts.2 = s.
Proof.
  intros Hk. unfold flush_one, mbind, stM_bind, st_lift. destruct (first_two room k) as [p|x|] eqn:E; [|by intros [= <- _]..].
  rewrite decide_False by by rewrite (first_two_numeric k). unfold zoom. cbn [fst]. destruct (set k v t). by intros [= <- <-].
Qed.

(** Once the map is written, in whatever order, every number reads as it did through the
    map, if no other key of the map has the same account. *)
Lemma Flush_amounts items k : NoDup items.*1 → numeric k →
  (∀ k' v, (k', v) ∈ items → numeric k' → length v = 8%nat ∧ (account k' = account k → k' = k)) →
  ∀ t (s : S) t' s', Flush room items (t, s) = (Ok tt, (t', s')) → sdbGet s' k = amt s (list_to_map items) k.
Proof.
  intros Hnd Hk. induction items as [|[k1 v1] items IH]; intros Hitems t s t' s'; cbn [Flush st_iter].
  { by intros [= _ <-]. }
  apply NoDup_cons in Hnd as [Hk1 Hnd]. unfold Flush in *. cbn [st_iter]. unfold mbind, stM_bind.
  destruct (flush_one room k1 v1 (t, s)) as [[[]|x|] [t1 s1]] eqn:E; cbn [fst snd]; rewrite E; [|done..]. intros Hrun.
  apply IH in Hrun; [|done|intros k' v Hin; apply Hitems; by right]. rewrite Hrun. unfold amt. cbn [list_to_map foldr uncurry].
  cbn [fst snd]. destruct (decide (numeric k1)) as [Hn|Hn].
  - destruct (Hitems k1 v1 ltac:(by left) Hn) as [Hv Hcol]. pose proof (flush_one_numeric _ _ _ _ _ _ Hn Hv E eq_refl) as [= -> ->].
    destruct (decide (k1 = k)) as [->|Hne].
    + rewrite lookup_insert_eq, not_elem_of_list_to_map_1 by done. unfold sdbGet. fold (account k).
      rewrite balance_SetBalance, decide_True by done. pose proof (le_combine_bound v1) as Hb. rewrite Hv in Hb.
      rewrite take_ge by lia. rewrite Z.abs_eq by lia. apply u64_small. unfold is_u64, MAXUINT64. lia.
    + rewrite lookup_insert_ne by done. destruct (list_to_map items !! k); [done|]. unfold sdbGet. fold (account k).
      rewrite balance_SetBalance, decide_False; [done|]. intros Heq. by apply Hne, Hcol.
  - apply flush_one_other in E; [|done..]. cbn in E. subst s1. rewrite lookup_insert_ne; [done|]. by intros ->.
Qed.

End Flush.

(** ** Witnesses *)

Module TokenSample.
Import MapState MapWorld EthInstance.

Definition g : globals := init_globals.
Definition key (n : Z) : bytes := replicate 19 Byte.x00 ++ [byte.of_Z n].
Definition alice : bytes := eth_Hex (key 1).
Definition bob : bytes := eth_Hex (key 2).
Definition bob_text : bytes := bs "otK0" ++ EncodeToString (key 2).
Definition id : bytes := bs "abc".

Definition d : mdb := Mdb {[id := alice]} [].
Definition db : dbase mdb := Dbase d.
Definition s : state := State ∅ ∅.
Definition amount : gmap bytes bytes → bytes → Z := amt s.

(** A cap of 100 and nothing minted. *)
Definition mp0 : gmap bytes bytes := {[tKey id alice := E64func 100]}.
Definition run (e : bytes) (os : list operation) (mp : gmap bytes bytes) : res unit * gmap bytes bytes :=
  st_iter (deal (X := dbase mdb) g db s e) ((λ o, Some (op_script o)) <$> os) mp.

(** An amount of 2^63 or more is negative in the check of the cap. *)
Lemma cap_passed : let '(r, mp) := run alice [Mint id 18446744073709551615] mp0 in
  (r, amount mp (tKey id alice), amount mp (cKey id alice), amount mp (bKey id alice)) =
    (Ok tt, 100, 18446744073709551615, 18446744073709551615).
Proof. vm_compute. reflexivity. Qed.

(** With something frozen, the sum of a huge amount and the frozen one wraps: the sender
    gains what the receiver loses. *)
Definition mp1 : gmap bytes bytes :=
  <[bKey id alice := E64func 10]> (<[fKey id alice := E64func 10]> (<[bKey id bob := E64func 15]> mp0)).
Lemma frozen_pulls : let '(r, mp) := run alice [Transfer id 18446744073709551606 bob_text] mp1 in
  (r, amount mp (bKey id alice), amount mp (bKey id bob)) = (Ok tt, 20, 5).
Proof. vm_compute. reflexivity. Qed.

(** Freezing under the text of an address freezes nothing. *)
Lemma text_freezes_nothing : let '(r, mp) := run alice [Freeze id bob_text 15] mp1 in
  (r, amount mp (fKey id bob_text), amount mp (fKey id bob)) = (Ok tt, 0, 0).
Proof. vm_compute. reflexivity. Qed.

(** The name of a token can be the key of a balance, which is then the first bytes of the
    owner's address. *)
Lemma name_is_balance : let '(r, mp) := run alice [NewToken (bKey id alice) 1 0] ∅ in
  (r, amount mp (bKey id alice)) = (Ok tt, 3472328296227698736).
Proof. vm_compute. reflexivity. Qed.

Definition os : list (bytes * operation) :=
  [(alice, Mint id 60); (alice, Transfer id 25 bob_text); (alice, Freeze id bob 20); (bob, Transfer id 90 bob_text)].
Definition run_all : res unit * gmap bytes bytes := st_iter (deal_one (X := dbase mdb) g db s) os mp0.

Lemma owner_ok : kv_Get id db = Ok alice.
Proof. vm_compute. reflexivity. Qed.

Lemma L_ok : NoDup [alice; bob] ∧ Forall (λ a, length a = 42%nat) [alice; bob].
Proof. split; [apply (bool_decide_unpack _); vm_compute; exact I|by repeat constructor]. Qed.

Lemma bob_text_ok ad c : NewAddrFromString g bob_text = Ok ad → NewCommonAddr g ad = Ok c → eth_Hex c = bob.
Proof.
  intros Ha. assert (NewAddrFromString g bob_text = Ok (Addr (Byte.x00 :: key 2))) as E by (vm_compute; reflexivity).
  rewrite E in Ha. injection Ha as <-. vm_compute. by intros [= <-].
Qed.

Lemma os_ok : Forall (λ eo, eo.1 ∈ [alice; bob] ∧ benign g [alice; bob] eo.2) os.
Proof.
  assert (bob ∈ [alice; bob]) as Hb by (right; by left). assert (alice ∈ [alice; bob]) as Ha0 by by left.
  assert (∀ ad c, NewAddrFromString g bob_text = Ok ad → NewCommonAddr g ad = Ok c → eth_Hex c ∈ [alice; bob]) as Hto
    by (intros ad c Ha Hc; by rewrite (bob_text_ok ad c Ha Hc)).
  repeat (apply Forall_cons_2; [split; [done|]; split; [by split; vm_compute|by cbn]|]). apply Forall_nil_2.
Qed.

Lemma mp0_ok : ledger_ok s id alice [alice; bob] mp0.
Proof.
  constructor.
  - intros k v _. unfold mp0. rewrite lookup_singleton. case_decide; [|done]. intros [= <-]. reflexivity.
  - vm_compute. reflexivity.
  - vm_compute. discriminate.
  - vm_compute. split; [discriminate|reflexivity].
  - intros a [->|[->|[]%not_elem_of_nil]%elem_of_cons]%elem_of_cons; vm_compute; discriminate.
Qed.

Definition c : chain mdb state := Chain d s (NewEvm 0 (ChainCfg 1 1 1 1)).
(** A token without a name. *)
Definition unnamed_token : bytes := bs "new " ++ [quote; quote] ++ bs " 1 1".

End TokenSample.

Lemma token_ledger_witness :
  let mp := TokenSample.run_all.2 in
  ledger_ok TokenSample.s TokenSample.id TokenSample.alice [TokenSample.alice; TokenSample.bob] mp ∧
  TokenSample.amount mp (bKey TokenSample.id TokenSample.bob) = 25.
Proof.
  cbv zeta. split; [|vm_compute; reflexivity].
  destruct TokenSample.run_all as [r mp] eqn:E. cbn [snd].
  exact (token_ledger TokenSample.g TokenSample.db TokenSample.s TokenSample.id TokenSample.alice
    [TokenSample.alice; TokenSample.bob] 42 TokenSample.os TokenSample.mp0 mp r
    (proj1 TokenSample.L_ok) (proj2 TokenSample.L_ok) TokenSample.owner_ok ltac:(by left)
    TokenSample.os_ok TokenSample.mp0_ok E).
Defined.

Lemma GetTokenRoot_panics_witness : ∃ c',
  GetTokenRoot TokenSample.g id (T := MapTxn.txn) ZeroAddress TokenSample.unnamed_token TokenSample.c = Some (Panic, c').
Proof.
  destruct (GetTokenRoot_panics (T := MapTxn.txn) TokenSample.g id ZeroAddress TokenSample.unnamed_token TokenSample.c)
    as (r & c' & Hrun & _ & _ & Hr).
  - exists TestnetPrefix. reflexivity.
  - intros a Ha Hx. apply (f_equal length) in Hx. by destruct a.
  - intros t. eexists. reflexivity.
  - exists c'. rewrite Hrun. f_equal. f_equal. apply Hr. split; [eexists; vm_compute; reflexivity|].
    left. exists 1, 1. vm_compute. reflexivity.
Defined.
