(* ===== verification/IndexFacts.v ===== *)
(** The height index of the main chain, as a list of hashes: what adding and deleting
    blocks does to it. *)

From S2P Require Import Prelude Misc Badger BgStore Base58 Cbor Address Transaction Block.
From S2P Require Import Ledger Difficulty Economics World Apply Chain Frames ChainFacts.

(** ** The index *)

(** The heights from [lo] on have the hashes [l], and no other height has one. *)
Definition hashes_at (lo : Z) (l : list bytes) (m : gmap bytes bytes) : Prop :=
  ∀ h, is_u64 h → m !! height_key h = if decide (lo ≤ h) then l !! Z.to_nat (h - lo) else None.

(** The recorded height of a chain from [lo] on. *)
Definition top (lo : Z) (l : list bytes) : Z := lo - 1 + Z.of_nat (length l).

(** [m] is a store in which the main chain is [l], whose lowest block is at height [lo]. *)
Record indexed (lo : Z) (l : list bytes) (m : gmap bytes bytes) : Prop := Indexed {
  idx_lo : 1 ≤ lo;
  idx_top : top lo l ≤ MAXUINT64;
  idx_height : m !! HeightKey = Some (E64func (top lo l));
  idx_hashes : hashes_at lo l m;
}.

Lemma top_snoc lo l x : top lo (l ++ [x]) = top lo l + 1.
Proof. unfold top. rewrite length_app. simpl. lia. Qed.

Lemma height_key_inj h h' : is_u64 h → is_u64 h' → height_key h = height_key h' → h = h'.
Proof. intros Hh Hh' Heq. apply (app_inv_head HeightPrefix) in Heq. by apply E64func_inj. Qed.

(** A key that is neither the height nor a height's hash. *)
Definition off_index (k : bytes) : Prop := k ≠ HeightKey ∧ ∀ h, k ≠ height_key h.

Lemma off_index_hash k : length k = 32%nat → off_index k.
Proof. intros Hl. split; [|intros h]; key_ne. Qed.
Lemma snap_height_ne h h' : snap_key h ≠ height_key h'.
Proof.
  unfold snap_key, height_key. intros Heq%(f_equal (take 9)). revert Heq.
  rewrite !take_app_le by (vm_compute; lia). by vm_compute.
Qed.
Lemma off_index_snap h : off_index (snap_key h).
Proof. split; [key_ne|]. intros h'. apply snap_height_ne. Qed.
Lemma off_index_SnapRootKey : off_index SnapRootKey.
Proof. split; [by vm_compute|]. intros h. key_ne. Qed.
#[export] Hint Resolve off_index_hash off_index_snap off_index_SnapRootKey : keys.

(** Stores that agree on the index. *)
Lemma indexed_ext lo l m m' :
  (∀ k, own_key k → m' !! k = m !! k) → indexed lo l m → indexed lo l m'.
Proof.
  intros He [H1 H2 H3 H4]. split; [done..| |]; [rewrite He by auto with keys; done|].
  intros h Hh. rewrite He by auto with keys. by apply H4.
Qed.

(** The two writes that extend the index by a block. *)
Lemma indexed_extend lo l m h x :
  indexed lo l m → h = top lo l +₆₄ 1 → h ≠ 0 →
  indexed lo (l ++ [x]) (<[HeightKey := E64func h]> (<[height_key h := x]> m)).
Proof.
  intros [H1 H2 H3 H4] -> Hne. unfold top in *.
  assert (lo - 1 + Z.of_nat (length l) +₆₄ 1 = lo + Z.of_nat (length l)) as Hh.
  { revert Hne. unfold_words. intros Hne. destruct (decide (lo - 1 + Z.of_nat (length l) = 18446744073709551615)) as [E|E].
    - rewrite E in Hne. done.
    - rewrite Z.mod_small by lia. lia. }
  assert (is_u64 (lo + Z.of_nat (length l))) as Hu by (rewrite <- Hh; apply add64_range).
  rewrite Hh. split; [done| | |]; rewrite ?top_snoc; unfold top.
  - unfold is_u64 in Hu. lia.
  - rewrite lookup_insert_eq. do 2 f_equal. lia.
  - intros h Hr. rewrite lookup_insert_ne by key_ne.
    destruct (decide (h = lo + Z.of_nat (length l))) as [->|Hn].
    + rewrite lookup_insert_eq, decide_True by lia.
      by rewrite lookup_app_r, list_lookup_singleton by lia; replace (_ - _)%nat with 0%nat by lia.
    + rewrite lookup_insert_ne by (by intros ?%height_key_inj). rewrite H4 by done.
      case_decide; [|done]. destruct (decide (h < lo + Z.of_nat (length l))).
      * by rewrite lookup_app_l by lia.
      * rewrite !lookup_ge_None_2; rewrite ?length_app; simpl; try done; lia.
Qed.

(** ** Transactions and the index *)

Section Facts.
Context {D SD T : Type} `{!Badger T, !BadgerDB D T, !StateDB SD, !StateStore D SD, !EvmRuntime SD}.
Context `{!CborHeader, !Crypto, !EthCommon, !EvmData}.
Context `{!BadgerLaws T, !BadgerDBLaws D T, !StateStoreLaws D SD T, !CryptoLaws}.
Variables (g : globals) (now : Z) (cfg : ChainConfig).
Implicit Types (w : world D SD T) (b : Block) (t : T).

Lemma preserves_forall {W A B} (C : B → Prop) (P : B → W → Prop) (m : stM W A) :
  (∀ x, C x → preserves (P x) m) → preserves (λ s, ∀ x, C x → P x s) m.
Proof. intros Hm s r s' HP E x Hx. eapply Hm; [done|by apply HP|done]. Qed.

(** What the transaction sees under [k] is [v]. *)
Definition sees k (v : option bytes) t : Prop := view t !! k = v.
#[global] Instance sees_frame k v : Frame k (sees k v).
Proof.
  split; [intros k' v' Hne|intros k' Hne]; intros t r t' Hs E; unfold sees in *.
  - destruct (Set_inv _ _ _ _ _ E) as [(_ & -> & _)|(_ & _ & -> & _)]; [|done]. by rewrite lookup_insert_ne.
  - destruct (Delete_inv _ _ _ _ E) as [(_ & -> & _)|(_ & _ & -> & _)]; [|done]. by rewrite lookup_delete_ne.
Qed.

(** What it has not written among the component's keys, it sees as in [d0]. *)
Definition agrees (d0 : D) t : Prop := ∀ k, own_key k → k ∉ writes t → view t !! k = dbview d0 !! k.
Lemma agrees_set d0 k v : preserves (agrees d0) (set k v).
Proof.
  intros t r t' Ha E k' Hk. destruct (Set_inv _ _ _ _ _ E) as [(_ & -> & ->)|(_ & _ & -> & ->)]; [|by apply Ha].
  intros Hn. rewrite lookup_insert_ne by set_solver. apply Ha; set_solver.
Qed.
Lemma agrees_del d0 k : preserves (agrees d0) (del k).
Proof.
  intros t r t' Ha E k' Hk. destruct (Delete_inv _ _ _ _ E) as [(_ & -> & ->)|(_ & _ & -> & ->)]; [|by apply Ha].
  intros Hn. rewrite lookup_delete_ne by set_solver. apply Ha; set_solver.
Qed.
#[global] Instance agrees_frame d0 k : Frame k (agrees d0).
Proof. split; intros; [apply agrees_set|apply agrees_del]. Qed.

(** The index the transaction sees. *)
Definition sees_index lo l t : Prop := indexed lo l (view t).

Lemma sees_index_of {A} lo l (m : stM (world D SD T) A) :
  (∀ k v, own_key k → (k = HeightKey ∨ ∃ h, k = height_key h) → preserves (of_tx (sees k v)) m) →
  preserves (of_tx (sees_index lo l)) m.
Proof.
  intros Hm w r w' [H1' H2' H3' H4'] E. split; [done..| |].
  - by eapply (Hm HeightKey _ own_HeightKey (or_introl eq_refl)) in E.
  - intros h Hh. specialize (H4' h Hh). eapply (Hm (height_key h)) in E; [exact E|auto with keys|eauto|exact H4'].
Qed.

Lemma off_index_ne k k' : off_index k → (k' = HeightKey ∨ ∃ h, k' = height_key h) → k' ≠ k.
Proof. intros [Hn Hh] [->|[h ->]]; congruence. Qed.

Lemma set_frame_ne k v k' v' :
  off_index k' → (k = HeightKey ∨ ∃ h, k = height_key h) → preserves (sees k v) (set k' v').
Proof. intros Ho Hk. apply frame_set. by eapply off_index_ne. Qed.
Lemma del_frame_ne k v k' :
  off_index k' → (k = HeightKey ∨ ∃ h, k = height_key h) → preserves (sees k v) (del k').
Proof. intros Ho Hk. apply frame_del. by eapply off_index_ne. Qed.


(** Solve what a step does to the index, or to what the transaction agrees on. *)
Ltac ix_step :=
  first
  [ lazymatch goal with
    | |- preserves (of_tx (agrees ?d)) (apply_txs _ _ _ _ _ _ _) =>
        apply (apply_txs_frame g HeightKey (agrees d)); auto with keys
    | |- preserves (of_tx (agrees _)) (on_tx (set _ _)) => apply on_tx_of_tx, agrees_set
    | |- preserves (of_tx (agrees _)) (on_tx (del _)) => apply on_tx_of_tx, agrees_del
    | |- preserves (of_tx (agrees _)) (on_tx (ignore_err (set _ _) _)) =>
        apply on_tx_of_tx, preserves_ignore, agrees_set
    | |- preserves (of_tx (agrees _)) (on_tx (ignore_err (del _) _)) =>
        apply on_tx_of_tx, preserves_ignore, agrees_del
    | |- preserves (of_tx (sees_index _ _)) (apply_txs _ _ _ _ _ _ _) =>
        apply sees_index_of; intros ????; by apply (apply_txs_frame g _ (sees _ _))
    | |- preserves (of_tx (sees_index _ _)) (on_tx (set _ _)) =>
        apply sees_index_of; intros ????; apply on_tx_of_tx, set_frame_ne; auto with keys
    | |- preserves (of_tx (sees_index _ _)) (on_tx (del _)) =>
        apply sees_index_of; intros ????; apply on_tx_of_tx, del_frame_ne; auto with keys
    | |- preserves (of_tx (sees_index _ _)) (on_tx (ignore_err (set _ _) _)) =>
        apply sees_index_of; intros ????; apply on_tx_of_tx, preserves_ignore, set_frame_ne; auto with keys
    end
  | apply factCommit_keeps | apply fakeCommit1_keeps | apply apply_txs_of_db
  | progress unfold set_unchecked, set_block_evm, set_parent_evm, root_unchanged, settle_root_init, settle_root, miner_of
  | pres_step ].

(** What is known between opening a transaction and committing it. *)
Definition open_at (d0 : D) lo l w : Prop :=
  of_tx (agrees d0) w ∧ of_db (keeps d0) w ∧ of_tx (sees_index lo l) w.

Ltac carry_ix H :=
  repeat lazymatch type of H with
  | ?m ?w = (_, _) =>
      match goal with
      | K : of_tx ?Q w |- _ =>
          let K' := fresh "K" in
          assert (preserves (of_tx Q) m) as K' by (repeat ix_step); specialize (K' _ _ _ K H); clear K; rename K' into K
      | K : of_db ?R w |- _ =>
          let K' := fresh "K" in
          assert (preserves (of_db R) m) as K' by (repeat ix_step); specialize (K' _ _ _ K H); clear K; rename K' into K
      end
  end.

Lemma sees_height lo l t : sees_index lo l t → getMaxBlockHeight t = Ok (top lo l).
Proof.
  intros [H1' H2' H3' H4']. unfold getMaxBlockHeight. rewrite kv_Get_tx, H3' by done. apply D64_E64.
  unfold top, is_u64 in *. lia.
Qed.

Lemma set_Ok_view k v w w' :
  on_tx (D := D) (S := SD) (set k v) w = (Ok tt, w') → view (w_tx w') = <[k := v]> (view (w_tx w)).
Proof.
  intros (Hs & _)%on_tx_inv. destruct (Set_inv _ _ _ _ _ Hs) as [(_ & Hv & _)|(Hn & _)]; [exact Hv|done].
Qed.

(** A small block is above the initial height. *)
Lemma AddSmallBlock_above b w w' :
  AddSmallBlock (D := D) (SD := SD) (T := T) g now cfg b w = (Ok tt, w') → InitHeight < Height b.
Proof.
  intros H'%deferred_Ok. step H' as prev w1 H1'. step H' as u1 w2 H2'. case_decide as Hh; [done|].
  step H' as u2 w3 H3'. step H' as u3 w4 H4'. step H' as u4 w5 H5'. step H' as tg w6 H6'. destruct tg as [txs gas].
  step H' as comHash w7 H7'. step H' as b2 w8 H8'.
  by apply settle_root_init_Ok in H8' as (_ & _ & _ & _ & Hi).
Qed.

Lemma AddSmallBlock_index d0 lo l b w w' :
  length (BHash b) = 32%nat → open_at d0 lo l w →
  AddSmallBlock (D := D) (SD := SD) (T := T) g now cfg b w = (Ok tt, w') → open_at d0 lo (l ++ [BHash b]) w'.
Proof.
  intros Hlen (Ka & Kd & Ki) H'. pose proof (AddSmallBlock_above _ _ _ H') as Hab. apply deferred_Ok in H'.
  step H' as prev w1 H1'. injection H1' as Hprev <-. rewrite (sees_height _ _ _ Ki) in Hprev. injection Hprev as <-.
  step H' as u1 w1 Hroot. carry_ix Hroot.
  case_decide as Hh; [done|].
  step H' as u2 w2 Hs1. destruct u2. pose proof (set_Ok_view _ _ _ _ Hs1) as Hv1.
  step H' as u3 w3 Hs2. destruct u3. pose proof (set_Ok_view _ _ _ _ Hs2) as Hv2.
  assert (of_tx (sees_index lo (l ++ [BHash b])) w3) as Kn.
  { unfold of_tx, sees_index. rewrite Hv2, Hv1. apply indexed_extend; [exact Ki|done|].
    rewrite <- Hh. unfold InitHeight in Hab. lia. }
  clear Ki Hv1 Hv2. carry_ix Hs1. carry_ix Hs2.
  step H' as u4 w4 Hevm. carry_ix Hevm.
  step H' as tg w5 Htxs. carry_ix Htxs. destruct tg as [txs gas].
  step H' as comHash w6 Hcom. carry_ix Hcom.
  step H' as b2 w7 Hset. carry_ix Hset.
  step H' as data w8 Hser. injection Hser as Hser <-.
  step H' as u5 w9 Hs3. carry_ix Hs3.
  step H' as u6 w10 Hs4. carry_ix Hs4.
  carry_ix H'. done.
Qed.

Lemma st_iter_Ok {W A} (f : A → stM W unit) x l (s s' : W) :
  st_iter f (x :: l) s = (Ok tt, s') → ∃ s1, f x s = (Ok tt, s1) ∧ st_iter f l s1 = (Ok tt, s').
Proof. intros ([] & s1 & ? & ?)%stM_bind_Ok. by exists s1. Qed.

Lemma AddSmallBlocks_index d0 lo bs : ∀ l w w',
  Forall (λ b, length (BHash b) = 32%nat) bs → open_at d0 lo l w →
  st_iter (AddSmallBlock (D := D) (SD := SD) (T := T) g now cfg) bs w = (Ok tt, w') →
  open_at d0 lo (l ++ (BHash <$> bs)) w'.
Proof.
  induction bs as [|b bs IH]; intros l w w' Hall Ho H'.
  - injection H' as <-. by rewrite app_nil_r.
  - apply st_iter_Ok in H' as (w1 & H1' & H2'). inversion_clear Hall.
    rewrite fmap_cons, cons_middle, (assoc_L (++)). eapply IH; [done| |exact H2'].
    by eapply AddSmallBlock_index.
Qed.

(** Opening a transaction, and committing it. *)
Lemma open_begin lo l (c : chain D SD) :
  indexed lo l (dbview (db c)) → open_at (db c) lo l (World (db c) (sdb c) (db_begin (db c)) (evm c)).
Proof.
  intros Hi. split_and!.
  - intros k Hk Hn. unfold of_tx. cbn. by rewrite begin_view.
  - by intros k Hk.
  - unfold of_tx, sees_index. cbn. by rewrite begin_view.
Qed.
Lemma open_commit d0 lo l w w' :
  open_at d0 lo l w → Commit (D := D) (S := SD) (T := T) w = (Ok tt, w') → indexed lo l (dbview (w_db w')).
Proof.
  intros (Ka & Kd & Ki). unfold Commit. destruct (db_commit (w_tx w) (w_db w)) as [r d'] eqn:E. intros [= -> <-].
  cbn [w_db]. eapply indexed_ext; [|exact Ki]. intros k Hk. rewrite (commit_merge _ _ _ E).
  destruct (decide (k ∈ writes (w_tx w))); [done|]. rewrite Kd by done. by rewrite Ka.
Qed.

Lemma set_unchecked_view k v w r w' :
  key_ok k → val_ok v → room (w_tx w) ≠ 0%nat →
  set_unchecked (D := D) (SD := SD) (T := T) k v w = (r, w') → view (w_tx w') = <[k := v]> (view (w_tx w)).
Proof.
  intros Hk Hv Hr (Hm & _)%on_tx_inv. destruct (set_run k v (w_tx w) Hk Hv Hr) as (t' & Hs & Hw & _).
  unfold ignore_err, st_catch in Hm. rewrite Hs in Hm. by injection Hm as _ <-.
Qed.

Lemma AddBlock_body_index d0 lo l b b' w w' :
  length (BHash b) = 32%nat → (2 ≤ room (w_tx w))%nat → open_at d0 lo l w → dbview (w_db w) = view (w_tx w) →
  AddBlock_body g now cfg b w = (Ok b', w') → indexed lo (l ++ [BHash b]) (dbview (w_db w')).
Proof.
  intros Hlen Hroom (Ka & Kd & Ki) Hdb H'.
  assert (InitHeight < Height b) as Hab.
  { clear -H'. unfold AddBlock_body in H'.
    step H' as prev w1 H1'. step H' as u1 w2 H2'. case_decide as Hh; [done|].
    step H' as u2 w3 H3'. step H' as u3 w4 H4'. step H' as u4 w5 H5'. step H' as tg w6 H6'. destruct tg as [txs gas].
    step H' as comHash w7 H7'. step H' as b2 w8 H8'.
    by apply settle_root_init_Ok in H8' as (_ & _ & _ & _ & Hi). }
  unfold AddBlock_body in H'.
  step H' as prev w1 H1'. injection H1' as Hprev <-.
  assert (prev = top lo l) as ->.
  { pose proof (sees_height _ _ _ Ki) as Hp. unfold getMaxBlockHeight in *. rewrite kv_Get_db in Hprev by done.
    rewrite kv_Get_tx in Hp by done. rewrite Hdb in Hprev. destruct (view (w_tx w) !! HeightKey); congruence. }
  clear Hdb.
  assert (of_tx (λ t, room t = room (w_tx w)) w) as Kr by done.
  step H' as u1 w1 Hroot. carry_ix Hroot.
  case_decide as Hh; [done|].
  step H' as u2 w2 Hs1. destruct u2. pose proof (set_Ok_view _ _ _ _ Hs1) as Hv1.
  assert (room (w_tx w2) ≠ 0%nat) as Hr2.
  { destruct (on_tx_inv _ _ _ _ Hs1) as (Hset & _).
    destruct (set_run (height_key (top lo l +₆₄ 1)) (BHash b) (w_tx w1)) as (t' & Hs & _ & Hr & _).
    - apply key_ok_own; [done|]. apply own_height_key.
    - unfold val_ok. lia.
    - unfold of_tx in Kr. rewrite Kr. lia.
    - rewrite Hset in Hs. injection Hs as ->. unfold of_tx in Kr. rewrite Hr, Kr. lia. }
  clear Kr. step H' as u3 w3 Hs2.
  assert (view (w_tx w3) = <[HeightKey := E64func (top lo l +₆₄ 1)]> (view (w_tx w2))) as Hv2.
  { eapply set_unchecked_view; [| |exact Hr2|exact Hs2]; [apply key_ok_own; [done|apply own_HeightKey]|].
    unfold val_ok. rewrite length_E64func. lia. }
  assert (of_tx (sees_index lo (l ++ [BHash b])) w3) as Kn.
  { unfold of_tx, sees_index. rewrite Hv2, Hv1. apply indexed_extend; [exact Ki|done|].
    rewrite <- Hh. unfold InitHeight in Hab. lia. }
  clear Ki Hv1 Hv2. carry_ix Hs1. carry_ix Hs2.
  step H' as u4 w4 Hevm. carry_ix Hevm.
  step H' as tg w5 Htxs. carry_ix Htxs. destruct tg as [txs gas].
  step H' as comHash w6 Hcom. carry_ix Hcom.
  step H' as b2 w7 Hset. carry_ix Hset.
  step H' as data w8 Hser. injection Hser as Hser <-.
  step H' as u5 w9 Hs3. carry_ix Hs3.
  step H' as u6 w10 Hs4. carry_ix Hs4.
  step H' as u7 w11 Hs5. carry_ix Hs5.
  step H' as u8 w12 Hcm. destruct u8. injection H' as _ <-.
  eapply open_commit; [|exact Hcm]. done.
Qed.

(** *** Reading the index *)

Lemma indexed_max lo l (d : D) : indexed lo l (dbview d) → getMaxBlockHeight (Dbase d) = Ok (top lo l).
Proof.
  intros [H1' H2' H3' H4']. unfold getMaxBlockHeight. rewrite kv_Get_db, H3' by done. apply D64_E64.
  unfold top, is_u64 in *. lia.
Qed.
Lemma indexed_hash lo l (d : D) h : indexed lo l (dbview d) → is_u64 h →
  getHash h (Dbase d) = match (if decide (lo ≤ h) then l !! Z.to_nat (h - lo) else None) with
                        | Some x => Ok x | None => Err NotExist end.
Proof. intros [H1' H2' H3' H4'] Hh. unfold getHash. by rewrite kv_Get_db, H4' by done. Qed.

(** *** The operations *)

Variables (sha3 diffhash : bytes → bytes).

(** The hashes an operation appends. *)
Definition appended (o : add_op) : option (list bytes) :=
  match o with
  | OpAddBlock b => Some [BHash b]
  | OpAddBlocks bs => Some (BHash <$> bs)
  | OpReorganize _ _ => None
  end.

Lemma with_txn_run {A} (m : stM (world D SD T) A) (c : chain D SD) r c' :
  with_txn m c = (r, c') → ∃ w, m (World (db c) (sdb c) (db_begin (db c)) (evm c)) = (r, w) ∧ db c' = w_db w.
Proof. unfold with_txn. destruct (m _) as [r1 w1]. intros [= <- <-]. by exists w1. Qed.

Lemma reverting_Ok {A} root (m : stM (chain D SD) A) c a c' :
  reverting (D := D) (SD := SD) now cfg root m c = (Ok a, c') → m c = (Ok a, c').
Proof. unfold reverting. destruct (m c) as [[?|?|] ?]; by intros [= -> ->]. Qed.

Lemma AddBlock_index lo l b b' (c c' : chain D SD) :
  length (BHash b) = 32%nat → indexed lo l (dbview (db c)) →
  AddBlock (T := T) g now cfg b c = (Ok b', c') → indexed lo (l ++ [BHash b]) (dbview (db c')).
Proof.
  intros Hlen Hi H'. unfold AddBlock in H'. destruct (getSnapRoot (Dbase (db c))) as [root|e|]; [|done..].
  apply reverting_Ok, deferred_Ok, with_txn_run in H' as (w & H' & ->).
  eapply AddBlock_body_index; [done| | | |exact H'].
  - cbn. pose proof (begin_room (db c)). lia.
  - by apply open_begin.
  - cbn. by rewrite begin_view.
Qed.

Lemma AddBlocks_index lo l bs (c c' : chain D SD) :
  Forall (λ b, length (BHash b) = 32%nat) bs → indexed lo l (dbview (db c)) →
  AddBlocks (T := T) g now cfg bs c = (Ok tt, c') → indexed lo (l ++ (BHash <$> bs)) (dbview (db c')).
Proof.
  intros Hlen Hi H'. unfold AddBlocks in H'. destruct (getSnapRoot (Dbase (db c))) as [root|e|]; [|done..].
  apply reverting_Ok, with_txn_run in H' as (w & H' & ->).
  step H' as u1 w1 H1'. destruct u1. step H' as u2 w2 H2'.
  apply (AddSmallBlocks_index (db c) lo bs l) in H1' as (Ka & Kd & Ki); [|done|by apply open_begin].
  carry_ix H2'. assert (Commit w2 = (Ok tt, w)) as Hc.
  { unfold st_catch in H'. destruct (Commit w2) as [[[]|e|] w3]; [done| |done]. by case_decide. }
  eapply open_commit; [|exact Hc]. done.
Qed.

(** The height index implements an append-only list: an operation that adds blocks either
    appends the hashes of its blocks or, when it fails, appends nothing. *)
Lemma run_op_index (o : add_op) lo l hs (c c' : chain D SD) r :
  appended o = Some hs → Forall (λ h, length h = 32%nat) hs → indexed lo l (dbview (db c)) →
  run_op (T := T) g now cfg sha3 diffhash o c = (r, c') → r ≠ Panic →
  indexed lo (if decide (r = Ok tt) then l ++ hs else l) (dbview (db c')).
Proof.
  intros Ho Hlen Hi H' Hr. destruct r as [[]|e|]; [|rewrite decide_False by done|done].
  - rewrite decide_True by done. destruct o as [b|bs|]; [| |done]; injection Ho as <-.
    + apply stM_bind_Ok in H' as (b' & c1 & H' & [= <-]). inversion_clear Hlen. by eapply AddBlock_index.
    + eapply AddBlocks_index; [|done|exact H']. by apply Forall_fmap in Hlen.
  - apply run_op_fails in H' as [Hk _]. by eapply indexed_ext.
Qed.

(** *** Deleting blocks *)

(** A transaction whose deletion writes only the index of transactions: any but the ones
    whose input deletes a token by name. *)
Definition plain (tx : FinishedTransaction) : Prop := (split_quote (Input (ft_tx tx))).1 ≠ bs "new ".

(** The blocks at the heights up to [hi] are at the height they claim, with a hash of 32
    bytes and plain transactions. *)
Definition blocks_are (P : Z → Block → Prop) (hi : Z) (d : D) : Prop :=
  ∀ h b, h ≤ hi → getBlockByHeight h (Dbase d) = Ok b → P h b.
Definition deletable : Z → D → Prop := blocks_are (λ h b,
    Height b = h ∧ length (BHash b) = 32%nat ∧ Forall plain (Transactions b)).

(** Blocks so small that the writes which delete one fit into a transaction. *)
Definition small : Z → D → Prop := blocks_are (λ _ b, (length (Transactions b) ≤ 20)%nat).

(** Under every hash [d'] has what [d] has, or nothing. *)
Definition fades (m m' : gmap bytes bytes) : Prop :=
  ∀ k, length k = 32%nat → m' !! k = None ∨ m' !! k = m !! k.

Lemma delete_txs_dels (Q : T → Prop) txs : (∀ k, preserves Q (del k)) → ∀ i,
  preserves (of_tx Q) (delete_txs (D := D) (SD := SD) (T := T) g i txs).
Proof.
  intros Hq. induction txs as [|tx txs IH]; intros i; simpl; [apply preserves_ret|].
  apply preserves_bind; [|intros _; apply IH]. apply logged_pres, on_tx_of_tx.
  unfold delete_tx, deleteTxbyaddrKV, delTokenKey, mdel. repeat first [apply Hq | pres_step].
Qed.

Lemma delete_txs_frame k (Q : T → Prop) `{!Frame k Q} txs : own_key k → Forall plain txs → ∀ i,
  preserves (of_tx Q) (delete_txs (D := D) (SD := SD) (T := T) g i txs).
Proof.
  intros Hk Hp. induction Hp as [|tx txs Hp _ IH]; intros i; simpl; [apply preserves_ret|].
  apply preserves_bind; [|intros _; apply IH]. apply logged_pres, on_tx_of_tx. unfold plain in Hp.
  assert (∀ a, preserves Q (deleteTxbyaddrKV a tx i)) as Hd.
  { intros a. unfold deleteTxbyaddrKV, mdel. apply preserves_bind; [|intros _].
    - by apply frame_del, own_key_not_map.
    - by apply frame_del, own_key_not_hash. }
  unfold delete_tx. destruct (split_quote (Input (ft_tx tx))) as [s0 sl]. simpl in Hp.
  rewrite (decide_False _ _ Hp). repeat first [apply Hd | pres_step].
Qed.

Definition sees_fading (d0 : D) t : Prop := fades (dbview d0) (view t).
Lemma fading_del d0 k : preserves (sees_fading d0) (del k).
Proof.
  intros t r t' Hf E k' Hk. destruct (Delete_inv _ _ _ _ E) as [(_ & -> & _)|(_ & _ & -> & _)]; [|by apply Hf].
  destruct (decide (k = k')) as [->|]; [left; apply lookup_delete_eq|]. rewrite lookup_delete_ne by done. by apply Hf.
Qed.
Lemma fading_set d0 k v : own_key k → preserves (sees_fading d0) (set k v).
Proof.
  intros Ho t r t' Hf E k' Hk. destruct (Set_inv _ _ _ _ _ E) as [(_ & -> & _)|(_ & _ & -> & _)]; [|by apply Hf].
  rewrite lookup_insert_ne by (intros ->; unfold own_key in Ho; lia). by apply Hf.
Qed.

Definition sees_hashes lo l t : Prop := hashes_at lo l (view t).
Lemma sees_hashes_of {A} lo l (m : stM (world D SD T) A) :
  (∀ h v, is_u64 h → preserves (of_tx (sees (height_key h) v)) m) → preserves (of_tx (sees_hashes lo l)) m.
Proof. intros Hm w r w' Hv E h Hh. eapply (Hm h); [done|exact (Hv h Hh)|exact E]. Qed.

(** The recorded height is one of those from [x] to [y]. *)
Definition height_in (x y : Z) (m : gmap bytes bytes) : Prop :=
  ∃ h, x ≤ h ≤ y ∧ m !! HeightKey = Some (E64func h).
Definition sees_top (x y : Z) t : Prop := height_in x y (view t).
Lemma sees_top_of {A} x y (m : stM (world D SD T) A) :
  (∀ v, preserves (of_tx (sees HeightKey v)) m) → preserves (of_tx (sees_top x y)) m.
Proof. intros Hm w r w' (h & Hh & Hv) E. exists h. split; [done|]. by eapply Hm in E. Qed.

Lemma delete_txs_of_db R txs : ∀ i,
  preserves (of_db R) (delete_txs (D := D) (SD := SD) (T := T) g i txs).
Proof. induction txs as [|tx txs IH]; intros i; simpl; repeat first [apply IH | pres_step]. Qed.

Ltac rd_step :=
  first
  [ lazymatch goal with
    | |- preserves (of_tx (agrees _)) (delete_txs _ _ _) => apply delete_txs_dels, agrees_del
    | |- preserves (of_tx (sees_fading _)) (delete_txs _ _ _) => apply delete_txs_dels, fading_del
    | |- preserves (of_tx (sees_hashes _ _)) (delete_txs _ _ _) =>
        apply sees_hashes_of; intros ???; by apply (delete_txs_frame _ (sees _ _)); auto with keys
    | |- preserves (of_tx (sees_top _ _)) (delete_txs _ _ _) =>
        apply sees_top_of; intros ?; by apply (delete_txs_frame _ (sees _ _)); auto with keys
    | |- preserves (of_db _) (delete_txs _ _ ?txs) => apply delete_txs_of_db
    | |- preserves (of_tx (sees_fading _)) (on_tx (del _)) => apply on_tx_of_tx, fading_del
    | |- preserves (of_tx (sees_fading _)) (on_tx (ignore_err (set _ _) _)) =>
        apply on_tx_of_tx, preserves_ignore, fading_set; auto with keys
    | |- preserves (of_tx (sees_hashes _ _)) (on_tx (del _)) =>
        apply sees_hashes_of; intros ???; apply on_tx_of_tx, del_frame_ne; eauto with keys
    | |- preserves (of_tx (sees_hashes _ _)) (on_tx (ignore_err (set _ _) _)) =>
        apply sees_hashes_of; intros ???; apply on_tx_of_tx, preserves_ignore, frame_set; key_ne
    | |- preserves (of_tx (sees_top _ _)) (on_tx (del _)) =>
        apply sees_top_of; intros ?; apply on_tx_of_tx, frame_del; key_ne
    | |- preserves (of_tx (sees_top _ _)) (on_tx (ignore_err (set _ _) _)) =>
        apply sees_top_of; intros ?; apply on_tx_of_tx, preserves_ignore, frame_set; key_ne
    end
  | ix_step ].
Ltac carry_rd H :=
  repeat lazymatch type of H with
  | ?m ?w = (_, _) =>
      match goal with
      | K : of_tx ?Q w |- _ =>
          let K' := fresh "K" in
          assert (preserves (of_tx Q) m) as K' by (repeat rd_step); specialize (K' _ _ _ K H); clear K; rename K' into K
      | K : of_db ?R w |- _ =>
          let K' := fresh "K" in
          assert (preserves (of_db R) m) as K' by (repeat rd_step); specialize (K' _ _ _ K H); clear K; rename K' into K
      end
  end.

Lemma hashes_at_delete lo l x m :
  1 ≤ lo → is_u64 (top lo (l ++ [x])) → hashes_at lo (l ++ [x]) m →
  hashes_at lo l (delete (height_key (top lo (l ++ [x]))) m).
Proof.
  intros Hlo Hu Hm h Hh. rewrite top_snoc in *. unfold top in *.
  destruct (decide (h = lo - 1 + Z.of_nat (length l) + 1)) as [->|Hn].
  - rewrite lookup_delete_eq, decide_True by lia. symmetry. apply lookup_ge_None. lia.
  - rewrite lookup_delete_ne by (by intros ?%height_key_inj). rewrite Hm by done.
    case_decide; [|done]. destruct (decide (h < lo + Z.of_nat (length l))).
    + by rewrite lookup_app_l by lia.
    + rewrite !lookup_ge_None_2; rewrite ?length_app; simpl; try done; lia.
Qed.

(** A round that fails leaves the database as it was. *)
Lemma DeleteBlock_at_fail (d0 : D) dH :
  fail_keeps (of_db (λ d, dbview d = dbview d0)) (DeleteBlock_at (D := D) (SD := SD) (T := T) g dH).
Proof.
  unfold DeleteBlock_at.
  repeat (apply fail_keeps_bind; [repeat rd_step|intros ?]).
  intros w r w' HP. unfold Commit. destruct (db_commit _ _) as [r1 d'] eqn:E. intros [= <- <-].
  destruct (decide (r1 = Ok tt)) as [->|Hr]; [left; by eexists|right].
  destruct (commit_fail _ _ _ _ E Hr) as [_ Hv]. unfold of_db in *. cbn. by rewrite Hv.
Qed.

Lemma del_Ok_view k w w' :
  on_tx (D := D) (S := SD) (del k) w = (Ok tt, w') → view (w_tx w') = delete k (view (w_tx w)).
Proof.
  intros (Hs & _)%on_tx_inv. destruct (Delete_inv _ _ _ _ Hs) as [(_ & Hv & _)|(Hn & _)]; [exact Hv|done].
Qed.

(** What a round of the loop leaves in the database. *)
Lemma DeleteBlock_at_index lo l x y (c c' : chain D SD) :
  1 ≤ lo → is_u64 (top lo (l ++ [x])) → hashes_at lo (l ++ [x]) (dbview (db c)) →
  height_in (top lo (l ++ [x])) y (dbview (db c)) → deletable (top lo (l ++ [x])) (db c) →
  with_txn (DeleteBlock_at (T := T) g (top lo (l ++ [x]))) c = (Ok tt, c') →
  hashes_at lo l (dbview (db c')) ∧ height_in (top lo l) y (dbview (db c')) ∧
  fades (dbview (db c)) (dbview (db c')).
Proof.
  intros Hlo Hu Hh Hy Hdel (w & H' & ->)%with_txn_run.
  set (w0 := World _ _ _ _) in H'.
  assert (of_tx (agrees (db c)) w0) as Ka by (intros k Hk Hn; cbn; by rewrite begin_view).
  assert (of_tx (sees_fading (db c)) w0) as Kf by (intros k Hk; cbn; rewrite begin_view; by right).
  assert (of_tx (sees_hashes lo (l ++ [x])) w0) as Kh by (unfold of_tx, sees_hashes; cbn; by rewrite begin_view).
  assert (of_tx (sees_top (top lo (l ++ [x])) y) w0) as Ky by (unfold of_tx, sees_top; cbn; by rewrite begin_view).
  assert (of_db (λ d, d = db c) w0) as Kd by done.
  clearbody w0.
  step H' as b w1 H1'. injection H1' as Hb <-. unfold of_db in Kd. rewrite Kd in Hb.
  destruct (Hdel _ _ (Z.le_refl _) Hb) as (Hbh & Hbl & Hpl). change (of_db (λ d, d = db c) w0) in Kd.
  step H' as u1 w1 H1'. carry_rd H1'.
  step H' as sn w2 H2'. carry_rd H2'.
  step H' as u3 w3 H3'. carry_rd H3'.
  step H' as u4 w4 H4'. destruct u4. pose proof (del_Ok_view _ _ _ H4') as Hv4. rewrite Hbh in Hv4.
  assert (of_tx (sees_hashes lo l) w4) as Kh4.
  { unfold of_tx, sees_hashes. rewrite Hv4. by apply hashes_at_delete. }
  clear Kh Hv4. carry_rd H4'.
  step H' as u5 w5 H5'. carry_rd H5'.
  step H' as prevb w6 H6'. carry_rd H6'.
  step H' as prevm w7 H7'. carry_rd H7'.
  step H' as u8 w8 H8'. carry_rd H8'.
  step H' as u9 w9 H9'. carry_rd H9'.
  step H' as u10 w10 H10'.
  assert (of_tx (sees_top (top lo l) y) w10) as Ky10.
  { rewrite top_snoc in *. rewrite sub64_small in H10' by (unfold top, is_u64 in *; lia).
    destruct Ky as (h & Hhr & Hhv). destruct (set_unchecked_cases _ _ _ _ _ H10') as (_ & _ & Hc).
    unfold of_tx, sees_top. destruct Hc as [[Hc _]|[Hc|[Hc _]]].
    - exists (top lo l). split; [lia|]. rewrite Hc. do 2 f_equal. lia.
    - exists h. split; [lia|]. by rewrite Hc.
    - exists h. split; [lia|]. by rewrite Hc. }
  clear Ky. carry_rd H10'.
  unfold Commit in H'. destruct (db_commit (w_tx w10) (w_db w10)) as [r d'] eqn:E. injection H' as -> <-.
  cbn [w_db]. assert (∀ k, own_key k → dbview d' !! k = view (w_tx w10) !! k) as Hown.
  { intros k Hk. rewrite (commit_merge _ _ _ E).
    destruct (decide (k ∈ writes (w_tx w10))); [done|]. unfold of_db in Kd. rewrite Kd. symmetry. by apply Ka. }
  split_and!.
  - intros h Hhr. rewrite Hown by auto with keys. by apply Kh4.
  - destruct Ky10 as (h & ? & Hv). exists h. split; [done|]. rewrite Hown by auto with keys. exact Hv.
  - intros k Hk. rewrite (commit_merge _ _ _ E). unfold of_db in Kd. rewrite Kd.
    destruct (decide (k ∈ writes (w_tx w10))); [by apply Kf|by right].
Qed.

Lemma top_range lo l h x : 1 ≤ lo → top lo (l ++ [x]) ≤ MAXUINT64 → h ≤ top lo l → 1 ≤ h → is_u64 h.
Proof. rewrite top_snoc. unfold is_u64. lia. Qed.

Lemma blocks_fade P lo l x (d d' : D) :
  1 ≤ lo → top lo (l ++ [x]) ≤ MAXUINT64 → Forall (λ h, length h = 32%nat) (l ++ [x]) →
  hashes_at lo (l ++ [x]) (dbview d) → hashes_at lo l (dbview d') → fades (dbview d) (dbview d') →
  blocks_are P (top lo (l ++ [x])) d → blocks_are P (top lo l) d'.
Proof.
  intros Hlo Htop Hlen Hd Hd' Hf Hdel h b Hh Hb. apply Hdel; [rewrite top_snoc; lia|].
  unfold getBlockByHeight in *. case_decide as Hh1; [done|].
  assert (is_u64 h) as Hu by (eapply top_range; [..|exact Hh|]; eauto; lia).
  rewrite kv_Get_db, Hd' in Hb by done. rewrite kv_Get_db, Hd by done.
  case_decide as Hhl; [|done]. destruct (l !! Z.to_nat (h - lo)) as [k|] eqn:El; [|done].
  assert ((l ++ [x]) !! Z.to_nat (h - lo) = Some k) as -> by (by apply lookup_app_l_Some).
  cbn [mbind res_bind] in *.
  assert (length k = 32%nat) as Hk.
  { rewrite Forall_forall in Hlen. apply Hlen, list_elem_of_lookup. exists (Z.to_nat (h - lo)).
    by apply lookup_app_l_Some. }
  assert (k ≠ []) as Hne by (by intros ->). rewrite kv_Get_db in Hb by done. rewrite kv_Get_db by done.
  destruct (Hf k Hk) as [Ek|Ek]; rewrite Ek in Hb; done.
Qed.

(** *** The room of a transaction *)

(** An operation takes the room of at most [n] writes. *)
Definition costs {A} (n : nat) (m : stM (world D SD T) A) : Prop :=
  ∀ j w r w', (j + n ≤ room (w_tx w))%nat → m w = (r, w') → (j ≤ room (w_tx w'))%nat.

Lemma costs_bind {A B} n k (m : stM (world D SD T) A) (f : A → stM (world D SD T) B) :
  costs n m → (∀ a, costs k (f a)) → costs (n + k) (m ≫= f).
Proof.
  intros Hm Hf j w r w' Hj E. unfold mbind, stM_bind in E. destruct (m w) as [[a|e|] w1] eqn:E1.
  - eapply Hf; [|exact E]. eapply Hm; [|exact E1]. lia.
  - injection E as _ <-. apply (Hm (j + k)%nat) in E1; lia.
  - injection E as _ <-. apply (Hm (j + k)%nat) in E1; lia.
Qed.
Lemma costs_le {A} n k (m : stM (world D SD T) A) : (n ≤ k)%nat → costs n m → costs k m.
Proof. intros Hle Hm j w r w' Hj. apply Hm. lia. Qed.
Lemma costs_logged {A} n l (m : stM (world D SD T) A) : costs n m → costs n (logged g l m).
Proof.
  intros Hm j w r w' Hj E. unfold logged, st_catch in E. destruct (m w) as [[a|e|] w1] eqn:E1.
  - injection E as _ <-. by eapply Hm.
  - unfold mbind, stM_bind, st_lift, st_err in E. destruct (log_texts g l); injection E as _ <-; by eapply Hm.
  - injection E as _ <-. by eapply Hm.
Qed.
Lemma costs_of_tx {A} (m : stM (world D SD T) A) : (∀ Q, preserves (of_tx Q) m) → costs 0 m.
Proof. intros Hm j w r w' Hj E. eapply (Hm (λ t, (j ≤ room t)%nat)); [|exact E]. unfold of_tx. lia. Qed.

(** The same of an operation of the transaction. *)
Definition tx_costs {A} (n : nat) (m : stM T A) : Prop :=
  ∀ j t r t', (j + n ≤ room t)%nat → m t = (r, t') → (j ≤ room t')%nat.
Lemma tx_costs_del k : tx_costs 1 (del k).
Proof. intros j t r t' Hj E. apply Delete_room in E. lia. Qed.
Lemma tx_costs_ignore_set k v : tx_costs 1 (ignore_err (set k v) tt).
Proof.
  intros j t r t' Hj E. unfold ignore_err, st_catch in E. destruct (set k v t) as [r1 t1] eqn:E1.
  apply Set_room in E1. destruct r1; injection E as _ <-; lia.
Qed.
Lemma tx_costs_bind {A B} n k (m : stM T A) (f : A → stM T B) :
  tx_costs n m → (∀ a, tx_costs k (f a)) → tx_costs (n + k) (m ≫= f).
Proof.
  intros Hm Hf j t r t' Hj E. unfold mbind, stM_bind in E. destruct (m t) as [[a|e|] t1] eqn:E1.
  - eapply Hf; [|exact E]. eapply Hm; [|exact E1]. lia.
  - injection E as _ <-. apply (Hm (j + k)%nat) in E1; lia.
  - injection E as _ <-. apply (Hm (j + k)%nat) in E1; lia.
Qed.
Lemma tx_costs_le {A} n k (m : stM T A) : (n ≤ k)%nat → tx_costs n m → tx_costs k m.
Proof. intros Hle Hm j w r w' Hj. apply Hm. lia. Qed.
Lemma costs_on_tx {A} n (m : stM T A) : tx_costs n m → costs n (on_tx (D := D) (S := SD) m).
Proof. intros Hm j w r w' Hj (E & _)%on_tx_inv. by eapply Hm. Qed.

Lemma deleteTxbyaddrKV_costs a tx i : tx_costs 2 (deleteTxbyaddrKV a tx i).
Proof. apply (tx_costs_bind 1 1); [apply tx_costs_del|intros _; apply tx_costs_del]. Qed.

Lemma delete_tx_costs i tx : plain tx → tx_costs 4 (delete_tx (T := T) i tx).
Proof.
  intros Hp. unfold delete_tx.
  destruct (IsCoinBaseTransaction (ft_tx tx)), (IsPledgeTrasnaction (ft_tx tx) || IsPledgeBreakTransaction (ft_tx tx)),
    (IsEvmContractTransaction (ft_tx tx)); try (apply (tx_costs_le 2); [lia|]; apply deleteTxbyaddrKV_costs).
  unfold plain in Hp. destruct (split_quote _) as [s0 sl]. cbn in Hp.
  rewrite decide_False by done. apply (tx_costs_bind 0 4); [by intros j t r t' Hj [= _ <-]; lia|]. intros _.
  apply (tx_costs_bind 2 2); [|intros _]; apply deleteTxbyaddrKV_costs.
Qed.

Lemma delete_txs_costs txs : Forall plain txs → ∀ i,
  costs (4 * length txs) (delete_txs (D := D) (SD := SD) (T := T) g i txs).
Proof.
  induction 1 as [|tx txs Hp _ IH]; intros i.
  - cbn [delete_txs length]. intros j w r w' Hj [= _ <-]. lia.
  - cbn [delete_txs length]. replace (4 * S (length txs))%nat with (4 + 4 * length txs)%nat by lia.
    apply costs_bind; [|intros _; apply IH]. by apply costs_logged, costs_on_tx, delete_tx_costs.
Qed.

(** A round on a small block records the height below. *)
Lemma DeleteBlock_at_height dH b (c c' : chain D SD) :
  getBlockByHeight dH (Dbase (db c)) = Ok b → Forall plain (Transactions b) → (length (Transactions b) ≤ 20)%nat →
  with_txn (DeleteBlock_at (T := T) g dH) c = (Ok tt, c') →
  dbview (db c') !! HeightKey = Some (E64func (dH -₆₄ 1)).
Proof.
  intros Hb Hp Hlen (w & H' & ->)%with_txn_run. set (w0 := World _ _ _ _) in H'.
  assert (99 < room (w_tx w0))%nat as Hr by (cbn; pose proof (begin_room (db c)); lia).
  assert (of_db (λ d, d = db c) w0) as Kd by done. clearbody w0.
  step H' as b1 w1 H1'. injection H1' as Hb1 <-. unfold of_db in Kd. rewrite Kd, Hb in Hb1. injection Hb1 as <-.
  clear Kd Hb. step H' as u1 w1 H1'. apply (delete_txs_costs _ Hp 0 15%nat) in H1'; [|lia].
  step H' as sn w2 H2'. injection H2' as _ <-.
  step H' as u3 w3 H3'. apply (costs_on_tx 1 _ (tx_costs_del _) 14%nat) in H3'; [|lia].
  step H' as u4 w4 H4'. apply (costs_on_tx 1 _ (tx_costs_del _) 13%nat) in H4'; [|lia].
  step H' as u5 w5 H5'. apply (costs_on_tx 1 _ (tx_costs_del _) 12%nat) in H5'; [|lia].
  step H' as prevb w6 H6'. injection H6' as _ <-.
  step H' as prevm w7 H7'. injection H7' as _ <-.
  step H' as u8 w8 H8'. apply (costs_of_tx _ (λ Q, on_evm_of_tx Q _) 12%nat) in H8'; [|lia].
  step H' as u9 w9 H9'. apply (costs_on_tx 1 _ (tx_costs_ignore_set _ _) 11%nat) in H9'; [|lia].
  step H' as u10 w10 H10'. eapply Commit_kept; [exact H'|]. eapply set_unchecked_room; [| | |exact H10'].
  - apply key_ok_own; [done|apply own_HeightKey].
  - unfold val_ok. rewrite length_E64func. lia.
  - lia.
Qed.

(** *** The loop *)

(** What the loop from the last block of [l] on leaves when [k] blocks are left: the rounds
    above were done, and unless all [n] were, the next one failed, which changed nothing. *)
Definition rounds_done (n k : nat) lo l (c c' : chain D SD) (r : res unit) : Prop :=
  let round := λ dH, with_txn (DeleteBlock_at (T := T) g dH) in
  ∃ c1, delete_rounds round (length l - k) (top lo l) c = (Ok tt, c1) ∧ dbview (db c') = dbview (db c1) ∧
    (r = Ok tt → k = (length l - n)%nat) ∧
    (∀ e, r = Err e → (length l - n < k)%nat ∧ round (top lo (take k l)) c1 = (Err e, c')).

Lemma delete_rounds_index lo y n : ∀ l (c c' : chain D SD) r,
  (n ≤ length l)%nat → 1 ≤ lo → top lo l ≤ MAXUINT64 → Forall (λ h, length h = 32%nat) l →
  hashes_at lo l (dbview (db c)) → height_in (top lo l) y (dbview (db c)) → deletable (top lo l) (db c) →
  delete_rounds (λ dH, with_txn (DeleteBlock_at (T := T) g dH)) n (top lo l) c = (r, c') → r ≠ Panic →
  ∃ k, (length l - n ≤ k ≤ length l)%nat ∧ rounds_done n k lo l c c' r ∧
    hashes_at lo (take k l) (dbview (db c')) ∧ height_in (top lo (take k l)) y (dbview (db c')) ∧
    (small (top lo l) (db c) → dbview (db c) !! HeightKey = Some (E64func (top lo l)) →
     dbview (db c') !! HeightKey = Some (E64func (top lo (take k l)))).
Proof.
  induction n as [|n IH]; intros l c c' r Hn Hlo Htop Hlen Hh Hy Hdel H' Hr.
  - injection H' as <- <-. exists (length l). rewrite take_ge by lia. split_and!; try done; try lia.
    exists c. rewrite Nat.sub_diag. split_and!; try done; lia.
  - destruct (exists_last (l := l)) as (l0 & x & ->); [by intros ->; simpl in Hn; lia|].
    assert (1 ≤ top lo (l0 ++ [x])) by (unfold top; rewrite length_app; simpl; lia).
    cbn [delete_rounds] in H'. unfold mbind, stM_bind in H'.
    destruct (with_txn (DeleteBlock_at g (top lo (l0 ++ [x]))) c) as [r1 c1] eqn:E1.
    destruct r1 as [[]|e|]; [| |congruence].
    + destruct (DeleteBlock_at_index lo l0 x y c c1) as (Hh1 & Hy1 & Hf1); try done.
      { unfold is_u64. lia. }
      replace (top lo (l0 ++ [x]) - 1) with (top lo l0) in H' by (rewrite top_snoc; lia).
      assert (length (l0 ++ [x]) = S (length l0)) as Hl by (rewrite length_app; simpl; lia). rewrite Hl in *.
      assert (top lo l0 ≤ MAXUINT64) by (rewrite top_snoc in Htop; lia).
      assert (Forall (λ h, length h = 32%nat) l0) by (by apply Forall_app in Hlen as [? _]).
      destruct (IH l0 c1 c' r) as (k & Hk & (c2 & Hd1 & Hd2 & Hd3 & Hd4) & Hh2 & Hy2 & Hs2); try done; [lia|by eapply blocks_fade|].
      exists k. rewrite take_app_le by lia. split_and!; try done; try lia.
      * exists c2. rewrite Hl, take_app_le by lia. replace (S (length l0) - k)%nat with (S (length l0 - k)) by lia.
        cbn [delete_rounds]. rewrite (st_bind_eq _ _ _ _ _ E1).
        replace (top lo (l0 ++ [x]) - 1) with (top lo l0) by (rewrite top_snoc; lia).
        done.
      * intros Hsm Hhk. apply Hs2; [by eapply blocks_fade|].
        destruct (getBlockByHeight (top lo (l0 ++ [x])) (Dbase (db c))) as [b|e|] eqn:Eb.
        -- destruct (Hdel _ _ (Z.le_refl _) Eb) as (_ & _ & Hpl). pose proof (Hsm _ _ (Z.le_refl _) Eb) as Hsl.
           rewrite (DeleteBlock_at_height _ _ _ _ Eb Hpl Hsl E1), top_snoc in *.
           rewrite sub64_small by (unfold top, is_u64 in *; lia). do 2 f_equal. lia.
        -- exfalso. apply with_txn_run in E1 as (w & E1 & _). unfold DeleteBlock_at in E1.
           step E1 as b w1 Hb. injection Hb as Hb _. cbn in Hb. congruence.
        -- exfalso. apply with_txn_run in E1 as (w & E1 & _). unfold DeleteBlock_at in E1.
           step E1 as b w1 Hb. injection Hb as Hb _. cbn in Hb. congruence.
    + injection H' as <- <-. exists (length (l0 ++ [x])). rewrite take_ge by lia.
      pose proof E1 as Hround. apply with_txn_run in E1 as (w & E1 & Hw1).
      assert (dbview (w_db w) = dbview (db c)) as Hw.
      { eapply (DeleteBlock_at_fail (db c)) in E1 as [[? ?]|?]; done. }
      rewrite Hw1, Hw. split_and!; try done; try lia.
      exists c. rewrite Nat.sub_diag, take_ge by lia. rewrite Hw1, Hw. split_and!; try done.
      intros e' [= <-]. split; [lia|done].
Qed.

(** A call of [DeleteBlock h] cuts [l] to its first [n] hashes: the rounds for the blocks above
    are done, one after the other, and what they committed stays; the call is an error because
    the next round was one, or after the last round, when the state is reopened. *)
Definition cut_to (n : nat) lo h l (c c' : chain D SD) (r : res unit) : Prop :=
  let round := λ dH, with_txn (DeleteBlock_at (T := T) g dH) in
  ∃ c1, delete_rounds round (length l - n) (top lo l) c = (Ok tt, c1) ∧ dbview (db c') = dbview (db c1) ∧
    (Z.to_nat (h - lo) ≤ n)%nat ∧ (r = Ok tt → n = Z.to_nat (h - lo)) ∧
    (∀ e, r = Err e → n = Z.to_nat (h - lo) ∨ ∃ c2, round (top lo (take n l)) c1 = (Err e, c2)).

Lemma DeleteBlock_run (lo h : Z) (l : list bytes) (c c' : chain D SD) (r : res unit) :
  indexed lo l (dbview (db c)) → Forall (λ k, length k = 32%nat) l → deletable (top lo l) (db c) → lo ≤ h →
  DeleteBlock (T := T) g now cfg h c = (r, c') → r ≠ Panic →
  ∃ n, cut_to n lo h l c c' r ∧
    hashes_at lo (take n l) (dbview (db c')) ∧ height_in (top lo (take n l)) (top lo l) (dbview (db c')) ∧
    (small (top lo l) (db c) → dbview (db c') !! HeightKey = Some (E64func (top lo (take n l)))).
Proof.
  intros Hi Hlen Hdel Hh H' Hr. pose proof (indexed_max _ _ _ Hi) as Hmax. destruct Hi as [Hlo Htop Hhk Hha].
  assert (height_in (top lo l) (top lo l) (dbview (db c))) as Hy by (exists (top lo l); split; [lia|done]).
  unfold DeleteBlock in H'. unfold mbind, stM_bind in H'. rewrite Hmax in H'. case_decide as Hgt.
  - injection H' as <- <-. exists (Z.to_nat (h - lo)). rewrite take_ge by (unfold top in *; lia).
    split_and!; try done. exists c. replace (length l - Z.to_nat (h - lo))%nat with 0%nat by (unfold top in *; lia). done.
  - destruct (delete_rounds _ _ _ c) as [r1 c1] eqn:E1.
    assert (r1 ≠ Panic) as Hr1 by (intros ->; congruence).
    pose proof E1 as E2. apply (delete_rounds_index lo (top lo l)) in E1 as (k & Hk & (c2 & Hd1 & Hd2 & Hd3 & Hd4) & Hh1 & Hy1 & Hs1);
      try done; [|unfold top in *; lia].
    assert (length l - Z.to_nat (top lo l - h + 1) = Z.to_nat (h - lo))%nat as Hn by (unfold top in *; lia).
    rewrite Hn in *. exists k. assert (db c' = db c1) as Hdb.
    { destruct r1 as [[]|e|]; [|by injection H' as _ <-|done].
      destruct (getSnapRoot (Dbase (db c1))) as [root|e|]; [|by injection H' as _ <-..].
      unfold rollState in H'. by destruct (updateNewStateByRoot root (db c1)); injection H' as _ <-. }
    rewrite <- Hdb in Hh1, Hy1, Hs1. split_and!; try done; [|intros; by apply Hs1]. exists c2. split_and!; try done; try lia.
    + by rewrite Hdb.
    + intros ->. apply Hd3. by destruct r1 as [[]|e|].
    + intros e ->. destruct r1 as [[]|e1|]; [left; by apply Hd3| |done]. right. injection H' as -> _.
      exists c1. by apply Hd4.
Qed.

Lemma DeleteBlock_cuts (lo h : Z) (l : list bytes) (c c' : chain D SD) (r : res unit) :
  indexed lo l (dbview (db c)) → Forall (λ k, length k = 32%nat) l → deletable (top lo l) (db c) → lo ≤ h →
  DeleteBlock (T := T) g now cfg h c = (r, c') → r ≠ Panic →
  ∃ n, (Z.to_nat (h - lo) ≤ n)%nat ∧ (r = Ok tt → n = Z.to_nat (h - lo)) ∧
    hashes_at lo (take n l) (dbview (db c')) ∧ height_in (top lo (take n l)) (top lo l) (dbview (db c')).
Proof.
  intros Hi Hlen Hdel Hh H' Hr. destruct (DeleteBlock_run lo h l c c' r Hi Hlen Hdel Hh H' Hr)
    as (n & (c1 & _ & _ & Hn & Hok & _) & Hha & Hy & _). by exists n.
Qed.

(** C18: deleting blocks truncates the main chain: when the blocks above are at the height they
    claim and delete no token, [DeleteBlock h] leaves exactly the hashes below [h].  A failing
    call is not undone: the rounds before the one that fails are committed and stay, so that
    the chain is cut at the block whose round failed ([cut_to]).  The recorded height is that
    of the cut chain when a block has at most 20 transactions; its write is not checked, and
    when a transaction of the database has no room left for it the recorded height stays
    higher. *)
Theorem DeleteBlock_truncates (lo h : Z) (l : list bytes) (c c' : chain D SD) (r : res unit) :
  indexed lo l (dbview (db c)) → Forall (λ k, length k = 32%nat) l → deletable (top lo l) (db c) → lo ≤ h →
  DeleteBlock (T := T) g now cfg h c = (r, c') → r ≠ Panic →
  ∃ n, cut_to n lo h l c c' r ∧
    hashes_at lo (take n l) (dbview (db c')) ∧ height_in (top lo (take n l)) (top lo l) (dbview (db c')) ∧
    (small (top lo l) (db c) → indexed lo (take n l) (dbview (db c'))).
Proof.
  intros Hi Hlen Hdel Hh H' Hr. destruct (DeleteBlock_run lo h l c c' r Hi Hlen Hdel Hh H' Hr)
    as (n & Hcut & Hha & Hy & Hs). exists n. split_and!; [done..|]. intros Hsm. destruct Hi as [Hlo Htop _ _].
  split; [done| |by apply Hs|done]. unfold top in *. rewrite length_take. lia.
Qed.

(** *** Names in inputs *)

Lemma split_quote_app (l r : bytes) : Byte.x22 ∉ l →
  split_quote (l ++ r) = (l ++ (split_quote r).1, (split_quote r).2).
Proof.
  induction l as [|c l IH]; simpl; intros Ha; [by destruct (split_quote r)|].
  apply not_elem_of_cons in Ha as [Hc Ha]. rewrite IH by done. by rewrite decide_False by done.
Qed.

(** Deleting a block with a transaction whose input is [new "k"] deletes the key [k] of the
    database, whatever it is for. *)
Lemma delete_tx_any_key (k rest : bytes) (i : Z) (tx : FinishedTransaction) t t' :
  Input (ft_tx tx) = bs "new " ++ [Byte.x22] ++ k ++ [Byte.x22] ++ rest → Byte.x22 ∉ k →
  IsCoinBaseTransaction (ft_tx tx) = false → IsPledgeTrasnaction (ft_tx tx) = false →
  IsPledgeBreakTransaction (ft_tx tx) = false → IsEvmContractTransaction (ft_tx tx) = false →
  delete_tx i tx t = (Ok tt, t') → view t' !! k = None.
Proof.
  intros Hin Hk H1' H2' H3' H4'. unfold delete_tx. rewrite H1', H2', H3', H4', Hin. cbn [orb].
  rewrite split_quote_app by (by vm_compute; set_solver). cbn [app split_quote].
  destruct (split_quote (k ++ Byte.x22 :: rest)) as [h l] eqn:E. rewrite split_quote_app in E by done.
  injection E as <- <-. cbn [split_quote]. destruct (split_quote rest) as [h2 l2]. rewrite decide_True by done.
  cbn [fst snd]. rewrite app_nil_r. rewrite !decide_True by done. intros H'.
  assert (∀ k', preserves (sees k None) (del k')) as Hd.
  { intros k' t0 r t1 Hs Ed. unfold sees in *. destruct (Delete_inv _ _ _ _ Ed) as [(_ & -> & _)|(_ & _ & -> & _)]; [|done].
    destruct (decide (k = k')) as [->|]; [apply lookup_delete_eq|by rewrite lookup_delete_ne]. }
  apply stM_bind_Ok in H' as ([] & t2 & Hdel & H'). unfold delTokenKey in Hdel.
  apply stM_bind_Ok in Hdel as ([] & t3 & Hdel & Hdel2).
  assert (sees k None t3) as Hs3.
  { unfold sees. destruct (Delete_inv _ _ _ _ Hdel) as [(_ & -> & _)|(Hn & _)]; [apply lookup_delete_eq|done]. }
  apply (Hd _ _ _ _ Hs3) in Hdel2.
  assert (∀ a, preserves (sees k None) (deleteTxbyaddrKV a tx i)) as Hda.
  { intros a. unfold deleteTxbyaddrKV, mdel. apply preserves_bind; [apply Hd|intros _; apply Hd]. }
  apply stM_bind_Ok in H' as ([] & t4 & Hf & Ht). apply (Hda _ _ _ _ Hdel2) in Hf. exact (Hda _ _ _ _ Hf Ht).
Qed.

(** *** Histories *)

(** A history of operations, each started whatever the ones before returned. *)
Fixpoint history (os : list add_op) (c : chain D SD) : list (res unit) * chain D SD :=
  match os with
  | [] => ([], c)
  | o :: os =>
      let '(r, c) := run_op (T := T) g now cfg sha3 diffhash o c in
      let '(rs, c) := history os c in (r :: rs, c)
  end.

(** What the abstract chain, a list of hashes that only grows, records of a history. *)
Fixpoint record_of (os : list add_op) (rs : list (res unit)) : list bytes :=
  match os, rs with
  | o :: os, r :: rs => (if decide (r = Ok tt) then default [] (appended o) else []) ++ record_of os rs
  | _, _ => []
  end.

Definition adds (o : add_op) : Prop :=
  ∃ hs, appended o = Some hs ∧ Forall (λ h, length h = 32%nat) hs.

(** C11: the main chain is an append-only list of hashes as far as adding blocks goes: after
    any history of [AddBlock] and [AddBlocks] calls, successful and failing ones, that does
    not panic, the height index holds exactly the hashes of the blocks of the successful
    calls, in order, on top of those it had, at consecutive heights; the recorded height is
    that of the last one, and no other height has a hash. *)
Theorem index_refines (os : list add_op) (lo : Z) (l : list bytes) (c c' : chain D SD) (rs : list (res unit)) :
  indexed lo l (dbview (db c)) → Forall adds os → history os c = (rs, c') → Panic ∉ rs →
  indexed lo (l ++ record_of os rs) (dbview (db c')).
Proof.
  revert l c rs. induction os as [|o os IH]; intros l c rs Hi Hall H' Hp; cbn [history] in H'.
  { injection H' as <- <-. by rewrite app_nil_r. }
  inversion_clear Hall as [|?? (hs & Ho & Hlen) Hall'].
  destruct (run_op g now cfg sha3 diffhash o c) as [r c1] eqn:E1. destruct (history os c1) as [rs1 c2] eqn:E2.
  injection H' as <- <-. apply not_elem_of_cons in Hp as [Hp Hps].
  apply (run_op_index o lo l hs) in E1; [|done..|by intros ->].
  cbn [record_of]. rewrite Ho. cbn [default]. rewrite (assoc_L (++)). eapply IH; try done.
  case_decide; [done|]. by rewrite app_nil_r.
Qed.

End Facts.

(** ** Witnesses *)

Module IndexSample.
Import MapTxn MapState MapWorld CryptoInstance ChainSample.

(** A chain of one block, [parent], and the one with [b0] on top. *)
Definition kvs0 : gmap bytes bytes :=
  <[HeightKey := E64func InitHeight]> (<[height_key InitHeight := BHash parent]>
  (<[snap_key InitHeight := root_of 0]> (<[BHash parent := match Serialize parent with Ok x => x | _ => [] end]>
  {[ SnapRootKey := root_of 0 ]}))).
Definition p0 : chain mdb state := Chain (Mdb kvs0 []) Sample.s0 (NewEvm 0 cfg).
Definition next : Block :=
  MkBlock (InitHeight + 1) (BHash parent) (replicate 32 Byte.x02)
    [Sample.tx_of TransferTransaction 300; coinbase] (replicate 32 Byte.x03) (replicate 32 Byte.x04) 1
    1600000000 12 Sample.bob (Some 5) (Some 70000) 9 100 0.
Definition p1 : chain mdb state := (add next p0).2.

Lemma indexed0 : indexed InitHeight [BHash parent] kvs0.
Proof.
  split; [by vm_compute|by vm_compute|by vm_compute|]. intros h Hh. unfold kvs0.
  rewrite lookup_insert_ne by key_ne. destruct (decide (h = InitHeight)) as [->|Hn].
  - rewrite lookup_insert_eq. by vm_compute.
  - rewrite lookup_insert_ne by (intros He; apply Hn; symmetry; by apply height_key_inj).
    rewrite lookup_insert_ne by apply snap_height_ne. rewrite lookup_insert_ne by key_ne.
    rewrite lookup_singleton_ne by key_ne. case_decide; [|done].
    symmetry. apply lookup_ge_None. simpl. unfold InitHeight in *. lia.
Qed.

Definition next1 : Block := Eval vm_compute in match (add next p0).1 with Ok b => b | _ => next end.
Lemma added_next : add next p0 = (Ok next1, p1).
Proof. unfold p1. by_run. Qed.

Lemma indexed1 : indexed InitHeight [BHash parent; BHash next] (dbview (db p1)).
Proof. exact (AddBlock_index Sample.g 0 cfg InitHeight [BHash parent] next next1 p0 p1 eq_refl indexed0 added_next). Qed.

Lemma adds_next : adds (OpAddBlock next).
Proof. exists [BHash next]. split; [reflexivity|]. apply Forall_singleton. reflexivity. Qed.

Definition fits (c : chain mdb state) (h : Z) : bool :=
  match getBlockByHeight h (Dbase (db c)) with
  | Ok b => bool_decide (Height b = h) && bool_decide (length (BHash b) = 32%nat) &&
            forallb (λ tx, negb (bool_decide ((split_quote (Input (ft_tx tx))).1 = bs "new "))) (Transactions b)
  | _ => true
  end.
Lemma fits_deletable (c : chain mdb state) x y : indexed InitHeight [x; y] (dbview (db c)) →
  fits c InitHeight = true → fits c (InitHeight + 1) = true → deletable (top InitHeight [x; y]) (db c).
Proof.
  intros Hi Hf0 Hf1 h b Hh Hb.
  assert (fits c h = true) as Hf.
  { destruct (decide (h < 1)) as [H1|H1]; [unfold fits, getBlockByHeight; by rewrite decide_True|].
    destruct (decide (h < InitHeight)) as [H2|H2].
    - unfold fits, getBlockByHeight. rewrite decide_False by done. rewrite kv_Get_db by done.
      rewrite (idx_hashes _ _ _ Hi) by (unfold is_u64, top, InitHeight, MAXUINT64 in *; lia).
      by rewrite decide_False by lia.
    - assert (h = InitHeight ∨ h = InitHeight + 1) as [->| ->] by (unfold top in Hh; simpl in Hh; lia); done. }
  unfold fits in Hf. rewrite Hb in Hf. apply andb_prop in Hf as [[Hf1' Hf2]%andb_prop Hf3].
  apply bool_decide_eq_true in Hf1', Hf2. split_and!; [done..|]. apply Forall_forall. intros tx Htx.
  rewrite forallb_forall in Hf3. specialize (Hf3 tx). unfold plain. intros He.
  rewrite bool_decide_eq_true_2 in Hf3 by done. by discriminate Hf3; apply list_elem_of_In.
Qed.
Lemma deletable1 : deletable (top InitHeight [BHash parent; BHash next]) (db p1).
Proof. apply fits_deletable; [exact indexed1|by vm_compute..]. Qed.

(** Deleting the lowest block fails, after the block above it has been deleted. *)
Definition cut : res unit * chain mdb state := DeleteBlock (T := MapTxn.txn) Sample.g 0 cfg InitHeight p1.
Lemma cut_fails : cut.1 = Err NotExist.
Proof. vm_compute. reflexivity. Qed.
(** Its blocks are small. *)
Lemma small1 : small (top InitHeight [BHash parent; BHash next]) (db p1).
Proof.
  intros h b Hh Hb. assert (∀ b', getBlockByHeight h (Dbase (db p1)) = Ok b' → (length (Transactions b') ≤ 20)%nat) as Hs;
    [|by apply Hs]. clear b Hb. destruct (decide (h < 1)) as [H1|H1]; [unfold getBlockByHeight; by rewrite decide_True|].
  destruct (decide (h < InitHeight)) as [H2|H2].
  - unfold getBlockByHeight. rewrite decide_False by done. rewrite kv_Get_db by done.
    rewrite (idx_hashes _ _ _ indexed1) by (unfold is_u64, top, InitHeight, MAXUINT64 in *; lia).
    by rewrite decide_False by lia.
  - assert (h = InitHeight ∨ h = InitHeight + 1) as [->| ->] by (unfold top in Hh; simpl in Hh; lia);
      intros b; vm_compute; intros [= <-]; cbn; lia.
Qed.

End IndexSample.

Lemma index_refines_witness :
  let '(rs, c) := history (T := MapTxn.txn) Sample.g 0 ChainSample.cfg id id
    [OpAddBlock IndexSample.next; OpAddBlock IndexSample.next] IndexSample.p0 in
  getMaxBlockHeight (Dbase (db c)) = Ok (InitHeight + 1) ∧ rs = [Ok tt; Err (ErrMsg "height error")].
Proof.
  destruct (history _ _ _ _ _ _ _) as [rs c] eqn:E.
  assert (rs = [Ok tt; Err (ErrMsg "height error")]) as ->.
  { change rs with (rs, c).1. rewrite <- E. vm_compute. reflexivity. }
  split; [|reflexivity].
  rewrite (indexed_max (T := MapTxn.txn) InitHeight [BHash ChainSample.parent; BHash IndexSample.next]); [reflexivity|].
  refine (index_refines Sample.g 0 ChainSample.cfg id id [OpAddBlock IndexSample.next; OpAddBlock IndexSample.next]
    InitHeight [BHash ChainSample.parent] IndexSample.p0 c _ IndexSample.indexed0 _ E _).
  - apply Forall_cons_2; [exact IndexSample.adds_next|]. apply Forall_singleton. exact IndexSample.adds_next.
  - refine (bool_decide_eq_true_1 (Panic ∉ _) _). vm_compute. reflexivity.
Defined.

(** A call that fails on the lowest block leaves the chain without the block above it. *)
Lemma DeleteBlock_truncates_witness :
  IndexSample.cut.1 = Err NotExist ∧
  cut_to (T := MapTxn.txn) Sample.g 1 InitHeight InitHeight
    [BHash ChainSample.parent; BHash IndexSample.next] IndexSample.p1 IndexSample.cut.2 (Err NotExist) ∧
  indexed InitHeight [BHash ChainSample.parent] (dbview (db IndexSample.cut.2)).
Proof.
  split; [exact IndexSample.cut_fails|].
  destruct (DeleteBlock_truncates Sample.g 0 ChainSample.cfg InitHeight InitHeight
    [BHash ChainSample.parent; BHash IndexSample.next] IndexSample.p1 IndexSample.cut.2 (Err NotExist))
    as (n & Hcut & _ & _ & Hi).
  - exact IndexSample.indexed1.
  - repeat constructor.
  - exact IndexSample.deletable1.
  - reflexivity.
  - exact (run_is IndexSample.cut (Err NotExist) IndexSample.cut_fails).
  - discriminate.
  - specialize (Hi IndexSample.small1). pose proof (indexed_max _ _ _ Hi) as Hmax.
    assert (getMaxBlockHeight (Dbase (db IndexSample.cut.2)) = Ok InitHeight) as Htop by (vm_compute; reflexivity).
    assert (n = 1%nat) as ->; [|by split].
    rewrite Htop in Hmax. injection Hmax as Hmax.
    destruct n as [|[|n]]; [exfalso; clear - Hmax|reflexivity|exfalso; clear - Hmax]; unfold top, InitHeight in Hmax; cbn in Hmax;
      [lia|]. destruct n; cbn in Hmax; lia.
Defined.
