(* ===== verification/Reorg.v ===== *)
(** Reorganizing to a branch: what [ReorganizeChain] does to the index by height. *)

From S2P Require Import Prelude Misc Badger BgStore Base58 Cbor Address Transaction Block.
From S2P Require Import Ledger Difficulty Economics World Apply Chain Frames ChainFacts IndexFacts.

Section Facts.
Context {D SD T : Type} `{!Badger T, !BadgerDB D T, !StateDB SD, !StateStore D SD, !EvmRuntime SD}.
Context `{!CborHeader, !Crypto, !EthCommon, !EvmData}.
Context `{!BadgerLaws T, !BadgerDBLaws D T, !StateStoreLaws D SD T, !CryptoLaws}.
Variables (g : globals) (now : Z) (cfg : ChainConfig) (sha3 diffhash : bytes → bytes).
Implicit Types (w : world D SD T) (b : Block) (t : T) (d : D).

(** ** The room that blocks take *)

Lemma costs_seq {A B} n k N (m : stM (world D SD T) A) (f : A → stM (world D SD T) B) :
  (n + k ≤ N)%nat → costs n m → (∀ a, costs k (f a)) → costs N (m ≫= f).
Proof. intros Hle Hm Hf. apply (costs_le (n + k)); [done|]. by apply costs_bind. Qed.

Lemma tx_costs_set k v : tx_costs 1 (set (T := T) k v).
Proof. intros j t r t' Hj E. apply Set_room in E. lia. Qed.
Lemma tx_costs_ignore {A} n (m : stM T A) a : tx_costs n m → tx_costs n (ignore_err m a).
Proof.
  intros Hm j t r t' Hj E. unfold ignore_err, st_catch in E. destruct (m t) as [r1 t1] eqn:E1.
  apply (Hm j) in E1; [|done]. destruct r1; by injection E as _ <-.
Qed.
Lemma setTxbyaddrKV_costs a tx h i : tx_costs 2 (setTxbyaddrKV (T := T) a tx h i).
Proof.
  apply (tx_costs_bind 1 1); [apply tx_costs_ignore, tx_costs_set|intros _; apply tx_costs_ignore, tx_costs_set].
Qed.

(** Steps that write nothing into the transaction. *)
Ltac no_cost := apply costs_of_tx; intros Q;
  repeat first [progress unfold set_account, evm_Create, evm_Call, handleContractTransaction | pres_step].
Ltac tx_cost := apply costs_on_tx; first [apply setTxbyaddrKV_costs | apply tx_costs_set | apply tx_costs_del
  | apply tx_costs_ignore; first [apply tx_costs_set | apply tx_costs_del]].

Lemma apply_tx_costs b h i tx : costs 4 (apply_tx (D := D) (S := SD) (T := T) g b h i tx).
Proof.
  unfold apply_tx. destruct (IsCoinBaseTransaction _).
  { apply (costs_seq 2 0); [lia|tx_cost|intros _; no_cost]. }
  destruct (_ || _); [|destruct (IsEvmContractTransaction _)].
  - apply (costs_seq 2 2); [lia|tx_cost|intros _]. apply (costs_seq 2 0); [lia|tx_cost|intros _; no_cost].
  - apply (costs_seq 2 0); [lia|tx_cost|intros _; no_cost].
  - apply (costs_seq 2 2); [lia|tx_cost|intros _]. apply (costs_seq 2 0); [lia|tx_cost|intros _; no_cost].
Qed.

Lemma apply_txs_costs log b h txs : ∀ i gas,
  costs (4 * length txs) (apply_txs (D := D) (S := SD) (T := T) g log b h i gas txs).
Proof.
  induction txs as [|tx txs IH]; intros i gas; cbn [apply_txs length]; [no_cost|].
  apply (costs_seq 0 (4 * S (length txs))); [lia|no_cost|intros _].
  apply (costs_seq 4 (4 * length txs)); [lia|apply apply_tx_costs|intros tx'].
  apply (costs_seq (4 * length txs) 0); [lia|apply IH|intros [txs' gas']; no_cost].
Qed.

(** ** The world of a reorganization *)

(** The database has what it had under the component's own keys and under the hashes [hs]. *)
Definition steady (hs : list bytes) d0 d : Prop := ∀ k, own_key k ∨ k ∈ hs → dbview d !! k = dbview d0 !! k.

(** Committing the account state writes nothing under the hashes [hs]. *)
Definition untouched (hs : list bytes) : Prop := ∀ k, k ∈ hs →
  (∀ del (ds : D * SD) r ds', sdb_Commit del ds = (r, ds') → dbview ds'.1 !! k = dbview ds.1 !! k) ∧
  (∀ root (ds : D * SD) r ds', trie_Commit root ds = (r, ds') → dbview ds'.1 !! k = dbview ds.1 !! k).

Lemma factCommit_steady hs d0 del : untouched hs →
  preserves (of_db (steady hs d0)) (on_store (D := D) (S := SD) (T := T) (factCommit del)).
Proof.
  intros Hu. apply (preserves_zoom _ (λ ds, steady hs d0 ds.1)); [|done..]. unfold factCommit.
  apply preserves_bind.
  - intros ds r ds' HP Hc. destruct (Commit_frame _ _ _ _ Hc) as (_ & Hf & _). intros k Hk.
    etrans; [|by apply HP]. destruct Hk as [Hk|Hk]; [by apply Hf|]. destruct (Hu k Hk) as [Hs _]. by eapply Hs.
  - intros root. apply preserves_bind; [|intros; apply preserves_ret].
    intros ds r ds' HP Hc. destruct (trie_Commit_frame _ _ _ _ Hc) as (_ & Hf & _). intros k Hk.
    etrans; [|by apply HP]. destruct Hk as [Hk|Hk]; [by apply Hf|]. destruct (Hu k Hk) as [_ Ht]. by eapply Ht.
Qed.

(** What is known while the transaction is open: it sees the chain [l] and has room for [j]
    more writes; what it has not written is as in [d0], and so are the blocks [hs]. *)
Record at_work (hs : list bytes) d0 lo l (j : nat) w : Prop := AtWork {
  aw_agrees : of_tx (agrees d0) w;
  aw_steady : of_db (steady hs d0) w;
  aw_index : of_tx (sees_index lo l) w;
  aw_room : (j ≤ room (w_tx w))%nat;
}.

(** A step that touches neither the index nor the blocks keeps what is known. *)
Definition mild (hs : list bytes) d0 lo l {A} (m : stM (world D SD T) A) : Prop :=
  preserves (of_tx (agrees d0)) m ∧ preserves (of_db (steady hs d0)) m ∧ preserves (of_tx (sees_index lo l)) m.

Lemma at_work_step {A} hs d0 lo l j n (m : stM (world D SD T) A) w r w' :
  mild hs d0 lo l m → costs n m → at_work hs d0 lo l (j + n) w → m w = (r, w') → at_work hs d0 lo l j w'.
Proof.
  intros (Ha & Hd & Hi) Hc [K1 K2 K3 K4] E. split; [by eapply Ha|by eapply Hd|by eapply Hi|by eapply Hc].
Qed.

Lemma mild_reads {A} hs d0 lo l (m : stM (world D SD T) A) :
  (∀ Q, preserves (of_tx Q) m) → (∀ R, preserves (of_db R) m) → mild hs d0 lo l m.
Proof. intros Ht Hd. by split_and!. Qed.
Lemma mild_set hs d0 lo l k v : off_index k → mild hs d0 lo l (on_tx (set k v)).
Proof.
  intros Ho. split_and!; [apply on_tx_of_tx, agrees_set|apply on_tx_of_db|].
  apply sees_index_of. intros k' v' _ Hk'. by apply on_tx_of_tx, set_frame_ne.
Qed.
Lemma mild_del hs d0 lo l k : off_index k → mild hs d0 lo l (on_tx (del k)).
Proof.
  intros Ho. split_and!; [apply on_tx_of_tx, agrees_del|apply on_tx_of_db|].
  apply sees_index_of. intros k' v' _ Hk'. by apply on_tx_of_tx, del_frame_ne.
Qed.
Lemma mild_ignore {A} hs d0 lo l (m : stM T A) a :
  mild hs d0 lo l (on_tx m) → mild hs d0 lo l (on_tx (ignore_err m a)).
Proof.
  assert (∀ (P : world D SD T → Prop), preserves P (on_tx m) → preserves P (on_tx (ignore_err m a))) as Hp.
  { intros P Hm w r w' HP E. apply on_tx_inv in E as (E & Ed & Es & Ee). unfold ignore_err, st_catch in E.
    destruct (m (w_tx w)) as [r1 t1] eqn:E1.
    assert (on_tx m w = (r1, World (w_db w) (w_sdb w) t1 (w_evm w))) as Em by (unfold on_tx, zoom; by rewrite E1).
    assert (w' = World (w_db w) (w_sdb w) t1 (w_evm w)) as ->; [|by eapply Hm].
    destruct w'. cbn in *. destruct r1; injection E as _ <-; by subst. }
  intros (Ha & Hd & Hi). split_and!; by apply Hp.
Qed.
Lemma mild_delete_txs hs d0 lo l txs i : Forall plain txs →
  mild hs d0 lo l (delete_txs (D := D) (SD := SD) (T := T) g i txs).
Proof.
  intros Hp. split_and!; [apply delete_txs_dels, agrees_del|apply delete_txs_of_db|].
  apply sees_index_of. intros k v Hk _. by apply (delete_txs_frame g k (sees k v)).
Qed.
Lemma mild_apply_txs hs d0 lo l log b h i gas txs :
  mild hs d0 lo l (apply_txs (D := D) (S := SD) (T := T) g log b h i gas txs).
Proof.
  split_and!; [|apply apply_txs_of_db|].
  - by apply (apply_txs_frame g HeightKey (agrees d0)), own_HeightKey.
  - apply sees_index_of. intros k v Hk _. by apply (apply_txs_frame g k (sees k v)).
Qed.
Lemma mild_factCommit hs d0 lo l del : untouched hs → mild hs d0 lo l (on_store (T := T) (factCommit del)).
Proof. intros Hu. split_and!; [apply on_store_of_tx|by apply factCommit_steady|apply on_store_of_tx]. Qed.

(** *** The recorded root *)

(** A commit of the account state, where it succeeds, yields this root. *)
Definition yields (root : bytes) (ds : D * SD) : Prop :=
  ∀ root' ds', factCommit true ds = (Ok root', ds') → root' = root.

(** The recorded root is the one that a commit of the account state yields. *)
Definition synced w : Prop := ∃ root, view (w_tx w) !! SnapRootKey = Some root ∧ yields root (w_db w, w_sdb w).

(** Committing a state that has just been committed yields the same root: roots are hashes
    of the state's contents. *)
Definition stable_roots : Prop := ∀ root ds ds', factCommit (D := D) (S := SD) true ds = (Ok root, ds') → yields root ds'.

(** The state reopened at the root recorded at the height [h] yields that root. *)
Definition reopens (h : Z) d : Prop := ∀ root, dbview d !! snap_key h = Some root →
  length root = 32%nat ∧ ∀ s, state_New root d = Ok s → yields root (d, s).

Lemma snap_key_ne h h' : is_u64 h → is_u64 h' → h ≠ h' → snap_key h ≠ snap_key h'.
Proof. intros Hh Hh' Hn Heq. apply Hn. apply (app_inv_head SnapRootPrefix) in Heq. by apply E64func_inj. Qed.

(** ** Deleting in the transaction *)

Lemma on_evm_mild {A} hs d0 lo l (m : stM EvmCfg A) : mild hs d0 lo l (on_evm m).
Proof. apply mild_reads; intros; [apply on_evm_of_tx|apply on_evm_of_db]. Qed.
Lemma on_evm_free {A} (m : stM EvmCfg A) : costs 0 (on_evm (D := D) (S := SD) (T := T) m).
Proof. apply costs_of_tx. intros. apply on_evm_of_tx. Qed.

Lemma DeleteTempBlock_at_works hs d0 lo l x b j w w' :
  1 ≤ lo → is_u64 (top lo (l ++ [x])) → getBlockByHeight (top lo (l ++ [x])) (Dbase (w_db w)) = Ok b →
  Height b = top lo (l ++ [x]) → Forall plain (Transactions b) →
  at_work hs d0 lo (l ++ [x]) (j + (4 * length (Transactions b) + 4)) w →
  DeleteTempBlock_at g (top lo (l ++ [x])) w = (Ok tt, w') → at_work hs d0 lo l j w' ∧ w_db w' = w_db w.
Proof.
  intros Hlo Hu Hb Hbh Hp K H'.
  assert (w_db w' = w_db w) as Hdb.
  { assert (preserves (of_db (λ d, d = w_db w)) (DeleteTempBlock_at (SD := SD) (T := T) g (top lo (l ++ [x])))) as Hd.
    { unfold DeleteTempBlock_at. repeat first [apply delete_txs_of_db | apply preserves_bind; [|intros ?]
        | apply from_db_pres | apply from_tx_pres | apply on_tx_of_db | apply on_evm_of_db | apply preserves_lift]. }
    by eapply Hd in H'. }
  split; [|exact Hdb]. clear Hdb. unfold DeleteTempBlock_at in H'.
  step H' as b1 w1 H1'. injection H1' as Hb1 <-. rewrite Hb in Hb1. injection Hb1 as <-.
  step H' as u1 w1 H1'.
  replace (j + (4 * length (Transactions b) + 4))%nat with ((j + 4) + 4 * length (Transactions b))%nat in K by lia.
  eapply at_work_step in H1' as K1; [|by apply mild_delete_txs|by apply delete_txs_costs|exact K]. clear K H1'.
  step H' as sn w2 H2'. injection H2' as _ <-.
  step H' as u3 w3 H3'. replace (j + 4)%nat with ((j + 3) + 1)%nat in K1 by lia.
  eapply at_work_step in H3' as [Ka Kd Ki Kr]; [|by apply mild_del, off_index_snap|apply costs_on_tx, tx_costs_del|exact K1].
  clear K1. step H' as u4 w4 H4'. destruct u4. pose proof (del_Ok_view _ _ _ H4') as Hv4. rewrite Hbh in Hv4.
  assert (of_tx (sees_hashes lo l) w4) as Kh.
  { unfold of_tx, sees_hashes. rewrite Hv4. destruct Ki as [_ _ _ Ki]. by apply hashes_at_delete. }
  assert (top lo l ≤ MAXUINT64) as Htop by (rewrite top_snoc in Hu; unfold is_u64 in Hu; lia).
  clear Ki Hv4. apply (costs_on_tx 1 _ (tx_costs_del _) (j + 2)%nat) in H4' as Kr4; [|lia]. clear Kr.
  apply (on_tx_of_tx (agrees d0)) in H4' as Ka4; [|apply agrees_del|exact Ka].
  apply (on_tx_of_db (steady hs d0)) in H4' as Kd4; [|exact Kd]. clear Ka Kd.
  step H' as u5 w5 H5'. destruct u5.
  apply (costs_on_tx 1 _ (tx_costs_ignore_set _ _) (j + 1)%nat) in H5' as Kr5; [|lia].
  apply (on_tx_of_tx (agrees d0)) in H5' as Ka5; [|apply preserves_ignore, agrees_set|exact Ka4].
  apply (on_tx_of_db (steady hs d0)) in H5' as Kd5; [|exact Kd4].
  assert (of_tx (sees_hashes lo l) w5) as Kh5.
  { eapply (sees_hashes_of lo l); [|exact Kh|exact H5']. intros h v Hh. apply on_tx_of_tx, preserves_ignore, frame_set. key_ne. }
  step H' as u6 w6 H6'. destruct u6.
  assert (view (w_tx w6) = <[HeightKey := E64func (top lo l)]> (view (w_tx w5))) as Hv6.
  { eapply set_unchecked_view; [apply key_ok_own; [done|apply own_HeightKey]|unfold val_ok; rewrite length_E64func; lia| |].
    - lia.
    - rewrite top_snoc in *. rewrite sub64_small in H6' by (unfold is_u64, top in *; lia).
      by replace (top lo l + 1 - 1) with (top lo l) in H6' by lia. }
  apply (costs_on_tx 1 _ (tx_costs_ignore_set _ _) j) in H6' as Kr6; [|lia].
  apply (on_tx_of_tx (agrees d0)) in H6' as Ka6; [|apply preserves_ignore, agrees_set|exact Ka5].
  apply (on_tx_of_db (steady hs d0)) in H6' as Kd6; [|exact Kd5].
  assert (of_tx (sees_index lo l) w6) as Ki6.
  { split; [done..| |]; rewrite Hv6; [apply lookup_insert_eq|].
    intros h Hh. rewrite lookup_insert_ne by key_ne. by apply Kh5. }
  step H' as prevb w7 H7'. injection H7' as _ <-. step H' as prevm w8 H8'. injection H8' as _ <-.
  eapply at_work_step in H'; [exact H'|apply on_evm_mild|apply on_evm_free|]. rewrite Nat.add_0_r. by split.
Qed.

(** The recorded root becomes the one recorded for the block below. *)
Lemma DeleteTempBlock_at_root b w w' :
  1 ≤ Height b ≤ MAXUINT64 → getBlockByHeight (Height b) (Dbase (w_db w)) = Ok b → Forall plain (Transactions b) →
  (4 * length (Transactions b) + 3 ≤ room (w_tx w))%nat → DeleteTempBlock_at g (Height b) w = (Ok tt, w') →
  (∀ h, is_u64 h → h ≠ Height b → view (w_tx w') !! snap_key h = view (w_tx w) !! snap_key h) ∧
  (∃ root, view (w_tx w) !! snap_key (Height b - 1) = Some root ∧
     (length root = 32%nat → view (w_tx w') !! SnapRootKey = Some root)).
Proof.
  intros Hr Hb Hp Hroom H'. unfold DeleteTempBlock_at in H'.
  step H' as b1 w1 H1'. injection H1' as Hb1 <-. rewrite Hb in Hb1. injection Hb1 as <-.
  step H' as u1 w1 H1'. apply (delete_txs_costs g _ Hp 0 3%nat) in H1' as Kr; [|lia].
  assert (∀ h, view (w_tx w1) !! snap_key h = view (w_tx w) !! snap_key h) as Hv1.
  { intros h. by apply (delete_txs_frame g (snap_key h) (sees (snap_key h) (view (w_tx w) !! snap_key h)) _
      ltac:(auto with keys) Hp) in H1'. }
  clear H1' u1. step H' as sn w2 H2'. injection H2' as Hsn <-. rewrite sub64_small in Hsn by (unfold is_u64; lia).
  rewrite kv_Get_tx in Hsn by done. rewrite Hv1 in Hsn.
  destruct (view (w_tx w) !! snap_key (Height b - 1)) as [root|] eqn:Eroot; [injection Hsn as <-|done].
  step H' as u3 w3 H3'. destruct u3. apply (costs_on_tx 1 _ (tx_costs_del _) 2%nat) in H3' as Kr3; [|lia].
  pose proof (del_Ok_view _ _ _ H3') as Hv3. clear H3' Kr.
  step H' as u4 w4 H4'. destruct u4. apply (costs_on_tx 1 _ (tx_costs_del _) 1%nat) in H4' as Kr4; [|lia].
  pose proof (del_Ok_view _ _ _ H4') as Hv4. clear H4' Kr3.
  step H' as u5 w5 H5'. destruct u5. step H' as u6 w6 H6'. destruct u6.
  assert (∀ k, HeightKey ≠ k → view (w_tx w6) !! k = view (w_tx w5) !! k) as Hv6.
  { intros k Hk. apply on_tx_inv in H6' as (H6' & _).
    by apply (preserves_ignore (sees k (view (w_tx w5) !! k)) _ _ (frame_set _ _ (not_eq_sym Hk))) in H6'. }
  step H' as prevb w7 H7'. injection H7' as _ <-. step H' as prevm w8 H8'. injection H8' as _ <-.
  assert (w_tx w' = w_tx w6) as -> by (eapply (on_evm_of_tx (λ t, t = w_tx w6)) in H'; [exact H'|done]).
  assert (∀ k, SnapRootKey ≠ k → view (w_tx w5) !! k = view (w_tx w4) !! k) as Hv5.
  { intros k Hk. apply on_tx_inv in H5' as (H5' & _).
    by apply (preserves_ignore (sees k (view (w_tx w4) !! k)) _ _ (frame_set _ _ (not_eq_sym Hk))) in H5'. }
  split.
  - intros h Hh Hne. rewrite Hv6, Hv5, Hv4, Hv3 by key_ne. rewrite lookup_delete_ne by (intros E; by eapply snap_height_ne).
    rewrite lookup_delete_ne by (apply snap_key_ne; [unfold is_u64; lia|done..]). by rewrite Hv1.
  - exists root. split; [done|]. intros Hlen. rewrite Hv6 by done.
    rewrite (set_unchecked_view SnapRootKey root w4 (Ok tt) w5); [apply lookup_insert_eq| | |lia|exact H5'].
    + apply key_ok_own; [done|auto with keys].
    + unfold val_ok. lia.
Qed.

(** What the loop writes at most: [n] blocks from the height [dH] down. *)
Fixpoint delete_cost (n : nat) (dH : Z) d : nat :=
  match n with
  | O => 0
  | S n => match getBlockByHeight dH (Dbase d) with Ok b => 4 * length (Transactions b) + 4 | _ => 0 end
           + delete_cost n (dH - 1) d
  end.

(** After the last round the recorded root is the one recorded for the block below it. *)
Lemma delete_rounds_works hs lo n : ∀ d0 l j w w',
  (n ≤ length l)%nat → 1 ≤ lo → top lo l ≤ MAXUINT64 → deletable (top lo l) (w_db w) →
  at_work hs d0 lo l (j + delete_cost n (top lo l) (w_db w)) w →
  delete_rounds (DeleteTempBlock_at g) n (top lo l) w = (Ok tt, w') →
  at_work hs d0 lo (take (length l - n) l) j w' ∧ w_db w' = w_db w ∧
  (n ≠ 0%nat → ∃ root, view (w_tx w) !! snap_key (top lo l - Z.of_nat n) = Some root ∧
    (length root = 32%nat → view (w_tx w') !! SnapRootKey = Some root)).
Proof.
  induction n as [|n IH]; intros d0 l j w w' Hn Hlo Htop Hdel K H'; cbn [delete_cost delete_rounds] in *.
  { injection H' as <-. rewrite Nat.sub_0_r, take_ge by lia. by rewrite Nat.add_0_r in K. }
  destruct (exists_last (l := l)) as (l0 & x & ->); [by intros ->; simpl in Hn; lia|].
  apply stM_bind_Ok in H' as ([] & w1 & H1' & H').
  assert (∃ b, getBlockByHeight (top lo (l0 ++ [x])) (Dbase (w_db w)) = Ok b) as [b Hb].
  { unfold DeleteTempBlock_at in H1'. step H1' as b w2 Hb. injection Hb as Hb _. by exists b. }
  destruct (Hdel _ _ (Z.le_refl _) Hb) as (Hbh & _ & Hp).
  rewrite Hb in K. rewrite Nat.add_comm in K. rewrite <- (Nat.add_assoc (4 * _ + 4)) in K. rewrite (Nat.add_comm (4 * _ + 4)) in K.
  assert (1 ≤ Height b ≤ MAXUINT64) as Hbr by (rewrite Hbh; unfold top in *; rewrite length_app in *; simpl in *; lia).
  destruct (DeleteTempBlock_at_root b w w1) as [Hk Hr]; [done|by rewrite Hbh|done|destruct K; lia|by rewrite Hbh|].
  rewrite Hbh in Hk, Hr, Hbr. rewrite top_snoc in *. replace (top lo l0 + 1 - 1) with (top lo l0) in * by lia.
  edestruct DeleteTempBlock_at_works as [K1 Hd1]; [exact Hlo| |rewrite top_snoc; exact Hb|by rewrite top_snoc|exact Hp|exact K|by rewrite top_snoc|].
  { rewrite top_snoc. unfold is_u64. lia. }
  rewrite length_app in *. cbn [length] in *. rewrite <- Hd1 in K1.
  destruct (IH d0 l0 j w1 w') as (K2 & Hd2 & Hr2); [lia|done|lia| | |exact H'|].
  - rewrite Hd1. intros h b' Hh. apply Hdel. lia.
  - by rewrite (Nat.add_comm j).
  - split; [|split; [congruence|intros _]].
    { rewrite take_app_le by lia. by replace (length l0 + 1 - S n)%nat with (length l0 - n)%nat by lia. }
    replace (top lo l0 + 1 - Z.of_nat (S n)) with (top lo l0 - Z.of_nat n) by lia.
    destruct n as [|n]; [injection H' as <-; by rewrite Z.sub_0_r|].
    destruct Hr2 as (root & Hroot & Hr2); [done|]. exists root. split; [|done].
    rewrite <- Hroot. symmetry. apply Hk; unfold is_u64, top in *; lia.
Qed.

(** [DeleteTempBlockTest] takes the blocks from [h] on off the chain, and reopens the account
    state at the root recorded for the block below. *)
Lemma DeleteTempBlockTest_works hs d0 lo l h j w w' :
  indexed lo l (dbview (w_db w)) → deletable (top lo l) (w_db w) → lo ≤ h →
  (∀ k, view (w_tx w) !! k = dbview (w_db w) !! k) → reopens (h - 1) (w_db w) →
  at_work hs d0 lo l (j + delete_cost (Z.to_nat (top lo l - h + 1)) (top lo l) (w_db w)) w →
  DeleteTempBlockTest g now cfg h w = (Ok tt, w') →
  at_work hs d0 lo (take (Z.to_nat (h - lo)) l) j w' ∧ h ≤ top lo l ∧ w_db w' = w_db w ∧ synced w'.
Proof.
  intros Hi Hdel Hlo Hopen Hre K H'. unfold DeleteTempBlockTest in H'.
  step H' as dbh w1 H1'. injection H1' as Hmax <-. rewrite (indexed_max lo l) in Hmax by done. injection Hmax as <-.
  case_decide as Hh; [done|]. step H' as u1 w1 H1'. destruct u1.
  destruct (delete_rounds_works hs lo (Z.to_nat (top lo l - h + 1)) d0 l j w w1) as (K1 & Hd & Hr);
    [unfold top in *; lia|apply Hi|apply Hi|done..|].
  replace (length l - Z.to_nat (top lo l - h + 1))%nat with (Z.to_nat (h - lo)) in K1 by (unfold top in *; lia).
  destruct Hr as (root0 & Hroot0 & Hr); [lia|].
  replace (top lo l - Z.of_nat (Z.to_nat (top lo l - h + 1))) with (h - 1) in Hroot0 by lia.
  rewrite Hopen in Hroot0. destruct (Hre root0 Hroot0) as [Hlen Hy]. specialize (Hr Hlen).
  step H' as root w2 H2'. injection H2' as Hroot <-. rewrite kv_Get_tx, Hr in Hroot by done. injection Hroot as <-.
  unfold reopen in H'. rewrite BytesToHash_32 in H' by done. unfold updateNewStateByRoot in H'. rewrite Hd in H'.
  destruct (state_New _ _) as [s|e|] eqn:Es; [|done..]. injection H' as <-. cbn.
  split_and!; [destruct K1 as [K1 K2 K3 K4]; split; try done; unfold of_db in *; cbn; by rewrite <- Hd|lia|done|].
  exists root0. split; [done|]. by apply Hy.
Qed.

(** ** Adding in the transaction *)

Lemma mild_bind {A B} hs d0 lo l (m : stM (world D SD T) A) (f : A → stM (world D SD T) B) :
  mild hs d0 lo l m → (∀ a, mild hs d0 lo l (f a)) → mild hs d0 lo l (m ≫= f).
Proof. intros (H1' & H2' & H3') Hf. split_and!; apply preserves_bind; try done; intros a; apply Hf. Qed.

Ltac reads := apply mild_reads; intros; repeat first
  [ apply from_tx_pres | apply from_db_pres | apply preserves_ret | apply preserves_lift | apply preserves_err
  | apply preserves_panic | apply on_evm_of_tx | apply on_evm_of_db | apply preserves_pure
  | apply preserves_bind; [|intros ?]
  | progress unfold miner_of, set_block_evm, settle_root
  | match goal with |- preserves _ (match ?x with _ => _ end) => destruct x end ].
Ltac free := apply costs_of_tx; intros; repeat first
  [ apply from_tx_pres | apply from_db_pres | apply preserves_ret | apply preserves_lift | apply preserves_err
  | apply preserves_panic | apply on_evm_of_tx | apply preserves_pure | apply on_store_of_tx
  | apply preserves_bind; [|intros ?]
  | progress unfold miner_of, set_block_evm, settle_root, root_unchanged
  | match goal with |- preserves _ (match ?x with _ => _ end) => destruct x end ].

Lemma mild_root_unchanged hs d0 lo l : untouched hs →
  mild hs d0 lo l (root_unchanged (D := D) (SD := SD) (T := T) (factCommit true)).
Proof.
  intros Hu. unfold root_unchanged. apply mild_bind; [reads|intros a].
  apply mild_bind; [by apply mild_factCommit|intros r; reads].
Qed.

(** The height and the hash of the new block are entered. *)
Lemma enter_works hs d0 lo l j k w w1 w2 w3 :
  length k = 32%nat → top lo l +₆₄ 1 ≠ 0 → at_work hs d0 lo l (j + 3) w →
  on_tx (set (height_key (top lo l +₆₄ 1)) k) w = (Ok tt, w1) →
  on_tx (ignore_err (del HeightKey) tt) w1 = (Ok tt, w2) →
  set_unchecked HeightKey (E64func (top lo l +₆₄ 1)) w2 = (Ok tt, w3) → at_work hs d0 lo (l ++ [k]) j w3.
Proof.
  intros Hk Hne [Ka Kd Ki Kr] E1 E2 E3. pose proof (set_Ok_view _ _ _ _ E1) as Hv1.
  apply (costs_on_tx 1 _ (tx_costs_set _ _) (j + 2)%nat) in E1 as Kr1; [|lia].
  apply (on_tx_of_tx (agrees d0)) in E1 as Ka1; [|apply agrees_set|exact Ka].
  apply (on_tx_of_db (steady hs d0)) in E1 as Kd1; [|exact Kd].
  apply (costs_on_tx 1 _ (tx_costs_ignore _ _ _ (tx_costs_del _)) (j + 1)%nat) in E2 as Kr2; [|lia].
  apply (on_tx_of_tx (agrees d0)) in E2 as Ka2; [|apply preserves_ignore, agrees_del|exact Ka1].
  apply (on_tx_of_db (steady hs d0)) in E2 as Kd2; [|exact Kd1].
  assert (∀ q, q ≠ HeightKey → view (w_tx w2) !! q = view (w_tx w1) !! q) as Hv2.
  { intros q Hq. assert (preserves (sees q (view (w_tx w1) !! q)) (ignore_err (del HeightKey) tt)) as Hp
      by (by apply preserves_ignore, frame_del). apply on_tx_inv in E2 as (E2 & _). by eapply Hp in E2. }
  assert (view (w_tx w3) = <[HeightKey := E64func (top lo l +₆₄ 1)]> (view (w_tx w2))) as Hv3.
  { eapply set_unchecked_view; [apply key_ok_own; [done|apply own_HeightKey]|unfold val_ok; rewrite length_E64func; lia|lia|exact E3]. }
  apply (costs_on_tx 1 _ (tx_costs_ignore_set _ _) j) in E3 as Kr3; [|lia].
  apply (on_tx_of_tx (agrees d0)) in E3 as Ka3; [|apply preserves_ignore, agrees_set|exact Ka2].
  apply (on_tx_of_db (steady hs d0)) in E3 as Kd3; [|exact Kd2].
  split; [done|done| |done]. unfold of_tx, sees_index. rewrite Hv3.
  assert (<[HeightKey := E64func (top lo l +₆₄ 1)]> (view (w_tx w2)) =
    <[HeightKey := E64func (top lo l +₆₄ 1)]> (<[height_key (top lo l +₆₄ 1) := k]> (view (w_tx w)))) as ->.
  { apply map_eq. intros q. destruct (decide (q = HeightKey)) as [->|Hq]; [by rewrite !lookup_insert_eq|].
    rewrite (lookup_insert_ne _ HeightKey q), (lookup_insert_ne (<[_ := k]> _) HeightKey q) by done.
    by rewrite Hv2, Hv1 by done. }
  by apply indexed_extend.
Qed.

(** *** The recorded root *)

Lemma on_store_inv {A} (m : stM (D * SD) A) w r w' : on_store (T := T) m w = (r, w') →
  m (w_db w, w_sdb w) = (r, (w_db w', w_sdb w')) ∧ w_tx w' = w_tx w.
Proof. intros (ds & Hm & ->)%zoom_inv. by destruct ds. Qed.

Lemma root_unchanged_synced w same w' : synced w → root_unchanged (factCommit true) w = (Ok same, w') → same = true.
Proof.
  intros (root & Hroot & Hy) H'. unfold root_unchanged in H'. step H' as r1 w1 H1'. injection H1' as H1' <-.
  rewrite kv_Get_tx, Hroot in H1' by done. injection H1' as <-. step H' as r2 w2 H2'.
  apply on_store_inv in H2' as [H2' _]. apply Hy in H2' as ->. injection H' as <- _. by apply bool_decide_eq_true.
Qed.

(** [AddTempBlock] leaves the root of the state recorded. *)
Lemma record_root w root k w1 w2 w3 w4 r3 : stable_roots →
  on_store (factCommit true) w = (Ok root, w1) → on_tx (set k root) w1 = (Ok tt, w2) →
  on_tx (ignore_err (del SnapRootKey) tt) w2 = (r3, w3) → room (w_tx w3) ≠ 0%nat →
  set_unchecked SnapRootKey root w3 = (Ok tt, w4) → synced w4.
Proof.
  intros Hst E1 E2 E3 Hroom E4. assert (length root = 32%nat) as Hlen by by apply (factCommit_length _ _ _ _ _ E1).
  apply on_store_inv in E1 as [E1 _]. apply on_tx_inv in E2 as (_ & Ed2 & Es2 & _), E3 as (_ & Ed3 & Es3 & _).
  assert (key_ok SnapRootKey) as Hk by (apply key_ok_own; [done|auto with keys]).
  assert (val_ok root) as Hval by (unfold val_ok; lia).
  pose proof (set_unchecked_view SnapRootKey root w3 _ w4 Hk Hval Hroom E4) as Hv.
  apply on_tx_inv in E4 as (_ & Ed4 & Es4 & _). exists root. rewrite Hv. split; [apply lookup_insert_eq|].
  rewrite Ed4, Es4, Ed3, Es3, Ed2, Es2. by apply (Hst root (w_db w, w_sdb w)).
Qed.

(** What [AddTempBlock] writes at most. *)
Definition add_cost b : nat := 4 * length (Transactions b) + 7.

Lemma AddTempBlock_works hs d0 lo l b j w w' :
  untouched hs → stable_roots → length (BHash b) = 32%nat → 0 < Height b →
  at_work hs d0 lo l (j + add_cost b) w → synced w → AddTempBlock g now cfg b w = (Ok tt, w') →
  Height b = top lo l +₆₄ 1 ∧ at_work hs d0 lo (l ++ [BHash b]) j w' ∧ synced w'.
Proof.
  intros Hu Hst Hlen Hb K Hsync H'. unfold AddTempBlock in H'. unfold add_cost in K.
  step H' as same w1 H1'.
  assert (at_work hs d0 lo l (j + (4 * length (Transactions b) + 7)) w1) as K1.
  { eapply (at_work_step _ _ _ _ _ 0); [| |rewrite Nat.add_0_r; exact K|exact H1'].
    - case_decide; [by apply mild_root_unchanged|reads].
    - case_decide; [free|free]. }
  assert (same = true) as -> by (case_decide; [by eapply root_unchanged_synced|by injection H1']).
  clear K H1' Hsync. cbn [negb] in H'. step H' as prev w2 H2'. injection H2' as Hprev <-. destruct K1 as [Ka Kd Ki Kr].
  rewrite (sees_height _ _ _ Ki) in Hprev. injection Hprev as <-. case_decide as Hh; [done|].
  assert (Height b = top lo l +₆₄ 1) as Heq by (destruct (decide (Height b = top lo l +₆₄ 1)); [done|done]).
  split; [done|].
  step H' as u3 w3 H3'. destruct u3. step H' as u4 w4 H4'. destruct u4. step H' as u5 w5 H5'. destruct u5.
  assert (at_work hs d0 lo (l ++ [BHash b]) (j + (4 + 4 * length (Transactions b))) w5) as K5.
  { eapply (enter_works _ _ _ _ _ _ w1 w3 w4 w5); [done|by rewrite <- Heq; lia| |done..]. split; try done. lia. }
  clear Ka Kd Ki Kr H3' H4' H5'.
  step H' as u6 w6 H6'. eapply (at_work_step _ _ _ _ _ 0) in H6' as K6; [|reads|free|rewrite Nat.add_0_r; exact K5]. clear K5 H6'.
  step H' as tg w7 H7'. destruct tg as [txs gas]. rewrite Nat.add_assoc in K6.
  eapply at_work_step in H7' as K7; [|apply mild_apply_txs|apply apply_txs_costs|exact K6]. clear K6 H7'.
  step H' as com w8 H8'. eapply (at_work_step _ _ _ _ _ 0) in H8' as K8;
    [|by apply mild_factCommit|free|rewrite Nat.add_0_r; exact K7]. clear K7 H8'.
  step H' as b2 w9 H9'. eapply (at_work_step _ _ _ _ _ 0) in H9' as K9; [|reads|free|rewrite Nat.add_0_r; exact K8]. clear K8 H9'.
  step H' as data w10 H10'. injection H10' as _ <-.
  step H' as u11 w11 H11'. eapply (at_work_step _ _ _ _ (j + 3) 1) in H11' as K11;
    [|by apply mild_set, off_index_hash|apply costs_on_tx, tx_costs_set|replace (j + 3 + 1)%nat with (j + 4)%nat by lia; exact K9].
  clear K9 H11'.
  step H' as com2 w12 H12'. eapply (at_work_step _ _ _ _ _ 0) in H12' as K12;
    [|by apply mild_factCommit|free|rewrite Nat.add_0_r; exact K11]. clear K11.
  step H' as u13 w13 H13'. destruct u13. eapply (at_work_step _ _ _ _ (j + 2) 1) in H13' as K13;
    [|apply mild_set, off_index_snap|apply costs_on_tx, tx_costs_set|replace (j + 2 + 1)%nat with (j + 3)%nat by lia; exact K12].
  step H' as u14 w14 H14'. eapply (at_work_step _ _ _ _ (j + 1) 1) in H14' as K14;
    [|apply mild_ignore, mild_del, off_index_SnapRootKey|apply costs_on_tx, tx_costs_ignore, tx_costs_del
     |replace (j + 1 + 1)%nat with (j + 2)%nat by lia; exact K13].
  split; [eapply (at_work_step _ _ _ _ j 1); [| |exact K14|exact H']|
    eapply record_root; [exact Hst|exact H12'|exact H13'|exact H14'|pose proof (aw_room _ _ _ _ _ _ K14); lia|exact H']].
  - apply mild_ignore, mild_set, off_index_SnapRootKey.
  - apply costs_on_tx, tx_costs_ignore_set.
Qed.

(** The hashes [hs] are those of stored blocks at the heights from [h] on. *)
Definition branch_at (h : Z) (hs : list bytes) d : Prop := ∀ i k, hs !! i = Some k →
  length k = 32%nat ∧ ∃ b, getBlockByHash k (Dbase d) = Ok b ∧ BHash b = k ∧ Height b = h + Z.of_nat i.

(** What adding them writes at most. *)
Fixpoint branch_cost (hs : list bytes) d : nat :=
  match hs with
  | [] => 0
  | k :: hs => match getBlockByHash k (Dbase d) with Ok b => add_cost b | _ => 0 end + branch_cost hs d
  end.

Lemma branch_at_tail h k hs d : branch_at h (k :: hs) d → branch_at (h + 1) hs d.
Proof.
  intros Hb i k' Hk. destruct (Hb (S i) k' Hk) as (Hl & b & H1' & H2' & H3'). split; [done|]. exists b. split_and!; [done..|lia].
Qed.

Lemma steady_block all d0 d k : steady all d0 d → k ∈ all → k ≠ [] →
  getBlockByHash k (Dbase d) = getBlockByHash k (Dbase d0).
Proof. intros Hs Hk Hne. unfold getBlockByHash. rewrite !kv_Get_db by done. by rewrite (Hs k) by by right. Qed.

(** The blocks are added from the lowest on, all of them. *)
Lemma reconnects_works all d0 lo hs : untouched all → stable_roots → ∀ L j w w',
  (∀ k, k ∈ hs → k ∈ all) → branch_at (top lo L + 1) hs d0 → 0 ≤ top lo L ≤ MAXUINT64 →
  at_work all d0 lo L (j + branch_cost hs d0) w → synced w →
  st_iter (reconnect g now cfg sha3 diffhash) hs w = (Ok tt, w') → at_work all d0 lo (L ++ hs) j w'.
Proof.
  intros Hu Hst. induction hs as [|k hs IH]; intros L j w w' Hin Hb Htop K Hsync H'; cbn [branch_cost] in K.
  { injection H' as <-. by rewrite app_nil_r, Nat.add_0_r in *. }
  apply st_iter_Ok in H' as (w1 & H1' & H'). destruct (Hb 0%nat k eq_refl) as (Hkl & b & Hkb & Hbk & Hbh).
  rewrite Z.add_0_r in Hbh. apply branch_at_tail in Hb. rewrite Hkb in K.
  unfold reconnect in H1'. step H1' as b1 w2 H2'. injection H2' as Hb1 <-.
  rewrite (steady_block all d0) in Hb1; [|apply K|apply Hin; by left|by intros ->].
  rewrite Hkb in Hb1. injection Hb1 as <-. step H1' as u3 w3 H3'. injection H3' as _ <-.
  rewrite (Nat.add_comm (add_cost b)), Nat.add_assoc in K.
  destruct (AddTempBlock_works all d0 lo L b (j + branch_cost hs d0) w w1) as (_ & K1 & Hsync1);
    [done..|by rewrite Hbk|lia|done|done|done|].
  rewrite Hbk in K1. replace (L ++ k :: hs) with ((L ++ [k]) ++ hs) by by rewrite <- (assoc_L (++)).
  apply (IH (L ++ [k]) j w1); [|by rewrite top_snoc| |done..].
  - intros k' Hk'. apply Hin. by right.
  - destruct K1 as [_ _ [_ K1' _ _] _]. rewrite top_snoc in *. lia.
Qed.

(** ** Reorganizing *)

(** C17: a reorganization replaces the chain from a height on by a branch: called with the
    hashes of stored blocks of the heights from [h] on, highest first as its callers pass
    them, [ReorganizeChain] either succeeds, and then the height index holds exactly what it
    held below [h] followed by all of the branch, lowest block first, at consecutive heights,
    with the recorded height that of the branch's last block and no block above it; or it
    fails, and then the chain is what it was.  The blocks taken off have no transaction whose
    input is [new "k"], and what is written fits in one transaction; of the store of states it is
    asked that it writes nothing under the branch's hashes, and that a state that has just
    been committed, or reopened at the root recorded below [h], commits to the same root: a
    block for which that fails is left out ([AddTempBlock] returns nil). *)
Theorem ReorganizeChain_replaces (lo h : Z) (l hs : list bytes) (c c' : chain D SD) (r : res unit) :
  indexed lo l (dbview (db c)) → deletable (top lo l) (db c) → lo ≤ h → branch_at h hs (db c) →
  untouched hs → stable_roots → reopens (h - 1) (db c) →
  (delete_cost (Z.to_nat (top lo l - h + 1)) (top lo l) (db c) + branch_cost hs (db c)
     ≤ room (db_begin (T := T) (db c)))%nat →
  ReorganizeChain (T := T) g now cfg sha3 diffhash (rev hs) h c = (r, c') →
  (r = Ok tt → h ≤ top lo l ∧ indexed lo (take (Z.to_nat (h - lo)) l ++ hs) (dbview (db c'))) ∧
  (∀ e, r = Err e → indexed lo l (dbview (db c'))).
Proof.
  intros Hi Hdel Hlo Hb Hu Hst Hre Hroom H'. split.
  2: { intros e ->. apply (run_op_fails (T := T) g now cfg sha3 diffhash (OpReorganize (rev hs) h)) in H' as [Hk _].
       by eapply indexed_ext. }
  intros ->. unfold ReorganizeChain in H'. destruct (getSnapRoot (Dbase (db c))) as [root|e|]; [|done..].
  apply reverting_Ok, with_txn_run in H' as (w & H' & ->). set (w0 := World _ _ _ _) in H'.
  assert (at_work hs (db c) lo l (branch_cost hs (db c) +
    delete_cost (Z.to_nat (top lo l - h + 1)) (top lo l) (w_db w0)) w0) as K.
  { destruct (open_begin (T := T) lo l c Hi) as (Ka & _ & Ki). split; [exact Ka|by intros k _|exact Ki|]. cbn. lia. }
  assert (1 ≤ lo) as Hlo1 by apply Hi.
  step H' as u1 w1 H1'. destruct u1.
  apply (DeleteTempBlockTest_works hs (db c) lo l h (branch_cost hs (db c))) in H1' as (K1 & Hh & _ & Hsync); [|try done..].
  2: { intros k. cbn. by rewrite begin_view. }
  split; [done|]. clear K. step H' as u2 w2 H2'. destruct u2. rewrite rev_involutive in H2'.
  assert (top lo (take (Z.to_nat (h - lo)) l) = h - 1) as Htop.
  { unfold top in *. rewrite length_take. lia. }
  destruct (reconnects_works hs (db c) lo hs Hu Hst (take (Z.to_nat (h - lo)) l) 0 w1 w2) as [Ka Kd Ki _];
    [done| | |exact K1|exact Hsync|exact H2'|].
  { rewrite Htop. by replace (h - 1 + 1) with h by lia. }
  { rewrite Htop. pose proof (idx_top _ _ _ Hi). lia. }
  eapply open_commit; [|exact H']. split_and!; [exact Ka| |exact Ki].
  intros k Hk. apply Kd. by left.
Qed.

End Facts.

(** ** Witness *)

Module ReorgSample.
Import MapTxn MapState MapWorld CryptoInstance ChainSample IndexSample.

(** A branch of two blocks next to [next], on the block that [next] is on. *)
Definition branch_block (n : Z) (x : byte) (prev root : bytes) : Block :=
  MkBlock (InitHeight + n) prev (replicate 32 x) [coinbase] (replicate 32 Byte.x04) root 1 1600000000 12 Sample.bob
    (Some 70000) (Some 70000) 9 100 0.
Definition u1 : Block := branch_block 1 Byte.x11 (BHash parent) (root_of 0).
Definition u2 : Block := branch_block 2 Byte.x12 (BHash u1) (root_of 2).
Definition data (b : Block) : bytes := match Serialize b with Ok x => x | _ => [] end.
Definition branch : list bytes := [BHash u1; BHash u2].

(** The chain with [next], which has the branch's blocks. *)
Definition q0 : chain mdb state :=
  Chain (Mdb (<[BHash u1 := data u1]> (<[BHash u2 := data u2]> kvs0)) [Sample.s0]) Sample.s0 (NewEvm 0 cfg).
Definition q1 : chain mdb state := (add next q0).2.
Definition moved : res unit * chain mdb state :=
  ReorganizeChain (T := MapTxn.txn) Sample.g 0 cfg id (λ _, []) (rev branch) (InitHeight + 1) q1.
Lemma moved_Ok : moved.1 = Ok tt.
Proof. vm_compute. reflexivity. Qed.

Lemma indexed_blob lo l k v m : length k = 32%nat → indexed lo l m → indexed lo l (<[k := v]> m).
Proof.
  intros Hk [Hlo Htop Hh Hhs]. split; [done..| |].
  - by rewrite lookup_insert_ne by key_ne.
  - intros h Hh'. rewrite lookup_insert_ne by key_ne. by apply Hhs.
Qed.
Lemma indexed_q1 : indexed InitHeight [BHash parent; BHash next] (dbview (db q1)).
Proof.
  assert (∃ b, add next q0 = (Ok b, q1)) as [b Hb].
  { assert (∃ b, (add next q0).1 = Ok b) as [b Hb] by (apply is_Ok_check; vm_compute; reflexivity).
    exists b. exact (run_is (add next q0) (Ok b) Hb). }
  refine (AddBlock_index Sample.g 0 cfg InitHeight [BHash parent] next b q0 q1 eq_refl _ Hb).
  change (dbview (db q0)) with (<[BHash u1 := data u1]> (<[BHash u2 := data u2]> kvs0)).
  generalize (data u1) (data u2). intros x1 x2. apply indexed_blob; [reflexivity|].
  apply indexed_blob; [reflexivity|exact indexed0].
Qed.

Lemma branch_stored : branch_at (InitHeight + 1) branch (db q1).
Proof.
  intros i k Hk.
  assert (match getBlockByHash k (Dbase (db q1)) with
          | Ok b => bool_decide (BHash b = k ∧ Height b = InitHeight + 1 + Z.of_nat i ∧ length k = 32%nat)
          | _ => false end = true) as Hc.
  { destruct i as [|[|i]]; [injection Hk as <-; vm_compute; reflexivity..|done]. }
  destruct (getBlockByHash k _) as [b|e|]; [|done..]. apply bool_decide_eq_true in Hc as (H1 & H2 & H3).
  split; [done|]. by exists b.
Qed.

Lemma untouched_all hs : untouched (D := mdb) (SD := state) (T := MapTxn.txn) hs.
Proof.
  intros k _. split; intros x ds r ds' Hc; cbn in Hc; [|by injection Hc as _ <-].
  by destruct (index_of _ _); injection Hc as _ <-.
Qed.

Lemma index_of_snoc s l : index_of s l = None → index_of s (l ++ [s]) = Some (length l).
Proof.
  induction l as [|s' l IH]; cbn; [by rewrite decide_True|]. case_decide; [done|].
  destruct (index_of s l); [done|]. intros _. by rewrite IH.
Qed.
Lemma roots_stable : stable_roots (D := mdb) (SD := state).
Proof.
  intros root [d s] ds' Hc root' ds'' Hc'. unfold factCommit, mbind, stM_bind in *. cbn in *.
  destruct (index_of s (states d)) as [n|] eqn:En; cbn in Hc; injection Hc as <- <-; cbn in Hc'.
  - rewrite En in Hc'. by injection Hc' as <- _.
  - rewrite index_of_snoc in Hc' by done. by injection Hc' as <- _.
Qed.

Lemma reopens_q1 : reopens (InitHeight + 1 - 1) (db q1).
Proof.
  intros root Hroot.
  assert (dbview (db q1) !! snap_key (InitHeight + 1 - 1) = Some (root_of 0)) as Hr by (vm_compute; reflexivity).
  rewrite Hr in Hroot. injection Hroot as <-. split; [reflexivity|]. intros s Hs root' ds' Hc.
  assert (state_New (root_of 0) (db q1) = Ok Sample.s0) as Hs0 by (vm_compute; reflexivity).
  rewrite Hs0 in Hs. injection Hs as <-.
  assert (index_of Sample.s0 (states (db q1)) = Some 0%nat) as Hi by (vm_compute; reflexivity).
  unfold factCommit, mbind, stM_bind in Hc. cbn [sdb_Commit store fst snd] in Hc. rewrite Hi in Hc.
  cbn in Hc. by injection Hc as <- _.
Qed.

End ReorgSample.

(** A chain of two blocks gets the two of the branch in the place of its last one. *)
Lemma ReorganizeChain_replaces_witness :
  ReorgSample.moved.1 = Ok tt ∧
  indexed InitHeight [BHash ChainSample.parent; BHash ReorgSample.u1; BHash ReorgSample.u2]
    (dbview (db ReorgSample.moved.2)).
Proof.
  split; [exact ReorgSample.moved_Ok|].
  refine (proj2 (proj1 (ReorganizeChain_replaces (T := MapTxn.txn) Sample.g 0 ChainSample.cfg id (λ _, []) InitHeight
    (InitHeight + 1) [BHash ChainSample.parent; BHash IndexSample.next] ReorgSample.branch ReorgSample.q1
    ReorgSample.moved.2 (Ok tt) _ _ _ _ _ _ _ _ _) eq_refl)).
  - exact ReorgSample.indexed_q1.
  - apply IndexSample.fits_deletable; [exact ReorgSample.indexed_q1|vm_compute; reflexivity..].
  - unfold InitHeight. lia.
  - exact ReorgSample.branch_stored.
  - apply ReorgSample.untouched_all.
  - exact ReorgSample.roots_stable.
  - exact ReorgSample.reopens_q1.
  - apply Nat.leb_le. vm_compute. reflexivity.
  - exact (run_is ReorgSample.moved (Ok tt) ReorgSample.moved_Ok).
Defined.
