(* ===== verification/Peer.v ===== *)
(** The service a node offers to its peers ([pkg/server/rpcserver/rpcserver.go]): the
    handlers that read its chain, its pool and its configuration.

    A handler that returns an error sends nothing else, so its result is that error.  A
    byte field that is empty arrives as nil.  The handlers that walk the chain have no
    bound on their steps: [fuel] bounds them, and [None] is a walk that has not ended. *)

From S2P Require Import Prelude Misc Badger BgStore Base58 Cbor Address Transaction Block World.
From S2P Require Import Queue Pool.

(** ** Messages *)

Record RespBlockchain := MkResp {
  Hashs : list bytes; Code : Z;
  Issamechain : bool; Isbranchchain : bool; Heigher : bool;
  RHeight : Z;
}.

(** [&pb.RespBlockchain{Code: 0}] *)
Definition resp_none : RespBlockchain := MkResp [] 0 false false false 0.
Definition resp_same (hashs : list bytes) (height : Z) : RespBlockchain := MkResp hashs 0 true false false height.
Definition resp_branch (hashs : list bytes) (height : Z) : RespBlockchain := MkResp hashs 0 false true false height.
Definition resp_heigher (hashs : list bytes) (height : Z) : RespBlockchain := MkResp hashs 0 false false true height.

(** The number of hashes a synchronizing node is sent. *)
Definition SyncLimit : nat := 1000.

(** A computation that may not end within its fuel. *)
Definition obind {A B} (m : option (res A)) (f : A → option (res B)) : option (res B) :=
  match m with
  | Some (Ok a) => f a
  | Some (Err e) => Some (Err e)
  | Some Panic => Some Panic
  | None => None
  end.

(** ** The chain *)

Section Chain.
Context {X : Type} `{!Reader X, !CborHeader}.
Implicit Types (x : X) (h : Z) (hash : bytes).

(** get hash  list from  blockchain if block  height: the hashes above [height], up to
    the first height that has none. *)
Fixpoint after_loop (fuel : nat) (height i : Z) (re : list bytes) x : option (res (list bytes)) :=
  match fuel with
  | O => None
  | S fuel =>
      match getHash (height +₆₄ u64 i) x with
      | Ok hash => after_loop fuel height (i + 1) (re ++ [hash]) x
      | Err e => Some (if decide (e = NotExist) then Ok re else Err e)
      | Panic => Some Panic
      end
  end.
Definition GetAfterHashs (fuel : nat) (height : Z) x : option (res (list bytes)) := after_loop fuel height 1 [] x.

Definition GetBlock hash x : res bytes :=
  b ← getBlockByHash hash x;
  Serialize b.

Definition GetBlockHashsByHeight (fuel : nat) h x : option (res (list bytes)) := GetAfterHashs fuel h x.

Definition GetBlockTip x : res bytes :=
  b ← Tip x;
  Serialize b.

(** [hash, err := GetHash(h)] where only an error other than [NotExist] counts. *)
Definition hash_or_nil h x : res bytes :=
  match getHash h x with
  | Err NotExist => Ok []
  | r => r
  end.

(** The main chain from the branch point of [hash] on. *)
Definition branch_hashs (fuel : nat) hash x : option (res (list bytes)) :=
  obind (FindChainBranch fuel hash x) (λ mainchainblock,
  obind (GetAfterHashs fuel (Height mainchainblock) x) (λ afterhash,
  Some (Ok (BHash mainchainblock :: afterhash)))).

Definition GetBlockchain (fuel : nat) hash h x : option (res RespBlockchain) :=
  if decide (hash = [] ∧ h = 1) then
    obind (GetAfterHashs fuel 0 x) (λ hashs, Some (Ok (resp_same hashs 0)))
  else obind (Some (Tip x)) (λ tipblock,
  if decide (BHash tipblock = hash) then Some (Ok (resp_same [] 0))
  else if decide (Height tipblock < h) then Some (Ok (resp_heigher [BHash tipblock] (Height tipblock)))
  else obind (Some (hash_or_nil h x)) (λ mine,
  if decide (mine = hash) then
    obind (GetAfterHashs fuel h x) (λ hashs, Some (Ok (resp_same hashs 0)))
  else
    match getBlockByHash hash x with
    | Err NotExist => Some (Ok resp_none)
    | Panic => Some Panic
    | _ => obind (branch_hashs fuel hash x) (λ hashs, Some (Ok (resp_branch hashs 0)))
    end)).

Definition FindbranchPoint hash h x : res (Z * bool) :=
  mine ← hash_or_nil h x;
  Ok (if decide (mine ≠ hash) then (0, false) else (h, true)).

(** The errors it returns are wrapped in others, whose text is left out. *)
Definition SyncBlockchain (fuel : nat) hash h x : option (res RespBlockchain) :=
  obind (Some (Tip x)) (λ tipblock,
  if decide (hash = [] ∧ h = 0) then
    obind (GetAfterHashs fuel 0 x) (λ hashs, Some (Ok (resp_same (take SyncLimit hashs) (Height tipblock))))
  else if decide (Height tipblock < h) then Some (Ok resp_none)
  else if decide (BHash tipblock = hash) then Some (Ok (resp_same [] (Height tipblock)))
  else obind (Some (hash_or_nil h x)) (λ mine,
  if decide (mine = hash) then
    obind (GetAfterHashs fuel h x) (λ hashs, Some (Ok (resp_same (take SyncLimit hashs) (Height tipblock))))
  else
    match getBlockByHash hash x with
    | Err NotExist => Some (Ok resp_none)
    | Err e => Some (Err e)
    | Panic => Some Panic
    | Ok _ =>
        obind (branch_hashs fuel hash x) (λ hashs,
        Some (Ok (resp_branch (take SyncLimit hashs) (Height tipblock))))
    end)).

(** [data] is what the stream received, nil after an error; whether a message was sent on
    it, where [sent] is the outcome of sending. *)
Definition AllStream (data : option (Z * bytes)) (sent : res unit) x : res bool :=
  match data with
  | None => Panic
  | Some (h, hash) =>
      re ← GetBlockTip x;
      b ← Deserialize re;
      if decide (h = i64 (Height b) ∧ hash = BHash b) then Ok false
      else if decide (h < i64 (Height b)) then
        mine ← getHash (u64 h) x;
        if decide (mine = hash) then sent ≫= λ _, Ok true else Ok false
      else Ok false
  end.

End Chain.

(** ** The rest of the node *)

Section Node.
Context `{!CborHeader}.

(** The node's own address first, then those of the members it gossips with. *)
Definition GetIPAddress (advertise : bytes) (members : list bytes) : list bytes := advertise :: members.

(** The pool's transactions and those being mined, serialized. *)
Definition GetTransactions {BC} (minerTxs : list SignedTransaction) (p : Pool BC) : list bytes :=
  STx_Serialize <$> CopySignedTransactions p ++ minerTxs.

(** A block that is sent is handed to the miner, if it is for this chain. *)
Definition SendBlock (mine theirs : bytes) (data : bytes) : res (option Block) :=
  if decide (mine ≠ theirs) then Ok None else
  b ← Deserialize data;
  Ok (Some b).

(** The check of the version never fails: a length is not negative. *)
Definition VerifyVersion (version : bytes) : res bytes :=
  if decide (Z.of_nat (length version) < 0) then err "version is nil" else Ok version.

End Node.
