(* ===== verification/PeerFacts.v ===== *)
(** What a node answers to its peers, in terms of the main chain it stores. *)

From S2P Require Import Prelude Misc Badger BgStore Base58 Cbor Address Transaction Block.
From S2P Require Import Ledger Difficulty Economics World Apply Chain Frames ChainFacts IndexFacts Queue Pool Peer.

Section Facts.
Context {X : Type} `{!Reader X, !ReaderLaws X, !CborHeader}.
Implicit Types (x : X) (h : Z) (hash : bytes).

(** The node stores the main chain [l] from height [lo] on, and its blocks: each has the
    height and the hash it is found under. *)
Record serves (lo : Z) (l : list bytes) x : Prop := Serves {
  srv_index : indexed lo l (contents x);
  srv_blocks i k : l !! i = Some k →
    k ≠ [] ∧ ∃ b, getBlockByHash k x = Ok b ∧ Height b = lo + Z.of_nat i ∧ BHash b = k;
}.

(** The hashes above a height. *)
Definition above lo l h : list bytes := if decide (lo ≤ h + 1) then drop (Z.to_nat (h + 1 - lo)) l else [].

(** The hash at a height. *)
Definition hash_at lo (l : list bytes) h : option bytes := if decide (lo ≤ h) then l !! Z.to_nat (h - lo) else None.

Lemma getHash_at lo l x h : indexed lo l (contents x) → is_u64 h →
  getHash h x = match hash_at lo l h with Some k => Ok k | None => Err NotExist end.
Proof. intros Hi Hh. unfold getHash. rewrite kv_Get_law by done. by rewrite (idx_hashes _ _ _ Hi h Hh). Qed.

Lemma max_at lo l x : indexed lo l (contents x) → getMaxBlockHeight x = Ok (top lo l).
Proof.
  intros [H1 H2 H3 H4]. unfold getMaxBlockHeight. rewrite kv_Get_law, H3 by done. apply D64_E64.
  unfold top, is_u64 in *. lia.
Qed.

Lemma hash_at_above lo l h : is_u64 h → 1 ≤ lo → top lo l < h → hash_at lo l (u64 h) = None.
Proof.
  intros Hh Hlo Ht. rewrite u64_small by done. unfold hash_at. case_decide; [|done].
  apply lookup_ge_None_2. unfold top in Ht. lia.
Qed.

Lemma after_loop_run lo l x h n : indexed lo l (contents x) → is_u64 h → lo ≤ h + 1 → ∀ fuel i re,
  n = Z.to_nat (top lo l + 1 - (h + i)) → (n < fuel)%nat → 1 ≤ i → h + i ≤ MAXUINT64 + 1 →
  after_loop fuel h i re x = Some (Ok (re ++ drop (Z.to_nat (h + i - lo)) l)).
Proof.
  intros Hi Hh Hlo. pose proof (idx_lo _ _ _ Hi) as H1. pose proof (idx_top _ _ _ Hi) as Ht.
  induction n as [|n IH]; intros fuel i re Hn Hf Hi1 Hw; (destruct fuel as [|fuel]; [lia|]); cbn [after_loop].
  - assert (hash_at lo l (h +₆₄ u64 i) = None) as Ha.
    { unfold add64, u64. rewrite Zplus_mod_idemp_r. destruct (decide (h + i = MAXUINT64 + 1)) as [E|E].
      - rewrite E. unfold hash_at. vm_compute ((MAXUINT64 + 1) mod _). by rewrite decide_False by lia.
      - apply (hash_at_above lo l (h + i)); [unfold is_u64 in *; lia|done|lia]. }
    rewrite (getHash_at lo l) by (done || apply add64_range). rewrite Ha. rewrite decide_True by done.
    rewrite drop_ge by (unfold top in *; lia). by rewrite app_nil_r.
  - assert (h +₆₄ u64 i = h + i) as Ea.
    { unfold add64, u64. rewrite Zplus_mod_idemp_r, Z.mod_small; [done|]. unfold is_u64, MAXUINT64, top in *. lia. }
    rewrite Ea. rewrite (getHash_at lo l) by (done || (unfold is_u64 in *; lia)).
    unfold hash_at. rewrite decide_True by lia.
    destruct (l !! Z.to_nat (h + i - lo)) as [k|] eqn:El; [|apply lookup_ge_None in El; unfold top in *; lia].
    rewrite IH by lia. rewrite <- app_assoc. do 3 f_equal. rewrite (drop_S _ _ _ El). cbn. do 3 f_equal. lia.
Qed.

Lemma GetAfterHashs_run lo l x h fuel : indexed lo l (contents x) → is_u64 h → (length l < fuel)%nat →
  GetAfterHashs fuel h x = Some (Ok (above lo l h)).
Proof.
  intros Hi Hh Hf. unfold GetAfterHashs, above. case_decide as Hlo.
  - rewrite (after_loop_run lo l x h _ Hi Hh Hlo fuel 1 [] eq_refl).
    + done.
    + unfold top. lia.
    + lia.
    + unfold is_u64 in Hh. lia.
  - destruct fuel as [|fuel]; [lia|]. cbn [after_loop].
    pose proof (idx_lo _ _ _ Hi) as H1. pose proof (idx_top _ _ _ Hi) as Ht.
    destruct (decide (h = MAXUINT64)) as [->|].
    { assert (MAXUINT64 +₆₄ u64 1 = 0) as -> by done. rewrite (getHash_at lo l) by done.
      unfold hash_at. by rewrite decide_False by lia. }
    change (u64 1) with 1. rewrite add64_small by (unfold is_u64 in *; lia).
    rewrite (getHash_at lo l) by (done || (unfold is_u64 in *; lia)).
    unfold hash_at. by rewrite decide_False.
Qed.

Lemma hash_or_nil_at lo l x h : indexed lo l (contents x) → is_u64 h →
  hash_or_nil h x = Ok (default [] (hash_at lo l h)).
Proof. intros Hi Hh. unfold hash_or_nil. rewrite (getHash_at lo l) by done. by destruct (hash_at lo l h). Qed.

Lemma E64func_u64 z : E64func z = E64func (u64 z).
Proof.
  unfold E64func, u64. rewrite <- (split_le_combine' (le_split 8 z) 8) by apply length_le_split.
  by rewrite le_combine_split.
Qed.
Lemma getHash_u64 h x : getHash h x = getHash (u64 h) x.
Proof. unfold getHash, height_key. by rewrite E64func_u64. Qed.

(** *** The tip *)

Lemma serves_block lo l x i k : serves lo l x → l !! i = Some k →
  ∃ b, getBlockByHash k x = Ok b ∧ Height b = lo + Z.of_nat i ∧ BHash b = k.
Proof. intros Hs Hk. by destruct (srv_blocks _ _ _ Hs _ _ Hk) as (_ & ?). Qed.

Lemma serves_inj lo l x i j k : serves lo l x → l !! i = Some k → l !! j = Some k → i = j.
Proof.
  intros Hs Hi Hj. destruct (serves_block _ _ _ _ _ Hs Hi) as (b & Hb & Hh & _).
  destruct (serves_block _ _ _ _ _ Hs Hj) as (b' & Hb' & Hh' & _). rewrite Hb in Hb'. injection Hb' as <-. lia.
Qed.

Lemma hash_at_Some lo l h k : hash_at lo l h = Some k → lo ≤ h ∧ l !! Z.to_nat (h - lo) = Some k.
Proof. unfold hash_at. by case_decide. Qed.

Lemma hash_at_top lo l k : 1 ≤ lo → last l = Some k → hash_at lo l (top lo l) = Some k.
Proof.
  intros Hlo Hk. rewrite last_lookup in Hk. pose proof (lookup_lt_Some _ _ _ Hk) as Hl. unfold hash_at, top.
  rewrite decide_True by lia. by replace (Z.to_nat _) with (pred (length l)) by lia.
Qed.

Lemma Tip_run lo l x k : serves lo l x → last l = Some k →
  ∃ b, Tip x = Ok b ∧ getBlockByHash k x = Ok b ∧ Height b = top lo l ∧ BHash b = k.
Proof.
  intros Hs Hk. pose proof (srv_index _ _ _ Hs) as Hi. pose proof (idx_lo _ _ _ Hi) as H1.
  pose proof (idx_top _ _ _ Hi) as Ht. pose proof Hk as Hk'. rewrite last_lookup in Hk'.
  pose proof (lookup_lt_Some _ _ _ Hk') as Hl.
  destruct (serves_block _ _ _ _ _ Hs Hk') as (b & Hb & Hh & Hbh). exists b.
  unfold Tip. rewrite (max_at lo l) by done. cbn [mbind res_bind].
  rewrite (getHash_at lo l) by (done || (unfold is_u64, top in *; lia)). rewrite hash_at_top with (k := k) by done.
  split_and!; try done. unfold top. lia.
Qed.

(** *** Branches *)

(** [k] is [hash] or a block below it. *)
Inductive ancestor x : bytes → bytes → Prop :=
  | anc_refl hash : ancestor x hash hash
  | anc_step hash b k : getBlockByHash hash x = Ok b → ancestor x (PrevHash b) k → ancestor x hash k.

Lemma FindChainBranch_main lo l x fuel : serves lo l x → ∀ hash m,
  FindChainBranch fuel hash x = Some (Ok m) →
  ∃ i, l !! i = Some (BHash m) ∧ Height m = lo + Z.of_nat i ∧ ancestor x hash (BHash m).
Proof.
  intros Hs. induction fuel as [|fuel IH]; intros hash m; cbn [FindChainBranch]; [done|].
  destruct (IsMainChainBlock hash x) as [[|]|e|] eqn:Em; try done.
  - intros [= Hm]. unfold IsMainChainBlock in Em. rewrite Hm in Em. cbn [mbind res_bind] in Em.
    destruct (getHash (Height m) x) as [k|e|] eqn:Eg; [|done..]. cbn [mbind res_bind] in Em.
    injection Em as Ek. apply bool_decide_eq_true in Ek as <-.
    rewrite getHash_u64, (getHash_at lo l) in Eg by (apply Hs || apply u64_range).
    destruct (hash_at lo l (u64 (Height m))) as [k|] eqn:Eh; [|done]. injection Eg as ->.
    apply hash_at_Some in Eh as [_ Hl]. destruct (serves_block _ _ _ _ _ Hs Hl) as (b & Hb & Hh & Hbh).
    rewrite Hm in Hb. injection Hb as <-. eexists. rewrite Hbh. split_and!; [exact Hl|exact Hh|constructor].
  - destruct (getBlockByHash hash x) as [b|e|] eqn:Eb; try done. intros (i & ? & ? & ?)%IH.
    exists i. split_and!; try done. by econstructor.
Qed.

Lemma branch_hashs_main lo l x fuel hash hs : serves lo l x → (length l < fuel)%nat →
  branch_hashs fuel hash x = Some (Ok hs) →
  ∃ i k, l !! i = Some k ∧ ancestor x hash k ∧ hs = drop i l.
Proof.
  intros Hs Hf. pose proof (srv_index _ _ _ Hs) as Hi. pose proof (idx_lo _ _ _ Hi). pose proof (idx_top _ _ _ Hi).
  unfold branch_hashs. destruct (FindChainBranch fuel hash x) as [[m|e|]|] eqn:Em; try done. cbn [obind].
  apply (FindChainBranch_main lo l) in Em as (i & Hl & Hh & Ha); [|done].
  pose proof (lookup_lt_Some _ _ _ Hl) as Hlt.
  rewrite (GetAfterHashs_run lo l) by (done || (unfold is_u64, top in *; lia)). cbn [obind]. intros [= <-].
  exists i, (BHash m). split_and!; try done. rewrite (drop_S _ _ _ Hl). f_equal. unfold above.
  rewrite decide_True by lia. f_equal. lia.
Qed.

(** *** What a synchronizing node is told *)

(** A node that is where the main chain is at its height is told what comes next. *)
Lemma SyncBlockchain_same lo l x fuel hash h :
  serves lo l x → (length l < fuel)%nat → is_u64 h → hash ≠ [] → hash_at lo l h = Some hash →
  SyncBlockchain fuel hash h x = Some (Ok (resp_same (take SyncLimit (above lo l h)) (top lo l))).
Proof.
  intros Hs Hf Hh Hne Hat. pose proof (srv_index _ _ _ Hs) as Hi.
  apply hash_at_Some in Hat as [Hlo Hl]. pose proof (lookup_lt_Some _ _ _ Hl) as Hlt.
  destruct (last l) as [kt|] eqn:Et; [|apply last_None in Et; subst; simpl in Hlt; lia].
  destruct (Tip_run lo l x kt Hs Et) as (tip & Ht & _ & Hth & Htb). unfold SyncBlockchain. rewrite Ht. cbn [obind].
  rewrite decide_False by naive_solver. rewrite Hth, Htb, decide_False by (unfold top; lia).
  assert (hash_at lo l h = Some hash) as Hat by (unfold hash_at; by rewrite decide_True).
  case_decide as Hk.
  - subst kt. rewrite last_lookup in Et. rewrite <- Hk in Hl. pose proof (serves_inj _ _ _ _ _ _ Hs Et Hl). unfold above. rewrite decide_True by lia.
    by rewrite drop_ge by lia.
  - rewrite (hash_or_nil_at lo l), Hat by done. cbn [obind default]. rewrite decide_True by done.
    by rewrite (GetAfterHashs_run lo l) by done.
Qed.

Lemma GetBlockchain_same lo l x fuel hash h :
  serves lo l x → (length l < fuel)%nat → is_u64 h → hash ≠ [] → hash_at lo l h = Some hash →
  GetBlockchain fuel hash h x = Some (Ok (resp_same (above lo l h) 0)).
Proof.
  intros Hs Hf Hh Hne Hat. pose proof (srv_index _ _ _ Hs) as Hi.
  apply hash_at_Some in Hat as [Hlo Hl]. pose proof (lookup_lt_Some _ _ _ Hl) as Hlt.
  destruct (last l) as [kt|] eqn:Et; [|apply last_None in Et; subst; simpl in Hlt; lia].
  destruct (Tip_run lo l x kt Hs Et) as (tip & Ht & _ & Hth & Htb). unfold GetBlockchain.
  rewrite decide_False by naive_solver. rewrite Ht. cbn [obind]. rewrite Hth, Htb.
  assert (hash_at lo l h = Some hash) as Hat by (unfold hash_at; by rewrite decide_True).
  case_decide as Hk.
  - rewrite last_lookup in Et. rewrite <- Hk in Hl. pose proof (serves_inj _ _ _ _ _ _ Hs Et Hl).
    unfold above. rewrite decide_True by lia. by rewrite drop_ge by lia.
  - rewrite decide_False by (unfold top; lia).
    rewrite (hash_or_nil_at lo l), Hat by done. cbn [obind default]. rewrite decide_True by done.
    by rewrite (GetAfterHashs_run lo l) by done.
Qed.

(** Whatever it is told is a piece of the main chain of this node. *)
Lemma SyncBlockchain_tells lo l x fuel hash h resp :
  serves lo l x → l ≠ [] → (length l < fuel)%nat → is_u64 h → hash ≠ [] →
  SyncBlockchain fuel hash h x = Some (Ok resp) →
  resp = resp_none ∨
  (resp = resp_same [] (top lo l) ∧ last l = Some hash ∧ h ≤ top lo l) ∨
  (resp = resp_same (take SyncLimit (above lo l h)) (top lo l) ∧ hash_at lo l h = Some hash) ∨
  (∃ i k, l !! i = Some k ∧ ancestor x hash k ∧ resp = resp_branch (take SyncLimit (drop i l)) (top lo l)).
Proof.
  intros Hs Hl Hf Hh Hne. pose proof (srv_index _ _ _ Hs) as Hi. unfold SyncBlockchain.
  destruct (last l) as [kt|] eqn:Et; [|by apply last_None in Et].
  destruct (Tip_run lo l x kt Hs Et) as (tip & Ht & _ & Hth & Htb). rewrite Ht. cbn [obind].
  rewrite decide_False by naive_solver. rewrite Hth, Htb. case_decide as Hlt; [intros [= <-]; by left|].
  case_decide as Hk; [intros [= <-]; right; left; split; [done|split; [congruence|lia]]|].
  rewrite (hash_or_nil_at lo l) by done. cbn [obind]. case_decide as Ha.
  - rewrite (GetAfterHashs_run lo l) by done. intros [= <-]. right; right; left. split; [done|].
    destruct (hash_at lo l h); cbn in Ha; congruence.
  - destruct (getBlockByHash hash x) as [b|[]|]; try done; [|intros [= <-]; by left].
    destruct (branch_hashs fuel hash x) as [[hs|e|]|] eqn:Eb; try done. cbn [obind]. intros [= <-].
    apply (branch_hashs_main lo l) in Eb as (i & k & Hk' & Hanc & ->); [|done..]. right; right; right. by exists i, k.
Qed.

Lemma FindbranchPoint_run lo l x hash h : indexed lo l (contents x) → is_u64 h → hash ≠ [] →
  FindbranchPoint hash h x = Ok (if decide (hash_at lo l h = Some hash) then (h, true) else (0, false)).
Proof.
  intros Hi Hh Hne. unfold FindbranchPoint. rewrite (hash_or_nil_at lo l) by done. cbn [mbind res_bind].
  destruct (hash_at lo l h) as [k|]; cbn.
  - do 2 case_decide; try done; congruence.
  - do 2 case_decide; congruence.
Qed.

End Facts.
