(* ===== verification/Sync.v ===== *)
(** Following the chain of a peer ([pkg/miner/insideclient.go]).

    The local chain and the peer are used through interfaces: [SyncChain] has the
    operations of the chain the code calls, [Greeter] those of the remote service.  A call
    of the service may fail for any reason (a time-out included), and may change what the
    service answers next, so it runs on the peer's own state. *)

From S2P Require Import Prelude Misc Badger BgStore Base58 Cbor Address Transaction Block World.
From S2P Require Import Ledger Economics Apply Queue Pool Peer.

(** ** Interfaces *)

Class SyncChain (BC : Type) := {
  sc_GetMaxBlockHeight : BC → res Z;
  sc_GetBlockByHeight : Z → BC → res Block;
  sc_GetBlockByHash : bytes → BC → res Block;
  sc_AddBlock : Block → stM BC unit;
  sc_AddBlocks : list Block → stM BC unit;
  sc_DeleteBlock : Z → stM BC unit;
  sc_AddUncleBlock : Block → stM BC unit;
  sc_ReorganizeChain : list bytes → Z → stM BC unit;
}.

Class Greeter (P : Type) := {
  rpc_SyncBlockchain : bytes → Z → stM P RespBlockchain;
  rpc_GetBlockchain : bytes → Z → stM P RespBlockchain;
  rpc_GetBlock : bytes → stM P bytes;
  rpc_GetBlockTip : stM P bytes;
  rpc_GetBlockHashsByHeight : Z → stM P (list bytes);
  rpc_FindbranchPoint : bytes → Z → stM P (Z * bool);
  rpc_SendBlock : bytes → bytes → stM P unit;
  rpc_GetTransactions : stM P (list bytes);
  rpc_VerifyVersion : stM P bytes;
  rpc_GetIPAddress : stM P (list bytes);
}.

(** ** The client *)

(** The local chain, the peer, the channel of blocks for the miner (the last one sent
    last), and whether the miner is started. *)
Record InsideClient (BC P : Type) := Client { bc : BC; cli : P; rpcChan : list Block; started : bool }.
Arguments Client {BC P} bc cli rpcChan started.
Arguments bc {BC P} i.
Arguments cli {BC P} i.
Arguments rpcChan {BC P} i.
Arguments started {BC P} i.

(** [&block.Block{}] *)
Definition zero_block : Block :=
  MkBlock 0 [] [] [] [] [] 0 0 0 (Addr []) None None 0 0 0.

(** Batches of [AddBlocks]. *)
Definition BatchSize : nat := 100.

Section Client.
Context {BC P : Type} `{!SyncChain BC, !Greeter P, !CborHeader}.
(** Whether the node mines at all: otherwise the miner has no signals and stays as it is. *)
Variable mines : bool.

Abbreviation M := (stM (InsideClient BC P)).

Definition on_bc {A} : stM BC A → M A := zoom bc (λ x c, Client x (cli c) (rpcChan c) (started c)).
Definition on_cli {A} : stM P A → M A := zoom cli (λ x c, Client (bc c) x (rpcChan c) (started c)).
Definition from_bc {A} (f : BC → res A) : M A := λ c, (f (bc c), c).

Definition set_started (b : bool) : M unit :=
  st_modify (λ c, Client (bc c) (cli c) (rpcChan c) (if mines then b else started c)).
Definition push (b : Block) : M unit :=
  st_modify (λ c, Client (bc c) (cli c) (rpcChan c ++ [b]) (started c)).

(** [inside.m.Stop(); defer inside.m.Start()] *)
Definition paused {A} (m : M A) : M A := λ c,
  let '(r, c) := (set_started false ;; m) c in (r, (set_started true c).2).

Definition fetch (hash : bytes) : M Block :=
  data ← on_cli (rpc_GetBlock hash);
  st_lift (Deserialize data).

(** ** Initial synchronization *)

(** The loop over the hashes above the local tip: a block that is not 200 below the peer's
    tip is added on its own, after the blocks collected so far; others are collected. *)
Fixpoint init_same (height : Z) (blocks : list Block) (hashs : list bytes) : M (list Block) :=
  match hashs with
  | [] => mret blocks
  | hash :: hashs =>
      b ← fetch hash;
      if decide (height -₆₄ Height b < 200) then
        (if decide (length blocks ≠ 0%nat) then on_bc (sc_AddBlocks blocks) else mret tt) ;;
        on_bc (sc_AddBlock b) ;;
        init_same height [] hashs
      else
        let blocks := blocks ++ [b] in
        if decide (length blocks = BatchSize) then on_bc (sc_AddBlocks blocks) ;; init_same height [] hashs
        else init_same height blocks hashs
  end.

Fixpoint init_branch (blocks : list Block) (hashs : list bytes) : M (list Block) :=
  match hashs with
  | [] => mret blocks
  | hash :: hashs =>
      b ← fetch hash;
      let blocks := blocks ++ [b] in
      if decide (length blocks = BatchSize) then on_bc (sc_AddBlocks blocks) ;; init_branch [] hashs
      else init_branch blocks hashs
  end.

(** The loop of [GetBlockInitchain]. *)
Fixpoint add_each (hashs : list bytes) : M unit :=
  match hashs with
  | [] => mret tt
  | hash :: hashs => b ← fetch hash; on_bc (sc_AddBlock b) ;; add_each hashs
  end.

(** The block asked about at height [i]: above [low] the one the node has there. *)
Definition block_at (low i : Z) : M Block :=
  if decide (i > low) then from_bc (sc_GetBlockByHeight i) else mret zero_block.

(** The peer's chain goes on from height [i]. *)
Definition follow (add : list bytes → M unit) (i : Z) (hashs : list bytes) : M Z :=
  on_bc (sc_DeleteBlock (i +₆₄ 1)) ;;
  add hashs ;;
  mret (Z.of_nat (length hashs)).

(** The peer has the local block as a branch: the first hash is where it leaves the peer's
    main chain. *)
Definition switch (add : list bytes → M unit) (hashs : list bytes) : M Z :=
  match hashs with
  | [] => st_panic
  | parenthash :: rest =>
      b ← from_bc (sc_GetBlockByHash parenthash);
      on_bc (sc_DeleteBlock (Height b +₆₄ 1)) ;;
      add rest ;;
      mret (Z.of_nat (length hashs))
  end.

(** [for i := h; …; i--], for [n] rounds; a round ends the loop unless the peer knows
    nothing about the block.  A code of -1 returns -1 with a nil error. *)
Fixpoint init_loop (same : Z → list bytes → M unit) (branch : list bytes → M unit) (n : nat) (i : Z) : M Z :=
  match n with
  | O => mret 0
  | S n =>
      tipblock ← block_at 0 i;
      respinfo ← on_cli (rpc_SyncBlockchain (BHash tipblock) (Height tipblock));
      if decide (Code respinfo = -1) then mret (-1)
      else if Issamechain respinfo then follow (same (RHeight respinfo)) i (Hashs respinfo)
      else if Isbranchchain respinfo then switch branch (Hashs respinfo)
      else init_loop same branch n (i - 1)
  end.

(** 100 block  commit.  The heights are those from [h] down to the initial one. *)
Definition GetBlockInitchains : M Z :=
  h ← from_bc sc_GetMaxBlockHeight;
  init_loop (λ height hashs, blocks ← init_same height [] hashs; on_bc (sc_AddBlocks blocks))
            (λ hashs, blocks ← init_branch [] hashs; on_bc (sc_AddBlocks blocks))
            (Z.to_nat (h - InitHeight + 1)) h.

(** The same with the blocks added one by one, down to the height above the initial one. *)
Definition GetBlockInitchain : M Z :=
  h ← from_bc sc_GetMaxBlockHeight;
  init_loop (λ _, add_each) add_each (Z.to_nat (h - InitHeight)) h.

(** ** Staying synchronized *)

(** Whatever goes wrong is logged, and the call returns. *)
Abbreviation attempt m k := (or_return m tt k).

Fixpoint push_each (hashs : list bytes) : M unit :=
  match hashs with
  | [] => mret tt
  | hash :: hashs => attempt (fetch hash) (λ b, push b ;; push_each hashs)
  end.

(** The highest height, from [height] down, where the peer has the same block; 0 if there
    is none above the initial height, or something goes wrong. *)
Fixpoint FindBranchPoint_loop (n : nat) (i : Z) : M Z :=
  match n with
  | O => mret 0
  | S n =>
      or_return (from_bc (sc_GetBlockByHeight i)) 0 (λ myself,
      or_return (on_cli (rpc_FindbranchPoint (BHash myself) i)) 0 (λ '(h, found),
      if (found : bool) then mret h else FindBranchPoint_loop n (i - 1)))
  end.
Definition FindBranchPoint (height : Z) : M Z := FindBranchPoint_loop (Z.to_nat (height - InitHeight)) height.

Variable genesisHash : bytes.

(** A block that cannot be serialized ends the program. *)
Definition SendBlcok (b : Block) : M unit :=
  match Serialize b with
  | Ok data => on_cli (rpc_SendBlock data genesisHash)
  | _ => st_panic
  end.

(** [for { Height++; if Height > h { return } … }], for at most [n] rounds. *)
Fixpoint send_above (n : nat) (height : Z) : M unit :=
  match n with
  | O => mret tt
  | S n =>
      attempt (from_bc (sc_GetBlockByHeight (height + 1))) (λ block,
      attempt (SendBlcok block) (λ _, send_above n (height + 1)))
  end.

(** The peer's blocks above the branch point become uncles, and then the main chain. *)
Fixpoint uncles (hashs : list bytes) : M unit :=
  match hashs with
  | [] => mret tt
  | hash :: hashs => b ← fetch hash; on_bc (sc_AddUncleBlock b) ;; uncles hashs
  end.

(** The local chain is the higher one, by 20 blocks at least: the one with the smaller
    target at the peer's height is kept. *)
Definition on_heigher (h : Z) (respinfo : RespBlockchain) : M unit :=
  if decide (h -₆₄ RHeight respinfo < 20) then mret tt else
  match Hashs respinfo with [] => st_panic | _ =>
  attempt (data ← on_cli rpc_GetBlockTip; st_lift (Deserialize data)) (λ tblock,
  attempt (from_bc (sc_GetBlockByHeight (Height tblock))) (λ equalHeightBlock,
  match GlobalDifficulty tblock, GlobalDifficulty equalHeightBlock with
  | Some x, Some y =>
      if decide (x < y) then
        paused (
          if decide (h -₆₄ RHeight respinfo > 5000) then mret tt else
          branch ← FindBranchPoint (RHeight respinfo);
          if decide (branch = 0) then mret tt else
          attempt (on_cli (rpc_GetBlockHashsByHeight branch)) (λ hashs,
          attempt (uncles hashs) (λ _,
          attempt (on_bc (sc_ReorganizeChain (rev hashs) (branch +₆₄ 1))) mret)))
      else
        branch ← FindBranchPoint (RHeight respinfo);
        if decide (h -₆₄ branch > 100) then mret tt else
        attempt (from_bc sc_GetMaxBlockHeight) (λ h, send_above (Z.to_nat (h - branch)) branch)
  | _, _ => st_panic
  end)) end.

Fixpoint chain_loop (h : Z) (n : nat) (i : Z) : M unit :=
  match n with
  | O => mret tt
  | S n =>
      attempt (block_at 1 i) (λ tipblock,
      attempt (on_cli (rpc_GetBlockchain (BHash tipblock) (Height tipblock))) (λ respinfo,
      if decide (Code respinfo = -1) then mret tt
      else if Issamechain respinfo then
        if decide (0 < length (Hashs respinfo))%nat then paused (push_each (Hashs respinfo)) else mret tt
      else if Isbranchchain respinfo then
        paused (match Hashs respinfo with [] => st_panic | _ :: rest => push_each rest end)
      else if Heigher respinfo then on_heigher h respinfo
      else chain_loop h n (i - 1)))
  end.

Definition GetBlockchain : M unit :=
  attempt (from_bc sc_GetMaxBlockHeight) (λ h, chain_loop h (Z.to_nat (h - InitHeight + 1)) h).

(** ** The other calls *)

Definition GetBlockByHash (hash : bytes) : M Block := fetch hash.

Definition VerifyVersion : M unit :=
  version ← on_cli rpc_VerifyVersion;
  if decide (genesisHash ≠ version) then st_err (ErrMsg "resp Versioninfo") else mret tt.

End Client.

(** The peer's transactions are offered to the pool; one that cannot be read ends the loop,
    one the pool refuses does not. *)
Section Transactions.
Context {BC : Type} `{!IBlockchain BC, !CborHeader, !Crypto, !EthCommon, !EvmData}.
Variables (g : globals) (now : Z).

Fixpoint add_txs (txs : list bytes) : stM (Pool BC) unit :=
  match txs with
  | [] => mret tt
  | tx :: txs =>
      or_return (st_lift (DeserializeSignaturedTransaction tx)) tt (λ signtx,
      ignore_err (Add g now signtx) tt ;; add_txs txs)
  end.

(** [resptxs] is the peer's answer. *)
Definition GetTransactions (resptxs : res (list bytes)) : stM (Pool BC) unit :=
  or_return (st_lift resptxs) tt add_txs.

End Transactions.

(** ** A peer that runs this code *)

(** The remote service over the store of another node: what it reads, and the channel of
    blocks of its miner.  [version], [hosts] and [txs] are the node's genesis hash, the
    addresses and the transactions it knows; a handler that does not end within its fuel
    makes the call exceed its deadline. *)
Record Serving (X : Type) := Serve { store : X; inbox : list Block }.
Arguments Serve {X} store inbox.
Arguments store {X} s.
Arguments inbox {X} s.

Section Served.
Context {X : Type} `{!Reader X, !CborHeader}.
Variables (fuel : nat) (version : bytes) (hosts txs : list bytes).

Definition within {A} (m : option (res A)) : res A :=
  match m with Some r => r | None => err "DeadlineExceeded" end.
Definition answer {A} (f : X → res A) : stM (Serving X) A := λ p, (f (store p), p).

Definition served : Greeter (Serving X) := {|
  rpc_SyncBlockchain hash h := answer (λ x, within (Peer.SyncBlockchain fuel hash h x));
  rpc_GetBlockchain hash h := answer (λ x, within (Peer.GetBlockchain fuel hash h x));
  rpc_GetBlock hash := answer (GetBlock hash);
  rpc_GetBlockTip := answer GetBlockTip;
  rpc_GetBlockHashsByHeight h := answer (λ x, within (GetBlockHashsByHeight fuel h x));
  rpc_FindbranchPoint hash h := answer (FindbranchPoint hash h);
  rpc_SendBlock data theirs := λ p,
    match SendBlock version theirs data with
    | Ok (Some b) => (Ok tt, Serve (store p) (inbox p ++ [b]))
    | Ok None => (Ok tt, p)
    | Err e => (Err e, p)
    | Panic => (Panic, p)
    end;
  rpc_GetTransactions := answer (λ _, Ok txs);
  rpc_VerifyVersion := answer (λ _, Peer.VerifyVersion version);
  rpc_GetIPAddress := answer (λ _, Ok hosts);
|}.

End Served.

(** ** Known hosts *)

(** [GetIPAddress] adds addresses as long as there are at most ten. *)
Fixpoint add_hosts (Hosts : gset bytes) (addrs : list bytes) : gset bytes :=
  match addrs with
  | [] => Hosts
  | addr :: addrs => if decide (10 < size Hosts)%nat then Hosts else add_hosts ({[addr]} ∪ Hosts) addrs
  end.

Definition RemoveHostaddr (ip : bytes) (Hosts : gset bytes) : gset bytes :=
  if decide (size Hosts < 6)%nat then Hosts else Hosts ∖ {[ip]}.

Definition addressmanager (ip : bytes) (Hosts : gset bytes) : gset bytes :=
  if decide (ip ∈ Hosts) then Hosts ∖ {[ip]} else Hosts.
