(* ===== verification/SyncFacts.v ===== *)
(** Following a peer: what a node's chain is after a synchronization with another node. *)

From S2P Require Import Prelude Misc Badger BgStore Base58 Cbor Address Transaction Block.
From S2P Require Import Ledger Difficulty Economics World Apply Chain Frames ChainFacts IndexFacts.
From S2P Require Import Queue Pool Peer PeerFacts Sync.

(** What following a peer relies on: [main lo l c], the chain [c] has the hashes [l] on its
    main chain from height [lo] on; adding blocks appends to it or leaves it alone. *)
Class SyncChainLaws (BC : Type) `{!SyncChain BC} := {
  main : Z → list bytes → BC → Prop;
  main_max lo l c : main lo l c → sc_GetMaxBlockHeight c = Ok (top lo l);
  main_top lo l c : main lo l c → 1 ≤ lo ∧ top lo l ≤ MAXUINT64;
  main_add lo l b c r c' :
    main lo l c → length (BHash b) = 32%nat → sc_AddBlock b c = (r, c') → r ≠ Panic →
    main lo (if decide (r = Ok tt) then l ++ [BHash b] else l) c';
  main_adds lo l bs c r c' :
    main lo l c → Forall (λ b, length (BHash b) = 32%nat) bs → sc_AddBlocks bs c = (r, c') → r ≠ Panic →
    main lo (if decide (r = Ok tt) then l ++ (BHash <$> bs) else l) c';
  main_delete lo l h c : main lo l c → top lo l < h → sc_DeleteBlock h c = (Ok tt, c);
}.

Section Facts.
Context {BC X : Type} `{!SyncChain BC, !SyncChainLaws BC, !Reader X, !ReaderLaws X, !CborHeader}.
Variables (mines : bool) (fuel : nat) (version : bytes) (hosts txs : list bytes).
#[local] Instance peer_served : Greeter (Serving X) := served fuel version hosts txs.
Implicit Types (s : InsideClient BC (Serving X)) (x : X).

(** *** Fetching blocks *)

(** The blocks under the hashes can be sent: they are serialized to something that is read
    back with the same hash. *)
Definition sendable (m : list bytes) x : Prop :=
  ∀ k, k ∈ m → length k = 32%nat ∧ ∃ data b, GetBlock k x = Ok data ∧ Deserialize data = Ok b ∧ BHash b = k.

Lemma fetch_run k m s : sendable m (store (cli s)) → k ∈ m →
  ∃ b, fetch k s = (Ok b, s) ∧ BHash b = k ∧ length k = 32%nat.
Proof.
  intros Hs Hk. destruct (Hs k Hk) as (Hl & data & b & Hd & Hb & He). exists b. split_and!; try done.
  unfold fetch, on_cli, rpc_GetBlock, peer_served, served, answer. unfold mbind, stM_bind, zoom. cbn.
  rewrite Hd. unfold st_lift. rewrite Hb. by destruct s as [? [? ?] ? ?].
Qed.

(** *** Adding what was fetched *)

Definition full (b : Block) : Prop := length (BHash b) = 32%nat.

Lemma on_bc_run {A} (m : stM BC A) s r s' :
  on_bc m s = (r, s') → ∃ c', m (bc s) = (r, c') ∧ s' = Client c' (cli s) (rpcChan s) (started s).
Proof. intros (c' & ? & ->)%zoom_inv. by exists c'. Qed.

(** A run that hands the blocks [blocks] on to the chain. *)
Definition hands_over lo blocks (m : stM (InsideClient BC (Serving X)) unit) : Prop :=
  ∀ s r s' L, main lo L (bc s) → m s = (r, s') → r ≠ Panic →
    cli s' = cli s ∧ main lo (if decide (r = Ok tt) then L ++ (BHash <$> blocks) else L) (bc s').

Lemma AddBlocks_hands lo blocks : Forall full blocks → hands_over lo blocks (on_bc (sc_AddBlocks blocks)).
Proof. intros Hf s r s' L Hm (c' & Hr & ->)%on_bc_run Hp. split; [done|]. by eapply main_adds. Qed.
Lemma AddBlock_hands lo b : full b → hands_over lo [b] (on_bc (sc_AddBlock b)).
Proof. intros Hf s r s' L Hm (c' & Hr & ->)%on_bc_run Hp. split; [done|]. by eapply main_add. Qed.
Lemma flush_hands lo blocks : Forall full blocks →
  hands_over lo blocks (if decide (length blocks ≠ 0%nat) then on_bc (sc_AddBlocks blocks) else mret tt).
Proof.
  intros Hf. case_decide as Hl; [by apply AddBlocks_hands|]. apply length_zero_iff_nil in Hl as ->.
  intros s r s' L Hm [= <- <-] Hp. split; [done|]. by rewrite decide_True, app_nil_r.
Qed.
(** [run], from [s], extends the main chain [L] by a prefix of [hs], and leaves the peer as
    it was; when it succeeds, [rest] is what is left of [hs]. *)
Definition grows {A} lo (L hs : list bytes) s (run : res A * InsideClient BC (Serving X)) (rest : A → list bytes) : Prop :=
  run.1 ≠ Panic → cli run.2 = cli s ∧ ∃ j, (j ≤ length hs)%nat ∧ main lo (L ++ take j hs) (bc run.2) ∧
    ∀ a, run.1 = Ok a → rest a = drop j hs.

Lemma grows_hand {A} lo L blocks hs s m (k : stM (InsideClient BC (Serving X)) A) rest :
  main lo L (bc s) → hands_over lo blocks m →
  (∀ s1, cli s1 = cli s → main lo (L ++ (BHash <$> blocks)) (bc s1) →
     grows lo (L ++ (BHash <$> blocks)) hs s1 (k s1) rest) →
  grows lo L ((BHash <$> blocks) ++ hs) s ((m ;; k) s) rest.
Proof.
  intros Hm Hh Hk. unfold grows, mbind, stM_bind. destruct (m s) as [r s1] eqn:E. intros Hp.
  assert (r ≠ Panic) as Hr by (intros ->; done).
  destruct (Hh s r s1 L Hm E Hr) as [Hc Hm1]. destruct r as [[]|e|]; [| |done].
  - rewrite decide_True in Hm1 by done. destruct (Hk s1 Hc Hm1 Hp) as (Hc2 & j & Hj & Hm2 & Hrest).
    split; [congruence|]. exists (length (BHash <$> blocks) + j)%nat. rewrite length_app. split; [lia|].
    rewrite take_app_add. rewrite (assoc_L (++)). split; [done|].
    intros a Ha. rewrite drop_app_add. by apply Hrest.
  - cbn in *. rewrite decide_False in Hm1 by done. split; [done|]. exists 0%nat. rewrite app_nil_r.
    split_and!; [lia|done|done].
Qed.

Lemma grows_ret {A} lo L hs s (a : A) rest : main lo L (bc s) → rest a = hs → grows lo L hs s ((mret a : stM (InsideClient BC (Serving X)) A) s) rest.
Proof.
  intros Hm Hr _. split; [done|]. exists 0%nat. rewrite app_nil_r. split_and!; [lia|done|]. by intros ? [= <-].
Qed.

Lemma grows_fetch {A} lo L k hs s (f : Block → stM (InsideClient BC (Serving X)) A) rest whole :
  sendable (k :: hs) (store (cli s)) →
  (∀ b, BHash b = k → full b → grows lo L whole s (f b s) rest) →
  grows lo L whole s ((b ← fetch k; f b) s) rest.
Proof.
  intros Hs Hf. destruct (fetch_run k _ s Hs) as (b & Hb & Hbk & Hl); [by left|].
  unfold mbind, stM_bind. rewrite Hb. apply Hf; [done|]. unfold full. by rewrite Hbk.
Qed.

Lemma sendable_tail k m x : sendable (k :: m) x → sendable m x.
Proof. intros Hs i Hi. apply Hs. by right. Qed.

Definition left_of (bs : list Block) : list bytes := BHash <$> bs.

Lemma init_same_grows lo height hashs : ∀ blocks s L,
  main lo L (bc s) → sendable hashs (store (cli s)) → Forall full blocks →
  grows lo L ((BHash <$> blocks) ++ hashs) s (init_same height blocks hashs s) left_of.
Proof.
  induction hashs as [|k hashs IH]; intros blocks s L Hm Hs Hf; cbn [init_same].
  { apply grows_ret; [done|]. by rewrite app_nil_r. }
  eapply grows_fetch; [exact Hs|]. intros b <- Hb. apply sendable_tail in Hs. cbn zeta. case_decide.
  - apply grows_hand; [done|by apply flush_hands|]. intros s1 Hc1 Hm1.
    change (BHash b :: hashs) with ((BHash <$> [b]) ++ hashs).
    apply grows_hand; [done|by apply AddBlock_hands|]. intros s2 Hc2 Hm2.
    apply (IH [] s2); [done|by rewrite Hc2, Hc1|done].
  - assert ((BHash <$> blocks) ++ BHash b :: hashs = (BHash <$> (blocks ++ [b])) ++ hashs) as ->
      by (by rewrite fmap_app, <- (assoc_L (++))).
    assert (Forall full (blocks ++ [b])) as Hf' by (apply Forall_app; split; [done|by constructor]).
    case_decide; [|by apply IH]. apply grows_hand; [done|by apply AddBlocks_hands|]. intros s1 Hc1 Hm1.
    apply (IH [] s1); [done|by rewrite Hc1|done].
Qed.

(** What adds all the blocks of a list of hashes. *)
Definition adder lo (f : list bytes → stM (InsideClient BC (Serving X)) unit) : Prop :=
  ∀ hs s L, main lo L (bc s) → sendable hs (store (cli s)) → grows lo L hs s (f hs s) (λ _, []).

Lemma init_same_adder lo height :
  adder lo (λ hs, blocks ← init_same height [] hs; on_bc (sc_AddBlocks blocks)).
Proof.
  intros hs s L Hm Hs. unfold grows, mbind, stM_bind.
  pose proof (init_same_grows lo height hs [] s L Hm Hs (List.Forall_nil _)) as Hg. cbn [app fmap list_fmap] in Hg.
  destruct (init_same height [] hs s) as [r s1]. intros Hp. assert (r ≠ Panic) as Hr by (intros ->; done).
  destruct (Hg Hr) as (Hc & j & Hj & Hm1 & Hrest). cbn [fst snd] in Hc, Hm1, Hrest.
  destruct r as [bs|e|]; [| |done].
  - specialize (Hrest bs eq_refl). unfold left_of in Hrest.
    assert (Forall full bs) as Hf.
    { apply Forall_forall. intros b Hb. apply Hs.
      rewrite <- (take_drop j hs), <- Hrest, elem_of_app. right. by apply list_elem_of_fmap_2. }
    destruct (on_bc (sc_AddBlocks bs) s1) as [r2 s2] eqn:E2. cbn [fst snd] in *.
    destruct (AddBlocks_hands lo bs Hf s1 r2 s2 _ Hm1 E2 Hp) as [Hc2 Hm2]. split; [by rewrite Hc2|].
    destruct r2 as [[]|e|]; [| |done].
    + exists (length hs). rewrite decide_True in Hm2 by done.
      rewrite <- (assoc_L (++)), Hrest, take_drop in Hm2. rewrite take_ge, drop_ge by lia. by split_and!.
    + exists j. rewrite decide_False in Hm2 by done. by split_and!.
  - split; [done|]. exists j. by split_and!.
Qed.

Lemma add_each_adder lo : adder lo add_each.
Proof.
  intros hs. induction hs as [|k hs IH]; intros s L Hm Hs; cbn [add_each]; [by apply grows_ret|].
  eapply grows_fetch; [exact Hs|]. intros b <- Hb. change (BHash b :: hs) with ((BHash <$> [b]) ++ hs).
  apply sendable_tail in Hs. apply grows_hand; [done|by apply AddBlock_hands|]. intros s1 Hc1 Hm1.
  apply IH; [done|by rewrite Hc1].
Qed.

(** *** One synchronization *)

(** The node [s] stores the main chain [l] from height [lo] on, and can read its tip. *)
Definition at_tip lo l (c : BC) : Prop :=
  main lo l c ∧ ∃ tip, sc_GetBlockByHeight (top lo l) c = Ok tip ∧ Height tip = top lo l ∧
    last l = Some (BHash tip) ∧ length (BHash tip) = 32%nat.

Lemma above_top lo l m : 1 ≤ lo → above lo (l ++ m) (top lo l) = m.
Proof.
  intros Hlo. unfold above, top. rewrite decide_True by lia.
  replace (Z.to_nat _) with (length l) by lia. apply drop_app_length.
Qed.

Lemma init_loop_follows lo l m s n same branch :
  (∀ height, adder lo (same height)) → (length (l ++ m) < fuel)%nat → top lo l < MAXUINT64 →
  at_tip lo l (bc s) → serves lo (l ++ m) (store (cli s)) → sendable m (store (cli s)) →
  let '(r, s') := init_loop same branch (S n) (top lo l) s in
  r ≠ Panic → cli s' = cli s ∧ ∃ j, (j ≤ SyncLimit)%nat ∧ main lo (l ++ take j m) (bc s') ∧
    ∀ z, r = Ok z → take j m = take SyncLimit m ∧ z = Z.of_nat (length (take SyncLimit m)).
Proof.
  intros Hadd Hf Hmax (Hm & tip & Htip & Hth & Htl & Htlen) Hsrv Hsend.
  destruct (main_top _ _ _ Hm) as [Hlo Htop].
  assert (0 < top lo l) as Hpos.
  { rewrite last_lookup in Htl. apply lookup_lt_Some in Htl. unfold top. lia. }
  cbn [init_loop]. unfold block_at. rewrite decide_True by lia.
  unfold mbind, stM_bind at 1, from_bc at 1. rewrite Htip. cbn beta iota.
  unfold stM_bind at 1, on_cli at 1, zoom at 1.
  assert (rpc_SyncBlockchain (BHash tip) (Height tip) (cli s) =
    (Ok (resp_same (take SyncLimit m) (top lo (l ++ m))), cli s)) as ->.
  { unfold rpc_SyncBlockchain, peer_served, served, answer. rewrite Hth, (SyncBlockchain_same lo (l ++ m)).
    - unfold within. by rewrite above_top.
    - done.
    - done.
    - unfold is_u64. lia.
    - intros Hn. by rewrite Hn in Htlen.
    - assert (l ≠ []) as Hne by (by intros ->). unfold hash_at, top. rewrite last_lookup in Htl.
      pose proof (lookup_lt_Some _ _ _ Htl). rewrite decide_True by lia.
      replace (Z.to_nat _) with (pred (length l)) by lia. by apply lookup_app_l_Some. }
  cbn beta iota. cbn [Code resp_same Issamechain Hashs RHeight]. rewrite decide_False by done.
  assert (Client (bc s) (cli s) (rpcChan s) (started s) = s) as -> by by destruct s.
  unfold follow, mbind, stM_bind at 1, on_bc at 1, zoom at 1.
  rewrite add64_small by lia. rewrite (main_delete lo l) by (done || lia). cbn beta iota.
  assert (Client (bc s) (cli s) (rpcChan s) (started s) = s) as -> by by destruct s.
  unfold stM_bind. pose proof (Hadd (top lo (l ++ m)) (take SyncLimit m) s l Hm) as Hg.
  destruct (same (top lo (l ++ m)) (take SyncLimit m) s) as [r s1].
  assert (sendable (take SyncLimit m) (store (cli s))) as Hs1.
  { intros k Hk. apply Hsend. rewrite <- (take_drop SyncLimit m), elem_of_app. by left. }
  specialize (Hg Hs1). unfold grows in Hg. cbn [fst snd] in Hg.
  destruct r as [[]|e|]; [| |done]; intros _; destruct Hg as (Hc & j & Hj & Hm1 & Hrest); [done| |done|].
  all: split; [done|]; rewrite take_take in Hm1.
  - specialize (Hrest tt eq_refl). exists (min j SyncLimit). split_and!; [lia|done|]. intros z [= <-].
    assert (length (take SyncLimit m) ≤ j)%nat as Hle.
    { destruct (decide (length (take SyncLimit m) ≤ j)%nat); [done|].
      assert (length (drop j (take SyncLimit m)) = 0%nat) as Hl by by rewrite <- Hrest.
      rewrite length_drop in Hl. lia. }
    split; [|done]. rewrite <- take_take. by rewrite take_ge.
  - exists (min j SyncLimit). split_and!; [lia|done|done].
Qed.

Lemma GetBlockInitchains_follows lo l m s r s' :
  (length (l ++ m) < fuel)%nat → InitHeight ≤ top lo l < MAXUINT64 →
  at_tip lo l (bc s) → serves lo (l ++ m) (store (cli s)) → sendable m (store (cli s)) →
  GetBlockInitchains s = (r, s') → r ≠ Panic →
  cli s' = cli s ∧ ∃ j, (j ≤ SyncLimit)%nat ∧ main lo (l ++ take j m) (bc s') ∧
    ∀ z, r = Ok z → take j m = take SyncLimit m ∧ z = Z.of_nat (length (take SyncLimit m)).
Proof.
  intros Hf Ht Htip Hsrv Hsend E Hp. unfold GetBlockInitchains, mbind, stM_bind at 1, from_bc at 1 in E.
  rewrite (main_max lo l) in E by apply Htip. cbn beta iota in E.
  destruct (Z.to_nat (top lo l - InitHeight + 1)) as [|n] eqn:En; [lia|].
  pose proof (init_loop_follows lo l m s n _
    (λ hashs, blocks ← init_branch [] hashs; on_bc (sc_AddBlocks blocks)) (init_same_adder lo) Hf) as Hg.
  unfold mbind in Hg. rewrite E in Hg. apply Hg; try done. lia.
Qed.

(** *** Blocks for the miner *)

Lemma push_each_run hs : ∀ s, sendable hs (store (cli s)) →
  ∃ bs, push_each hs s = (Ok tt, Client (bc s) (cli s) (rpcChan s ++ bs) (started s)) ∧ BHash <$> bs = hs.
Proof.
  induction hs as [|k hs IH]; intros s Hs; cbn [push_each].
  { exists []. rewrite app_nil_r. by destruct s. }
  destruct (fetch_run k _ s Hs) as (b & Hb & Hbk & _); [by left|]. apply sendable_tail in Hs.
  unfold or_return. rewrite Hb. unfold push, st_modify, mbind, stM_bind.
  destruct (IH (Client (bc s) (cli s) (rpcChan s ++ [b]) (started s)) Hs) as (bs & Hr & He).
  exists (b :: bs). rewrite Hr. cbn [rpcChan bc cli started]. rewrite <- (assoc_L (++)). split; [done|].
  rewrite fmap_cons. congruence.
Qed.

Lemma GetBlockchain_pushes lo l m s :
  (length (l ++ m) < fuel)%nat → InitHeight ≤ top lo l → at_tip lo l (bc s) →
  serves lo (l ++ m) (store (cli s)) → sendable m (store (cli s)) →
  ∃ bs, GetBlockchain mines version s =
    (Ok tt, Client (bc s) (cli s) (rpcChan s ++ bs) (if mines && bool_decide (m ≠ []) then true else started s)) ∧
    BHash <$> bs = m.
Proof.
  intros Hf Ht (Hm & tip & Htip & Hth & Htl & Htlen) Hsrv Hsend.
  destruct (main_top _ _ _ Hm) as [Hlo Htop]. unfold GetBlockchain, or_return at 1, from_bc at 1.
  rewrite (main_max lo l) by done. cbn beta iota.
  destruct (Z.to_nat (top lo l - InitHeight + 1)) as [|n] eqn:En; [lia|]. cbn [chain_loop].
  unfold block_at. rewrite decide_True by (unfold InitHeight in Ht; lia).
  unfold or_return at 1, from_bc at 1. rewrite Htip. cbn beta iota.
  unfold or_return at 1, on_cli at 1, zoom at 1.
  assert (rpc_GetBlockchain (BHash tip) (Height tip) (cli s) = (Ok (resp_same m 0), cli s)) as ->.
  { unfold rpc_GetBlockchain, peer_served, served, answer. rewrite Hth, (GetBlockchain_same lo (l ++ m)).
    - unfold within. by rewrite above_top.
    - done.
    - done.
    - unfold is_u64, InitHeight in *. lia.
    - intros Hn. by rewrite Hn in Htlen.
    - unfold hash_at, top. rewrite last_lookup in Htl.
      pose proof (lookup_lt_Some _ _ _ Htl). rewrite decide_True by lia.
      replace (Z.to_nat _) with (pred (length l)) by lia. by apply lookup_app_l_Some. }
  cbn beta iota. cbn [Code resp_same Issamechain Hashs RHeight]. rewrite decide_False by done.
  assert (Client (bc s) (cli s) (rpcChan s) (started s) = s) as -> by by destruct s.
  destruct m as [|k m].
  - rewrite decide_False by (simpl; lia). exists []. rewrite app_nil_r, andb_false_r. by destruct s.
  - rewrite decide_True by (simpl; lia). rewrite bool_decide_eq_true_2, andb_true_r by done.
    unfold paused, set_started, st_modify, mbind, stM_bind.
    destruct (push_each_run (k :: m) (Client (bc s) (cli s) (rpcChan s) (if mines then false else started s)))
      as (bs & Hr & He); [done|].
    exists bs. cbn [bc cli rpcChan started] in *. rewrite Hr. cbn [snd bc cli rpcChan started]. split; [|done].
    by destruct mines.
Qed.

(** *** The branch point *)

(** The two main chains have the same block at a height. *)
Definition common lo l lo' l' h : Prop := ∃ k, hash_at lo l h = Some k ∧ hash_at lo' l' h = Some k.

(** The blocks of the local main chain can be read, with the hash they are found under. *)
Definition readable lo l (c : BC) : Prop :=
  ∀ h k, hash_at lo l h = Some k → length k = 32%nat ∧ ∃ b, sc_GetBlockByHeight h c = Ok b ∧ BHash b = k.

(** [r] is the highest common height from [h] down to above the initial one, or 0. *)
Definition branch_point lo l lo' l' (h r : Z) : Prop :=
  (r = 0 ∨ InitHeight < r ≤ h ∧ common lo l lo' l' r) ∧
  ∀ i, InitHeight < i ≤ h → r < i → ¬ common lo l lo' l' i.

Lemma hash_at_is_Some lo l h : lo ≤ h ≤ top lo l → is_Some (hash_at lo l h).
Proof. intros Hh. unfold hash_at. rewrite decide_True by lia. apply lookup_lt_is_Some. unfold top in Hh. lia. Qed.

Lemma FindBranchPoint_loop_run lo l lo' l' s n : lo ≤ InitHeight + 1 → top lo l ≤ MAXUINT64 →
  readable lo l (bc s) → indexed lo' l' (contents (store (cli s))) → ∀ i,
  n = Z.to_nat (i - InitHeight) → i ≤ top lo l →
  ∃ r, FindBranchPoint_loop n i s = (Ok r, s) ∧ branch_point lo l lo' l' i r.
Proof.
  intros Hlo Htop Hread Hi. induction n as [|n IH]; intros i Hn Hit; cbn [FindBranchPoint_loop].
  { exists 0. split; [done|]. split; [by left|]. lia. }
  assert (InitHeight < i) as Hii by lia.
  destruct (hash_at_is_Some lo l i) as [k Hk]; [lia|]. destruct (Hread i k Hk) as (Hkl & b & Hb & Hbk).
  unfold or_return at 1, from_bc at 1. rewrite Hb. cbn beta iota.
  unfold or_return at 1, on_cli at 1, zoom at 1, rpc_FindbranchPoint, peer_served, served, answer.
  rewrite (FindbranchPoint_run lo' l') by (done || (unfold is_u64, InitHeight in *; lia) ||
                                           (rewrite Hbk; by intros ->)).
  rewrite Hbk. cbn beta iota.
  assert (Client (bc s) (cli s) (rpcChan s) (started s) = s) as -> by by destruct s.
  case_decide as Hd; cbn beta iota.
  - exists i. split; [done|]. split; [right; split; [lia|by exists k]|]. lia.
  - destruct (IH (i - 1)) as (r & Hr & Hr1 & Hr2); [lia..|]. exists r. split; [exact Hr|]. split.
    + destruct Hr1 as [?|[? ?]]; [by left|right; split; [lia|done]].
    + intros j Hj Hrj. destruct (decide (j = i)) as [->|]; [|apply Hr2; lia].
      intros (k' & Hk' & Hk''). rewrite Hk in Hk'. by injection Hk' as <-.
Qed.

Lemma FindBranchPoint_spec_at lo l lo' l' s h : lo ≤ InitHeight + 1 → top lo l ≤ MAXUINT64 →
  readable lo l (bc s) → indexed lo' l' (contents (store (cli s))) → h ≤ top lo l →
  ∃ r, FindBranchPoint h s = (Ok r, s) ∧ branch_point lo l lo' l' h r.
Proof. intros. by apply FindBranchPoint_loop_run. Qed.

Lemma branch_point_unique lo l lo' l' h r r' :
  branch_point lo l lo' l' h r → branch_point lo l lo' l' h r' → r = r'.
Proof.
  intros [[->|[Hr Hc]] Hu] [[->|[Hr' Hc']] Hu']; try done.
  - destruct (decide (InitHeight < r')); [|lia]. exfalso. by apply (Hu r'); [lia|unfold InitHeight in *; lia|].
  - exfalso. apply (Hu' r); [lia|unfold InitHeight in *; lia|done].
  - destruct (Z.lt_trichotomy r r') as [Hl|[Hl|Hl]]; [|done|]; exfalso; [by apply (Hu r'); [lia..|]|by apply (Hu' r); [lia..|]].
Qed.

(** *** A lower chain with a smaller target *)

Lemma on_bc_bind {A B} (m : stM BC A) (f : A → stM BC B) s : on_bc (m ≫= f) s = (on_bc m ≫= λ a, on_bc (f a)) s.
Proof.
  unfold mbind, stM_bind, on_bc, zoom. destruct (m (bc s)) as [[a|e|] c]; [|done..].
  cbn [bc]. by destruct (f a c).
Qed.

Lemma uncles_run hs : ∀ s, sendable hs (store (cli s)) →
  ∃ bs, uncles hs s = on_bc (st_iter sc_AddUncleBlock bs) s ∧ BHash <$> bs = hs.
Proof.
  induction hs as [|k hs IH]; intros s Hs; cbn [uncles].
  { exists []. split; [|done]. by destruct s. }
  destruct (fetch_run k _ s Hs) as (b & Hb & Hbk & _); [by left|]. apply sendable_tail in Hs.
  assert (∀ c, ∃ bs, uncles hs (Client c (cli s) (rpcChan s) (started s)) =
    on_bc (st_iter sc_AddUncleBlock bs) (Client c (cli s) (rpcChan s) (started s)) ∧ BHash <$> bs = hs) as Hall
    by (intros c; by apply IH).
  unfold mbind, stM_bind. rewrite Hb. unfold on_bc at 1, zoom at 1.
  destruct (sc_AddUncleBlock b (bc s)) as [r c] eqn:E. destruct (Hall c) as (bs & Hr & He).
  exists (b :: bs). split; [|rewrite fmap_cons; congruence]. cbn [st_iter].
  rewrite (on_bc_bind (sc_AddUncleBlock b) (λ _, st_iter sc_AddUncleBlock bs)).
  unfold mbind, stM_bind, on_bc at 1, zoom at 1. rewrite E. by destruct r.
Qed.

(** What is left to do once everything has been asked. *)
Definition reorganize_to (bs : list Block) (r : Z) : stM (InsideClient BC (Serving X)) unit :=
  or_return (on_bc (st_iter sc_AddUncleBlock bs)) tt (λ _,
  or_return (on_bc (sc_ReorganizeChain (rev (BHash <$> bs)) (r +₆₄ 1))) tt mret).

Lemma paused_bind_stable {A} (m : stM (InsideClient BC (Serving X)) A) (k : A → stM (InsideClient BC (Serving X)) unit)
    s a : (∀ b, m (Client (bc s) (cli s) (rpcChan s) b) = (Ok a, Client (bc s) (cli s) (rpcChan s) b)) →
  paused mines (m ≫= k) s = paused mines (k a) s.
Proof.
  intros Hm. unfold paused, set_started, st_modify, mbind, stM_bind. by rewrite Hm.
Qed.

Lemma on_heigher_reorganizes lo l lo' l' s t (dt dm : Z) tip data mine :
  lo ≤ InitHeight + 1 → top lo l ≤ MAXUINT64 → readable lo l (bc s) → serves lo' l' (store (cli s)) →
  sendable l' (store (cli s)) → (length l' < fuel)%nat → 20 ≤ top lo l - top lo' l' ≤ 5000 →
  Tip (store (cli s)) = Ok tip → Serialize tip = Ok data → Deserialize data = Ok tip →
  sc_GetBlockByHeight (Height tip) (bc s) = Ok mine →
  GlobalDifficulty tip = Some dt → GlobalDifficulty mine = Some dm → dt < dm →
  ∃ r, branch_point lo l lo' l' (top lo' l') r ∧
    (r = 0 → on_heigher mines version (top lo l) (resp_heigher [t] (top lo' l')) s = paused mines (mret tt) s) ∧
    (r ≠ 0 → ∃ bs, BHash <$> bs = above lo' l' r ∧
       on_heigher mines version (top lo l) (resp_heigher [t] (top lo' l')) s = paused mines (reorganize_to bs r) s).
Proof.
  intros Hlo Htop Hread Hsrv Hsend Hf Hdiff Htip Hser Hdes Hmine Hx Hy Hxy.
  pose proof (srv_index _ _ _ Hsrv) as Hidx. pose proof (idx_lo _ _ _ Hidx). pose proof (idx_top _ _ _ Hidx).
  destruct (FindBranchPoint_spec_at lo l lo' l' s (top lo' l')) as (r & _ & Hb); try done; [lia|].
  exists r. split; [done|].
  assert (∀ b, FindBranchPoint (top lo' l') (Client (bc s) (cli s) (rpcChan s) b) =
    (Ok r, Client (bc s) (cli s) (rpcChan s) b)) as Hfind.
  { intros b. destruct (FindBranchPoint_spec_at lo l lo' l' (Client (bc s) (cli s) (rpcChan s) b) (top lo' l'))
      as (r' & Hr' & Hb'); try done; [lia|]. rewrite Hr'. by rewrite (branch_point_unique _ _ _ _ _ _ _ Hb Hb'). }
  assert (on_heigher mines version (top lo l) (resp_heigher [t] (top lo' l')) s =
    paused mines (if decide (r = 0) then mret tt else
       or_return (on_cli (rpc_GetBlockHashsByHeight r)) tt (λ hashs,
       or_return (uncles hashs) tt (λ _,
       or_return (on_bc (sc_ReorganizeChain (rev hashs) (r +₆₄ 1))) tt mret))) s) as ->.
  { unfold on_heigher. cbn [RHeight Hashs resp_heigher].
    rewrite sub64_small by (unfold top in *; lia). rewrite decide_False by lia.
    unfold or_return at 1, mbind, stM_bind at 1, on_cli at 1, zoom at 1.
    assert (rpc_GetBlockTip (cli s) = (Ok data, cli s)) as ->.
    { unfold rpc_GetBlockTip, peer_served, served, answer, GetBlockTip. rewrite Htip. cbn [mbind res_bind]. by rewrite Hser. }
    cbn beta iota. unfold st_lift at 1. rewrite Hdes. cbn beta iota.
    assert (Client (bc s) (cli s) (rpcChan s) (started s) = s) as Hs by by destruct s.
    rewrite Hs. unfold or_return at 1, from_bc at 1. rewrite Hmine. cbn beta iota. rewrite Hx, Hy.
    rewrite decide_True by done. rewrite decide_False by lia.
    match goal with |- paused mines (stM_bind _ _ ?k _) s = _ =>
      exact (paused_bind_stable (FindBranchPoint (top lo' l')) k s r Hfind) end. }
  split; intros Hr; [by rewrite decide_True|]. rewrite decide_False by done.
  assert (is_u64 r) as Hru by (destruct Hb as [[?|[? _]] _]; [done|unfold is_u64, InitHeight in *; lia]).
  set (s0 := Client (bc s) (cli s) (rpcChan s) (if mines then false else started s)).
  destruct (uncles_run (above lo' l' r) s0) as (bs & Hu & He).
  { intros k Hk. apply Hsend. unfold above in Hk. case_decide; [|by apply not_elem_of_nil in Hk].
    rewrite <- (take_drop (Z.to_nat (r + 1 - lo')) l'), elem_of_app. by right. }
  exists bs. split; [done|]. unfold paused, set_started, st_modify, mbind, stM_bind.
  fold s0. unfold reorganize_to. unfold or_return at 1, on_cli at 1, zoom at 1.
  assert (rpc_GetBlockHashsByHeight r (cli s0) = (Ok (above lo' l' r), cli s0)) as ->.
  { unfold rpc_GetBlockHashsByHeight, peer_served, served, answer, GetBlockHashsByHeight. cbn [cli s0].
    by rewrite (GetAfterHashs_run lo' l') by done. }
  cbn beta iota. change (Client (bc s0) (cli s0) (rpcChan s0) (started s0)) with s0.
  unfold or_return at 1. by rewrite Hu, <- He.
Qed.

End Facts.
