(* ===== verification/SyncChain.v ===== *)
(** Two nodes that run this code: the chain of [Chain.v] as the local chain of [Sync.v],
    and the service of [Peer.v] over the store of another such chain as the peer. *)

From S2P Require Import Prelude Misc Badger BgStore Base58 Cbor Address Transaction Block.
From S2P Require Import Ledger Difficulty Economics World Apply Chain Frames ChainFacts IndexFacts.
From S2P Require Import Queue Pool Peer PeerFacts Sync SyncFacts.

Section Instance_.
Context {D SD T : Type} `{!Badger T, !BadgerDB D T, !StateDB SD, !StateStore D SD, !EvmRuntime SD}.
Context `{!CborHeader, !Crypto, !EthCommon, !EvmData}.
Context `{!BadgerLaws T, !BadgerDBLaws D T, !StateStoreLaws D SD T, !CryptoLaws}.
Variables (g : globals) (now : Z) (cfg : ChainConfig) (sha3 diffhash : bytes → bytes).

(** The public methods lock the mutex and call the operations. *)
#[local] Instance chain_sync : SyncChain (chain D SD) := {
  sc_GetMaxBlockHeight c := getMaxBlockHeight (Dbase (db c));
  sc_GetBlockByHeight h c := getBlockByHeight h (Dbase (db c));
  sc_GetBlockByHash h c := getBlockByHash h (Dbase (db c));
  sc_AddBlock b := AddBlock (T := T) g now cfg b ;; mret tt;
  sc_AddBlocks := AddBlocks (T := T) g now cfg;
  sc_DeleteBlock := DeleteBlock (T := T) g now cfg;
  sc_AddUncleBlock := AddUncleBlock (T := T);
  sc_ReorganizeChain := ReorganizeChain (T := T) g now cfg sha3 diffhash;
}.

#[local] Program Instance chain_sync_laws : SyncChainLaws (chain D SD) := {
  main lo l c := indexed lo l (dbview (db c));
}.
Next Obligation. intros lo l c. apply indexed_max. Qed.
Next Obligation. intros lo l c [? ? _ _]. done. Qed.
Next Obligation.
  intros lo l b c r c' Hi Hb Hr Hp.
  apply (run_op_index g now cfg sha3 diffhash (OpAddBlock b) lo l [BHash b]) in Hr; try done. by constructor.
Qed.
Next Obligation.
  intros lo l bs c r c' Hi Hb Hr Hp.
  apply (run_op_index g now cfg sha3 diffhash (OpAddBlocks bs) lo l (BHash <$> bs)) in Hr; try done.
  by apply Forall_fmap.
Qed.
Next Obligation.
  intros lo l h c Hi Hh. cbn. unfold DeleteBlock, mbind, stM_bind. rewrite (indexed_max lo l) by done.
  by rewrite decide_True by lia.
Qed.

Variables (mines : bool) (fuel : nat) (version : bytes) (hosts txs : list bytes).
#[local] Instance honest : Greeter (Serving (dbase D)) := served fuel version hosts txs.
Implicit Types (s : InsideClient (chain D SD) (Serving (dbase D))).

(** C15: initial synchronization follows the peer.  When the chain of an honest peer goes on
    from the local one by the hashes [m], [GetBlockInitchains] appends a prefix of [m], in
    order and nothing else, whatever it returns; when it succeeds it has appended the first
    1000 of them, or all, and it returns their number, so that 0 means the two chains are
    the same. *)
Theorem sync_follows (lo : Z) (l m : list bytes) s s' (r : res Z) :
  (length (l ++ m) < fuel)%nat → InitHeight ≤ top lo l < MAXUINT64 →
  at_tip lo l (bc s) → serves lo (l ++ m) (store (cli s)) → sendable m (store (cli s)) →
  GetBlockInitchains s = (r, s') → r ≠ Panic →
  cli s' = cli s ∧ ∃ j, (j ≤ SyncLimit)%nat ∧ indexed lo (l ++ take j m) (dbview (db (bc s'))) ∧
    ∀ z, r = Ok z → take j m = take SyncLimit m ∧ z = Z.of_nat (length (take SyncLimit m)).
Proof. intros Hf Ht Htip Hs Hse E Hr. exact (GetBlockInitchains_follows fuel version hosts txs lo l m s r s' Hf Ht Htip Hs Hse E Hr). Qed.

(** [GetBlockchain] hands the miner exactly the blocks the peer's chain has above the
    local one, all of them and in order, with mining stopped meanwhile and started again;
    it does not touch the chain itself. *)
Theorem blocks_delivered (lo : Z) (l m : list bytes) s :
  (length (l ++ m) < fuel)%nat → InitHeight ≤ top lo l → at_tip lo l (bc s) →
  serves lo (l ++ m) (store (cli s)) → sendable m (store (cli s)) →
  ∃ bs, GetBlockchain mines version s =
    (Ok tt, Client (bc s) (cli s) (rpcChan s ++ bs) (if mines && bool_decide (m ≠ []) then true else started s)) ∧
    BHash <$> bs = m.
Proof. apply GetBlockchain_pushes. Qed.

(** C16: the branch point of two nodes is the highest height at which their main chains have
    the same block: asked about heights down from [h], an honest peer makes
    [FindBranchPoint] return the greatest common height above the initial one, or 0 if
    there is none. *)
Theorem branch_point_found (lo : Z) (l : list bytes) (lo' : Z) (l' : list bytes) s (h : Z) :
  lo ≤ InitHeight + 1 → top lo l ≤ MAXUINT64 → readable lo l (bc s) →
  indexed lo' l' (contents (store (cli s))) → h ≤ top lo l →
  ∃ r, FindBranchPoint h s = (Ok r, s) ∧ branch_point lo l lo' l' h r.
Proof. apply FindBranchPoint_spec_at. Qed.

(** ** A peer that is not honest *)

(** Adding no blocks changes none of the chain's own keys. *)
Lemma AddBlocks_nil_keeps (c c' : chain D SD) r :
  AddBlocks (T := T) g now cfg [] c = (r, c') → r ≠ Panic → keeps (db c) (db c').
Proof.
  intros H' Hp. destruct r as [[]|e|]; [|by apply (run_op_fails g now cfg sha3 diffhash (OpAddBlocks [])) in H' as [? _]|done].
  unfold AddBlocks in H'. destruct (getSnapRoot (Dbase (db c))) as [root|e|]; [|done..].
  apply reverting_Ok, with_txn_run in H' as (w & H' & ->).
  apply stM_bind_Ok in H' as ([] & w1 & [= <-] & H'). apply stM_bind_Ok in H' as (h & w2 & Hf & H').
  assert (of_db (keeps (db c)) w2) as Hk by (eapply factCommit_keeps; [|exact Hf]; by intros k).
  assert (writes (w_tx w2) = ∅) as Hw.
  { eapply (on_store_of_tx (λ t, writes t = ∅)) in Hf; [exact Hf|]. apply begin_writes. }
  unfold st_catch in H'. destruct (Commit w2) as [[[]|e|] w3] eqn:E; [|done..]. injection H' as ->.
  intros k Hown. rewrite <- (Hk k Hown).
  apply (Commit_unwritten _ _ _ E). unfold unwritten. rewrite Hw. set_solver.
Qed.

(** C24: one answer of a peer is enough to lose the chain: a peer that answers the first
    question of an initial synchronization with a branch that leaves its main chain at a
    local block [b], and has no blocks to show for it, makes the node delete every block
    above [b] before it has fetched, let alone compared, anything; the call then reports
    one block of progress, or the error of adding no blocks. *)
Theorem peer_truncates {P} `{!Greeter P} (lo hp : Z) (l : list bytes) (k : bytes) (b tip : Block) (p' : P)
    (s s' : InsideClient (chain D SD) P) (r : res Z) :
  indexed lo l (dbview (db (bc s))) → Forall (λ h, length h = 32%nat) l → deletable (top lo l) (db (bc s)) →
  InitHeight ≤ top lo l → getBlockByHeight (top lo l) (Dbase (db (bc s))) = Ok tip →
  rpc_SyncBlockchain (BHash tip) (Height tip) (cli s) = (Ok (resp_branch [k] hp), p') →
  getBlockByHash k (Dbase (db (bc s))) = Ok b → lo ≤ Height b + 1 ≤ MAXUINT64 →
  GetBlockInitchains s = (r, s') → r ≠ Panic →
  (∀ z, r = Ok z → z = 1) ∧
  ∃ n, (Z.to_nat (Height b + 1 - lo) ≤ n)%nat ∧ (is_Ok r → n = Z.to_nat (Height b + 1 - lo)) ∧
    hashes_at lo (take n l) (dbview (db (bc s'))).
Proof.
  intros Hi Hlen Hdel Hinit Htip Hrpc Hb Hrange E Hp.
  unfold GetBlockInitchains, mbind, stM_bind at 1, from_bc at 1 in E.
  cbn [sc_GetMaxBlockHeight chain_sync] in E. rewrite (indexed_max lo l) in E by done. cbn beta iota in E.
  destruct (Z.to_nat (top lo l - InitHeight + 1)) as [|n] eqn:En; [lia|]. cbn [init_loop] in E.
  unfold block_at in E. rewrite decide_True in E by (unfold InitHeight in Hinit; lia).
  unfold mbind, stM_bind at 1, from_bc at 1 in E. cbn [sc_GetBlockByHeight chain_sync] in E. rewrite Htip in E.
  cbn beta iota in E. unfold stM_bind at 1, on_cli at 1, zoom at 1 in E. rewrite Hrpc in E. cbn beta iota in E.
  cbn [Code resp_branch Issamechain Isbranchchain Hashs RHeight] in E. rewrite decide_False in E by done.
  unfold switch, mbind, stM_bind at 1, from_bc at 1 in E. cbn [sc_GetBlockByHash chain_sync bc] in E. rewrite Hb in E.
  cbn beta iota in E. rewrite add64_small in E by (pose proof (idx_lo _ _ _ Hi); lia).
  unfold stM_bind at 1, on_bc at 1, zoom at 1 in E. cbn [sc_DeleteBlock chain_sync bc cli rpcChan started] in E.
  destruct (DeleteBlock g now cfg (Height b + 1) (bc s)) as [r1 c1] eqn:E1.
  assert (r1 ≠ Panic) as Hp1 by (intros ->; injection E as <- _; done).
  destruct (DeleteBlock_cuts g now cfg lo (Height b + 1) l (bc s) c1 r1) as (j & Hj & Hjr & Hh & _); try done; [lia|].
  destruct r1 as [[]|e|]; [|injection E as <- <-; split; [done|]; exists j; split_and!; [done|by intros [? ?]|done]|done].
  specialize (Hjr eq_refl). subst j. unfold init_branch, stM_bind, on_bc, zoom in E. cbn in E.
  destruct (AddBlocks g now cfg [] c1) as [r2 c2] eqn:E2.
  assert (r2 ≠ Panic) as Hp2 by (intros ->; injection E as <- _; done).
  pose proof (AddBlocks_nil_keeps c1 c2 r2 E2 Hp2) as Hk.
  assert (hashes_at lo (take (Z.to_nat (Height b + 1 - lo)) l) (dbview (db c2))) as Hh2.
  { intros h Hu. rewrite Hk by apply own_height_key. by apply Hh. }
  destruct r2 as [[]|e|]; injection E as <- <-; [| |done].
  - split; [by intros ? [= <-]|]. eexists. split_and!; done.
  - split; [done|]. eexists. split_and!; [done|done|exact Hh2].
Qed.

End Instance_.

(** ** What a peer is told *)

(** Whatever a node tells a synchronizing peer is a piece of its own main chain, from
    the right place on: nothing, when the peer's tip is unknown or higher; that the tips are
    the same; the hashes that come after the peer's tip; or, when the peer's tip is on a
    branch, those from a main-chain block below that tip on, that block included. *)
Theorem told_main_chain {X} `{!Reader X, !ReaderLaws X, !CborHeader} (lo : Z) (l : list bytes) (x : X) (fuel : nat)
    (hash : bytes) (h : Z) (resp : RespBlockchain) :
  serves lo l x → l ≠ [] → (length l < fuel)%nat → is_u64 h → hash ≠ [] →
  Peer.SyncBlockchain fuel hash h x = Some (Ok resp) →
  resp = resp_none ∨
  (resp = resp_same [] (top lo l) ∧ last l = Some hash ∧ h ≤ top lo l) ∨
  (resp = resp_same (take SyncLimit (above lo l h)) (top lo l) ∧ hash_at lo l h = Some hash) ∨
  (∃ i k, l !! i = Some k ∧ ancestor x hash k ∧ resp = resp_branch (take SyncLimit (drop i l)) (top lo l)).
Proof. apply SyncBlockchain_tells. Qed.

(** ** Witnesses *)

Module SyncSample.
Import MapTxn MapState MapWorld CryptoInstance ChainSample IndexSample.

#[export] Instance sample_chain : SyncChain (chain mdb state) := chain_sync (T := MapTxn.txn) Sample.g 0 cfg id id.

(** A node with the first block, and a peer with one more. *)
Definition peer : Serving (dbase mdb) := Serve (Dbase (db p1)) [].
Definition behind : InsideClient (chain mdb state) (Serving (dbase mdb)) := Client p0 peer [] true.
#[export] Instance sample_peer : Greeter (Serving (dbase mdb)) := served (X := dbase mdb) 10 [] [] [].

Definition is_block (h : Z) (k : bytes) (c : chain mdb state) : bool :=
  match getBlockByHash k (Dbase (db c)) with
  | Ok b => bool_decide (Height b = h) && bool_decide (BHash b = k)
  | _ => false
  end.
Lemma is_block_ex h k c : is_block h k c = true →
  ∃ b, getBlockByHash k (Dbase (db c)) = Ok b ∧ Height b = h ∧ BHash b = k.
Proof.
  unfold is_block. destruct (getBlockByHash k (Dbase (db c))) as [b|e|]; try done.
  intros [H1 H2]%andb_prop. apply bool_decide_eq_true in H1, H2. by exists b.
Qed.

Lemma peer_serves : serves InitHeight [BHash parent; BHash next] (Sync.store peer).
Proof.
  split; [exact indexed1|]. intros i k Hk. destruct i as [|[|i]]; [| |done]; injection Hk as <-.
  - split; [done|]. apply (is_block_ex InitHeight _ p1). vm_compute. reflexivity.
  - split; [done|]. apply (is_block_ex (InitHeight + 1) _ p1). vm_compute. reflexivity.
Qed.

Definition sends (k : bytes) : bool :=
  match GetBlock k (Sync.store peer) with
  | Ok data => match Deserialize data with Ok b => bool_decide (BHash b = k) | _ => false end
  | _ => false
  end.
Lemma peer_sends : sendable [BHash parent; BHash next] (Sync.store peer).
Proof.
  assert (∀ k, sends k = true → ∃ data b, GetBlock k (Sync.store peer) = Ok data ∧ Deserialize data = Ok b ∧ BHash b = k) as Hs.
  { intros k. unfold sends. destruct (GetBlock k (Sync.store peer)) as [data|e|]; try done.
    destruct (Deserialize data) as [b|e|] eqn:E; try done. intros Hb%bool_decide_eq_true. by exists data, b. }
  intros k [->|[->|[]%not_elem_of_nil]%elem_of_cons]%elem_of_cons;
    (split; [reflexivity|apply Hs; vm_compute; reflexivity]).
Qed.

Lemma behind_tip : ∃ b, getBlockByHeight InitHeight (Dbase (db p0)) = Ok b ∧ Height b = InitHeight ∧ BHash b = BHash parent.
Proof.
  assert (is_block InitHeight (BHash parent) p0 = true) as (b & Hb & Hh & Hk)%is_block_ex by (vm_compute; reflexivity).
  exists b. split_and!; [|done|done]. unfold getBlockByHeight. rewrite decide_False by done.
  rewrite kv_Get_db by done. change (dbview (db p0)) with kvs0. rewrite (idx_hashes _ _ _ indexed0) by done.
  exact Hb.
Qed.

Lemma behind_at_tip : at_tip (SyncChainLaws0 := chain_sync_laws (T := MapTxn.txn) Sample.g 0 cfg id id)
  InitHeight [BHash parent] p0.
Proof.
  split; [exact indexed0|]. destruct behind_tip as (b & Hb & Hh & Hk). exists b.
  split_and!; [exact Hb|exact Hh|by rewrite Hk|by rewrite Hk].
Qed.

(** The node that is ahead, and a peer whose only answer is the block both started from. *)
Definition ahead : InsideClient (chain mdb state) unit := Client p1 tt [] true.
#[export] Instance liar : Greeter unit := {|
  rpc_SyncBlockchain _ _ := mret (resp_branch [BHash parent] 0);
  rpc_GetBlockchain _ _ := st_err NotExist; rpc_GetBlock _ := st_err NotExist;
  rpc_GetBlockTip := st_err NotExist; rpc_GetBlockHashsByHeight _ := st_err NotExist;
  rpc_FindbranchPoint _ _ := st_err NotExist; rpc_SendBlock _ _ := st_err NotExist;
  rpc_GetTransactions := st_err NotExist; rpc_VerifyVersion := mret []; rpc_GetIPAddress := mret [];
|}.

Definition synced : res Z * InsideClient (chain mdb state) (Serving (dbase mdb)) := GetBlockInitchains behind.
Definition robbed : res Z * InsideClient (chain mdb state) unit := GetBlockInitchains ahead.

Lemma behind_readable : readable (SyncChain0 := sample_chain) InitHeight [BHash parent] p0.
Proof.
  intros h k Hk. apply hash_at_Some in Hk as [Hh Hk]. pose proof (lookup_lt_Some _ _ _ Hk) as Hlt. simpl in Hlt.
  assert (h = InitHeight) as -> by lia. rewrite Z.sub_diag in Hk. injection Hk as <-. split; [reflexivity|].
  destruct behind_tip as (b & Hb & _ & Hbk). by exists b.
Qed.

End SyncSample.
Import SyncSample.

Lemma sync_follows_witness :
  SyncSample.synced.1 = Ok 1 ∧
  indexed InitHeight [BHash ChainSample.parent; BHash IndexSample.next] (dbview (db (bc SyncSample.synced.2))).
Proof.
  assert (SyncSample.synced.1 = Ok 1) as H by (vm_compute; reflexivity). split; [exact H|].
  destruct (sync_follows Sample.g 0 ChainSample.cfg id id 10 [] [] [] InitHeight [BHash ChainSample.parent]
    [BHash IndexSample.next] SyncSample.behind SyncSample.synced.2 (Ok 1)) as (_ & j & _ & Hi & Hz).
  - simpl. lia.
  - split; [reflexivity|vm_compute; reflexivity].
  - exact SyncSample.behind_at_tip.
  - exact SyncSample.peer_serves.
  - intros k Hk. apply SyncSample.peer_sends. right. exact Hk.
  - exact (run_is SyncSample.synced (Ok 1) H).
  - discriminate.
  - destruct (Hz 1 eq_refl) as [Hj _]. rewrite Hj in Hi. exact Hi.
Defined.

Lemma blocks_delivered_witness :
  ∃ bs, GetBlockchain true [] SyncSample.behind =
    (Ok tt, Client IndexSample.p0 SyncSample.peer bs true) ∧ BHash <$> bs = [BHash IndexSample.next].
Proof.
  destruct (blocks_delivered Sample.g 0 ChainSample.cfg id id true 10 [] [] [] InitHeight [BHash ChainSample.parent]
    [BHash IndexSample.next] SyncSample.behind) as (bs & Hr & Hb).
  - simpl. lia.
  - vm_compute. discriminate.
  - exact SyncSample.behind_at_tip.
  - exact SyncSample.peer_serves.
  - intros k Hk. apply SyncSample.peer_sends. right. exact Hk.
  - exists bs. split; [exact Hr|exact Hb].
Defined.

Lemma branch_point_found_witness :
  ∃ r, FindBranchPoint InitHeight SyncSample.behind = (Ok r, SyncSample.behind) ∧ r = 0.
Proof.
  destruct (branch_point_found Sample.g 0 ChainSample.cfg id id 10 [] [] [] InitHeight [BHash ChainSample.parent]
    InitHeight [BHash ChainSample.parent; BHash IndexSample.next] SyncSample.behind InitHeight) as (r & Hr & Hb).
  - lia.
  - vm_compute. discriminate.
  - exact SyncSample.behind_readable.
  - exact IndexSample.indexed1.
  - vm_compute. discriminate.
  - exists r. split; [exact Hr|]. destruct Hb as [[->|[Hb _]] _]; [reflexivity|lia].
Defined.

Lemma peer_truncates_witness :
  SyncSample.robbed.1 = Ok 1 ∧
  hashes_at InitHeight [BHash ChainSample.parent] (dbview (db (bc SyncSample.robbed.2))).
Proof.
  assert (SyncSample.robbed.1 = Ok 1) as H by (vm_compute; reflexivity). split; [exact H|].
  destruct (SyncSample.is_block_ex InitHeight (BHash ChainSample.parent) IndexSample.p1) as (b & Hb & Hh & _);
    [vm_compute; reflexivity|].
  assert (∃ tip, getBlockByHeight (InitHeight + 1) (Dbase (db IndexSample.p1)) = Ok tip) as [tip Ht]
    by (apply is_Ok_check; vm_compute; reflexivity).
  destruct (peer_truncates Sample.g 0 ChainSample.cfg id id InitHeight 0 [BHash ChainSample.parent; BHash IndexSample.next]
    (BHash ChainSample.parent) b tip tt SyncSample.ahead SyncSample.robbed.2 (Ok 1)) as (_ & n & _ & Hn & Hl).
  - exact IndexSample.indexed1.
  - repeat constructor.
  - exact IndexSample.deletable1.
  - vm_compute. discriminate.
  - exact Ht.
  - reflexivity.
  - exact Hb.
  - rewrite Hh. split; vm_compute; discriminate.
  - exact (run_is SyncSample.robbed (Ok 1) H).
  - discriminate.
  - rewrite (Hn (ex_intro _ 1 eq_refl)), Hh in Hl. exact Hl.
Defined.

Lemma told_main_chain_witness :
  Peer.SyncBlockchain 10 (BHash ChainSample.parent) InitHeight (Sync.store SyncSample.peer) =
    Some (Ok (resp_same [BHash IndexSample.next] (InitHeight + 1))).
Proof.
  assert (∃ r, Peer.SyncBlockchain 10 (BHash ChainSample.parent) InitHeight (Sync.store SyncSample.peer) = Some (Ok r) ∧
               Issamechain r = true ∧ Hashs r <> []) as (r & Hr & Hs & Hh).
  { eexists. split; [vm_compute; reflexivity|]. split; [reflexivity|discriminate]. }
  rewrite Hr.
  destruct (told_main_chain InitHeight [BHash ChainSample.parent; BHash IndexSample.next] (Sync.store SyncSample.peer)
    10 (BHash ChainSample.parent) InitHeight r SyncSample.peer_serves)
    as [->|[(-> & _)|[(-> & _)|(i & k & _ & _ & ->)]]].
  - discriminate.
  - simpl. lia.
  - split; vm_compute; discriminate.
  - discriminate.
  - exact Hr.
  - discriminate Hs.
  - contradiction.
  - vm_compute. reflexivity.
  - discriminate Hs.
Defined.
