(* ===== verification/ConnPool.v ===== *)
(** The pool of connections to peers ([pkg/miner/pool.go]). *)

From S2P Require Import Prelude.

Section Pool.
(** A connection; [dial] stands for [grpc.Dial]. *)
Context {conn : Type}.
Implicit Types (url k : bytes) (cc : conn).

Record clientInfo := Info { c : conn; num : Z }.

Record pool := MkPool { Cap : Z; Len : Z; m : gmap bytes clientInfo }.

Definition newPool : pool := MkPool 5 0 ∅.

(** The first loop of [updatePool] over the map, whose order [order] is any: the keys of
    the unused connections, and the key of the least used of the others. *)
Fixpoint scan_pool (order : list bytes) (delKeyList : list bytes) (minK : bytes) (minNum : Z) (p : pool) :
    list bytes * bytes :=
  match order with
  | [] => (delKeyList, minK)
  | k :: order =>
      match m p !! k with
      | Some v =>
          if decide (num v = 0) then scan_pool order (delKeyList ++ [k]) minK minNum p
          else if decide (num v < minNum) then scan_pool order delKeyList k (num v) p
          else scan_pool order delKeyList minK minNum p
      | None => scan_pool order delKeyList minK minNum p
      end
  end.

Definition drop_key (p : pool) k : pool := MkPool (Cap p) (Len p - 1) (delete k (m p)).

(** [make([]string, p.Len)] has [p.Len] empty strings to begin with, each of which counts
    as a deleted connection; a negative length panics. *)
Definition updatePool (order : list bytes) (p : pool) : res pool :=
  if decide (Len p < 0) then Panic else
  let '(delKeyList, minK) := scan_pool order (replicate (Z.to_nat (Len p)) []) [] 2147483647 p in
  let p := foldl drop_key p delKeyList in
  Ok (if decide (Len p >= Cap p) then drop_key p minK else p).

Definition put (url : bytes) (i : clientInfo) (p : pool) : pool := MkPool (Cap p) (Len p) (<[url := i]> (m p)).

Definition GetClient (dial : bytes → res conn) (order : list bytes) url (p : pool) : res (conn * pool) :=
  match m p !! url with
  | Some v => Ok (c v, put url (Info (c v) (num v + 1)) p)
  | None =>
      cc ← dial url;
      p ← (if decide (Len p < Cap p) then Ok p else updatePool order p);
      let p := put url (Info cc 1) p in
      Ok (cc, MkPool (Cap p) (Len p + 1) (m p))
  end.

(** A connection that comes back; whether it is closed. *)
Definition PutClient url cc (p : pool) : bool * pool :=
  match m p !! url with
  | Some v => (false, put url (Info (c v) (num v - 1)) p)
  | None => if decide (Len p < Cap p) then (false, put url (Info cc 0) p) else (true, p)
  end.

(** ** The capacity *)

(** Connections to the hosts of [urls], one after the other, none of which comes back. *)
Fixpoint dials (dial : bytes → res conn) (orders : list bytes → list bytes) (urls : list bytes) (p : pool) : res pool :=
  match urls with
  | [] => Ok p
  | url :: urls =>
      '(_, p) ← GetClient dial (orders urls) url p;
      dials dial orders urls p
  end.

(** Every connection is in use, and none is to the empty host. *)
Definition in_use (p : pool) : Prop := m p !! [] = None ∧ ∀ k v, m p !! k = Some v → 0 < num v.

Lemma scan_in_use order p : in_use p → ∀ l k n, (scan_pool order l k n p).1 = l.
Proof.
  intros [_ Hn]. induction order as [|x order IH]; intros l k n; cbn [scan_pool]; [done|].
  destruct (m p !! x) as [v|] eqn:E; [|apply IH]. rewrite decide_False by (apply Hn in E; lia).
  case_decide; apply IH.
Qed.

Lemma drop_empties n p : m p !! [] = None →
  foldl drop_key p (replicate n []) = MkPool (Cap p) (Len p - Z.of_nat n) (m p).
Proof.
  revert p. induction n as [|n IH]; intros p Hp; simpl.
  - rewrite Z.sub_0_r. by destruct p.
  - rewrite IH by (simpl; by rewrite delete_id). simpl. rewrite delete_id by done. f_equal. lia.
Qed.

Lemma updatePool_in_use order p : in_use p → 0 <= Len p → 0 < Cap p →
  updatePool order p = Ok (MkPool (Cap p) 0 (m p)).
Proof.
  intros Hp Hl Hc. unfold updatePool. rewrite decide_False by lia.
  destruct (scan_pool _ _ _ _ p) as [l k] eqn:E. pose proof (scan_in_use order p Hp (replicate (Z.to_nat (Len p)) []) [] 2147483647) as Hs.
  rewrite E in Hs. simpl in Hs. subst l. rewrite drop_empties by apply Hp.
  rewrite Z2Nat.id, Z.sub_diag by done. cbn [Len Cap]. by rewrite decide_False by lia.
Qed.

Lemma GetClient_in_use dial order url p cc :
  in_use p → 0 <= Len p → 0 < Cap p → url ≠ [] → dial url = Ok cc → m p !! url = None →
  ∃ p', GetClient dial order url p = Ok (cc, p') ∧ in_use p' ∧ 0 <= Len p' ∧ Cap p' = Cap p ∧
        m p' = <[url := Info cc 1]> (m p).
Proof.
  intros [Hu1 Hu2] Hl Hc Hne Hd Hn. unfold GetClient. rewrite Hn, Hd. cbn [mbind res_bind].
  assert (∃ l, 0 <= l ∧ (if decide (Len p < Cap p) then Ok p else updatePool order p) = Ok (MkPool (Cap p) l (m p)))
    as (l & Hl' & ->).
  { case_decide; [exists (Len p); by destruct p|]. exists 0. by rewrite updatePool_in_use. }
  cbn [mbind res_bind]. eexists. split; [done|]. cbn. split_and!; try done; [|lia].
  split; cbn.
  - by rewrite lookup_insert_ne.
  - intros k v. destruct (decide (k = url)) as [->|Hk]; [rewrite lookup_insert_eq; by intros [= <-]|].
    rewrite lookup_insert_ne by done. apply Hu2.
Qed.

(** The capacity of the pool of connections does not bound it: connections to any
    number of different hosts, none of which is given back, are all kept, although the pool
    has room for five.  (The list of keys to delete starts with one empty key for every
    connection, so that making room resets the count and evicts nothing.) *)
Theorem pool_unbounded (dial : bytes → res conn) (orders : list bytes → list bytes) (urls : list bytes) :
  NoDup urls → [] ∉ urls → (∀ url, url ∈ urls → is_Ok (dial url)) →
  ∃ p, dials dial orders urls newPool = Ok p ∧ size (m p) = length urls ∧ Cap p = 5.
Proof.
  intros Hnd Hne Hd.
  assert (∀ p, in_use p → 0 <= Len p → Cap p = 5 → (∀ url, url ∈ urls → m p !! url = None) →
    ∃ p', dials dial orders urls p = Ok p' ∧ size (m p') = (size (m p) + length urls)%nat ∧ Cap p' = 5) as Hgen.
  { induction Hnd as [|url urls Hin Hnd IH]; intros p Hu Hl Hc Hfresh; [exists p; simpl; by rewrite Nat.add_0_r|].
    destruct (Hd url) as [cc Hcc]; [by left|].
    destruct (GetClient_in_use dial (orders urls) url p cc) as (p1 & H1 & H2 & H3 & H4 & H5); try done;
      [lia|by intros ->; apply Hne; left|by apply Hfresh; left|].
    cbn [dials]. rewrite H1. cbn [mbind res_bind].
    destruct IH with (p := p1) as (p2 & H6 & H7 & H8); try done.
    - intros Hi. apply Hne. by right.
    - intros u Hi. apply Hd. by right.
    - congruence.
    - intros u Hi. rewrite H5, lookup_insert_ne by (by intros ->). apply Hfresh. by right.
    - exists p2. split_and!; try done. rewrite H7, H5, map_size_insert_None by (by apply Hfresh; left). simpl. lia. }
  destruct (Hgen newPool) as (p & H1 & H2 & H3); try done. by exists p.
Qed.

End Pool.

(** Six hosts. *)
Lemma pool_unbounded_witness :
  ∃ p, dials (λ _, Ok tt) (λ l, l)
    [[Byte.x61]; [Byte.x62]; [Byte.x63]; [Byte.x64]; [Byte.x65]; [Byte.x66]] newPool = Ok p ∧ size (m p) = 6%nat.
Proof.
  destruct (pool_unbounded (λ _, Ok tt) (λ l, l)
    [[Byte.x61]; [Byte.x62]; [Byte.x63]; [Byte.x64]; [Byte.x65]; [Byte.x66]]) as (p & H1 & H2 & _).
  - apply (bool_decide_eq_true_1 (NoDup _)). reflexivity.
  - refine (bool_decide_eq_true_1 ([] ∉ _) _). reflexivity.
  - intros url _. exists tt. reflexivity.
  - exists p. split; [exact H1|exact H2].
Defined.
