(* ===== verification/Boot.v ===== *)
(** The start of a node ([InitBlockChain] of [pkg/miner/insideclient.go]): the goroutine
    that connects to the known hosts, the loop that synchronizes with one of them, and the
    two channels between them, as a transition system. *)

From S2P Require Import Prelude.
From stdpp Require Import relations.

(** ** The two processes *)

(** The goroutine: at the head of its loop, or with a client to send; the hosts still to
    come are those that answer ([true]) or not.  After the last one it panics, which ends
    the program. *)
Inductive dialer := Range (hosts : list bool) | Sending (hosts : list bool) | Crashed.

(** The loop: synchronizing with a client, handing out a token after an error, waiting for
    the next client, or finished. *)
Inductive syncer := Working | Handing | Receiving | Finished.

#[global] Instance dialer_eq_dec : EqDecision dialer.
Proof. solve_decision. Defined.
#[global] Instance syncer_eq_dec : EqDecision syncer.
Proof. solve_decision. Defined.

(** Both channels have room for one value. *)
Record boot := Boot { dial : dialer; start : bool; cliCh : bool; main : syncer }.

Definition init (hosts : list bool) : boot := Boot (Range hosts) true false Working.

(** The goroutine's steps: take a token and dial the next host; send the client. *)
Definition dial_steps (s : boot) : list boot :=
  match dial s with
  | Range [] => [Boot Crashed (start s) (cliCh s) (main s)]
  | Range (ok :: hosts) =>
      if start s then [Boot (if (ok : bool) then Sending hosts else Range hosts) false (cliCh s) (main s)] else []
  | Sending hosts => if cliCh s then [] else [Boot (Range hosts) (start s) true (main s)]
  | Crashed => []
  end.

(** The loop's steps: a round of [GetBlockInitchains] goes on, finishes or fails; after a
    failure a token is put on [start] and a client taken from [cliCh]. *)
Definition main_steps (s : boot) : list boot :=
  let go m := Boot (dial s) (start s) (cliCh s) m in
  match dial s with Crashed => [] | _ =>
    match main s with
    | Working => [go Working; go Finished; go Handing]
    | Handing => if start s then [] else [Boot (dial s) true (cliCh s) Receiving]
    | Receiving => if cliCh s then [Boot (dial s) (start s) false Working] else []
    | Finished => []
    end
  end.

Definition steps (s : boot) : list boot := dial_steps s ++ main_steps s.

Definition dial_step (s s' : boot) : Prop := s' ∈ dial_steps s.
Definition step (s s' : boot) : Prop := s' ∈ steps s.

(** ** What can go wrong *)

(** The reachable states of a node that knows one host. *)
Inductive one_host (ok : bool) : boot → Prop :=
  | one_start m : one_host ok (Boot (Range [ok]) true false m)
  | one_sending st m : ok = true → one_host ok (Boot (Sending []) st false m)
  | one_end st ch m : one_host ok (Boot (Range []) st ch m)
  | one_crashed st ch m : one_host ok (Boot Crashed st ch m).

Lemma one_host_step ok s s' : one_host ok s → step s s' → one_host ok s'.
Proof.
  intros Hs. unfold step, steps, dial_steps, main_steps.
  destruct Hs as [m|st m ->|st ch m|st ch m]; cbn [dial start cliCh main];
    [destruct ok, m|destruct st, m|destruct st, ch, m|]; cbn; rewrite ?elem_of_cons, ?elem_of_nil;
    intros Hin; repeat destruct Hin as [Hin|Hin]; subst; try done; by econstructor.
Qed.

(** The goroutine needs nothing from the loop to crash. *)
Lemma one_host_crash ok s : one_host ok s → ∃ s', rtc dial_step s s' ∧ dial s' = Crashed.
Proof.
  assert (∀ st ch m, rtc dial_step (Boot (Range []) st ch m) (Boot Crashed st ch m)) as Hend.
  { intros st ch m. apply rtc_once. unfold dial_step. cbn. by left. }
  assert (∀ st m, rtc dial_step (Boot (Sending []) st false m) (Boot (Range []) st true m)) as Hsend.
  { intros st m. apply rtc_once. unfold dial_step. cbn. by left. }
  intros [m|st m ->|st ch m|st ch m].
  - destruct ok; [exists (Boot Crashed false true m)|exists (Boot Crashed false false m)]; (split; [|done]).
    + eapply rtc_l; [unfold dial_step; cbn; by left|]. etrans; [apply Hsend|apply Hend].
    + eapply rtc_l; [unfold dial_step; cbn; by left|]. apply Hend.
  - exists (Boot Crashed st true m). split; [etrans; [apply Hsend|apply Hend]|done].
  - exists (Boot Crashed st ch m). split; [apply Hend|done].
  - exists (Boot Crashed st ch m). split; [apply rtc_refl|done].
Qed.

(** Starting a node can end it.  With one known host, which is the least a node has
    after asking its first peer, the goroutine that dials the hosts can panic on its own
    from every state the node can be in, synchronizing or done, whether or not the host
    answers; and with several hosts of which the first two do not answer, the node can
    reach a state in which it waits for a client for ever, although hosts that answer are
    left. *)
Theorem boot_ends :
  (∀ ok s, rtc step (init [ok]) s → ∃ s', rtc dial_step s s' ∧ dial s' = Crashed) ∧
  (∀ rest, rest ≠ [] → ∃ s, rtc step (init (false :: false :: rest)) s ∧ main s = Receiving ∧
     dial s = Range rest ∧ steps s = []).
Proof.
  split.
  - intros ok s Hs. apply (one_host_crash ok).
    assert (one_host ok (init [ok])) as Hi by constructor. revert Hi.
    induction Hs as [s|s1 s2 s3 Hstep _ IH]; [done|]. intros Hi. apply IH. by eapply one_host_step.
  - intros rest Hne. exists (Boot (Range rest) false false Receiving). split_and!; try done.
    + eapply rtc_l; [unfold step; cbn; by left|]. cbn.
      eapply rtc_l with (y := Boot (Range (false :: rest)) false false Handing);
        [unfold step; cbn; rewrite !elem_of_cons; naive_solver|].
      eapply rtc_l with (y := Boot (Range (false :: rest)) true false Receiving);
        [unfold step; cbn; rewrite !elem_of_cons; naive_solver|].
      apply rtc_once. unfold step; cbn. by left.
    + by destruct rest.
Qed.

Lemma boot_ends_witness :
  (∃ s', rtc dial_step (init [true]) s' ∧ dial s' = Crashed) ∧
  (∃ s, rtc step (init [false; false; true]) s ∧ steps s = []).
Proof.
  destruct boot_ends as [H1 H2]. split.
  - exact (H1 true (init [true]) (rtc_refl step _)).
  - destruct (H2 [true]) as (s & Hs & _ & _ & Hn); [discriminate|]. exists s. split; [exact Hs|exact Hn].
Defined.
