(* ===== verification/Gateway.v ===== *)
(** The service for wallets ([pkg/server/grpcserver/grpcserver.go]): what becomes of a
    request to send a transaction, and what is read of the chain and the pool.

    The chain is the one the pool uses.  Of an error only that there is one is kept, not
    its text.  Forwarding a transaction to other nodes is left out. *)

From S2P Require Import Prelude Misc Badger BgStore Base58 Cbor Address Transaction Block.
From S2P Require Import Ledger World Apply Strconv Queue Pool.

Record ReqTransaction := MkReq {
  rq_From : bytes; rq_To : bytes; rq_Amount : Z; rq_Nonce : Z; rq_GasLimit : Z; rq_GasPrice : Z;
  rq_GasFeeCap : Z; rq_Input : bytes; rq_Sign : bytes;
}.

Record ReqEthSignTransaction := MkEthReq { rq_KtoFrom : bytes; rq_EthFrom : bytes; rq_EthData : bytes; rq_MsgHash : bytes }.

Section Send.
Context {BC : Type} `{!IBlockchain BC, !CborHeader, !Crypto, !EthCommon, !EvmData}.
Variables (g : globals) (now : Z).

Abbreviation M := (stM (Pool BC)).
Definition from_bc {A} (f : BC → res A) : M A := λ p, (f (pbc p), p).

(** What the handlers do once the balance is there. *)
Definition submit (ty : byte) (rq : ReqTransaction) (from to : Address) : M bytes :=
  sign ← st_lift (DeserializeSignature (rq_Sign rq));
  if decide (rq_GasLimit rq *₆₄ rq_GasPrice rq = 0) then st_err (ErrMsg "error: one of gasprice and gaslimit is 0") else
  let tx := STx (Tx 0 ty from to (rq_Amount rq) (rq_Nonce rq) (rq_GasLimit rq) (rq_GasFeeCap rq) (rq_GasPrice rq)
                   (rq_Input rq)) sign in
  Add g now tx ;;
  mret (EncodeToString (Hash (st_tx tx))).

(** send transaction to chain: the sum of the amount and the gas is a uint64 *)
Definition send_available (ty : byte) (rq : ReqTransaction) : M bytes :=
  from ← st_lift (NewAddrFromString g (rq_From rq));
  to ← st_lift (NewAddrFromString g (rq_To rq));
  balance ← from_bc (ib_GetAvailableBalance from);
  if decide (rq_Amount rq +₆₄ rq_GasLimit rq *₆₄ rq_GasPrice rq > balance)
  then st_err (ErrMsg "balance is not enough or out of gas.") else
  submit ty rq from to.
Definition SendTransaction (rq : ReqTransaction) : M bytes := send_available TransferTransaction rq.
(** send Lock transaction to chain *)
Definition SendLockTransaction (rq : ReqTransaction) : M bytes := send_available LockTransaction rq.

(** send Unlock transaction to chain *)
Definition SendUnlockTransaction (rq : ReqTransaction) : M bytes :=
  from ← st_lift (NewAddrFromString g (rq_From rq));
  to ← st_lift (NewAddrFromString g (rq_To rq));
  balance ← from_bc (ib_GetAllFreezeBalance from);
  available ← from_bc (ib_GetAvailableBalance from);
  FreezeBalance ← from_bc (ib_GetSingleFreezeBalance from to);
  if decide (rq_GasLimit rq *₆₄ rq_GasPrice rq > available ∨ rq_Amount rq > balance ∨ rq_Amount rq > FreezeBalance)
  then st_err (ErrMsg "freeze balance is not enough or out of gas.") else
  submit UnlockTransaction rq from to.

(** *** Ethereum transactions *)

Variable cfg : ChainConfig.

Definition zero_address : bytes := replicate 20 Byte.x00.

(** Who the transaction is from, the type of its signature, and the hash it is said to
    sign. *)
Definition eth_sender (rq : ReqEthSignTransaction) : res (Address * SigType * bytes) :=
  if decide (0 < length (rq_KtoFrom rq) ∧ 0 < length (rq_MsgHash rq))%nat then
    f ← NewAddrFromString g (rq_KtoFrom rq);
    Ok (f, TypeED25519, rq_MsgHash rq)
  else
    addr ← StringToAddress g (rq_EthFrom rq);
    Ok (addr, TypeSecp256k1, []).

(** The receiver, the amount, the type and the record of the contract; a transaction
    without data to nobody is dereferenced. *)
Definition eth_action (ethFrom msgHash ethData : bytes) (ethTx : EthTx) : res (Address * Z * byte * EvmContract) :=
  if decide (0 < length (eth_Data ethTx))%nat then
    match eth_To ethTx with
    | None => Ok (ZeroAddress, 0, EvmContractTransaction,
                  MkEvm ethData msgHash (bs "create") (eth_Data ethTx) ethFrom zero_address [] [] false [])
    | Some to => Ok (ZeroAddress, 0, EvmContractTransaction,
                     MkEvm ethData msgHash (bs "call") [] ethFrom to (eth_Data ethTx) [] false [])
    end
  else
    match eth_To ethTx with
    | None => Panic
    | Some ethTo =>
        to ← StringToAddress g (eth_Hex ethTo);
        Ok (to, u64 (eth_Value ethTx / ETHDECIMAL), EvmKtoTransaction,
            MkEvm ethData msgHash [] [] zero_address zero_address [] [] true [])
    end.

Definition or_default (x default : Z) : Z := if decide (x = 0) then default else x.

(** The transaction a request stands for. *)
Definition eth_transaction (rq : ReqEthSignTransaction) : res SignedTransaction :=
  let ethFrom := HexToAddress (rq_EthFrom rq) in
  let ethData := rq_EthData rq in
  if decide (length ethData <= 0)%nat then err "Wrong eth signed data" else
  '(from, signType, msgHash) ← eth_sender rq;
  ethTx ← DecodeEthData ethData;
  if decide (i64 (eth_ChainId ethTx) ≠ ChainId cfg) then err "error chain ID" else
  '(to, amount, tag, evm) ← eth_action ethFrom msgHash ethData ethTx;
  let gasPrice := or_default (u64 (eth_GasPrice ethTx)) (CfgGasPrice cfg) in
  let gasLimit := or_default (eth_Gas ethTx) (CfgGasLimit cfg) in
  input ← EncodeEvmData evm;
  Ok (STx (Tx 0 tag from to amount (eth_Nonce ethTx) gasLimit gasLimit gasPrice input)
          (Sig signType (ParseEthSignature ethTx))).

(** send eth signed transaction *)
Definition SendEthSignedRawTransaction (rq : ReqEthSignTransaction) : M bytes :=
  tx ← st_lift (eth_transaction rq);
  Add g now tx ;;
  mret (HashToString tx).

(** *** Balances *)

(** The two ways of reading an address: the text of either network or a go-ethereum
    address, and the text of an address alone. *)
Definition GetAvailableBalance (addr : bytes) : M Z :=
  a ← st_lift (StringToAddress g addr);
  from_bc (ib_GetAvailableBalance a).
Definition GetAddressNonceAt (addr : bytes) : M Z :=
  a ← st_lift (StringToAddress g addr);
  from_bc (ib_GetNonce a).
Definition GetSingleFreezeBalance (from to : bytes) : M Z :=
  f ← st_lift (NewAddrFromString g from);
  t ← st_lift (NewAddrFromString g to);
  from_bc (ib_GetSingleFreezeBalance f t).
Definition GetAllFreezeBalance (addr : bytes) : M Z :=
  a ← st_lift (NewAddrFromString g addr);
  from_bc (ib_GetAllFreezeBalance a).

End Send.

(** ** Blocks and transactions *)

Section Read.
Context {X BC : Type} `{!Reader X, !TxIndexJson, !IBlockchain BC, !CborHeader, !Crypto, !EthCommon}.
Variable g : globals.

(** An answer with its code: 0, or -1 and no data. *)
Definition coded (r : res bytes) : res (bytes * Z) :=
  match r with
  | Ok d => Ok (d, 0)
  | Err _ => Ok ([], -1)
  | Panic => Panic
  end.

Definition Check0x (input : bytes) : bytes :=
  if decide (2 < length input)%nat then if decide (take 2 input = bs "0x") then drop 2 input else input else input.

Definition StringToHash (hash : bytes) : res bytes := DecodeString hash.

(** What [hex.DecodeString] returns beside its error: the bytes before the bad digits. *)
Fixpoint decoded_part (s : bytes) : bytes :=
  match s with
  | c :: d :: s =>
      match fromHexChar c, fromHexChar d with
      | Some h, Some l => byte.of_Z (h * 16 + l) :: decoded_part s
      | _, _ => []
      end
  | _ => []
  end.

Definition GetBlockByNum (height : Z) (x : X) : res (bytes * Z) :=
  coded (b ← getBlockByHeight height x; Serialize b).

Definition GetBlockByHash (hash : bytes) (x : X) : res (bytes * Z) :=
  coded (h ← StringToHash (Check0x hash); b ← getBlockByHash h x; Serialize b).

(** The chain is asked first, then the pool, with the hash as it was given. *)
Definition GetTxByHash (hash : bytes) (x : X) (p : Pool BC) : res (bytes * Z) :=
  coded (
    match getTransactionByHash (decoded_part (Check0x hash)) x with
    | Ok tx => Ok (FTx_Serialize tx)
    | Err _ => st ← Pool.GetTxByHash g hash p; Ok (FTx_Serialize (FTx st 0 0))
    | Panic => Panic
    end).

Definition GetMaxBlockHeight (x : X) : res Z := getMaxBlockHeight x.

End Read.

(** ** Logs *)

(** go-ethereum's logs, as far as the handler reads them. *)
Record Log := MkLog { log_BlockHash : bytes; log_BlockNumber : Z; log_addr : bytes }.

Section Logs.
Context `{!EthCommon}.
(** [common.HexToHash] *)
Variable HexToHash : bytes → bytes.

Definition GetLogs (blockHash addr : bytes) (fromBlock toBlock : Z) (logs : list Log) : res (list Log) :=
  if decide (fromBlock > toBlock) then err "Wrong fromBlock and to toBlock" else
  Ok (filter (λ l, HexToHash blockHash = log_BlockHash l ∨
                   (fromBlock ≤ log_BlockNumber l ≤ toBlock) ∧ HexToAddress addr = log_addr l) logs).

End Logs.
