(* ===== verification/GatewayFacts.v ===== *)
(** What the service for wallets lets in: the effect of a request on the pool, and who an
    Ethereum transaction is from. *)

From S2P Require Import Prelude Misc Badger BgStore Base58 Cbor Address Transaction Block.
From S2P Require Import Ledger World Apply Strconv Queue QueueFacts Pool PoolFacts Gateway.

#[local] Opaque poolCap.

Section Send.
Context {BC : Type} `{!IBlockchain BC, !CborHeader, !Crypto, !EthCommon, !EvmData}.
Variables (g : globals) (now : Z).
Implicit Types (st : SignedTransaction) (p : Pool BC).

(** Nothing but the queue changes, and that only on success. *)
Definition queue_only {A} (m : stM (Pool BC) A) : Prop := ∀ p r p', m p = (r, p') →
  match r with Ok _ => pbc p' = pbc p ∧ pendingBuf p' = pendingBuf p | _ => p' = p end.

(** [m] does nothing to the pool. *)
Definition reads {A} (m : stM (Pool BC) A) : Prop := ∀ p, (m p).2 = p.

Lemma reads_lift {A} (r : res A) : reads (st_lift r).
Proof. done. Qed.
Lemma reads_from_bc {A} (f : BC → res A) : reads (from_bc f).
Proof. done. Qed.
Lemma reads_err {A} e : reads (st_err (A := A) e).
Proof. done. Qed.
#[local] Hint Resolve reads_lift reads_from_bc reads_err : core.

Lemma queue_only_reads {A} (m : stM (Pool BC) A) : reads m → queue_only m.
Proof. intros Hm p r p' Hr. pose proof (Hm p) as E. rewrite Hr in E. simpl in E. subst. by destruct r. Qed.

Lemma queue_only_after {A C} (m : stM (Pool BC) A) (f : A → stM (Pool BC) C) :
  reads m → (∀ a, queue_only (f a)) → queue_only (m ≫= f).
Proof.
  intros Hm Hf p r p' Hr. pose proof (Hm p) as E. unfold mbind, stM_bind in Hr.
  destruct (m p) as [[a|e|] p1]; simpl in E; subst p1.
  - exact (Hf a p r p' Hr).
  - by injection Hr as <- <-.
  - by injection Hr as <- <-.
Qed.

Lemma queue_only_before {A C} (m : stM (Pool BC) A) (c : C) : queue_only m → queue_only (m ;; mret c).
Proof.
  intros Hm p r p' Hr. unfold mbind, stM_bind in Hr. destruct (m p) as [[a|e|] p1] eqn:E; apply Hm in E.
  - by injection Hr as <- <-.
  - by injection Hr as <- <-.
  - by injection Hr as <- <-.
Qed.

Lemma add_queue_only st : queue_only (add g now st).
Proof.
  intros p r p' Hr. unfold add in Hr. case_decide; [by injection Hr as <- <-|].
  destruct (geCallerNonce _ _ _); [|by injection Hr as <- <-..].
  destruct (push g now st (pq p)); by injection Hr as <- <-.
Qed.

Lemma Add_queue_only st : queue_only (Add g now st).
Proof.
  unfold Add. case_decide; [by apply queue_only_reads|]. case_decide; [by apply queue_only_reads|].
  repeat (apply queue_only_after; [done|intros _]). apply add_queue_only.
Qed.

Lemma submit_queue_only ty rq from to : queue_only (submit g now ty rq from to).
Proof.
  apply queue_only_after; [done|intros sign]. case_decide; [by apply queue_only_reads|].
  apply queue_only_before, Add_queue_only.
Qed.

Lemma available_queue_only ty rq : queue_only (send_available g now ty rq).
Proof.
  repeat (apply queue_only_after; [done|intros ?]). case_decide; [by apply queue_only_reads|].
  apply submit_queue_only.
Qed.

Lemma unlock_queue_only rq : queue_only (SendUnlockTransaction g now rq).
Proof.
  repeat (apply queue_only_after; [done|intros ?]). case_decide; [by apply queue_only_reads|].
  apply submit_queue_only.
Qed.

Lemma eth_queue_only cfg rq : queue_only (SendEthSignedRawTransaction g now cfg rq).
Proof. apply queue_only_after; [done|intros tx]. apply queue_only_before, Add_queue_only. Qed.

(** What the pool asks of a transaction. *)
Record admissible st p : Prop := {
  adm_input : Type_ (st_tx st) = TransferTransaction → Input (st_tx st) = [];
  adm_gas : MINGASLIMIT ≤ GasLimit (st_tx st) *₆₄ GasPrice (st_tx st) ≤ MAXGASLIMIT;
  adm_signed : VerifySign st = Ok tt;
  adm_sender : is_Ok (String g (Caller (st_tx st)));
  adm_room : (length (stList (pq p)) < poolCap)%nat;
  adm_nonce : ∀ n, ib_GetNonce (Caller (st_tx st)) (pbc p) = Ok n → n ≤ Nonce (st_tx st);
  adm_asked : ib_GetNonce (Caller (st_tx st)) (pbc p) = Panic → False;
}.

(** The transaction is in the pool's map, unless one of the same sender and nonce offers
    as much gas, and nothing else changed. *)
Definition entered st p p' : Prop :=
  pbc p' = pbc p ∧ pendingBuf p' = pendingBuf p ∧ contents g (pq p') = push_spec g st (contents g (pq p)).

Lemma geCallerNonce_Ok a n (bc : BC) : geCallerNonce a n bc = Ok tt ↔
  (∀ m, ib_GetNonce a bc = Ok m → m ≤ n) ∧ (ib_GetNonce a bc = Panic → False) ∧
  (0 ≤ n ∨ is_Ok (ib_GetNonce a bc)).
Proof.
  unfold geCallerNonce. destruct (ib_GetNonce a bc) as [m|e|]; cbn [mbind res_bind].
  - case_decide; split; try done.
    + intros (Hm & _). specialize (Hm m eq_refl). lia.
    + intros _. split_and!; [intros ? [= <-]; lia|done|right; by eexists].
  - case_decide; split; try done.
    + intros (_ & _ & [?|[? ?]]); [lia|done].
    + intros _. split_and!; [done..|left; lia].
  - split; [done|]. intros (_ & Hn & _). by destruct Hn.
Qed.

Lemma Add_Ok st p p' : good g (pq p) → Add g now st p = (Ok tt, p') → admissible st p ∧ entered st p p'.
Proof.
  intros Hg HA. pose proof (Add_queue_only st p _ _ HA) as [Hbc Hbuf].
  unfold Add in HA. case_decide as Hin; [done|]. case_decide as Hgas; [done|].
  apply stM_bind_Ok in HA as ([] & p1 & [= Hv <-] & HA). apply stM_bind_Ok in HA as (s & p1 & [= Hs <-] & HA).
  unfold add in HA. case_decide as Hroom; [done|].
  destruct (geCallerNonce _ _ _) as [[]|e|] eqn:Hn; [|done..]. apply geCallerNonce_Ok in Hn as (Hn1 & Hn2 & _).
  destruct (push g now st (pq p)) as [q|e|] eqn:Hpush; [|done..]. injection HA as <-.
  destruct (push_refines g now st _ _ Hg Hpush) as [_ Hc]. split; [|done]. split; [|lia|done|by eexists|lia|done..].
  intros Ht. destruct (Input (st_tx st)); [done|]. destruct Hin. split; [done|simpl; lia].
Qed.

Lemma Add_total st p : good g (pq p) → 0 ≤ Nonce (st_tx st) → admissible st p → ∃ p', Add g now st p = (Ok tt, p').
Proof.
  intros Hg Hn0 [Hin Hgas Hv Hs Hroom Hn1 Hn2]. unfold Add. rewrite decide_False by (intros [Ht Hl]; rewrite (Hin Ht) in Hl; simpl in Hl; lia).
  rewrite decide_False by lia. rewrite Hv. destruct Hs as [s Hs]. rewrite Hs.
  assert (∀ m : stM (Pool BC) unit, (st_lift (Ok tt) ;; st_lift (Ok s) ;; m) p = m p) as -> by done.
  unfold add. rewrite decide_False by lia.
  destruct (push_total g now st (pq p) Hg) as [q Hq]; [by eexists|]. rewrite Hq.
  rewrite (proj2 (geCallerNonce_Ok _ _ _)) by auto. by eexists.
Qed.

(** The transaction a request becomes. *)
Definition request_tx (ty : byte) (rq : ReqTransaction) (from to : Address) (sign : Signature) : SignedTransaction :=
  STx (Tx 0 ty from to (rq_Amount rq) (rq_Nonce rq) (rq_GasLimit rq) (rq_GasFeeCap rq) (rq_GasPrice rq) (rq_Input rq)) sign.

(** The addresses and the signature of a request can be read, the chain has the [funds],
    the pool admits the transaction, enters it, and answers with its hash. *)
Definition accepted (ty : byte) (funds : Address → Address → BC → Prop) (rq : ReqTransaction) p (h : bytes) p' : Prop :=
  ∃ from to sign, let st := request_tx ty rq from to sign in
    NewAddrFromString g (rq_From rq) = Ok from ∧ NewAddrFromString g (rq_To rq) = Ok to ∧
    DeserializeSignature (rq_Sign rq) = Ok sign ∧ funds from to (pbc p) ∧
    admissible st p ∧ entered st p p' ∧ h = EncodeToString (Hash (st_tx st)).

(** The sum of the amount and the gas, as a uint64, is available. *)
Definition can_pay (rq : ReqTransaction) (from to : Address) (bc : BC) : Prop :=
  ∃ v, ib_GetAvailableBalance from bc = Ok v ∧ rq_Amount rq +₆₄ rq_GasLimit rq *₆₄ rq_GasPrice rq ≤ v.

(** The gas is available, and the amount is frozen, for this receiver and in all. *)
Definition can_unlock (rq : ReqTransaction) (from to : Address) (bc : BC) : Prop :=
  ∃ all v one, ib_GetAllFreezeBalance from bc = Ok all ∧ ib_GetAvailableBalance from bc = Ok v ∧
    ib_GetSingleFreezeBalance from to bc = Ok one ∧
    rq_GasLimit rq *₆₄ rq_GasPrice rq ≤ v ∧ rq_Amount rq ≤ all ∧ rq_Amount rq ≤ one.

Lemma lift_bind {A C} (r : res A) (f : A → stM (Pool BC) C) p c p' :
  (st_lift r ≫= f) p = (Ok c, p') → ∃ a, r = Ok a ∧ f a p = (Ok c, p').
Proof. intros (a & p1 & [= Hr <-] & Hf)%stM_bind_Ok. eauto. Qed.
Lemma bc_bind {A C} (f : BC → res A) (k : A → stM (Pool BC) C) p c p' :
  (from_bc f ≫= k) p = (Ok c, p') → ∃ a, f (pbc p) = Ok a ∧ k a p = (Ok c, p').
Proof. intros (a & p1 & [= Hr <-] & Hf)%stM_bind_Ok. eauto. Qed.

Lemma submit_Ok ty rq from to p h p' : good g (pq p) → submit g now ty rq from to p = (Ok h, p') →
  ∃ sign, let st := request_tx ty rq from to sign in
    DeserializeSignature (rq_Sign rq) = Ok sign ∧ admissible st p ∧ entered st p p' ∧
    h = EncodeToString (Hash (st_tx st)).
Proof.
  intros Hg (sign & Hsign & Hr)%lift_bind. case_decide as Hgas; [done|].
  apply stM_bind_Ok in Hr as ([] & p1 & HA & [= <- <-]). apply Add_Ok in HA as [Ha He]; [|done].
  exists sign. by split_and!.
Qed.

Lemma submit_total ty rq from to p sign : let st := request_tx ty rq from to sign in
  good g (pq p) → DeserializeSignature (rq_Sign rq) = Ok sign → 0 ≤ rq_Nonce rq → admissible st p →
  ∃ h p', submit g now ty rq from to p = (Ok h, p').
Proof.
  intros st Hg Hs Hn0 Ha. destruct (Add_total st p Hg Hn0 Ha) as [p' Hp']. exists (EncodeToString (Hash (st_tx st))), p'.
  unfold submit. rewrite Hs.
  assert (∀ f : Signature → stM (Pool BC) bytes, (st_lift (Ok sign) ≫= f) p = f sign p) as -> by done.
  rewrite decide_False. { fold st. by rewrite (st_bind_eq _ _ _ _ _ Hp'). }
  intros E. pose proof (adm_gas st p Ha) as Hgas. subst st. cbn in Hgas. rewrite E in Hgas.
  by vm_compute in Hgas; destruct Hgas.
Qed.
(** *** The three requests *)

(** [m] accepts exactly the requests with funds that the pool admits. *)
Definition decides (ty : byte) (funds : Address → Address → BC → Prop) (rq : ReqTransaction) p
    (m : stM (Pool BC) bytes) : Prop :=
  (∀ h p', m p = (Ok h, p') → accepted ty funds rq p h p') ∧
  (∀ h p', accepted ty funds rq p h p' → (m p).1 = Ok h) ∧
  ((¬ ∃ h, (m p).1 = Ok h) → (m p).2 = p).

Lemma queue_only_fails {A} (m : stM (Pool BC) A) p : queue_only m → (¬ ∃ h, (m p).1 = Ok h) → (m p).2 = p.
Proof.
  intros Hm Hno. destruct (m p) as [r p'] eqn:E. pose proof (Hm _ _ _ E) as Hr. destruct r; [|done..].
  destruct Hno. by eexists.
Qed.

Lemma submit_accepted ty rq from to sign p : let st := request_tx ty rq from to sign in
  good g (pq p) → DeserializeSignature (rq_Sign rq) = Ok sign → 0 ≤ rq_Nonce rq → admissible st p →
  (submit g now ty rq from to p).1 = Ok (EncodeToString (Hash (st_tx st))).
Proof.
  intros st Hg Hs Hn0 Ha. destruct (submit_total ty rq from to p sign Hg Hs Hn0 Ha) as (h & p' & E).
  destruct (submit_Ok _ _ _ _ _ _ _ Hg E) as (sign' & Hs' & _ & _ & ->). rewrite E. cbn [fst].
  by rewrite Hs in Hs'; injection Hs' as <-.
Qed.

Lemma available_decides ty rq p : good g (pq p) → 0 ≤ rq_Nonce rq →
  decides ty (can_pay rq) rq p (send_available g now ty rq).
Proof.
  intros Hg Hn0. split_and!.
  - intros h p' (from & Hf & Hr)%lift_bind. apply lift_bind in Hr as (to & Ht & Hr).
    apply bc_bind in Hr as (v & Hv & Hr). case_decide as Hpay; [done|].
    apply submit_Ok in Hr as (sign & Hs & Ha & He & ->); [|done]. exists from, to, sign.
    split_and!; try done. exists v. split; [done|lia].
  - intros h p' (from & to & sign & Hf & Ht & Hs & (v & Hv & Hle) & Ha & _ & ->).
    rewrite <- (submit_accepted ty rq from to sign p Hg Hs Hn0 Ha). unfold send_available. rewrite Hf, Ht.
    unfold mbind, stM_bind, st_lift, from_bc. cbn beta iota. rewrite Hv. cbn beta iota.
    by rewrite decide_False by lia.
  - apply queue_only_fails, available_queue_only.
Qed.

Lemma unlock_decides rq p : good g (pq p) → 0 ≤ rq_Nonce rq →
  decides UnlockTransaction (can_unlock rq) rq p (SendUnlockTransaction g now rq).
Proof.
  intros Hg Hn0. split_and!.
  - intros h p' (from & Hf & Hr)%lift_bind. apply lift_bind in Hr as (to & Ht & Hr).
    apply bc_bind in Hr as (all & Hall & Hr). apply bc_bind in Hr as (v & Hv & Hr).
    apply bc_bind in Hr as (one & Hone & Hr). case_decide as Hpay; [done|].
    apply submit_Ok in Hr as (sign & Hs & Ha & He & ->); [|done]. exists from, to, sign.
    split_and!; try done. exists all, v, one. split_and!; [done..|lia|lia|lia].
  - intros h p' (from & to & sign & Hf & Ht & Hs & (all & v & one & Hall & Hv & Hone & Hle) & Ha & _ & ->).
    rewrite <- (submit_accepted UnlockTransaction rq from to sign p Hg Hs Hn0 Ha). unfold SendUnlockTransaction.
    rewrite Hf, Ht. unfold mbind, stM_bind, st_lift, from_bc. cbn beta iota. rewrite Hall. cbn beta iota.
    rewrite Hv. cbn beta iota. rewrite Hone. cbn beta iota. by rewrite decide_False by lia.
  - apply queue_only_fails, unlock_queue_only.
Qed.

(** C22: the three requests to send a transaction are accepted exactly when the two addresses
    and the signature can be read, the chain has the funds (for a transfer and a lock the
    sum of the amount and the gas, taken as a 64-bit integer, is available; for an unlock
    the gas is available and the amount is frozen for the receiver and in all), and the pool
    admits the transaction: its signature verifies, its gas is within the limits, its
    nonce is not used up and there is room.  The pool is then the one before with the
    transaction entered, and the answer is its hash; after anything else the pool is the
    one before. *)
Theorem requests_decided (rq : ReqTransaction) p : reachable g (pq p) → 0 ≤ rq_Nonce rq →
  decides TransferTransaction (can_pay rq) rq p (SendTransaction g now rq) ∧
  decides LockTransaction (can_pay rq) rq p (SendLockTransaction g now rq) ∧
  decides UnlockTransaction (can_unlock rq) rq p (SendUnlockTransaction g now rq).
Proof.
  intros Hg%reachable_good Hn0. split_and!; [by apply available_decides..|by apply unlock_decides].
Qed.

End Send.

(** ** Ethereum transactions *)

Definition ascii (b : bytes) : Prop := Forall (λ c, (Byte.to_N c < 128)%N) b.

(** JSON keeps ASCII text and bytes, and [hexutil] reads nothing else. *)
Class EvmDataLaws `{!EvmData} := {
  EncodeEvmData_law e : ascii (EthData e) → Logs e = [] →
    ∃ i e', EncodeEvmData e = Ok i ∧ DecodeEvmData i = Ok e' ∧ EthData e' = EthData e ∧ MsgHash e' = MsgHash e;
  DecodeEthData_ascii d t : DecodeEthData d = Ok t → ascii d;
}.

Section Eth.
Context `{!CborHeader, !Crypto, !EthCommon, !EvmData, !EvmDataLaws}.
Variables (g : globals) (cfg : ChainConfig).
Implicit Types (st : SignedTransaction) (rq : ReqEthSignTransaction).

(** The request with another text of the sender. *)
Definition with_sender (b : bytes) rq : ReqEthSignTransaction :=
  MkEthReq (rq_KtoFrom rq) b (rq_EthData rq) (rq_MsgHash rq).

(** The request is not one signed with the key of this chain's address. *)
Definition by_eth rq : Prop := rq_KtoFrom rq = [] ∨ rq_MsgHash rq = [].

Lemma eth_sender_by_eth rq : by_eth rq →
  eth_sender g rq = (addr ← StringToAddress g (rq_EthFrom rq); Ok (addr, TypeSecp256k1, [])).
Proof. intros Hby. unfold eth_sender. rewrite decide_False; [done|]. destruct Hby as [-> | ->]; simpl; lia. Qed.

(** The parts of an action that do not depend on who asks. *)
Lemma eth_action_sender f1 f2 msg d t to amount tag evm :
  eth_action g f1 msg d t = Ok (to, amount, tag, evm) →
  ∃ evm', eth_action g f2 msg d t = Ok (to, amount, tag, evm') ∧
    (tag = EvmContractTransaction ∨ tag = EvmKtoTransaction) ∧
    EthData evm = d ∧ EthData evm' = d ∧ MsgHash evm = msg ∧ MsgHash evm' = msg ∧ Logs evm = [] ∧ Logs evm' = [].
Proof.
  unfold eth_action. case_decide.
  - destruct (eth_To t); intros [= <- <- <- <-]; eexists; (split; [done|]); split_and!; auto.
  - destruct (eth_To t); [|done]. destruct (StringToAddress _ _); [|done..].
    intros [= <- <- <- <-]; eexists; (split; [done|]); split_and!; auto.
Qed.

(** What verification makes of an Ethereum transaction: its data alone. *)
Lemma VerifySign_eth st evm : Type_ (st_tx st) = EvmContractTransaction ∨ Type_ (st_tx st) = EvmKtoTransaction →
  DecodeEvmData (Input (st_tx st)) = Ok evm → MsgHash evm = [] →
  VerifySign st = (ok ← VerifyEthSign (EthData evm); if (ok : bool) then Ok tt else err "verify eth transaction failed!").
Proof.
  intros Ht Hd Hm. unfold VerifySign.
  rewrite decide_False by (destruct Ht as [-> | ->]; intros [?|[?|[?|?]]]; done).
  rewrite decide_False by (destruct Ht as [-> | ->]; intros [?|?]; done).
  rewrite decide_True by done. rewrite Hd. cbn [mbind res_bind]. by rewrite Hm, decide_False by (simpl; lia).
Qed.

(** The two transactions differ in their sender and their input alone. *)
Definition same_but_sender st st' : Prop :=
  let t := st_tx st in
  st' = STx (Tx (Version t) (Type_ t) (From (st_tx st')) (To t) (Amount t) (Nonce t) (GasLimit t) (GasFeeCap t)
               (GasPrice t) (Input (st_tx st'))) (st_sig st).

Lemma eth_transaction_any_sender rq b a st : by_eth rq →
  eth_transaction g cfg rq = Ok st → StringToAddress g b = Ok a →
  ∃ st', eth_transaction g cfg (with_sender b rq) = Ok st' ∧ From (st_tx st') = a ∧ same_but_sender st st' ∧
    VerifySign st' = VerifySign st ∧ Type_ (st_tx st) ≠ TransferTransaction.
Proof.
  intros Hby Hst Hb. unfold eth_transaction in *. cbn zeta in *. change (rq_EthData (with_sender b rq)) with (rq_EthData rq).
  case_decide as Hlen; [done|].
  rewrite (eth_sender_by_eth (with_sender b rq)) by exact Hby. rewrite eth_sender_by_eth in Hst by exact Hby.
  change (rq_EthFrom (with_sender b rq)) with b. rewrite Hb. cbn [mbind res_bind].
  apply bind_Ok in Hst as ([[from sty] msg] & Hfrom & Hst). apply bind_Ok in Hfrom as (f & _ & [= <- <- <-]).
  apply bind_Ok in Hst as (t & Ht & Hst). pose proof (DecodeEthData_ascii _ _ Ht) as Hasc. rewrite Ht.
  cbn [mbind res_bind] in *. case_decide as Hid; [done|].
  apply bind_Ok in Hst as ([[[to amount] tag] evm] & Hact & Hst).
  destruct (eth_action_sender _ (HexToAddress b) _ _ _ _ _ _ _ Hact) as (evm' & Hact' & Htag & Hd1 & Hd2 & Hm1 & Hm2 & Hl1 & Hl2).
  rewrite Hact'. cbn [mbind res_bind].
  apply bind_Ok in Hst as (i & Hi & [= <-]).
  destruct (EncodeEvmData_law evm) as (i0 & d & Hi0 & Hdec & Hd3 & Hm3); [by rewrite Hd1|done|].
  rewrite Hi in Hi0. injection Hi0 as <-.
  destruct (EncodeEvmData_law evm') as (i' & d' & Hi' & Hdec' & Hd4 & Hm4); [by rewrite Hd2|done|].
  rewrite Hi'. cbn [mbind res_bind]. eexists. split; [done|]. split; [done|]. split; [reflexivity|].
  rewrite (VerifySign_eth (STx (Tx _ _ f _ _ _ _ _ _ _) _) d) by (done || by rewrite Hm3).
  rewrite (VerifySign_eth (STx (Tx _ _ a _ _ _ _ _ _ _) _) d') by (done || by rewrite Hm4).
  rewrite Hd3, Hd1, Hd4, Hd2. split; [done|]. simpl. by destruct Htag as [-> | ->].
Qed.

(** *** Signatures with a key of this chain *)

(** The request is signed with the key of this chain's address. *)
Definition by_kto rq : Prop := rq_KtoFrom rq ≠ [] ∧ rq_MsgHash rq ≠ [].

(** The request with other Ethereum data. *)
Definition with_data (d : bytes) rq : ReqEthSignTransaction := MkEthReq (rq_KtoFrom rq) (rq_EthFrom rq) d (rq_MsgHash rq).

(** What verification makes of such a transaction: its sender, the hash, and the signature
    in its data. *)
Definition kto_verdict (a : Address) (msgHash : bytes) (sign : bytes) : res unit :=
  ok ← (if decide (length sign <= 64)%nat then Ok false else ed25519_Verify_std (Payload a) msgHash (take 64 sign));
  if (ok : bool) then Ok tt else err "verify kto transaction failed!".

Lemma eth_transaction_kto rq st : by_kto rq → eth_transaction g cfg rq = Ok st →
  ∃ t a, DecodeEthData (rq_EthData rq) = Ok t ∧ NewAddrFromString g (rq_KtoFrom rq) = Ok a ∧ From (st_tx st) = a ∧
    VerifySign st = kto_verdict a (rq_MsgHash rq) (ParseEthSignature t) ∧
    Nonce (st_tx st) = eth_Nonce t ∧
    ∃ f tag evm, eth_action g f (rq_MsgHash rq) (rq_EthData rq) t = Ok (To (st_tx st), Amount (st_tx st), tag, evm).
Proof.
  intros [Hk Hm] Hst. unfold eth_transaction in Hst. case_decide as Hl; [done|].
  assert (eth_sender g rq = (f ← NewAddrFromString g (rq_KtoFrom rq); Ok (f, TypeED25519, rq_MsgHash rq))) as Hs.
  { unfold eth_sender. rewrite decide_True; [done|]. destruct (rq_KtoFrom rq), (rq_MsgHash rq); simpl; try done. lia. }
  rewrite Hs in Hst. apply bind_Ok in Hst as ([[from sty] msg] & Hfrom & Hst).
  apply bind_Ok in Hfrom as (a & Ha & [= <- <- <-]). apply bind_Ok in Hst as (t & Ht & Hst). case_decide; [done|].
  apply bind_Ok in Hst as ([[[to amount] tag] evm] & Hact & Hst). apply bind_Ok in Hst as (i & Hi & [= <-]).
  exists t, a. split; [done|]. split; [done|]. split; [done|].
  destruct (eth_action_sender _ [] _ _ _ _ _ _ _ Hact) as (evm' & _ & Htag & Hd & _ & Hmsg & _ & Hlogs & _).
  split; [|split; [done|]; by exists (HexToAddress (rq_EthFrom rq)), tag, evm].
  destruct (EncodeEvmData_law evm) as (i' & d & Hi' & Hdec & Hd' & Hm'); [rewrite Hd; by eapply DecodeEthData_ascii|done|].
  rewrite Hi in Hi'. injection Hi' as <-. unfold VerifySign. cbn [st_tx Type_ Input].
  rewrite decide_False by (destruct Htag as [-> | ->]; intros [?|[?|[?|?]]]; done).
  rewrite decide_False by (destruct Htag as [-> | ->]; intros [?|?]; done).
  rewrite decide_True by done. rewrite Hdec. cbn [mbind res_bind].
  rewrite Hm', Hmsg. rewrite decide_True by (destruct (rq_MsgHash rq); [done|simpl; lia]).
  unfold VerifyKtoSign. rewrite Hd', Hd, Ht. done.
Qed.

(** C21: the signature of an account of this chain is not tied to what it pays for: when a request
    with such a signature verifies, so does every other Ethereum transaction into which
    the two numbers of the signature are copied, under the same sender and hash,
    whatever receiver, amount and nonce it has. *)
Theorem kto_signature_unbound rq (d : bytes) (t t' : EthTx) st st' :
  by_kto rq → DecodeEthData (rq_EthData rq) = Ok t → DecodeEthData d = Ok t' →
  ParseEthSignature t' = ParseEthSignature t →
  eth_transaction g cfg rq = Ok st → eth_transaction g cfg (with_data d rq) = Ok st' →
  From (st_tx st') = From (st_tx st) ∧ VerifySign st' = VerifySign st ∧ Nonce (st_tx st') = eth_Nonce t' ∧
  ∃ f tag evm, eth_action g f (rq_MsgHash rq) d t' = Ok (To (st_tx st'), Amount (st_tx st'), tag, evm).
Proof.
  intros Hby Ht Ht' Hsig Hst Hst'.
  destruct (eth_transaction_kto rq st Hby Hst) as (u & a & Hu & Ha & Hf & Hv & _).
  destruct (eth_transaction_kto (with_data d rq) st' Hby Hst') as (u' & a' & Hu' & Ha' & Hf' & Hv' & Hn' & Hact).
  change (DecodeEthData d = Ok u') in Hu'. change (NewAddrFromString g (rq_KtoFrom rq) = Ok a') in Ha'.
  assert (u = t ∧ u' = t' ∧ a' = a) as (-> & -> & ->) by (split_and!; congruence).
  split; [congruence|]. split; [|split; [exact Hn'|exact Hact]].
  rewrite Hv, Hv', Hsig. reflexivity.
Qed.

Context {BC : Type} `{!IBlockchain BC}.
Variable now : Z.
Implicit Types (p : Pool BC).

(** C20: nothing ties the sender of an Ethereum transaction to its signature.  When the pool
    takes a request signed with an Ethereum key, it also takes, in the same state, the same
    signed data under any other sender that can be read, has a text, and has not used up the nonce:
    what enters the pool is then a transaction from that account, with the receiver, the
    amount, the gas and the signature of the first. *)
Theorem eth_sender_unchecked rq (b : bytes) (a : Address) (n : Z) st p h p' :
  reachable g (pq p) → by_eth rq → eth_transaction g cfg rq = Ok st → 0 ≤ Nonce (st_tx st) →
  SendEthSignedRawTransaction g now cfg rq p = (Ok h, p') →
  StringToAddress g b = Ok a → is_Ok (String g a) → ib_GetNonce a (pbc p) = Ok n → n ≤ Nonce (st_tx st) →
  ∃ st' h' p'', From (st_tx st') = a ∧ same_but_sender st st' ∧
    SendEthSignedRawTransaction g now cfg (with_sender b rq) p = (Ok h', p'') ∧ entered g st' p p''.
Proof.
  intros Hg%reachable_good Hby Hst Hn0 Hsend Hb Hs Hn Hle. unfold SendEthSignedRawTransaction in *.
  apply lift_bind in Hsend as (? & Hst' & Hsend). rewrite Hst in Hst'. injection Hst' as <-.
  apply stM_bind_Ok in Hsend as ([] & p1 & HA & [= _ ->]). destruct (Add_Ok _ _ _ _ _ Hg HA) as [Hadm _].
  destruct (eth_transaction_any_sender rq b a st Hby Hst Hb) as (st' & Hst' & <- & Hsame & Hver & Hty).
  assert (admissible g st' p) as Hadm'.
  { destruct Hadm as [Hin Hgas Hv _ Hroom _ _]. revert Hs Hn Hver. rewrite Hsame. intros Hs Hn Hver.
    constructor; cbn [st_tx Type_ Input GasLimit GasPrice Nonce From Caller] in *; try done.
    - by rewrite Hver.
    - intros m Hm. unfold Caller in Hm. cbn in Hm, Hn. rewrite Hn in Hm. by injection Hm as <-.
    - intros Hm. unfold Caller in Hm. cbn in Hm, Hn. by rewrite Hn in Hm. }
  destruct (Add_total g now st' p Hg) as [p'' Hp'']; [by rewrite Hsame|done|].
  destruct (Add_Ok _ _ _ _ _ Hg Hp'') as [_ Hent]. exists st', (HashToString st'), p''. split_and!; [done..| |done].
  rewrite Hst'.
  change ((Add g now st' ;; mret (HashToString st')) p = (Ok (HashToString st'), p'')).
  by rewrite (st_bind_eq _ _ _ _ _ Hp'').
Qed.

End Eth.

(** ** Concrete requests *)

Module GatewaySample.
Import CryptoInstance QueueSample PoolSample.

(** A codec that keeps the two fields: the length of the data in unary, the data, and the
    hash. *)
Fixpoint until_zero (b : bytes) : nat * bytes :=
  match b with
  | [] => (O, [])
  | c :: b => if decide (c = Byte.x00) then (O, b) else let '(n, r) := until_zero b in (S n, r)
  end.

Definition pack (d m : bytes) : bytes := replicate (length d) Byte.x01 ++ Byte.x00 :: d ++ m.

Lemma until_pack n r : until_zero (replicate n Byte.x01 ++ Byte.x00 :: r) = (n, r).
Proof. induction n as [|n IH]; [done|]. cbn. by rewrite IH. Qed.

(** Ethereum data is the text [x] or [y], for the nonce 1, with the same signature. *)
Definition sig_r : Z := (2 ^ 256 - 1) / 255 * 5.
Definition sig_s : Z := (2 ^ 256 - 1) / 255 * 6.
Definition eth_tx : EthTx :=
  MkEthTx 27 sig_r sig_s 0 (replicate 32 Byte.x0a) (30 * ETHDECIMAL) 1 70 60000 (Some (replicate 20 Byte.x09)) [].
Definition eth_tx' : EthTx :=
  MkEthTx 27 sig_r sig_s 0 (replicate 32 Byte.x0b) (500 * ETHDECIMAL) 1 70 60000 (Some (replicate 20 Byte.x02)) [].

#[local] Instance packed : EvmData := {
  EncodeEvmData e := Ok (pack (EthData e) (MsgHash e));
  DecodeEvmData i := let '(n, r) := until_zero i in
                     Ok (MkEvm (take n r) (drop n r) [] [] [] [] [] [] false []);
  DecodeEthData d := if decide (d = bs "x") then Ok eth_tx
                     else if decide (d = bs "y") then Ok eth_tx' else err "not a transaction";
}.

#[local] Program Instance packed_laws : EvmDataLaws.
Next Obligation.
  intros e _ _. eexists _, _. cbn. unfold pack. rewrite until_pack. split_and!; [done..| |]; cbn.
  - by rewrite take_app_length.
  - by rewrite drop_app_length.
Qed.
Next Obligation.
  intros d t Hd. cbn in Hd. do 2 (case_decide; [subst; by apply (bool_decide_unpack _)|]). done.
Qed.
Definition cfg : ChainConfig := ChainCfg 0 0 0 0.

(** Everyone is at nonce 1 and has 10000000. *)
Definition wealthy : sample := Sample (λ _, 1) (λ _, 10000000) (λ _, 0) (λ _ _, 0).
Definition p0 : Pool sample := pool wealthy [].

Definition text_of (c : byte) : bytes := bs "0x" ++ EncodeToString (replicate 20 c).
(** A request signed with the ed25519 key 0505..., for 30 to 0909..., and its copy for 500 to
    another account. *)
Definition signed : ReqEthSignTransaction :=
  MkEthReq (match String g (Addr (replicate 32 Byte.x05)) with Ok s => s | _ => [] end) [] (bs "x") (replicate 32 Byte.x06).
Definition tx_of (rq : ReqEthSignTransaction) : SignedTransaction :=
  match eth_transaction g cfg rq with Ok st => st | _ => zero_tx end.

Definition mine : ReqEthSignTransaction := MkEthReq [] (text_of Byte.x01) (bs "x") [].

(** A transfer of 5 from [a] to [e]; the stand-in for the signature scheme recovers the
    signer from the first bytes. *)
Definition transfer : ReqTransaction :=
  let tx := Tx 0 TransferTransaction a e 5 1 60000 0 70 [] in
  let text x := match String g x with Ok s => s | _ => [] end in
  MkReq (text a) (text e) 5 1 60000 70 0 []
    (Sig_Serialize (Sig TypeSecp256k1 (fit 65 (replicate 20 Byte.x01)))).

(** The sum of the amount and the gas is taken modulo 2^64: with nothing to his name, the
    sender of 18446744073705351616 has his request accepted. *)
Definition wrapped : ReqTransaction :=
  MkReq (rq_From transfer) (rq_To transfer) (2 ^ 64 - 4200000) 1 60000 70 0 [] (rq_Sign transfer).
Definition penniless : sample := Sample (λ _, 1) (λ _, 0) (λ _, 0) (λ _ _, 0).
Lemma wrapped_accepted : is_Ok (SendTransaction g 0 wrapped (pool penniless [])).1.
Proof. eexists. vm_compute. reflexivity. Qed.

End GatewaySample.
#[local] Existing Instances GatewaySample.packed GatewaySample.packed_laws.

Lemma requests_decided_witness :
  ∃ p', accepted QueueSample.g TransferTransaction (can_pay GatewaySample.transfer) GatewaySample.transfer
    GatewaySample.p0 (EncodeToString (Byte.x00 :: replicate 20 Byte.x01 ++ Byte.x00 :: replicate 10 Byte.x02)) p'.
Proof.
  pose proof (requests_decided QueueSample.g 0 GatewaySample.transfer GatewaySample.p0
    (PoolSample.pool_reachable GatewaySample.wealthy []) ltac:(vm_compute; discriminate)) as [[Hd _] _].
  eexists. refine (Hd _ _ _). by_run.
Defined.

Lemma eth_sender_unchecked_witness :
  ∃ st' h' p'', From (st_tx st') = QueueSample.e ∧
    SendEthSignedRawTransaction QueueSample.g 0 GatewaySample.cfg
      (with_sender (GatewaySample.text_of Byte.x02) GatewaySample.mine) GatewaySample.p0 = (Ok h', p'') ∧
    entered QueueSample.g st' GatewaySample.p0 p''.
Proof.
  edestruct (eth_sender_unchecked QueueSample.g GatewaySample.cfg 0 GatewaySample.mine
    (GatewaySample.text_of Byte.x02) QueueSample.e 1) as (st' & h' & p'' & Hf & _ & Hs & He).
  - exact (PoolSample.pool_reachable GatewaySample.wealthy []).
  - by left.
  - vm_compute. reflexivity.
  - vm_compute. discriminate.
  - by_run.
  - vm_compute. reflexivity.
  - eexists. vm_compute. reflexivity.
  - vm_compute. reflexivity.
  - vm_compute. discriminate.
  - exists st', h', p''. split_and!; [exact Hf|exact Hs|exact He].
Defined.

Lemma kto_signature_unbound_witness :
  VerifySign (GatewaySample.tx_of GatewaySample.signed) = Ok tt ∧
  VerifySign (GatewaySample.tx_of (with_data (bs "y") GatewaySample.signed)) = Ok tt ∧
  Amount (st_tx (GatewaySample.tx_of GatewaySample.signed)) = 30 ∧
  Amount (st_tx (GatewaySample.tx_of (with_data (bs "y") GatewaySample.signed))) = 500.
Proof.
  assert (VerifySign (GatewaySample.tx_of GatewaySample.signed) = Ok tt) as Hv by (vm_compute; reflexivity).
  split; [exact Hv|]. split; [|split; vm_compute; reflexivity]. rewrite <- Hv.
  refine (proj1 (proj2 (kto_signature_unbound QueueSample.g GatewaySample.cfg GatewaySample.signed (bs "y")
    GatewaySample.eth_tx GatewaySample.eth_tx' _ _ _ _ _ _ _ _))).
  - split; vm_compute; discriminate.
  - reflexivity.
  - reflexivity.
  - reflexivity.
  - vm_compute. reflexivity.
  - vm_compute. reflexivity.
Defined.
