(* ===== verification/Limiter.v ===== *)
(** Limits on requests ([pkg/server/limiter.go], [interceptor.go]): every request to a node's
    gRPC servers goes through [IpInterceptor].

    gcache's cache and the limiters of golang.org/x/time/rate are the class [Limiters]; the
    cache holds references to limiters, which are kept in a list.  The time of a request
    is an argument. *)

From S2P Require Import Prelude Strconv Queue.

Class Limiters (C L : Type) := {
  cache_Get : bytes → Z → C → option nat * C;                   (* key, now *)
  cache_SetWithExpire : bytes → nat → Z → Z → C → C;            (* key, value, nanoseconds, now *)
  rate_NewLimiter : Z → Z → L;
  Allow : Z → L → bool * L;                                     (* now *)
}.

(** What they promise: what is set for longer than no time can be got, unless it was dropped since,
    which only another [SetWithExpire] does at one moment; a new limiter lets a burst
    through, and every request that it lets through takes a token. *)
Class LimitersLaws (C L : Type) `{!Limiters C L} := {
  cached : Z → bytes → C → option nat;
  tokens : Z → L → Z;
  Get_cached now k c : (cache_Get k now c).1 = cached now k c;
  Get_keeps now k k' c : cached now k' (cache_Get k now c).2 = cached now k' c;
  Set_cached now k v d c : 0 < d → cached now k (cache_SetWithExpire k v d now c) = Some v;
  New_tokens now r b : 0 <= b → tokens now (rate_NewLimiter r b) = b;
  Allow_tokens now l : Allow now l = (bool_decide (1 <= tokens now l), (Allow now l).2) ∧
    tokens now (Allow now l).2 = if decide (1 <= tokens now l) then tokens now l - 1 else tokens now l;
}.

Section Limiter.
Context {C L : Type} `{!Limiters C L}.

Record ipRateLimiter := IpRateLimiter { cache : C; limiters : list L; rate_r : Z; rate_b : Z }.
Implicit Types (i : ipRateLimiter) (ip addr : bytes) (now : Z).

Definition newIPRateLimiter (empty : C) (r b : Z) : ipRateLimiter := IpRateLimiter empty [] r b.

(** [24*time.Hour], in nanoseconds. *)
Definition day : Z := 24 * 3600 * 1000000000.

Definition addIP ip now : stM ipRateLimiter nat :=
  i ← st_get;
  let limiter := length (limiters i) in
  st_put (IpRateLimiter (cache_SetWithExpire ip limiter day now (cache i))
            (limiters i ++ [rate_NewLimiter (rate_r i) (rate_b i)]) (rate_r i) (rate_b i)) ;;
  mret limiter.

(** The look into the cache, which is under the lock. *)
Definition find_limiter ip now : stM ipRateLimiter (option nat) :=
  i ← st_get;
  let '(limiter, c) := cache_Get ip now (cache i) in
  st_put (IpRateLimiter c (limiters i) (rate_r i) (rate_b i)) ;;
  mret limiter.

(** The lock is given back before [addIP] takes it again. *)
Definition getLimiter ip now : stM ipRateLimiter nat :=
  limiter ← find_limiter ip now;
  match limiter with
  | None => addIP ip now
  | Some limiter => mret limiter
  end.

(** [limiter.Allow()]: the limiter behind the reference takes a token. *)
Definition allow (limiter : nat) now : stM ipRateLimiter bool :=
  i ← st_get;
  match limiters i !! limiter with
  | None => st_panic
  | Some l =>
      let '(ok, l) := Allow now l in
      st_put (IpRateLimiter (cache i) (<[limiter := l]> (limiters i)) (rate_r i) (rate_b i)) ;;
      mret ok
  end.

Definition whiteListIPs : list bytes := [bs "127.0.0.1"].

(** [strings.Split(p.Addr.String(), ":")[0]] *)
Definition ip_of addr : bytes := (split_at Byte.x3a addr).1.

(** The check of a request; [addr] is the address of the peer in the request's context. *)
Definition check_ip (addr : option bytes) now : stM ipRateLimiter unit :=
  match addr with
  | None => st_err (ErrMsg "context information error")
  | Some addr =>
      let ip := ip_of addr in
      if decide (ip ∈ whiteListIPs) then mret tt else
      limiter ← getLimiter ip now;
      ok ← allow limiter now;
      if ok : bool then mret tt else st_err (ErrMsg "request too frequently")
  end.

(** The state is the limiter's and the server's. *)
Definition IpInterceptor {X R} (addr : option bytes) now (handler : stM X R) : stM (ipRateLimiter * X) R :=
  zoom fst (λ i s, (i, s.2)) (check_ip addr now) ;;
  zoom snd (λ x s, (s.1, x)) handler.

(** [ipLimiter] *)
Definition ipLimiter (empty : C) : ipRateLimiter := newIPRateLimiter empty 50000 50000.

End Limiter.
Arguments ipRateLimiter C L : clear implicits.

(** ** What is let through *)

Section Facts.
Context {C L : Type} `{!Limiters C L, !LimitersLaws C L}.
Implicit Types (i : ipRateLimiter C L) (ip addr : bytes) (now : Z).

(** A refused request does not reach the server; one that is let through is the handler's. *)
Lemma intercepted {X R} (addr : option bytes) now (handler : stM X R) i (x : X) :
  let '(r, i') := check_ip addr now i in
  IpInterceptor addr now handler (i, x) =
    match r with
    | Ok _ => let '(r, x') := handler x in (r, (i', x'))
    | Err e => (Err e, (i', x))
    | Panic => (Panic, (i', x))
    end.
Proof.
  unfold IpInterceptor, zoom. unfold mbind, stM_bind. cbn [fst snd].
  destruct (check_ip addr now i) as [[[]|e|] i']; [|done..]. cbn [fst snd]. by destruct (handler x).
Qed.

(** A host of the list is never refused, and asks for no limiter. *)
Lemma listed_free addr now i : ip_of addr ∈ whiteListIPs → check_ip (Some addr) now i = (Ok tt, i).
Proof. intros Hin. unfold check_ip. by rewrite decide_True. Qed.

(** What a host can still send at a moment. *)
Definition allowance ip now i : Z :=
  match cached now ip (cache i) with
  | Some l => from_option (tokens now) 0 (limiters i !! l)
  | None => rate_b i
  end.

(** The host's limiter is [l]. *)
Definition holds ip now (l : nat) i : Prop := cached now ip (cache i) = Some l ∧ (l < length (limiters i))%nat.

Lemma getLimiter_run ip now i : 0 <= rate_b i →
  (∀ l, cached now ip (cache i) = Some l → (l < length (limiters i))%nat) →
  ∃ l i', getLimiter ip now i = (Ok l, i') ∧ holds ip now l i' ∧ rate_b i' = rate_b i ∧
    from_option (tokens now) 0 (limiters i' !! l) = allowance ip now i.
Proof.
  intros Hb Hs. unfold getLimiter, find_limiter, allowance. unfold st_get, st_put, mbind, stM_bind, mret, stM_ret.
  pose proof (Get_cached now ip (cache i)) as Hg. pose proof (Get_keeps now ip ip (cache i)) as Hk.
  destruct (cache_Get ip now (cache i)) as [r c]. cbn [fst snd] in *. rewrite Hg in *.
  destruct (cached now ip (cache i)) as [l|] eqn:E.
  - exists l. eexists. split; [done|]. unfold holds. cbn [cache limiters rate_b]. by split_and!; [|apply Hs| |].
  - unfold addIP, st_get, st_put, mbind, stM_bind, mret, stM_ret. cbn [cache limiters rate_b rate_r].
    eexists _, _. split; [done|]. unfold holds. cbn [cache limiters rate_b].
    split_and!; [by apply Set_cached|rewrite length_app; simpl; lia|done|].
    rewrite lookup_app_r, Nat.sub_diag by done. by apply New_tokens.
Qed.

Lemma allow_run ip now l i : holds ip now l i →
  let n := from_option (tokens now) 0 (limiters i !! l) in
  ∃ i', allow l now i = (Ok (bool_decide (1 <= n)), i') ∧ holds ip now l i' ∧ rate_b i' = rate_b i ∧
    from_option (tokens now) 0 (limiters i' !! l) = if decide (1 <= n) then n - 1 else n.
Proof.
  intros [Hc Hl]. destruct (lookup_lt_is_Some_2 _ _ Hl) as [lim Hlim]. unfold allow. unfold st_get, st_put, mbind, stM_bind, mret, stM_ret.
  rewrite Hlim. cbn [from_option]. destruct (Allow_tokens now lim) as [Ha Ht].
  destruct (Allow now lim) as [ok lim']. injection Ha as ->. cbn [snd] in Ht.
  eexists. split; [done|]. unfold holds. cbn [cache limiters rate_b]. rewrite length_insert.
  split_and!; [done..|]. by rewrite list_lookup_insert_eq.
Qed.

Lemma check_ip_run addr now i : ip_of addr ∉ whiteListIPs → 0 <= rate_b i →
  (∀ l, cached now (ip_of addr) (cache i) = Some l → (l < length (limiters i))%nat) →
  let n := allowance (ip_of addr) now i in
  ∃ l i', check_ip (Some addr) now i = (if decide (1 <= n) then Ok tt else err "request too frequently", i') ∧
    holds (ip_of addr) now l i' ∧ rate_b i' = rate_b i ∧
    allowance (ip_of addr) now i' = if decide (1 <= n) then n - 1 else n.
Proof.
  intros Hw Hb Hs n. destruct (getLimiter_run _ _ _ Hb Hs) as (l & i1 & Hg & Hh & Hb1 & Hn).
  destruct (allow_run _ _ _ _ Hh) as (i2 & Ha & Hh2 & Hb2 & Hn2). rewrite Hn in Ha, Hn2. fold n in Ha, Hn2.
  exists l, i2. split; [|split; [done|split; [by rewrite Hb2|]]].
  - unfold check_ip. rewrite decide_False by done. rewrite (st_bind_eq _ _ _ _ _ Hg), (st_bind_eq _ _ _ _ _ Ha).
    by case_decide; [rewrite bool_decide_eq_true_2|rewrite bool_decide_eq_false_2].
  - unfold allowance at 1. by rewrite (proj1 Hh2).
Qed.

(** The requests of one host at one moment: which are let through. *)
Fixpoint requests (n : nat) addr now i : list bool * ipRateLimiter C L :=
  match n with
  | O => ([], i)
  | S n =>
      let '(r, i) := check_ip (Some addr) now i in
      let '(rs, i) := requests n addr now i in
      (match r with Ok _ => true | _ => false end :: rs, i)
  end.

(** Of the requests that a host which is not listed sends at one moment, as many are let
    through as its limiter has tokens, or a new one gives, and those are the first ones. *)
Theorem host_limited n addr now i : ip_of addr ∉ whiteListIPs → 0 <= rate_b i →
  (∀ l, cached now (ip_of addr) (cache i) = Some l → (l < length (limiters i))%nat) →
  (requests n addr now i).1 =
    replicate (Z.to_nat (allowance (ip_of addr) now i) `min` n) true ++
    replicate (n - Z.to_nat (allowance (ip_of addr) now i)) false.
Proof.
  intros Hw. revert i. induction n as [|n IH]; intros i Hb Hs; cbn [requests]; [by rewrite Nat.min_0_r|].
  destruct (check_ip_run addr now i Hw Hb Hs) as (l & i1 & -> & [Hc Hl] & Hb1 & Ha).
  specialize (IH i1). destruct (requests n addr now i1) as [rs i2]. cbn [fst] in *.
  rewrite IH, Ha by (rewrite ?Hb1; naive_solver). clear Hs IH.
  set (a := allowance (ip_of addr) now i). clear Ha. destruct (decide (1 <= a)) as [Hd|Hd].
  - replace (Z.to_nat a) with (S (Z.to_nat (a - 1))) by lia. cbn [replicate Nat.min Nat.sub app]. done.
  - replace (Z.to_nat a) with O by lia. by rewrite Nat.sub_0_r.
Qed.

(** Two first requests of one host that both look into the cache before either adds a
    limiter get a limiter each, so that the host may send twice as much. *)
Theorem limiter_race ip now i : 0 <= rate_b i → cached now ip (cache i) = None →
  ∃ i1 i2 i3 i4 l l', find_limiter ip now i = (Ok None, i1) ∧ find_limiter ip now i1 = (Ok None, i2) ∧
    addIP ip now i2 = (Ok l, i3) ∧ addIP ip now i3 = (Ok l', i4) ∧ l ≠ l' ∧
    ∀ x, x = l ∨ x = l' → tokens now <$> (limiters i4 !! x) = Some (rate_b i).
Proof.
  intros Hb Hn. destruct i as [c ls r b]. cbn [rate_b cache] in *.
  unfold find_limiter, addIP. unfold st_get, st_put, mbind, stM_bind, mret, stM_ret.
  cbn [cache limiters rate_r rate_b].
  pose proof (Get_cached now ip c) as H1. pose proof (Get_keeps now ip ip c) as H2.
  destruct (cache_Get ip now c) as [o c1] eqn:E1. cbn [fst snd] in *. rewrite Hn in H1, H2. subst o.
  pose proof (Get_cached now ip c1) as H1. destruct (cache_Get ip now c1) as [o c2] eqn:E2. cbn [fst] in H1. rewrite H2 in H1. subst o.
  eexists _, _, _, _, _, _. split; [done|]. cbn [cache limiters rate_r rate_b]. rewrite E2. split; [done|]. split; [done|]. split; [done|].
  cbn [limiters]. rewrite length_app. cbn [length]. split; [lia|]. intros x [-> | ->].
  - rewrite <- app_assoc, lookup_app_r, Nat.sub_diag by done. cbn. by rewrite New_tokens.
  - rewrite lookup_app_r by (rewrite length_app; simpl; lia). rewrite length_app. cbn [length]. rewrite Nat.sub_diag.
    cbn. by rewrite New_tokens.
Qed.

End Facts.

Module LimiterSample.

(** An IPv6 address begins with a bracket and has colons of its own: all hosts of a network
    are one, and the node itself is not on the list. *)
Example networks_are_one : ip_of (bs "[2001:db8::1]:7000") = ip_of (bs "[2001:41d0::9]:8000").
Proof. done. Qed.
Example loopback_limited : ip_of (bs "127.0.0.1:9000") ∈ whiteListIPs ∧ ip_of (bs "[::1]:9000") ∉ whiteListIPs.
Proof. split; [by left|]. by intros [[=]|[]%elem_of_nil]%elem_of_cons. Qed.

(** A cache that only drops what has expired, and limiters that never refill. *)
Definition live (now : Z) (k : bytes) (c : gmap bytes (nat * Z)) : option nat :=
  match c !! k with Some (v, until) => if decide (now < until) then Some v else None | None => None end.
#[global] Instance map_limiters : Limiters (gmap bytes (nat * Z)) Z := {|
  cache_Get k now c := (live now k c, c);
  cache_SetWithExpire k v d now c := <[k := (v, now + d)]> c;
  rate_NewLimiter _ b := b;
  Allow _ l := (bool_decide (1 <= l), if decide (1 <= l) then l - 1 else l);
|}.
#[global] Program Instance map_limiters_laws : LimitersLaws (gmap bytes (nat * Z)) Z :=
  {| cached := live; tokens _ l := l |}.
Next Obligation. done. Qed.
Next Obligation. done. Qed.
Next Obligation. intros. unfold live. simpl. rewrite lookup_insert_eq. by rewrite decide_True by lia. Qed.
Next Obligation. done. Qed.
Next Obligation. done. Qed.

Example three_of_five : (requests 5 (bs "10.0.0.7:1234") 0 (newIPRateLimiter (∅ : gmap bytes (nat * Z)) 3 3)).1 = [true; true; true; false; false].
Proof. vm_compute. reflexivity. Qed.

End LimiterSample.

Lemma host_limited_witness :
  (requests 5 (bs "10.0.0.7:1234") 0 (newIPRateLimiter (∅ : gmap bytes (nat * Z)) 3 3)).1 = replicate 3 true ++ replicate 2 false.
Proof.
  refine (host_limited 5 (bs "10.0.0.7:1234") 0 _ _ _ _); [|vm_compute; discriminate|].
  - by intros [[=]|[]%elem_of_nil]%elem_of_cons.
  - intros l [=].
Defined.
Lemma limiter_race_witness : ∃ i1 i2 i3 i4 l l',
  let i := newIPRateLimiter (∅ : gmap bytes (nat * Z)) 3 3 in
  find_limiter (bs "10.0.0.7") 0 i = (Ok None, i1) ∧ find_limiter (bs "10.0.0.7") 0 i1 = (Ok None, i2) ∧
  addIP (bs "10.0.0.7") 0 i2 = (Ok l, i3) ∧ addIP (bs "10.0.0.7") 0 i3 = (Ok l', i4) ∧ l ≠ l' ∧
  ∀ x, x = l ∨ x = l' → tokens 0 <$> (limiters i4 !! x) = Some 3.
Proof. apply (limiter_race (bs "10.0.0.7") 0); [vm_compute; discriminate|reflexivity]. Defined.
