(* ===== verification/Web.v ===== *)
(** What the two HTTP servers share ([pkg/server/contractServer/api/types.go],
    [pkg/server/chainserver/types.go]): decoded JSON, numbers in hexadecimal text, and the
    texts of [strconv] and [math/big] they are read from. *)

From coqutil Require Import Z.BitOps.
From S2P Require Import Prelude Base58 Address.

(** ** JSON *)

(** A decoded value; a number is kept as its text, and the names of an object are
    distinct. *)
Inductive json :=
  | JNull
  | JBool (b : bool)
  | JNumber (s : bytes)
  | JString (s : bytes)
  | JArray (l : list json)
  | JObject (m : list (bytes * json)).

(** [map[string]interface{}] *)
Abbreviation object := (list (bytes * json)).

Fixpoint field (k : bytes) (mp : object) : option json :=
  match mp with
  | [] => None
  | (k', v) :: mp => if decide (k = k') then Some v else field k mp
  end.

(** [json.Unmarshal] into such a map. *)
Class Json := Unmarshal : bytes → res object.

Definition getString (mp : object) (k : bytes) : res bytes :=
  match field k mp with
  | None => err "not exist"
  | Some (JString s) => Ok s
  | Some _ => err "not string"
  end.

Definition getValue (mp : object) (k : bytes) : res json :=
  match field k mp with None => err "not exist" | Some v => Ok v end.

(** The assertion [v.([]interface{})] panics on anything else. *)
Definition getParam (mp : object) : res (list json) :=
  match field (bs "params") mp with
  | None => err "'params' not exist"
  | Some (JArray l) => Ok l
  | Some _ => Panic
  end.

(** [v.(string)], [v.(bool)] and [l[i]], which panic. *)
Definition as_string (v : json) : res bytes := match v with JString s => Ok s | _ => Panic end.
Definition as_bool (v : json) : res bool := match v with JBool b => Ok b | _ => Panic end.
Definition param (l : list json) (i : nat) : res json := match l !! i with Some v => Ok v | None => Panic end.

(** ** Numbers as text *)

(** The digits of [strconv]. *)
Definition digit_of (c : byte) : option Z :=
  let c := byte.unsigned c in
  if decide (48 ≤ c ≤ 57) then Some (c - 48)
  else if decide (97 ≤ Z.lor c 32 ≤ 122) then Some (Z.lor c 32 - 97 + 10)
  else None.

Fixpoint number (base acc : Z) (s : bytes) : option Z :=
  match s with
  | [] => Some acc
  | c :: s =>
      match digit_of c with
      | Some d => if decide (d < base) then number base (acc * base + d) s else None
      | None => None
      end
  end.

Definition fits_uint64 (n : option Z) : res Z :=
  match n with
  | None => err "invalid syntax"
  | Some n => if decide (n > MAXUINT64) then err "value out of range" else Ok n
  end.

(** [strconv.ParseUint(s, 16, 64)] *)
Definition ParseUint16 (s : bytes) : res Z :=
  if decide (s = []) then err "invalid syntax" else fits_uint64 (number 16 0 s).

(** [big.Int.SetString(s, 16)]: a sign, and at least one digit. *)
Definition SetString16 (s : bytes) : option Z :=
  match s with
  | Byte.x2d :: s => if decide (s = []) then None else Z.opp <$> number 16 0 s
  | Byte.x2b :: s => if decide (s = []) then None else number 16 0 s
  | [] => None
  | _ => number 16 0 s
  end.

(** The base a prefix stands for, and what follows it. *)
Definition prefixed (s : bytes) : Z * bytes :=
  match s with
  | Byte.x30 :: c :: s' =>
      let l := Z.lor (byte.unsigned c) 32 in
      if decide (s' ≠ [] ∧ l = 98) then (2, s')
      else if decide (s' ≠ [] ∧ l = 111) then (8, s')
      else if decide (s' ≠ [] ∧ l = 120) then (16, s')
      else (8, c :: s')
  | [Byte.x30] => (8, [])
  | _ => (10, s)
  end.

(** What was seen last: a digit or a prefix, an underscore, or something else. *)
Inductive seen := SeenDigit | SeenUnderscore | SeenOther.

Fixpoint underscores (hex : bool) (saw : seen) (s : bytes) : bool :=
  match s with
  | [] => match saw with SeenUnderscore => false | _ => true end
  | c :: s =>
      let n := byte.unsigned c in
      if decide (48 ≤ n ≤ 57 ∨ hex = true ∧ 97 ≤ Z.lor n 32 ≤ 102) then underscores hex SeenDigit s
      else if decide (c = Byte.x5f) then
        match saw with SeenDigit => underscores hex SeenUnderscore s | _ => false end
      else match saw with SeenUnderscore => false | _ => underscores hex SeenOther s end
  end.

(** The underscores of a literal separate digits. *)
Definition underscoreOK (s : bytes) : bool :=
  match s with
  | Byte.x30 :: c :: s' =>
      let l := Z.lor (byte.unsigned c) 32 in
      if decide (l = 98 ∨ l = 111 ∨ l = 120) then underscores (bool_decide (l = 120)) SeenDigit s'
      else underscores false SeenOther s
  | _ => underscores false SeenOther s
  end.

(** [strconv.ParseUint(s, 0, 64)] *)
Definition ParseUint0 (s : bytes) : res Z :=
  if decide (s = []) then err "invalid syntax" else
  let '(base, digits) := prefixed s in
  n ← fits_uint64 (number base 0 (filter (λ c, c ≠ Byte.x5f) digits));
  if decide (Byte.x5f ∈ digits) then if underscoreOK s then Ok n else err "invalid syntax" else Ok n.

(** [fmt]'s [%X] and [big.Int.Text(16)] differ in the digits. *)
Definition digitX (n : Z) : byte := nth (Z.to_nat n) (bs "0123456789ABCDEF") Byte.x00.

Fixpoint format_hex (digit : Z → byte) (fuel : nat) (n : Z) : bytes :=
  match fuel with
  | O => []
  | S fuel => if decide (n < 16) then [digit n] else format_hex digit fuel (n / 16) ++ [digit (n mod 16)]
  end.

Definition hex_digits (n : Z) : nat := Z.to_nat (Z.log2 n / 4 + 1).

Definition FormatX (n : Z) : bytes :=
  if decide (n < 0) then Byte.x2d :: format_hex digitX (hex_digits (- n)) (- n)
  else format_hex digitX (hex_digits n) n.

(** [Text(16)] of a pointer. *)
Definition Text16 (n : option Z) : bytes :=
  match n with
  | None => bs "<nil>"
  | Some n =>
      if decide (n < 0) then Byte.x2d :: format_hex hexdigit (hex_digits (- n)) (- n)
      else format_hex hexdigit (hex_digits n) n
  end.

Definition stringToHex (s : bytes) : bytes := bs "0x" ++ s.
Definition uint64ToHexString (val : Z) : bytes := stringToHex (FormatX val).

Definition hexToUint64 (hxs : bytes) : res Z :=
  ParseUint16 (if decide (2 < length hxs)%nat then if decide (take 2 hxs = bs "0x") then drop 2 hxs else hxs else hxs).

(** ** Quantities *)

Lemma number_app base s t : ∀ acc n, number base acc s = Some n → number base acc (s ++ t) = number base n t.
Proof.
  induction s as [|c s IH]; intros acc n Hn; simpl in *; [by simplify_eq|].
  destruct (digit_of c) as [d|]; [|done]. case_decide; [|done]. eauto.
Qed.

(** Both alphabets are digits. *)
Definition digits_ok (digit : Z → byte) : Prop := ∀ d, 0 ≤ d < 16 → digit_of (digit d) = Some d.

Lemma small_cases (P : Z → Prop) (n : nat) : (∀ i, (i < n)%nat → P (Z.of_nat i)) → ∀ d, 0 ≤ d < Z.of_nat n → P d.
Proof. intros HP d Hd. rewrite <- (Z2Nat.id d) by lia. apply HP. lia. Qed.

Lemma digitX_ok : digits_ok digitX.
Proof. refine (small_cases _ 16 _). intros i Hi. do 16 (destruct i; [reflexivity|]). lia. Qed.
Lemma hexdigit_ok : digits_ok hexdigit.
Proof. refine (small_cases _ 16 _). intros i Hi. do 16 (destruct i; [reflexivity|]). lia. Qed.

Lemma number_format digit fuel : digits_ok digit → ∀ n, 0 ≤ n < 16 ^ Z.of_nat fuel →
  fuel ≠ 0%nat → number 16 0 (format_hex digit fuel n) = Some n.
Proof.
  intros Hok. induction fuel as [|fuel IH]; intros n Hn Hf; [done|]. simpl format_hex.
  rewrite Nat2Z.inj_succ, Z.pow_succ_r in Hn by lia.
  case_decide as Hlt; [simpl; rewrite (Hok n), decide_True by lia; do 2 f_equal; lia|].
  pose proof (Z.mod_pos_bound n 16 ltac:(lia)). pose proof (Z.div_mod n 16 ltac:(lia)).
  destruct fuel as [|fuel]; [simpl in Hn; lia|].
  rewrite (number_app _ _ _ _ (n / 16)) by (apply IH; [split; [apply Z.div_pos; lia|]|done]; apply Z.div_lt_upper_bound; lia).
  simpl. rewrite Hok, decide_True by lia. f_equal. lia.
Qed.

Lemma hex_digits_Z n : Z.of_nat (hex_digits n) = Z.log2 n / 4 + 1.
Proof. unfold hex_digits. pose proof (Z.log2_nonneg n). pose proof (Z.div_pos (Z.log2 n) 4). lia. Qed.

Lemma hex_digits_enough n : 0 ≤ n → n < 16 ^ Z.of_nat (hex_digits n).
Proof.
  intros Hn. rewrite hex_digits_Z. pose proof (Z.log2_nonneg n). pose proof (Z.div_pos (Z.log2 n) 4).
  destruct (decide (n = 0)) as [->|]; [done|]. destruct (Z.log2_spec n ltac:(lia)) as [_ Hlt].
  change 16 with (2 ^ 4). rewrite <- Z.pow_mul_r by lia.
  eapply Z.lt_le_trans; [exact Hlt|]. apply Z.pow_le_mono_r; [lia|].
  pose proof (Z.div_mod (Z.log2 n) 4 ltac:(lia)). pose proof (Z.mod_pos_bound (Z.log2 n) 4 ltac:(lia)). lia.
Qed.

Lemma hex_digits_pos n : hex_digits n ≠ 0%nat.
Proof. unfold hex_digits. pose proof (Z.log2_nonneg n). pose proof (Z.div_pos (Z.log2 n) 4). lia. Qed.

Lemma number_FormatX n : 0 ≤ n → number 16 0 (FormatX n) = Some n.
Proof.
  intros Hn. unfold FormatX. rewrite decide_False by lia.
  apply number_format; [exact digitX_ok|split; [done|by apply hex_digits_enough]|apply hex_digits_pos].
Qed.

Lemma format_hex_nonempty digit fuel n : fuel ≠ 0%nat → format_hex digit fuel n ≠ [].
Proof. destruct fuel; [done|]. intros _. simpl. case_decide; [done|]. by destruct (format_hex _ fuel _). Qed.

Lemma FormatX_nonempty n : FormatX n ≠ [].
Proof. unfold FormatX. case_decide; [done|]. apply format_hex_nonempty, hex_digits_pos. Qed.

(** A number written by the server is read back. *)
Lemma hexToUint64_uint64ToHexString n : is_u64 n → hexToUint64 (uint64ToHexString n) = Ok n.
Proof.
  intros Hn. unfold is_u64 in Hn. unfold hexToUint64, uint64ToHexString, stringToHex. pose proof (FormatX_nonempty n) as Hne.
  assert (0 < length (FormatX n))%nat by (destruct (FormatX n); [done|simpl; lia]).
  rewrite decide_True by (rewrite length_app; simpl; lia). rewrite decide_True by done.
  change (drop 2 (bs "0x" ++ FormatX n)) with (FormatX n).
  unfold ParseUint16. rewrite decide_False by done. rewrite number_FormatX by lia. unfold fits_uint64.
  by rewrite decide_False by lia.
Qed.

Lemma SetString16_number s n : s ≠ [] → number 16 0 s = Some n → SetString16 s = Some n.
Proof. destruct s as [|c s]; [done|]. intros _ Hn. destruct c; try exact Hn; simpl in Hn; discriminate Hn. Qed.

(** A balance, which need not fit in a word, is read back as well. *)
Lemma SetString16_FormatX n : 0 ≤ n → SetString16 (FormatX n) = Some n.
Proof. intros Hn. apply SetString16_number; [apply FormatX_nonempty|by apply number_FormatX]. Qed.

(** *** Words *)

Lemma lor_shiftl a b k : 0 ≤ k → 0 ≤ a < 2 ^ k → Z.lor a (Z.shiftl b k) = a + b * 2 ^ k.
Proof.
  intros Hk Ha. rewrite or_to_plus; [by rewrite Z.shiftl_mul_pow2|]. apply Z.bits_inj'. intros n Hn.
  rewrite Z.land_spec, Z.shiftl_spec, Z.bits_0 by done. destruct (decide (n < k)).
  - by rewrite (Z.testbit_neg_r b), andb_false_r by lia.
  - by rewrite <- (Z.mod_small a (2 ^ k)), Z.mod_pow2_bits_high by lia.
Qed.

Lemma big_SetBytes_cons x w : big_SetBytes (x :: w) = byte.unsigned x * 256 ^ Z.of_nat (length w) + big_SetBytes w.
Proof.
  unfold big_SetBytes. cbn [rev]. pose proof (le_combine_bound (rev w)) as Hb. rewrite length_rev in Hb.
  rewrite le_combine_app, le_combine_1, length_rev, lor_shiftl by (try lia; by rewrite Z.mul_comm).
  change 256 with (2 ^ 8). rewrite <- Z.pow_mul_r by lia. rewrite (Z.mul_comm (Z.of_nat _)). lia.
Qed.

(** The hexadecimal text of a word is its value. *)
Lemma number_EncodeToString w : ∀ acc,
  number 16 acc (EncodeToString w) = Some (acc * 256 ^ Z.of_nat (length w) + big_SetBytes w).
Proof.
  induction w as [|x w IH]; intros acc; [cbn; f_equal; change (big_SetBytes []) with 0; lia|].
  cbn [EncodeToString number]. pose proof (byte.unsigned_range x). pose proof (Z.mod_pos_bound (byte.unsigned x) 16 ltac:(lia)).
  assert (0 ≤ byte.unsigned x / 16 < 16) by (split; [apply Z.div_pos; lia|apply Z.div_lt_upper_bound; lia]).
  rewrite !hexdigit_ok, !decide_True by lia. rewrite IH, big_SetBytes_cons. f_equal. cbn [length].
  rewrite Nat2Z.inj_succ, Z.pow_succ_r by lia. pose proof (Z.div_mod (byte.unsigned x) 16 ltac:(lia)). nia.
Qed.

Lemma SetString16_EncodeToString w : w ≠ [] → SetString16 (EncodeToString w) = Some (big_SetBytes w).
Proof. intros Hw. apply SetString16_number; [by destruct w|]. by rewrite number_EncodeToString. Qed.
