(* ===== verification/Contract.v ===== *)
(** Contracts outside of transactions: the calls of [pkg/blockchain/contract.go] that are
    undone, what is read of a contract, and how the results of the calls are read
    ([pkg/contract/evm/evm.go]).

    go-ethereum's snapshots and storage are the class [EvmView]; its readers of hexadecimal
    text are the class [HexCommon]. *)

From Stdlib Require Import Morphisms.
From S2P Require Import Prelude Misc Badger BgStore Base58 Cbor Address Transaction Block.
From S2P Require Import Ledger World Apply Strconv Queue Pool Gateway Web.

Class EvmView (S : Type) := {
  sdb_Snapshot : S → nat * S;
  sdb_RevertToSnapshot : nat → S → S;
  sdb_GetState : bytes → bytes → S → bytes;
  sdb_Logs : S → list Log;
}.

(** [Hex2Bytes] decodes in place: behind the bytes it returns, its array has others, and a
    slice of them may reach into those. *)
Class HexCommon := {
  Hex2Bytes : bytes → bytes * bytes;
  HexToHash : bytes → bytes;
}.
Class HexCommonLaws `{!HexCommon} := Hex2Bytes_EncodeToString b : (Hex2Bytes (EncodeToString b)).1 = b.

(** [b[lo:hi]] *)
Definition slice (b : bytes * bytes) (lo hi : nat) : res bytes :=
  let array := b.1 ++ b.2 in
  if decide (lo ≤ hi ≤ length array)%nat then Ok (take (hi - lo) (drop lo array)) else Panic.

(** ** Results of calls *)

Section Results.
Context `{!HexCommon}.

(** parse token name or symbol by call result: the length is a uint32, and so is the end of
    the slice *)
Definition ParseCallResultToString (result : bytes) : res bytes :=
  let resBt := Hex2Bytes result in
  if decide (64 < length resBt.1)%nat then
    d ← slice resBt 60 64;
    l ← DB32func d;
    slice resBt 64 (Z.to_nat (u32 (64 + l)))
  else Ok [].

(** parse token decimal or totalSupply by call result *)
Definition ParseCallResultToBig (result : bytes) : option Z := SetString16 result.

End Results.

(** ** Calls *)

Section Calls.
Context {D S : Type} `{!StateDB S, !EvmRuntime S, !EvmView S, !HexCommon}.
Context {T : Type} `{!Badger T, !BadgerDB D T, !CborHeader, !EthCommon}.
Variables (g : globals) (now : Z) (cfg : ChainConfig).

Abbreviation C := (stM (chain D S)).

Definition c_evm {A} : stM EvmCfg A → C A := zoom evm (λ e c, Chain (db c) (sdb c) e).
Definition c_sdb {A} : stM S A → C A := zoom sdb (λ s c, Chain (db c) s (evm c)).

(** [defer bc.evm.RevertToSnapshot(bc.evm.GetSnapshot())], which a panic does not skip *)
Definition with_snapshot {A} (m : C A) : C A := λ c,
  let '(snapshotId, s) := sdb_Snapshot (sdb c) in
  let '(r, c) := m (Chain (db c) s (evm c)) in
  (r, Chain (db c) (sdb_RevertToSnapshot snapshotId (sdb c)) (evm c)).

(** The virtual machine runs at the last block; the error for its miner is dropped. *)
Definition set_tip_info : C unit :=
  c ← st_get;
  maxH ← st_lift (getMaxBlockHeight (Dbase (db c)));
  if decide (maxH > 0) then
    currB ← st_lift (getBlockByHeight maxH (Dbase (db c)));
    miner ← st_lift (match NewCommonAddr g (Miner currB) with Err _ => Ok zero_address | r => r end);
    c_evm (st_modify (SetBlockInfo (Height currB) (Timestamp currB) miner (Difficulty currB)))
  else mret tt.

(** The value of a call: a hexadecimal number, or nothing when it is not one. *)
Definition call_value (value : bytes) : Z :=
  match SetString16 value with Some n => n / ETHDECIMAL | None => 0 end.

Definition raise_gas (gasUsed : Z) : Z := if decide (gasUsed < MINGASLIMIT) then MINGASLIMIT else gasUsed.

(** [bc.evm.Call] *)
Definition c_call (to input : bytes) : C (bytes * Z * option error) := λ c,
  let s := sdb_SetCode to (sdb_GetCode to (sdb c)) (sdb c) in
  let '(r, s) := rt_Call to input (evm c) s in
  (Ok r, Chain (db c) s (evm c)).

(** The call itself. *)
Definition call_at_tip (contractAddr origin callInput value : bytes) : C (bytes * bytes * option error) :=
  set_tip_info ;;
  let vl := call_value value in
  c_evm (st_modify (SetConfig vl (CfgGasPrice cfg) MAXGASLIMIT (HexToAddress origin))) ;;
  if decide (0 < length (Check0x callInput) ∧ 0 < length contractAddr)%nat then
    '(ret, gasleft, err) ← c_call (HexToAddress contractAddr) (Hex2Bytes (Check0x callInput)).1;
    match err with
    | Some e => mret (EncodeToString ret, [], Some e)
    | None => mret (EncodeToString ret, FormatX (raise_gas (MAXGASLIMIT -₆₄ gasleft)), None)
    end
  else st_err (ErrMsg "wrong input or contractaddr").

(** call contract with out transaction: what it returns and the gas, as text, and the error;
    a call that fails still returns something *)
Definition CallSmartContract (contractAddr origin callInput value : bytes) : C (bytes * bytes * option error) :=
  c_evm (st_put (NewEvm now cfg)) ;;
  with_snapshot (st_catch (call_at_tip contractAddr origin callInput value) (λ e, mret ([], [], Some e))).

(** get contract code by address *)
Definition GetCode (contractAddr : bytes) (c : chain D S) : bytes := sdb_GetCode (HexToAddress contractAddr) (sdb c).
Definition SetCode (contractAddr code : bytes) : C unit := c_sdb (st_modify (sdb_SetCode contractAddr code)).
(** get evm logs *)
Definition GetLogs (c : chain D S) : list Log := sdb_Logs (sdb c).
(** get storage at address *)
Definition GetStorageAt (addr hash : bytes) (c : chain D S) : bytes :=
  sdb_GetState (HexToAddress addr) (HexToHash hash) (sdb c).

(** *** Requests of wallets ([server/grpcserver/grpcserver.go]) *)

Definition wallet_GetBalance (addr : bytes) : C Z :=
  a ← st_lift (StringToAddress g addr);
  c_sdb (getBalance g a).
(** The result, the gas and the code. *)
Definition wallet_CallSmartContract (contractAddr origin inputcode value : bytes) : C (bytes * bytes * Z) :=
  '(res, gas, err) ← CallSmartContract contractAddr origin inputcode value;
  match err with Some _ => mret (res, [], -1) | None => mret (res, gas, 0) end.
Definition wallet_GetCode (contract : bytes) : C bytes := λ c,
  let code := GetCode contract c in
  (if decide (length code <= 0)%nat then err "code not exist" else Ok (EncodeToString code), c).
(** The text of a hash, with its prefix. *)
Definition wallet_GetStorageAt (addr hash : bytes) : C bytes := λ c,
  (Ok (stringToHex (EncodeToString (GetStorageAt addr (Check0x hash) c))), c).

End Calls.

(** ** What a call leaves *)

Section Same.
Context {S : Type} `{!StateDB S, !EvmRuntime S, !EvmView S}.
Implicit Types s : S.

(** Two states in which every account looks the same. *)
Record same_accounts s s' : Prop := {
  same_balance a : sdb_GetBalance a s = sdb_GetBalance a s';
  same_nonce a : sdb_GetNonce a s = sdb_GetNonce a s';
  same_code a : sdb_GetCode a s = sdb_GetCode a s';
  same_state a h : sdb_GetState a h s = sdb_GetState a h s';
  same_logs : sdb_Logs s = sdb_Logs s';
}.

#[export] Instance same_equivalence : Equivalence same_accounts.
Proof.
  split; [done|..].
  - intros s s' []. constructor; congruence.
  - intros s1 s2 s3 [] []. constructor; congruence.
Qed.

#[export] Instance same_GetBalance a : Proper (same_accounts ==> eq) (sdb_GetBalance a).
Proof. by intros s s' []. Qed.
#[export] Instance same_GetNonce a : Proper (same_accounts ==> eq) (sdb_GetNonce a).
Proof. by intros s s' []. Qed.

(** What happens to the accounts in a call. *)
Inductive touched : S → S → Prop :=
  | touched_refl s : touched s s
  | touched_code s s' a code : touched s s' → touched s (sdb_SetCode a code s')
  | touched_call s s' to input e : touched s s' → touched s (rt_Call to input e s').2.
End Same.

(** What go-ethereum says of reverting: it undoes all changes made since. *)
Class EvmViewLaws (S : Type) `{!StateDB S, !EvmRuntime S, !EvmView S} :=
  revert_law s id s0 s1 : sdb_Snapshot s = (id, s0) → touched s0 s1 → same_accounts (sdb_RevertToSnapshot id s1) s.

(** A call gives back what is left of the gas it gets. *)
Class EvmGasLaws (S : Type) `{!EvmRuntime S} :=
  rt_Call_gas to input e s : 0 < cfg_GasLimit e → 0 ≤ (rt_Call to input e s).1.1.2 ≤ cfg_GasLimit e.

Section CallFacts.
Context {D S : Type} `{!StateDB S, !EvmRuntime S, !EvmView S, !EvmViewLaws S, !EvmGasLaws S, !HexCommon}.
Context {T : Type} `{!Badger T, !BadgerDB D T, !CborHeader, !EthCommon}.
Variables (g : globals) (now : Z) (cfg : ChainConfig).
Implicit Types (c : chain D S).

(** Computations that touch nothing but the accounts, and those as a call does. *)
Definition touches {A} (m : stM (chain D S) A) : Prop :=
  ∀ c r c', m c = (r, c') → db c' = db c ∧ touched (sdb c) (sdb c').

Lemma touched_trans (s1 s2 s3 : S) : touched s1 s2 → touched s2 s3 → touched s1 s3.
Proof. intros H12 H23. induction H23; eauto using touched. Qed.

Lemma touches_pure {A} (m : stM (chain D S) A) : (∀ c, db (m c).2 = db c ∧ sdb (m c).2 = sdb c) → touches m.
Proof. intros Hm c r c' E. specialize (Hm c). rewrite E in Hm. destruct Hm as [Hd Hs]. cbn in *. rewrite Hs. split; [done|constructor]. Qed.
Lemma touches_lift {A} (x : res A) : touches (st_lift x).
Proof. by apply touches_pure. Qed.
Lemma touches_ret {A} (x : A) : touches (mret x).
Proof. by apply touches_pure. Qed.
Lemma touches_err {A} e : touches (st_err (A := A) e).
Proof. by apply touches_pure. Qed.
Lemma touches_get : touches st_get.
Proof. by apply touches_pure. Qed.
Lemma touches_evm {A} (m : stM EvmCfg A) : touches (c_evm m).
Proof. apply touches_pure. intros c. unfold c_evm, zoom. by destruct (m (evm c)). Qed.
Lemma touches_bind {A B} (m : stM (chain D S) A) (f : A → stM (chain D S) B) :
  touches m → (∀ x, touches (f x)) → touches (m ≫= f).
Proof.
  intros Hm Hf c r c'. unfold mbind, stM_bind. destruct (m c) as [[x|e|] c1] eqn:E.
  - intros E2. destruct (Hm _ _ _ E) as [Hd Ht], (Hf x _ _ _ E2) as [Hd2 Ht2]. split; [congruence|by eapply touched_trans].
  - intros [= <- <-]. eauto.
  - intros [= <- <-]. eauto.
Qed.
Lemma touches_catch {A} (m : stM (chain D S) A) h : touches m → (∀ e, touches (h e)) → touches (st_catch m h).
Proof.
  intros Hm Hf c r c'. unfold st_catch. destruct (m c) as [[x|e|] c1] eqn:E; try (intros [= <- <-]; by eauto).
  intros E2. destruct (Hm _ _ _ E) as [Hd Ht], (Hf e _ _ _ E2) as [Hd2 Ht2]. split; [congruence|by eapply touched_trans].
Qed.
#[local] Hint Resolve touches_lift touches_ret touches_err touches_get touches_evm touches_bind touches_catch : touches.

Lemma touches_tip_info : touches (set_tip_info g).
Proof.
  unfold set_tip_info. apply touches_bind; [eauto with touches|]. intros c. apply touches_bind; [eauto with touches|].
  intros h. case_decide; eauto with touches.
Qed.
#[local] Hint Resolve touches_tip_info : touches.

(** Whatever [m] does, the snapshot is taken back. *)
Lemma with_snapshot_same {A} (m : stM (chain D S) A) c r c' :
  touches m → with_snapshot m c = (r, c') → db c' = db c ∧ same_accounts (sdb c') (sdb c).
Proof.
  intros Hm. unfold with_snapshot. destruct (sdb_Snapshot (sdb c)) as [id s0] eqn:Es.
  destruct (m _) as [r1 c1] eqn:E. intros [= <- <-]. destruct (Hm _ _ _ E) as [Hd Ht]. split; [done|].
  by eapply revert_law.
Qed.

Lemma raise_gas_bounds gasleft : 0 ≤ gasleft ≤ MAXGASLIMIT →
  MINGASLIMIT ≤ raise_gas (MAXGASLIMIT -₆₄ gasleft) ≤ MAXGASLIMIT.
Proof.
  intros Hg. unfold raise_gas, MAXGASLIMIT, MINGASLIMIT in *. rewrite sub64_small by (unfold MAXUINT64; lia).
  case_decide; lia.
Qed.

Lemma touches_call to input : touches (c_call to input).
Proof.
  intros c r c'. unfold c_call. destruct (rt_Call _ _ _ _) as [o s] eqn:E. intros [= <- <-]. split; [done|]. cbn.
  change s with (o, s).2. rewrite <- E. do 2 constructor. constructor.
Qed.
#[local] Hint Resolve touches_call : touches.

Lemma touches_call_at_tip contractAddr origin callInput value : touches (call_at_tip g cfg contractAddr origin callInput value).
Proof.
  unfold call_at_tip. apply touches_bind; [eauto with touches|intros _]. apply touches_bind; [eauto with touches|intros _].
  case_decide; [|eauto with touches]. apply touches_bind; [eauto with touches|]. intros [[ret gasleft] [e|]]; eauto with touches.
Qed.

(** The gas of a call that succeeds. *)
Lemma call_at_tip_gas contractAddr origin callInput value c ret gas c' :
  call_at_tip g cfg contractAddr origin callInput value c = (Ok (ret, gas, None), c') →
  ∃ n, gas = FormatX n ∧ MINGASLIMIT ≤ n ≤ MAXGASLIMIT.
Proof.
  unfold call_at_tip. intros Hc. apply stM_bind_Ok in Hc as ([] & c1 & _ & Hc).
  apply stM_bind_Ok in Hc as ([] & c2 & [= <-] & Hc). case_decide; [|done].
  apply stM_bind_Ok in Hc as ([[ret' gasleft] err] & c3 & Hcall & Hc). destruct err; [done|]. injection Hc as _ <- _.
  exists (raise_gas (MAXGASLIMIT -₆₄ gasleft)). split; [done|]. apply raise_gas_bounds.
  revert Hcall. unfold c_call. cbn -[rt_Call]. destruct (rt_Call _ _ _ _) as [o s] eqn:E. intros [= Ho _].
  match type of E with rt_Call ?a ?b ?e ?s0 = _ => pose proof (rt_Call_gas a b e s0 ltac:(done)) as Hg end.
  rewrite E in Hg. subst o. exact Hg.
Qed.

Lemma CallSmartContract_same contractAddr origin callInput value c r c' :
  CallSmartContract g now cfg contractAddr origin callInput value c = (r, c') →
  db c' = db c ∧ same_accounts (sdb c') (sdb c).
Proof.
  unfold CallSmartContract. intros Hc. erewrite st_bind_eq in Hc by done.
  pose proof Hc as [Hd Hs]%with_snapshot_same; [done|]. apply touches_catch; eauto using touches_call_at_tip with touches.
Qed.

(** A call outside of transactions changes no account and nothing in the database,
    whether it succeeds, fails or panics; and when it succeeds, the gas is a hexadecimal
    number between the least and the most a call can use. *)
Theorem call_undone contractAddr origin callInput value c r c' :
  CallSmartContract g now cfg contractAddr origin callInput value c = (r, c') →
  db c' = db c ∧ same_accounts (sdb c') (sdb c) ∧
  ∀ ret gas, r = Ok (ret, gas, None) → ∃ n, number 16 0 gas = Some n ∧ MINGASLIMIT ≤ n ≤ MAXGASLIMIT.
Proof.
  intros Hc. pose proof (CallSmartContract_same _ _ _ _ _ _ _ Hc) as [Hd Hs]. split; [done|]. split; [done|].
  intros ret gas ->. unfold CallSmartContract in Hc. erewrite st_bind_eq in Hc by done. revert Hc. unfold with_snapshot, st_catch.
  destruct (sdb_Snapshot _) as [id s0]. destruct (call_at_tip _ _ _ _ _ _ _) as [[x|e|] c1] eqn:E; [|done..].
  intros [= -> _]. apply call_at_tip_gas in E as (n & -> & Hn). exists n. split; [|done].
  apply number_FormatX. unfold MINGASLIMIT in Hn. lia.
Qed.
End CallFacts.

(** ** Texts of contracts *)

(** The encoding of a text: where it is, its length, and the text, filled up with zeros. *)
Definition abi_header (n : nat) : bytes :=
  (replicate 31 Byte.x00 ++ [Byte.x20] ++ replicate 28 Byte.x00) ++ EB32func (Z.of_nat n).
Definition abi_text (s : bytes) : bytes :=
  abi_header (length s) ++ s ++ replicate (31 - (length s + 31) mod 32) Byte.x00.

Lemma length_abi_header n : length (abi_header n) = 64%nat.
Proof. unfold abi_header. by rewrite !length_app, length_EB32func, !length_replicate. Qed.

Section Texts.
Context `{!HexCommon, !HexCommonLaws}.

Lemma declared_range a l : DB32func a = Ok l → 0 ≤ l < 4294967296.
Proof. intros [_ Hl]%dec_be_Ok. exact Hl. Qed.

(** What a longer result is read as. *)
Lemma long_result (b : bytes) l :
  let array := b ++ (Hex2Bytes (EncodeToString b)).2 in
  Z.of_nat (length array) < 4294967296 → (64 < length b)%nat → DB32func (take 4 (drop 60 b)) = Ok l →
  ParseCallResultToString (EncodeToString b) =
    if decide (64 + l ≤ Z.of_nat (length array)) then Ok (take (Z.to_nat l) (drop 64 array)) else Panic.
Proof.
  intros array Hb Hl Hd. unfold ParseCallResultToString, slice. rewrite Hex2Bytes_EncodeToString. fold array.
  rewrite decide_True by done. rewrite decide_True by (unfold array; rewrite length_app; lia). cbn [mbind res_bind].
  assert (take (64 - 60) (drop 60 array) = take 4 (drop 60 b)) as ->.
  { unfold array. rewrite drop_app_le by lia. by rewrite take_app_le by (rewrite length_drop; lia). }
  rewrite Hd. cbn [mbind res_bind]. pose proof (declared_range _ _ Hd) as Hr. case_decide as Hf.
  - assert (u32 (64 + l) = 64 + l) as E.
    { unfold u32 in *. apply Z.mod_small. destruct (decide (64 + l < 4294967296)); [lia|].
      exfalso. rewrite <- (Z.mod_add _ (-1)) in Hf by done. rewrite Z.mod_small in Hf by lia. lia. }
    rewrite E in *. rewrite decide_True by lia. do 2 f_equal. lia.
  - rewrite decide_False; [done|]. intros Hle. apply Hf. unfold u32. rewrite Z.mod_small by lia. lia.
Qed.

Lemma short_result (b : bytes) : (length b <= 64)%nat → ParseCallResultToString (EncodeToString b) = Ok [].
Proof. intros Hs. unfold ParseCallResultToString. by rewrite Hex2Bytes_EncodeToString, decide_False by lia. Qed.

(** An encoded text. *)
Lemma abi_text_read (s : bytes) :
  Z.of_nat (length (abi_text s ++ (Hex2Bytes (EncodeToString (abi_text s))).2)) < 4294967296 →
  ParseCallResultToString (EncodeToString (abi_text s)) = Ok s.
Proof.
  intros Hb. destruct s as [|c s]; [apply short_result; simpl; lia|]. set (s' := c :: s) in *.
  assert (Z.of_nat (length s') < 4294967296) as Hs by (unfold abi_text in Hb; rewrite !length_app in Hb; lia).
  rewrite (long_result _ (Z.of_nat (length s'))); [|done| |].
  - rewrite decide_True by (unfold abi_text; rewrite !length_app, length_abi_header; lia).
    unfold abi_text. rewrite <- !app_assoc, drop_app_length' by by rewrite length_abi_header.
    by rewrite Nat2Z.id, take_app_length.
  - unfold abi_text. rewrite !length_app, length_abi_header. simpl. lia.
  - unfold abi_text, abi_header. rewrite <- !(app_assoc _ (EB32func _)), drop_app_length' by (rewrite !length_app, !length_replicate; done).
    rewrite take_app_length' by done. apply dec_be_Ok. split; [done|]. lia.
Qed.
(** The text a contract returns is read as it was encoded; of other results, a short one
    is the empty text, and one that declares more than the array of the decoded bytes
    holds makes the reader panic. *)
Theorem contract_text (b : bytes) :
  let array := b ++ (Hex2Bytes (EncodeToString b)).2 in
  Z.of_nat (length array) < 4294967296 →
  (∀ s, b = abi_text s → ParseCallResultToString (EncodeToString b) = Ok s) ∧
  ((length b <= 64)%nat → ParseCallResultToString (EncodeToString b) = Ok []) ∧
  (∀ l, (64 < length b)%nat → DB32func (take 4 (drop 60 b)) = Ok l → Z.of_nat (length array) < 64 + l →
     ParseCallResultToString (EncodeToString b) = Panic).
Proof.
  intros array Hb. split; [intros s ->; by apply abi_text_read|]. split; [apply short_result|].
  intros l Hl Hd Hmore. rewrite (long_result b l) by done. rewrite decide_False; [done|]. fold array. lia.
Qed.
End Texts.

(** ** Concrete calls *)

Module ContractSample.

(** Account states with the snapshots that were taken of them; a call moves one unit of the
    sender to the contract, takes 30000 of the gas, and returns a function of its input. *)
Record jstate := J { cur : MapState.state; snaps : list MapState.state }.

#[global] Instance jdb : StateDB jstate := {
  sdb_GetBalance a s := sdb_GetBalance a (cur s);
  sdb_SetBalance a v s := J (sdb_SetBalance a v (cur s)) (snaps s);
  sdb_GetNonce a s := sdb_GetNonce a (cur s);
  sdb_SetNonce a n s := J (sdb_SetNonce a n (cur s)) (snaps s);
}.
#[global] Program Instance jdb_laws : StateDBLaws jstate.
Next Obligation. intros a b v s. exact (balance_SetBalance a b v (cur s)). Qed.
Next Obligation. intros a b n s. exact (balance_SetNonce a b n (cur s)). Qed.
Next Obligation. intros a b n s. exact (nonce_SetNonce a b n (cur s)). Qed.
Next Obligation. intros a b v s. exact (nonce_SetBalance a b v (cur s)). Qed.
Next Obligation. intros a s. exact (nonce_range a (cur s)). Qed.
Definition machine (answer : bytes → bytes) : EvmRuntime jstate := {|
  rt_Create code e s := ([], zero_address, cfg_GasLimit e, None, s);
  rt_Call to input e s :=
    (answer input, if decide (30000 ≤ cfg_GasLimit e) then cfg_GasLimit e - 30000 else 0, None,
     sdb_SetBalance to (sdb_GetBalance to s + 1) (sdb_SetBalance (cfg_Origin e) (sdb_GetBalance (cfg_Origin e) s - 1) s));
  sdb_GetCode _ _ := [];
  sdb_SetCode _ _ s := s;
  sdb_Prepare _ _ s := s;
  sdb_GetLogs _ _ _ := [];
|}.
#[global] Instance jruntime : EvmRuntime jstate := machine id.
#[global] Instance jview : EvmView jstate := {
  sdb_Snapshot s := (length (snaps s), J (cur s) (snaps s ++ [cur s]));
  sdb_RevertToSnapshot id s := J (default (cur s) (snaps s !! id)) (take id (snaps s));
  sdb_GetState _ _ _ := [];
  sdb_Logs _ := [];
}.

Lemma touched_snaps answer s s' : touched (EvmRuntime0 := machine answer) s s' → snaps s' = snaps s.
Proof. induction 1; done. Qed.

Lemma machine_laws answer : EvmViewLaws jstate (EvmRuntime0 := machine answer).
Proof.
  intros s id s0 s1 [= <- <-] Ht%touched_snaps. cbn in Ht.
  assert (cur (sdb_RevertToSnapshot (length (snaps s)) s1) = cur s) as E.
  { cbn. by rewrite Ht, lookup_app_r, Nat.sub_diag by done. }
  constructor; try done; intros a; cbn [sdb_GetBalance sdb_GetNonce jdb]; by rewrite E.
Qed.
#[global] Instance jview_laws : EvmViewLaws jstate := machine_laws id.
#[global] Program Instance jgas : EvmGasLaws jstate.
Next Obligation. intros to input e s He. cbn. case_decide; lia. Qed.

(** Hexadecimal text without its prefix. *)
#[global] Instance hex : HexCommon := {
  Hex2Bytes s := match DecodeString s with Ok b => (b, drop (length b) s) | _ => ([], []) end;
  HexToHash s := replicate 32 Byte.x00;
}.
#[global] Program Instance hex_laws : HexCommonLaws.
Next Obligation. intros b. cbn. by rewrite DecodeString_Encode. Qed.

Definition c0 : chain MapWorld.mdb jstate :=
  Chain (MapWorld.Mdb ∅ []) (J (MapState.State {[ zero_address := 5 ]} ∅) []) (NewEvm 0 (ChainCfg 0 0 0 0)).
Definition contract : bytes := bs "0x0909090909090909090909090909090909090909".
End ContractSample.

Lemma call_undone_witness :
  ∃ c', CallSmartContract Sample.g 0 (ChainCfg 0 0 0 0) ContractSample.contract [] (bs "0x06fdde03") [] ContractSample.c0 =
    (Ok (bs "06fdde03", bs "200B20", None), c') ∧ db c' = db ContractSample.c0 ∧
    same_accounts (sdb c') (sdb ContractSample.c0).
Proof.
  eexists. split; [by_run|].
  edestruct (call_undone (S := ContractSample.jstate) (T := MapTxn.txn) Sample.g 0 (ChainCfg 0 0 0 0) ContractSample.contract []
    (bs "0x06fdde03") [] ContractSample.c0) as (Hd & Hs & _); [by_run|]. split; [exact Hd|exact Hs].
Defined.

Lemma contract_text_witness :
  ParseCallResultToString (EncodeToString (abi_text (bs "Kortho"))) = Ok (bs "Kortho").
Proof. apply (contract_text (abi_text (bs "Kortho"))); [vm_compute|]; reflexivity. Defined.
