(* ===== verification/Rpc.v ===== *)
(** The JSON-RPC server for Ethereum wallets ([pkg/server/contractServer]): its client of the
    chain and the pool ([client/client.go]), its methods and the handler of requests
    ([api/api.go]).

    A request is its body and an answer is what is written before it is marshalled; of an
    error the code is kept, the data, and the reason a contract gave.  A panic leaves the
    request without an answer.  Reading the body, writing the answer and logging are left
    out.  The signer of an Ethereum transaction is the class [EthSigner], the decoding of
    parameters [MapStructure], Bitcoin's base 58 and the bloom filter of logs
    [RpcCommon]. *)

From S2P Require Import Prelude Misc Badger BgStore Base58 Cbor Address Transaction Block.
From S2P Require Import Ledger World Apply Strconv Queue Pool PoolChain Gateway Web Contract.

(** [tx.AsMessage(signer).From] of the transaction that the data encodes. *)
Class EthSigner := AsMessage_From : bytes → res bytes.

Record call_params := CallParams { pa_From : bytes; pa_To : bytes; pa_Value : bytes; pa_Data : bytes }.
Record reqGetLog := ReqGetLog {
  lg_FromBlock : bytes; lg_ToBlock : bytes; lg_Address : bytes; lg_Topics : list bytes; lg_BlockHash : bytes;
}.
Class MapStructure := {
  Decode_params : object → res call_params;
  Decode_getlog : object → res reqGetLog;
}.
Class RpcCommon := {
  btc_Encode : bytes → bytes;
  CreateBloom : list EthLog → bytes;
}.

Record MetamaskConfig := MetamaskCfg { mm_ChainId : bytes; mm_NetworkId : bytes; mm_ClientVersion : bytes }.

(** ** Answers *)

Record RpcTransaction := RpcTx {
  et_BlockHash : bytes; et_BlockNumber : bytes; et_From : bytes; et_Gas : bytes; et_GasPrice : bytes; et_Hash : bytes;
  et_Nonce : bytes; et_To : bytes; et_TransactionIndex : bytes; et_Value : bytes; et_V : bytes; et_R : bytes; et_S : bytes;
}.
(** The root is always zero. *)
Record RpcReceipt := Receipt {
  er_BlockHash : bytes; er_BlockNumber : bytes; er_ContractAddress : bytes; er_CumulativeGasUsed : bytes; er_From : bytes;
  er_GasUsed : bytes; er_Logs : list EthLog; er_LogsBloom : bytes; er_Status : bytes; er_To : bytes;
  er_TransactionHash : bytes; er_TransactionIndex : bytes;
}.
Inductive transactions := FullTransactions (l : list RpcReceipt) | TransactionHashes (l : list bytes).
Record RpcBlock := EthBlock {
  eb_Difficulty : bytes; eb_GasLimit : bytes; eb_GasUsed : bytes; eb_Hash : bytes; eb_Miner : bytes; eb_Nonce : bytes;
  eb_Number : bytes; eb_ParentHash : bytes; eb_TimeStamp : bytes; eb_Transactions : transactions;
}.

(** [RNull] is a nil pointer or slice. *)
Inductive result :=
  | RText (s : bytes) | RBool (b : bool) | RNull | RBlock (b : RpcBlock) | RTx (t : RpcTransaction)
  | RReceipt (r : RpcReceipt) | RLogs (l : list Log).

Inductive answer :=
  | Result (jsonrpc : bytes) (id : json) (r : result)
  | Failure (code : Z) (jsonrpc : bytes) (id : json) (reason data : bytes).

Definition JsonUnmarshalErr : Z := -5002.
Definition ParameterErr : Z := -5003.
Definition UnkonwnErr : Z := -5005.
Definition CallErr : Z := -4688.
Definition EstimateErr : Z := -4677.
Definition SUCCESS : bytes := bs "0x1".
Definition FAILED : bytes := bs "0x0".
Definition ETHKTODIC : Z := 10000000.

(** ** [strings.Split] *)

(** Around the first [sep]. *)
Fixpoint cut (sep s : bytes) : option (bytes * bytes) :=
  if decide (take (length sep) s = sep) then Some ([], drop (length sep) s) else
  match s with
  | [] => None
  | c :: s => '(a, b) ← cut sep s; Some (c :: a, b)
  end.

(** Each cut leaves a shorter text: the length is enough. *)
Fixpoint split_fuel (fuel : nat) (sep s : bytes) : list bytes :=
  match fuel with
  | O => [s]
  | S fuel => match cut sep s with None => [s] | Some (a, b) => a :: split_fuel fuel sep b end
  end.
Definition Split (s sep : bytes) : list bytes := split_fuel (length s) sep s.

(** ** The client *)

Section Rpc.
Context {D S T : Type} `{!Badger T, !BadgerDB D T, !StateDB S, !StateStore D S, !EvmRuntime S, !EvmView S}.
Context `{!CborHeader, !Crypto, !EthCommon, !EvmData, !TxIndexJson, !Json, !HexCommon, !EthSigner, !MapStructure, !RpcCommon}.
Variables (g : globals) (now : Z) (cfg : ChainConfig) (mm : MetamaskConfig).

#[local] Instance rpc_chain : IBlockchain (chain D S) := chain_pool g.

Abbreviation M := (stM (Pool (chain D S))).
Definition from_chain {A} (f : chain D S → res A) : M A := λ p, (f (pbc p), p).
Definition on_chain {A} (m : stM (chain D S) A) : M A := λ p,
  let '(r, c) := m (pbc p) in (r, MkPool (pq p) c (pendingBuf p)).

Definition db_of (c : chain D S) : dbase D := Dbase (db c).

Definition ContractCall (origin contractAddr callInput value : bytes) : M (bytes * bytes * option error) :=
  on_chain (CallSmartContract g now cfg contractAddr origin callInput value).
Definition GetBalance (from : bytes) : M Z :=
  addr ← st_lift (StringToAddress g from);
  from_chain (λ c, (getBalance g addr (sdb c)).1).
Definition GetNonce (from : bytes) : M Z :=
  addr ← st_lift (StringToAddress g from);
  from_chain (λ c, (getNonce g addr (sdb c)).1).
Definition GetBlockByHash (hash : bytes) : M Block :=
  h ← st_lift (DecodeString (Check0x hash));
  from_chain (λ c, getBlockByHash h (db_of c)).
Definition GetBlockByNumber (num : Z) : M Block := from_chain (λ c, getBlockByHeight num (db_of c)).
(** The chain is asked first, then the pool. *)
Definition GetTransactionByHash (hash : bytes) : M FinishedTransaction :=
  h ← st_lift (DecodeString (Check0x hash));
  st_catch (from_chain (λ c, getTransactionByHash h (db_of c))) (λ _,
    p ← st_get;
    stx ← st_lift (Pool.GetTxByHash g (Check0x hash) p);
    mret (FTx stx 0 0)).
Definition GetTransactionReceipt (hash : bytes) : M FinishedTransaction :=
  h ← st_lift (DecodeString (Check0x hash));
  from_chain (λ c, getTransactionByHash h (db_of c)).
Definition GetMaxBlockNumber : M Z := from_chain (λ c, getMaxBlockHeight (db_of c)).
Definition GetCode (contractAddr : bytes) : M bytes :=
  from_chain (λ c, Ok (EncodeToString (Contract.GetCode contractAddr c))).
(** The text is that of a hash, with its prefix. *)
Definition GetStorageAt (addr hash : bytes) : M bytes :=
  from_chain (λ c, Ok (stringToHex (EncodeToString (Contract.GetStorageAt addr hash c)))).
(** The topics are not used. *)
Definition GetLogs (address : bytes) (fromB toB : Z) (topics : list bytes) (blockH : bytes) : M (list Log) :=
  from_chain (λ c, Ok (filter (λ l, HexToHash blockH = log_BlockHash l ∨
     (fromB ≤ log_BlockNumber l ≤ toB) ∧ HexToAddress address = log_addr l) (Contract.GetLogs c))).

(** *** Sending *)

(** send eth signed transaction: as the service for wallets does, but only with the next
    nonce *)
Definition sendRawTransaction (rq : ReqEthSignTransaction) : M bytes :=
  tx ← st_lift (eth_transaction g cfg rq);
  nonce ← from_chain (ib_GetNonce (From (st_tx tx)));
  if decide (nonce ≠ Nonce (st_tx tx)) then st_err (ErrMsg "nonce not equal ethTx.Nonce") else
  Add g now tx ;;
  mret (HashToString tx).

(** The data, an address of this chain and a hash it has signed: what is behind the
    separators is taken for them, and errors in its text are ignored. *)
Definition raw_parts (rawTx : bytes) : bytes * bytes * bytes :=
  match Split rawTx (bs "0x0x0x") with
  | raw :: second :: _ =>
      match Split second (bs "0x0x") with
      | m :: k :: _ => (raw, btc_Encode (decoded_part k), decoded_part m)
      | _ => (raw, [], [])
      end
  | _ => (rawTx, [], [])
  end.

(** Send signed Transaction: the sender is recovered from the signature *)
Definition SendRawTransaction (rawTx : bytes) : M bytes :=
  let '(rawTx, ktoFrom, msgHash) := raw_parts rawTx in
  _ ← st_lift (DecodeEthData rawTx);
  from ← st_lift (AsMessage_From rawTx);
  sendRawTransaction (MkEthReq ktoFrom (eth_Hex from) rawTx msgHash).

(** ** The methods *)

Definition hash_of (b : bytes) : bytes := BytesToHash (D := D) (S := S) b.
Definition zero_hash : bytes := replicate 32 Byte.x00.

(** [x, _ := m] *)
Definition drop_err {A} (m : res A) (zero : A) : res A := match m with Err _ => Ok zero | r => r end.

(** Where a transaction is in a block. *)
Definition tx_index (tx : FinishedTransaction) (l : list FinishedTransaction) : option nat :=
  fst <$> list_find (λ t, EncodeToString (Hash (ft_tx t)) = EncodeToString (Hash (ft_tx tx))) l.
Definition index_text (i : option nat) : bytes := match i with Some i => uint64ToHexString (Z.of_nat i) | None => [] end.

(** kto tx to eth tx receipt *)
Definition ktoTxToTxReceipt (tx : FinishedTransaction) (block : Block) : res RpcReceipt :=
  from ← drop_err (NewCommonAddr g (From (ft_tx tx))) zero_address;
  to ← drop_err (NewCommonAddr g (To (ft_tx tx))) zero_address;
  let receipt contract logs bloom status to :=
    Receipt (hash_of (BHash block)) (uint64ToHexString (BlockNum tx)) contract (uint64ToHexString (GasUsed tx)) from
      (uint64ToHexString (GasUsed tx)) logs bloom status to (hash_of (Hash (ft_tx tx)))
      (index_text (tx_index tx (Transactions block))) in
  match DecodeEvmData (Input (ft_tx tx)) with
  | Ok evm =>
      Ok (receipt (ContractAddr evm) (Logs evm) (CreateBloom (Logs evm)) (if Status evm then SUCCESS else FAILED)
            (if decide (Operation evm = bs "create") then zero_address else ContractAddr evm))
  | Err _ => Ok (receipt zero_address [] (replicate 256 Byte.x00) FAILED to)
  | Panic => Panic
  end.

(** kto txs to eth txs *)
Fixpoint ktoTxsToEthTxs (block : Block) (ktxs : list FinishedTransaction) : res (list RpcReceipt) :=
  match ktxs with
  | [] => Ok []
  | ktx :: ktxs => e ← ktoTxToTxReceipt ktx block; l ← ktoTxsToEthTxs block ktxs; Ok (e :: l)
  end.

Definition getTxsHashes (ktxs : list FinishedTransaction) : list bytes := (λ ktx, hash_of (Hash (ft_tx ktx))) <$> ktxs.

(** kto block to eth block *)
Definition ktoBlockToEthBlock (b : Block) (bl : bool) : res RpcBlock :=
  miner ← drop_err (NewCommonAddr g (Miner b)) zero_address;
  txs ← (if bl then FullTransactions <$> ktoTxsToEthTxs b (Transactions b)
         else Ok (TransactionHashes (getTxsHashes (Transactions b))));
  Ok (EthBlock (stringToHex (Text16 (Difficulty b))) (uint64ToHexString (BGasLimit b)) (uint64ToHexString (BGasUsed b))
        (hash_of (BHash b)) miner (uint64ToHexString (BNonce b)) (uint64ToHexString (Height b)) (hash_of (PrevHash b))
        (uint64ToHexString (Timestamp b)) txs).

(** send signed transaction *)
Definition eth_sendRawTransaction (rawTx : bytes) : M bytes :=
  if decide (length rawTx < 2)%nat then st_panic else
  SendRawTransaction (if decide (take 2 rawTx ≠ bs "0x") then bs "0x" ++ rawTx else rawTx).

(** The first parameter, an object; without one all fields are empty. *)
Definition object_param {A} (mp : object) (zero : A) (decode : object → res A) : res A :=
  match field (bs "params") mp with
  | None => err "'params' not exist"
  | Some (JArray []) => Ok zero
  | Some (JArray (JObject o :: _)) => decode o
  | Some (JArray _) => Panic
  | Some _ => err "params is wrong!"
  end.
Definition no_params : call_params := CallParams [] [] [] [].

(** What is returned beside an error. *)
Definition with_error {A} (m : M (A * option error)) (zero : A) : M (A * option error) :=
  st_catch m (λ e, mret (zero, Some e)).

Definition eth_call (mp : object) : M (bytes * option error) := with_error (
  para ← st_lift (object_param mp no_params Decode_params);
  '(ret, _, err) ← ContractCall (pa_From para) (pa_To para) (pa_Data para) (Check0x (pa_Value para));
  mret (ret, err)) [].

Definition eth_estimateGas (mp : object) : M (bytes * option error) := with_error (
  para ← st_lift (object_param mp no_params Decode_params);
  if decide (length (pa_Data para) <= 0 ∨ length (pa_To para) <= 0)%nat then mret (FormatX (CfgGasLimit cfg), None) else
  '(ret, gas, err) ← ContractCall (pa_From para) (pa_To para) (pa_Data para) (Check0x (pa_Value para));
  match err with Some e => mret (ret, Some e) | None => mret (gas, None) end) [].

(** 0 when the height cannot be read *)
Definition eth_blockNumber : M Z := ignore_err GetMaxBlockNumber 0.

Definition eth_getBlockByHash (hash : bytes) (bl : bool) : M RpcBlock :=
  b ← GetBlockByHash hash;
  st_lift (ktoBlockToEthBlock b bl).
Definition eth_getBlockByNumber (num : Z) (bl : bool) : M RpcBlock :=
  b ← GetBlockByNumber num;
  st_lift (ktoBlockToEthBlock b bl).

Definition eth_getTransactionByHash (hash : bytes) : M RpcTransaction :=
  tx ← GetTransactionByHash hash;
  let t := ft_tx tx in
  from ← st_lift (drop_err (NewCommonAddr g (From t)) zero_address);
  to ← st_lift (drop_err (NewCommonAddr g (To t)) zero_address);
  '(blockHash, number, index) ← (
    if decide (BlockNum tx > 0) then
      b ← GetBlockByNumber (BlockNum tx);
      mret (hash_of (BHash b), uint64ToHexString (Height b), index_text (tx_index tx (Transactions b)))
    else mret (zero_hash, [], []));
  let trs to v r s := RpcTx blockHash number from (uint64ToHexString (GasUsed tx)) (uint64ToHexString (GasPrice t))
    (hash_of (Hash t)) (uint64ToHexString (Nonce t)) to index (uint64ToHexString (Amount t)) v r s in
  match DecodeEvmData (Input t) with
  | Ok evm =>
      ethtx ← st_lift (DecodeEthData (EthData evm));
      let v := eth_V ethtx - eth_ChainId ethtx * 2 in
      mret (trs (if decide (Operation evm = bs "create" ∨ Operation evm = bs "Create") then zero_address else to)
              (uint64ToHexString (u64 (Z.abs v))) (hash_of (big_Bytes (eth_R ethtx))) (hash_of (big_Bytes (eth_S ethtx))))
  | Err _ => mret (trs to [] zero_hash zero_hash)
  | Panic => st_panic
  end.

(** An error of the chain is no receipt, not an error. *)
Definition eth_getTransactionReceipt (hash : bytes) : M (option RpcReceipt) :=
  let hash := Check0x hash in
  or_return (GetTransactionReceipt hash) None (λ tx,
  or_return (GetBlockByNumber (BlockNum tx)) None (λ b,
  r ← st_lift (ktoTxToTxReceipt tx b);
  mret (Some r))).

Definition eth_getLogs (mp : object) : M (list Log) :=
  para ← st_lift (object_param mp (ReqGetLog [] [] [] [] []) Decode_getlog);
  '(fromBlock, toBlock) ← st_lift (
    if decide (0 < length (lg_FromBlock para) ∧ 0 < length (lg_ToBlock para))%nat then
      fb ← hexToUint64 (lg_FromBlock para);
      tb ← hexToUint64 (lg_ToBlock para);
      Ok (fb, tb)
    else Ok (0, 0));
  GetLogs (lg_Address para) fromBlock toBlock (lg_Topics para) (lg_BlockHash para).

Definition eth_getStorageAt (mp : object) : M bytes :=
  match field (bs "params") mp with
  | None => st_err (ErrMsg "'params' not exist")
  | Some (JArray [a]) => addr ← st_lift (as_string a); GetStorageAt addr []
  | Some (JArray [a; h]) => addr ← st_lift (as_string a); hash ← st_lift (as_string h); GetStorageAt addr hash
  | Some (JArray _) => GetStorageAt [] []
  | Some _ => st_err (ErrMsg "eth_getStorageAt: params is wrong!")
  end.

(** ** Requests *)

Section Request.
Variables (jsonrpc : bytes) (id : json).

Definition fail (code : Z) : answer := Failure code jsonrpc id [] [].

(** A method and the answer made of its result, or the code of its error. *)
Definition answering {A} (m : M A) (f : A → result) : M answer :=
  or_return m (fail UnkonwnErr) (λ a, mret (Result jsonrpc id (f a))).

(** The parameters, at least one: without any, the message of a missing error is asked for,
    which panics. *)
Definition with_params (mp : object) (k : list json → M answer) : M answer :=
  match getParam mp with
  | Ok [] => st_panic
  | Ok para => k para
  | Err _ => mret (fail ParameterErr)
  | Panic => st_panic
  end.

Definition first_string (para : list json) : M bytes := st_lift (v ← param para 0; as_string v).
Definition second_bool (para : list json) : M bool := st_lift (v ← param para 1; as_bool v).

(** A call that fails is answered with the reason in what it returned, found where a
    contract that reverts puts it. *)
Definition answer_call (code : Z) (m : M (bytes * option error)) : M answer :=
  '(ret, err) ← m;
  match err with
  | None => mret (Result jsonrpc id (RText (stringToHex ret)))
  | Some _ =>
      if decide (0 < length ret)%nat then
        let btret := Hex2Bytes ret in
        d ← st_lift (slice btret 64 68);
        lenth ← st_lift (DB32func d);
        data ← st_lift (slice btret 68 (Z.to_nat (u32 (lenth + 68))));
        mret (Failure code jsonrpc id data (stringToHex ret))
      else mret (Failure code jsonrpc id [] [])
  end.

Definition answer_blockNumber : M answer :=
  num ← eth_blockNumber;
  if decide (num = 0) then mret (fail UnkonwnErr) else
  mret (Result jsonrpc id (RText (stringToHex (FormatX num)))).

(** metamask's decimal is 18, kto is 11 *)
Definition answer_getBalance (mp : object) : M answer := with_params mp (λ para,
  from ← first_string para;
  answering (GetBalance from) (λ blc, RText (stringToHex (FormatX (blc * ETHKTODIC))))).

Definition answer_getBlockByHash (mp : object) : M answer := with_params mp (λ para,
  hash ← first_string para;
  bl ← second_bool para;
  answering (eth_getBlockByHash hash bl) RBlock).

Definition block_number (strNum : bytes) : M Z :=
  if decide (strNum = bs "latest") then GetMaxBlockNumber else st_lift (hexToUint64 strNum).

Definition answer_getBlockByNumber (mp : object) : M answer := with_params mp (λ para,
  strNum ← first_string para;
  or_return (block_number strNum) (fail UnkonwnErr) (λ num,
  let num := if decide (num <= 0) then 1 else num in
  bl ← second_bool para;
  answering (eth_getBlockByNumber num bl) RBlock)).

Definition answer_getTransactionByHash (mp : object) : M answer := with_params mp (λ para,
  hash ← first_string para;
  answering (eth_getTransactionByHash hash) RTx).

Definition answer_getCode (mp : object) : M answer := with_params mp (λ para,
  addr ← first_string para;
  answering (GetCode addr) RText).

Definition answer_getTransactionCount (mp : object) : M answer := with_params mp (λ para,
  addr ← first_string para;
  answering (GetNonce addr) (λ count, RText (stringToHex (FormatX count)))).

Definition answer_sendRawTransaction (mp : object) : M answer := with_params mp (λ para,
  rawTx ← first_string para;
  answering (eth_sendRawTransaction rawTx) RText).

Definition answer_getTransactionReceipt (mp : object) : M answer := with_params mp (λ para,
  hash ← first_string para;
  answering (eth_getTransactionReceipt hash) (λ r, match r with Some r => RReceipt r | None => RNull end)).

(** The switch of the handler; the price of gas is the configured limit. *)
Definition dispatch (method : bytes) (mp : object) : M answer :=
  let result r := mret (Result jsonrpc id r) in
  if decide (method = bs "eth_chainId") then result (RText (mm_ChainId mm))
  else if decide (method = bs "net_version") then result (RText (mm_NetworkId mm))
  else if decide (method = bs "eth_call") then answer_call CallErr (eth_call mp)
  else if decide (method = bs "eth_blockNumber") then answer_blockNumber
  else if decide (method = bs "eth_getBalance") then answer_getBalance mp
  else if decide (method = bs "eth_getBlockByHash") then answer_getBlockByHash mp
  else if decide (method = bs "eth_getBlockByNumber") then answer_getBlockByNumber mp
  else if decide (method = bs "eth_getTransactionByHash") then answer_getTransactionByHash mp
  else if decide (method = bs "eth_gasPrice") then result (RText (uint64ToHexString (CfgGasLimit cfg)))
  else if decide (method = bs "eth_getCode") then answer_getCode mp
  else if decide (method = bs "eth_getTransactionCount") then answer_getTransactionCount mp
  else if decide (method = bs "eth_estimateGas") then answer_call EstimateErr (eth_estimateGas mp)
  else if decide (method = bs "eth_sendRawTransaction") then answer_sendRawTransaction mp
  else if decide (method = bs "eth_getTransactionReceipt") then answer_getTransactionReceipt mp
  else if decide (method = bs "eth_getLogs") then answering (eth_getLogs mp) RLogs
  else if decide (method = bs "web3_clientVersion") then result (RText (mm_ClientVersion mm))
  else if decide (method = bs "eth_getStorageAt") then answering (eth_getStorageAt mp) RText
  else if decide (method = bs "eth_signTransaction") then mret (fail UnkonwnErr)
  else if decide (method = bs "eth_accounts") then result RNull
  else if decide (method = bs "personal_unlockAccount") then result (RBool true)
  else if decide (method = bs "net_listening") then result (RBool true)
  else mret (fail UnkonwnErr).
End Request.

(** What a request must have before its method is looked at; before that the number is 0. *)
Definition header (mp : object) : answer + (bytes * bytes * json) :=
  let early code jsonrpc := inl (Failure code jsonrpc (JNumber (bs "0")) [] []) in
  match getString mp (bs "method") with
  | Ok method =>
      match getString mp (bs "jsonrpc") with
      | Ok jsonrpc =>
          match getValue mp (bs "id") with
          | Ok id => inr (method, jsonrpc, id)
          | _ => early ParameterErr jsonrpc
          end
      | _ => early ParameterErr []
      end
  | _ => early ParameterErr []
  end.

(** Handle Request *)
Definition HandRequest (body : bytes) : M answer :=
  match Unmarshal body with
  | Ok reqData =>
      match header reqData with
      | inl a => mret a
      | inr (method, jsonrpc, id) => dispatch jsonrpc id method reqData
      end
  | Err _ => mret (Failure JsonUnmarshalErr [] (JNumber (bs "0")) [] [])
  | Panic => st_panic
  end.

End Rpc.
