(* ===== verification/RpcFacts.v ===== *)
(** What the server for Ethereum wallets does: it changes the node through one method only,
    what that method sends is from who signed it, and what a wallet reads is the chain. *)

From S2P Require Import Prelude Misc Badger BgStore Base58 Cbor Address Transaction Block.
From S2P Require Import Ledger World Apply Strconv Queue QueueFacts Pool PoolFacts PoolChain Gateway GatewayFacts.
From S2P Require Import ChainFacts.
From S2P Require Import Web Contract Rpc.

#[local] Opaque poolCap.

(** ** What a request changes *)

Section Quiet.
Context {D S T : Type} `{!Badger T, !BadgerDB D T, !StateDB S, !StateStore D S, !EvmRuntime S, !EvmView S, !EvmViewLaws S}.
Context `{!CborHeader, !Crypto, !EthCommon, !EvmData, !TxIndexJson, !Json, !HexCommon, !EthSigner, !MapStructure, !RpcCommon}.
Variables (g : globals) (now : Z) (cfg : ChainConfig) (mm : MetamaskConfig).
Implicit Types (p : Pool (chain D S)).

#[local] Instance quiet_chain : IBlockchain (chain D S) := chain_pool g.

(** The database, and every account. *)
Definition same_chain p p' : Prop := db (pbc p') = db (pbc p) ∧ same_accounts (sdb (pbc p')) (sdb (pbc p)).
(** The pool as well. *)
Definition same_node p p' : Prop := same_chain p p' ∧ pq p' = pq p ∧ pendingBuf p' = pendingBuf p.

#[local] Instance same_node_refl : Reflexive same_node.
Proof. intros p. split; [split|]; done. Qed.
#[local] Instance same_node_trans : Transitive same_node.
Proof.
  intros p1 p2 p3 [[Hd Hs] [Hq Hb]] [[Hd' Hs'] [Hq' Hb']]. split; [|split; congruence]. split; [congruence|by rewrite Hs'].
Qed.

Lemma quiet_from_chain {A} p0 (f : chain D S → res A) : preserves (same_node p0) (from_chain f).
Proof. by intros p r p' Hp [= <- <-]. Qed.
Lemma quiet_get p0 : preserves (same_node p0) st_get.
Proof. by intros p r p' Hp [= <- <-]. Qed.

Lemma quiet_call p0 origin to input value : preserves (same_node p0) (ContractCall (T := T) g now cfg origin to input value).
Proof.
  intros p r p' Hp. unfold ContractCall, on_chain. destruct (CallSmartContract _ _ _ _ _ _ _ _) as [r0 c] eqn:E.
  intros [= <- <-]. etrans; [exact Hp|]. apply CallSmartContract_same in E. done.
Qed.

#[local] Hint Resolve quiet_from_chain quiet_get quiet_call : preserves.

Lemma quiet_dispatch p0 jsonrpc id method mp : method ≠ bs "eth_sendRawTransaction" →
  preserves (same_node p0) (dispatch (T := T) g now cfg mm jsonrpc id method mp).
Proof.
  intros Hm. unfold dispatch.
  unfold answer_call, eth_call, eth_estimateGas, answer_blockNumber, eth_blockNumber, answer_getBalance, answer_getBlockByHash,
    answer_getBlockByNumber, answer_getTransactionByHash, answer_getCode, answer_getTransactionCount, answer_getTransactionReceipt.
  unfold with_params, with_error, answering, first_string, second_bool, block_number, eth_getLogs, eth_getStorageAt,
    eth_getTransactionReceipt, eth_getTransactionByHash, eth_getBlockByNumber, eth_getBlockByHash.
  unfold ignore_err, GetBalance, GetNonce, GetBlockByHash, GetBlockByNumber, GetTransactionByHash, GetTransactionReceipt, GetMaxBlockNumber, GetCode, GetStorageAt, GetLogs.
  preserving.
Qed.

(** Sending changes the queue only. *)
Lemma send_queue_only raw : queue_only (BC := chain D S) (SendRawTransaction g now cfg raw).
Proof.
  unfold SendRawTransaction. destruct (raw_parts raw) as [[data kto] m].
  apply queue_only_after; [done|intros _]. apply queue_only_after; [done|intros from].
  unfold sendRawTransaction. apply queue_only_after; [done|intros tx]. apply queue_only_after; [done|intros n].
  case_decide; [by apply queue_only_reads|]. apply queue_only_before, Add_queue_only.
Qed.

Lemma same_chain_queue_only {A} (m : stM (Pool (chain D S)) A) p r p' : queue_only m → m p = (r, p') → same_chain p p'.
Proof.
  intros Hm Hr. apply Hm in Hr. destruct r.
  - destruct Hr as [Hc _]. unfold same_chain. by rewrite Hc.
  - by subst.
  - by subst.
Qed.

Lemma same_chain_send p r p' jsonrpc id mp :
  dispatch (T := T) g now cfg mm jsonrpc id (bs "eth_sendRawTransaction") mp p = (r, p') → same_chain p p'.
Proof.
  assert (∀ m, dispatch (T := T) g now cfg mm jsonrpc id m mp = answer_sendRawTransaction g now cfg jsonrpc id mp ∨
               m ≠ bs "eth_sendRawTransaction") as Hsend.
  { intros m. destruct (decide (m = bs "eth_sendRawTransaction")) as [->|]; [by left|by right]. }
  destruct (Hsend (bs "eth_sendRawTransaction")) as [->|]; [|done]. clear Hsend.
  unfold answer_sendRawTransaction, with_params. destruct (getParam mp) as [[|v l]|e|]; try (by intros [= <- <-]).
  unfold first_string, answering, eth_sendRawTransaction. intros Hr. unfold mbind at 1, stM_bind at 1, st_lift at 1 in Hr.
  destruct (v0 ← param (v :: l) 0; as_string v0) as [raw|e|]; [|by injection Hr as <- <-..].
  unfold or_return in Hr. case_decide; [by injection Hr as <- <-|].
  destruct (SendRawTransaction _ _ _ _ p) as [[h|e|] p1] eqn:E;
    injection Hr as <- <-; by eapply same_chain_queue_only; [apply send_queue_only|].
Qed.

(** C23: whatever a client of the JSON-RPC asks for, the database and the accounts stay as they
    are, also when it calls contracts, and whether it is answered or not; and only sending
    a transaction touches the pool. *)
Theorem requests_change_nothing body p r p' :
  HandRequest (T := T) g now cfg mm body p = (r, p') →
  same_chain p p' ∧
  ((∀ mp jsonrpc id, Unmarshal body = Ok mp → header mp ≠ inr (bs "eth_sendRawTransaction", jsonrpc, id)) →
   pq p' = pq p ∧ pendingBuf p' = pendingBuf p).
Proof.
  unfold HandRequest. destruct (Unmarshal body) as [mp|e|]; try by intros [= <- <-].
  destruct (header mp) as [a|[[method jsonrpc] id]] eqn:Eh; [by intros [= <- <-]|].
  destruct (decide (method = bs "eth_sendRawTransaction")) as [->|Hm]; intros Hr.
  - split; [by eapply same_chain_send|]. intros Hno. by destruct (Hno mp jsonrpc id).
  - destruct (quiet_dispatch p jsonrpc id method mp Hm p r p' (reflexivity p) Hr) as [Hs Hq]. done.
Qed.
End Quiet.

(** ** Sending *)

(** go-ethereum's texts of addresses, and the signers it recovers. *)
Class EthTextLaws `{!EthCommon} := {
  eth_Hex_prefix b : take 2 (eth_Hex b) = bs "0x";
  eth_Hex_length b : length b = 20%nat → length (eth_Hex b) = 42%nat;
}.
Class EthSignerLaws `{!EthSigner} := AsMessage_From_length raw a : AsMessage_From raw = Ok a → length a = 20%nat.

Lemma StringToAddress_Hex `{!EthCommon, !EthCommonLaws, !EthTextLaws} g (b : bytes) :
  length b = 20%nat → StringToAddress g (eth_Hex b) = Ok (Addr (TypeSecp256k1 :: b)).
Proof.
  intros Hb. pose proof (eth_Hex_prefix b) as Hp. pose proof (eth_Hex_length b Hb) as Hl. unfold StringToAddress.
  rewrite decide_False by lia. rewrite decide_False.
  - rewrite decide_True, HexToAddress_Hex by done. by apply newAddress_secp.
  - destruct (eth_Hex b) as [|c l]; [done|]. injection Hp as -> _. by intros [?|?].
Qed.

Section Sent.
Context {D S T : Type} `{!StateDB S, !CborHeader, !Crypto, !EthCommon, !EthCommonLaws, !EthTextLaws, !EvmData, !EvmDataLaws}.
Context `{!EthSigner, !EthSignerLaws, !RpcCommon}.
Variables (g : globals) (now : Z) (cfg : ChainConfig).
Implicit Types (p : Pool (chain D S)).

#[local] Instance sent_chain : IBlockchain (chain D S) := chain_pool g.

(** What a request for an Ethereum transaction becomes. *)
Lemma eth_transaction_parts rq st : eth_transaction g cfg rq = Ok st →
  ∃ t sty m, DecodeEthData (rq_EthData rq) = Ok t ∧ eth_sender g rq = Ok (From (st_tx st), sty, m) ∧
    Nonce (st_tx st) = eth_Nonce t ∧
    ∃ f tag evm, eth_action g f m (rq_EthData rq) t = Ok (To (st_tx st), Amount (st_tx st), tag, evm).
Proof.
  unfold eth_transaction. case_decide; [done|]. intros Hst. apply bind_Ok in Hst as ([[from sty] m] & Hf & Hst).
  apply bind_Ok in Hst as (t & Ht & Hst). case_decide; [done|].
  apply bind_Ok in Hst as ([[[to amount] tag] evm] & Ha & Hst). apply bind_Ok in Hst as (i & _ & [= <-]).
  exists t, sty, m. split; [done|]. split; [done|]. split; [done|]. by exists (HexToAddress (rq_EthFrom rq)), tag, evm.
Qed.

(** C19: what the sender of a transaction from the JSON-RPC is tied to: the transaction that
    enters the pool is the next one of the account it is from, and pays whom and what the
    Ethereum transaction in the data says.  When no address and hash of this chain are behind
    the data, that account is the one whose address go-ethereum recovers from the Ethereum
    transaction's signature.  When there are, it is the account of that address, of which only
    a signature of that hash is checked: the hash comes from the client, like the data, and
    need not be of the data ([GatewayFacts.kto_signature_unbound]). *)
Theorem raw_sender_checked raw p h p' data kto m :
  reachable g (pq p) → raw_parts raw = (data, kto, m) → SendRawTransaction g now cfg raw p = (Ok h, p') →
  ∃ st t, h = HashToString st ∧ entered g st p p' ∧ DecodeEthData data = Ok t ∧
    ib_GetNonce (From (st_tx st)) (pbc p) = Ok (Nonce (st_tx st)) ∧ Nonce (st_tx st) = eth_Nonce t ∧
    (∃ f msg tag evm, eth_action g f msg data t = Ok (To (st_tx st), Amount (st_tx st), tag, evm)) ∧
    if decide (kto ≠ [] ∧ m ≠ []) then
      NewAddrFromString g kto = Ok (From (st_tx st)) ∧ kto_verdict (From (st_tx st)) m (ParseEthSignature t) = Ok tt
    else
      ∃ a, AsMessage_From data = Ok a ∧ From (st_tx st) = Addr (TypeSecp256k1 :: a).
Proof.
  intros Hr%reachable_good Hparts. unfold SendRawTransaction. rewrite Hparts. intros Hs.
  apply stM_bind_Ok in Hs as (t & p1 & [= Ht <-] & Hs). apply stM_bind_Ok in Hs as (a & p1 & [= Ha <-] & Hs).
  unfold sendRawTransaction in Hs. set (rq := MkEthReq _ _ _ _) in Hs.
  apply stM_bind_Ok in Hs as (st & p1 & [= Hst <-] & Hs). apply stM_bind_Ok in Hs as (n & p1 & [= Hn <-] & Hs).
  case_decide as Hne; [done|]. apply stM_bind_Ok in Hs as ([] & p1 & HA & [= <- ->]).
  destruct (Add_Ok _ _ _ _ _ Hr HA) as [Hadm Hent].
  destruct (eth_transaction_parts rq st Hst) as (t' & sty & msg & Ht' & Hsender & Hnonce & f & tag & evm & Hact).
  change (DecodeEthData data = Ok t') in Ht'. assert (t' = t) as -> by congruence.
  exists st, t. split; [done|]. split; [done|]. split; [done|]. split; [by rewrite <- Hne|]. split; [done|].
  split; [by exists f, msg, tag, evm|]. case_decide as Hk.
  - destruct (eth_transaction_kto g cfg rq st Hk Hst) as (u & a' & Hu & Ha' & Hf & Hv & _).
    change (DecodeEthData data = Ok u) in Hu. assert (u = t) as -> by congruence. rewrite Hf. split; [done|].
    change m with (rq_MsgHash rq). rewrite <- Hv. exact (adm_signed _ _ _ Hadm).
  - exists a. split; [done|]. unfold eth_sender in Hsender. rewrite decide_False in Hsender.
    + cbn [rq_EthFrom rq] in Hsender. rewrite StringToAddress_Hex in Hsender by by eapply AsMessage_From_length.
      by injection Hsender as <- _ _.
    + cbn [rq_KtoFrom rq_MsgHash rq]. intros [Kk Km]. apply Hk. split; intros ->; simpl in *; lia.
Qed.
End Sent.

(** ** The parts of what is sent *)

Lemma hexdigit_not_x n : hexdigit n ≠ Byte.x78.
Proof.
  unfold hexdigit. intros Hx. destruct (nth_in_or_default (Z.to_nat n) (bs "0123456789abcdef") Byte.x00) as [Hi|Hd].
  - rewrite Hx in Hi. simpl in Hi. repeat destruct Hi as [?|Hi]; done.
  - by rewrite Hd in Hx.
Qed.
Lemma EncodeToString_not_x b : Forall (λ c, c ≠ Byte.x78) (EncodeToString b).
Proof. induction b as [|x b IH]; simpl; [constructor|]. repeat constructor; auto using hexdigit_not_x. Qed.

Lemma decoded_part_Encode b : decoded_part (EncodeToString b) = b.
Proof.
  induction b as [|x b IH]; [done|]. cbn [EncodeToString decoded_part]. pose proof (byte.unsigned_range x).
  rewrite (hex_digit_inv (byte.unsigned x / 16)) by (split; [apply Z.div_pos|apply Z.div_lt_upper_bound]; lia).
  rewrite (hex_digit_inv (byte.unsigned x mod 16)) by (apply Z.mod_pos_bound; lia).
  rewrite IH. f_equal. pose proof (Z.div_mod (byte.unsigned x) 16 ltac:(lia)).
  replace (byte.unsigned x / 16 * 16 + byte.unsigned x mod 16) with (byte.unsigned x) by lia. apply byte.of_Z_unsigned.
Qed.

Abbreviation no_x := (Forall (λ c : byte, c ≠ Byte.x78)).

Lemma cut_here sep s : take (length sep) s = sep → cut sep s = Some ([], drop (length sep) s).
Proof. intros Hs. destruct s; cbn [cut]; by rewrite decide_True. Qed.
Lemma cut_step sep c s : take (length sep) (c :: s) ≠ sep →
  cut sep (c :: s) = ('(a, b) ← cut sep s; Some (c :: a, b)).
Proof. intros Hs. cbn [cut]. by rewrite decide_False. Qed.

(** What begins with 0x is not where the next character is no x. *)
Lemma cut_skip u h s : no_x h → (∀ l, s ≠ Byte.x78 :: l) →
  cut (Byte.x30 :: Byte.x78 :: u) (h ++ s) = ('(a, b) ← cut (Byte.x30 :: Byte.x78 :: u) s; Some (h ++ a, b)).
Proof.
  intros Hh Hs. induction Hh as [|c h Hc Hh IH]; cbn [app]; [by destruct (cut _ s) as [[? ?]|]|].
  rewrite cut_step, IH; [by destruct (cut _ s) as [[? ?]|]|].
  destruct Hh as [|c' h Hc' _]; [destruct s as [|c' s]; [done|]|]; simpl; try congruence.
Qed.

Lemma cut_skip3 h s : no_x h → (∀ l, s ≠ Byte.x78 :: l) →
  cut (bs "0x0x0x") (h ++ s) = ('(a, b) ← cut (bs "0x0x0x") s; Some (h ++ a, b)).
Proof. exact (cut_skip (bs "0x0x") h s). Qed.
Lemma cut_skip2 h s : no_x h → (∀ l, s ≠ Byte.x78 :: l) →
  cut (bs "0x0x") (h ++ s) = ('(a, b) ← cut (bs "0x0x") s; Some (h ++ a, b)).
Proof. exact (cut_skip (bs "0x") h s). Qed.

(** Nor are two of them one after the other where the third is missing. *)
Lemma cut_raw_none h : no_x h → cut (bs "0x0x0x") (bs "0x" ++ h) = None.
Proof.
  intros Hh. change (bs "0x" ++ h) with (Byte.x30 :: Byte.x78 :: h).
  assert (cut (bs "0x0x0x") h = None) as Hn.
  { rewrite <- (app_nil_r h). by rewrite (cut_skip3 h []). }
  rewrite cut_step, cut_step, Hn; [done|done|].
  destruct Hh as [|c h Hc Hh]; [done|]. destruct Hh as [|c' h Hc' _]; by intros [=].
Qed.
Lemma cut_raw h rest : no_x h → h ≠ [] →
  cut (bs "0x0x0x") (bs "0x" ++ h ++ bs "0x0x0x" ++ rest) = Some (bs "0x" ++ h, rest).
Proof.
  intros Hh Hne. change (bs "0x" ++ ?l) with (Byte.x30 :: Byte.x78 :: l).
  assert (cut (bs "0x0x0x") (h ++ bs "0x0x0x" ++ rest) = Some (h, rest)) as Hn.
  { rewrite (cut_skip3 h) by done. rewrite cut_here by done. cbn. by rewrite app_nil_r. }
  rewrite cut_step, cut_step, Hn; [done|done|].
  destruct Hh as [|c h Hc Hh]; [done|]. destruct Hh as [|c' h Hc' _]; by intros [=].
Qed.
Lemma cut_second h k : no_x h → no_x k →
  cut (bs "0x0x0x") (h ++ bs "0x0x" ++ k) = None ∧ cut (bs "0x0x") (h ++ bs "0x0x" ++ k) = Some (h, k).
Proof.
  intros Hh Hk. split; [rewrite (cut_skip3 h)|rewrite (cut_skip2 h)]; try done.
  - change (bs "0x0x" ++ k) with (Byte.x30 :: Byte.x78 :: bs "0x" ++ k).
    rewrite cut_step, cut_step, cut_raw_none; [done..|].
    destruct Hk as [|c k Hc Hk]; [done|]. destruct Hk as [|c' k Hc' _]; by intros [=].
  - rewrite cut_here by done. cbn. by rewrite app_nil_r.
Qed.

Lemma split_fuel_none fuel sep s : cut sep s = None → split_fuel fuel sep s = [s].
Proof. intros Hc. destruct fuel; simpl; [done|by rewrite Hc]. Qed.
Lemma Split_cut s sep a b : cut sep s = Some (a, b) → s ≠ [] → cut sep b = None → Split s sep = [a; b].
Proof.
  intros Hc Hs Hb. unfold Split. destruct s as [|c s]; [done|]. cbn [length split_fuel]. rewrite Hc.
  by rewrite split_fuel_none.
Qed.

(** The text a wallet sends is taken apart into what it was made of: the data alone, or
    the data, a hash and the key of an address. *)
Theorem raw_parts_spec `{!RpcCommon} (d m k : bytes) : d ≠ [] →
  let data := bs "0x" ++ EncodeToString d in
  raw_parts data = (data, [], []) ∧
  raw_parts (data ++ bs "0x0x0x" ++ EncodeToString m ++ bs "0x0x" ++ EncodeToString k) = (data, btc_Encode k, m).
Proof.
  intros Hd data. assert (EncodeToString d ≠ []) as Hne by by destruct d.
  pose proof (EncodeToString_not_x d) as Hxd. pose proof (EncodeToString_not_x m) as Hxm.
  pose proof (EncodeToString_not_x k) as Hxk. destruct (cut_second _ _ Hxm Hxk) as [H6 H4]. split.
  - unfold raw_parts, Split. by rewrite split_fuel_none by by apply cut_raw_none.
  - unfold raw_parts. unfold data at 1. rewrite <- app_assoc. rewrite (Split_cut _ _ _ _ (cut_raw _ _ Hxd Hne)) by done.
    rewrite (Split_cut _ _ _ _ H4); [by rewrite !decoded_part_Encode|by destruct m|].
    rewrite <- (app_nil_r (EncodeToString k)). by rewrite cut_skip2.
Qed.

(** ** Reading *)

Section Read.
Context {D S T : Type} `{!Badger T, !BadgerDB D T, !StateDB S, !StateDBLaws S, !StateStore D S, !EvmRuntime S, !EvmView S}.
Context `{!CborHeader, !Crypto, !EthCommon, !EvmData, !TxIndexJson, !HexCommon, !EthSigner, !MapStructure, !RpcCommon}.
Variables (g : globals) (now : Z) (cfg : ChainConfig) (mm : MetamaskConfig).
Implicit Types (p : Pool (chain D S)).

Abbreviation ask := (dispatch (T := T) g now cfg mm).

Lemma Check0x_stringToHex s : s ≠ [] → Check0x (stringToHex s) = s.
Proof.
  intros Hs. unfold Check0x, stringToHex. rewrite decide_True by (destruct s; [done|simpl; lia]).
  by rewrite decide_True.
Qed.

(** Methods by their names. *)
Lemma ask_blockNumber jsonrpc id mp : ask jsonrpc id (bs "eth_blockNumber") mp = answer_blockNumber jsonrpc id.
Proof. reflexivity. Qed.
Lemma ask_getBalance jsonrpc id mp : ask jsonrpc id (bs "eth_getBalance") mp = answer_getBalance g jsonrpc id mp.
Proof. reflexivity. Qed.
Lemma ask_getBlockByNumber jsonrpc id mp :
  ask jsonrpc id (bs "eth_getBlockByNumber") mp = answer_getBlockByNumber g jsonrpc id mp.
Proof. reflexivity. Qed.
Lemma ask_getTransactionCount jsonrpc id mp :
  ask jsonrpc id (bs "eth_getTransactionCount") mp = answer_getTransactionCount g jsonrpc id mp.
Proof. reflexivity. Qed.

Lemma with_params_some jsonrpc id mp v l k p :
  getParam mp = Ok (v :: l) → with_params (D := D) (S := S) jsonrpc id mp k p = k (v :: l) p.
Proof. unfold with_params. by intros ->. Qed.

Lemma getNonce_range a s c s' : getNonce g a s = (Ok c, s') → is_u64 c.
Proof.
  intros Hc. apply stM_bind_Ok in Hc as (ca & s1 & _ & Hc). apply stM_bind_Ok in Hc as (n & s2 & [= <- _] & Hc).
  case_decide; injection Hc as <- _; [done|]. apply nonce_range.
Qed.

(** A wallet reads the chain as it is: the number it is told of the last block is that
    block's, and asking for the block by it is asking for the latest; the balance it reads
    is the account's, with seven digits more, and the count is the next nonce. *)
Theorem wallet_reads_chain jsonrpc id p n :
  getMaxBlockHeight (db_of (pbc p)) = Ok n → n ≠ 0 →
  (∀ mp, ∃ t, ask jsonrpc id (bs "eth_blockNumber") mp p = (Ok (Result jsonrpc id (RText t)), p) ∧ hexToUint64 t = Ok n ∧
     ∀ mp1 mp2 rest, getParam mp1 = Ok (JString t :: rest) → getParam mp2 = Ok (JString (bs "latest") :: rest) →
       ask jsonrpc id (bs "eth_getBlockByNumber") mp1 p = ask jsonrpc id (bs "eth_getBlockByNumber") mp2 p) ∧
  (∀ mp text rest a, getParam mp = Ok (JString text :: rest) → StringToAddress g text = Ok a →
     (∀ b s, getBalance g a (sdb (pbc p)) = (Ok b, s) → 0 ≤ b →
        ∃ t, ask jsonrpc id (bs "eth_getBalance") mp p = (Ok (Result jsonrpc id (RText t)), p) ∧
          SetString16 (Check0x t) = Some (b * ETHKTODIC)) ∧
     (∀ c s, getNonce g a (sdb (pbc p)) = (Ok c, s) →
        ∃ t, ask jsonrpc id (bs "eth_getTransactionCount") mp p = (Ok (Result jsonrpc id (RText t)), p) ∧
          hexToUint64 t = Ok c)).
Proof.
  intros Hn Hn0. pose proof (getMaxBlockHeight_range _ _ Hn) as Hr. split.
  - intros mp. exists (uint64ToHexString n). split; [|split; [by apply hexToUint64_uint64ToHexString|]].
    + rewrite ask_blockNumber. unfold answer_blockNumber, eth_blockNumber.
      erewrite st_bind_eq by (apply ignore_err_run; unfold GetMaxBlockNumber, from_chain; by rewrite Hn).
      by rewrite decide_False.
    + intros mp1 mp2 rest H1' H2'. rewrite !ask_getBlockByNumber. unfold answer_getBlockByNumber.
      rewrite (with_params_some _ _ _ _ _ _ _ H1'), (with_params_some _ _ _ _ _ _ _ H2').
      erewrite !st_bind_eq by done. unfold or_return, block_number. rewrite (decide_True (P := bs "latest" = _)) by done.
      rewrite decide_False by done. unfold st_lift, GetMaxBlockNumber, from_chain.
      by rewrite hexToUint64_uint64ToHexString, Hn.
  - intros mp text rest a Hp Ha. split.
    + intros b s Hb Hb0. exists (stringToHex (FormatX (b * ETHKTODIC))). split.
      * rewrite ask_getBalance. unfold answer_getBalance. rewrite (with_params_some _ _ _ _ _ _ _ Hp).
        erewrite st_bind_eq by done. unfold answering, or_return, GetBalance. erewrite st_bind_eq by (unfold st_lift; by rewrite Ha).
        unfold from_chain. by rewrite Hb.
      * rewrite Check0x_stringToHex by apply FormatX_nonempty. apply SetString16_FormatX. unfold ETHKTODIC. lia.
    + intros c s Hc. exists (uint64ToHexString c). split; [|by eapply hexToUint64_uint64ToHexString, getNonce_range].
      rewrite ask_getTransactionCount. unfold answer_getTransactionCount. rewrite (with_params_some _ _ _ _ _ _ _ Hp).
      erewrite st_bind_eq by done. unfold answering, or_return, GetNonce. erewrite st_bind_eq by (unfold st_lift; by rewrite Ha).
      unfold from_chain. by rewrite Hc.
Qed.
End Read.

(** ** Calls that fail *)

Section Reverts.
Context {D S : Type} `{!HexCommon, !HexCommonLaws}.

(** A slice within the bytes themselves. *)
Lemma slice_inside (pre b post spare : bytes) lo hi :
  length pre = lo → hi = (lo + length b)%nat → slice (pre ++ b ++ post, spare) lo hi = Ok b.
Proof.
  intros Hlo ->. unfold slice. rewrite decide_True by (cbn; rewrite !length_app; lia). cbn.
  rewrite <- !app_assoc, drop_app_length' by done. by rewrite take_app_length' by lia.
Qed.

(** When a call is reverted, the answer has the reason as the contract encoded it, and
    the whole of what it returned as data.  A call that fails without returning anything
    has an empty reason; one that returns a little, but less than an array of 68 bytes,
    panics the handler. *)
Theorem revert_reason jsonrpc id code (m : stM (Pool (chain D S)) (bytes * option error)) p p' (b : bytes) e :
  m p = (Ok (EncodeToString b, Some e), p') →
  let answered r d := (Ok (Failure code jsonrpc id r d), p') in
  (∀ selector s, length selector = 4%nat → b = selector ++ abi_text s → Z.of_nat (length b) < 4294967296 →
     answer_call jsonrpc id code m p = answered s (stringToHex (EncodeToString b))) ∧
  (b = [] → answer_call jsonrpc id code m p = answered [] []) ∧
  (b ≠ [] → (length (b ++ (Hex2Bytes (EncodeToString b)).2) < 68)%nat → answer_call jsonrpc id code m p = (Panic, p')).
Proof.
  intros Hm answered. unfold answer_call. rewrite (st_bind_eq _ _ _ _ _ Hm). cbn beta iota.
  pose proof (Hex2Bytes_EncodeToString b) as Hb. destruct (Hex2Bytes (EncodeToString b)) as [v spare]. cbn [fst snd] in *. subst v.
  assert (b ≠ [] → (0 < length (EncodeToString b))%nat) as Hlen by (destruct b; [done|simpl; lia]). split; [|split].
  - intros selector s Hsel Eb Hs. rewrite decide_True by (apply Hlen; rewrite Eb; by destruct selector).
    pose proof (f_equal length Eb) as El. unfold abi_text in Eb, El. rewrite !length_app, length_abi_header in El.
    assert (slice (b, spare) 64 68 = Ok (EB32func (Z.of_nat (length s)))) as H64.
    { rewrite Eb. unfold abi_header. rewrite <- (app_assoc _ (EB32func _)), app_assoc.
      apply slice_inside; [by rewrite !length_app, !length_replicate, Hsel|by rewrite length_EB32func]. }
    assert (slice (b, spare) 68 (Z.to_nat (u32 (Z.of_nat (length s) + 68))) = Ok s) as H68.
    { rewrite Eb, app_assoc. apply slice_inside; [by rewrite length_app, length_abi_header, Hsel|].
      unfold u32. rewrite Z.mod_small by lia. lia. }
    assert (DB32func (EB32func (Z.of_nat (length s))) = Ok (Z.of_nat (length s))) as Hd by (apply dec_be_Ok; split; [done|lia]).
    unfold mbind, stM_bind, st_lift. by rewrite H64, Hd, H68.
  - intros ->. by rewrite decide_False by (simpl; lia).
  - intros Hne Hshort. rewrite decide_True by auto. erewrite st_bind_panic; [done|].
    unfold st_lift, slice. cbn. by rewrite decide_False by lia.
Qed.
End Reverts.

(** ** Concrete requests *)

Module RpcSample.
Import CryptoInstance QueueSample ContractSample.

#[global] Instance jstore : StateStore MapWorld.mdb jstate := {
  BytesToHash b := take 32 (b ++ replicate 32 Byte.x00);
  state_New root d := (λ s, J s []) <$> state_New root d;
  sdb_Commit del ds := let '(r, ds') := sdb_Commit del (ds.1, cur ds.2) in (r, (ds'.1, J ds'.2 (snaps ds.2)));
  trie_Commit root ds := (Ok tt, ds);
}.

Definition text_field (k : bytes) (o : object) : bytes := match getString o k with Ok s => s | _ => [] end.
#[global] Instance structures : MapStructure := {
  Decode_params o := Ok (CallParams (text_field (bs "from") o) (text_field (bs "to") o) (text_field (bs "value") o)
                           (text_field (bs "data") o));
  Decode_getlog o := Ok (ReqGetLog [] [] [] [] []);
}.
#[global] Instance common : RpcCommon := { btc_Encode b := b; CreateBloom _ := replicate 256 Byte.x00 }.

(** Bodies are methods, asked with the same parameters. *)
Definition object_of (method : bytes) : object :=
  [(bs "jsonrpc", JString (bs "2.0")); (bs "method", JString method); (bs "id", JNumber (bs "1"));
   (bs "params", JArray [JObject [(bs "to", JString contract); (bs "data", JString (bs "0x06fdde03"))]])].
#[global] Instance bodies : Json := λ body, Ok (object_of body).

(** No transaction is indexed. *)
#[global] Instance no_index : TxIndexJson := λ _, err "invalid character".

#[global] Instance signer : EthSigner := λ _, Ok (replicate 20 Byte.x01).
#[global] Program Instance signer_laws : EthSignerLaws.
Next Obligation. by intros raw a [= <-]. Qed.
#[global] Program Instance text_laws : EthTextLaws.
Next Obligation. done. Qed.
Next Obligation.
  intros b Hb. cbn. by rewrite length_EncodeToString, Hb.
Qed.

(** A chain of height 7; the zero address has 5. *)
Definition seven : chain MapWorld.mdb jstate :=
  Chain (MapWorld.Mdb {[ HeightKey := E64func 7 ]} []) (J (MapState.State {[ zero_address := 5 ]} ∅) []) (NewEvm 0 (ChainCfg 0 0 0 0)).
Definition node : Pool (chain MapWorld.mdb jstate) := NewPool seven.
Definition empty : Pool (chain MapWorld.mdb jstate) := NewPool c0.
Definition mm : MetamaskConfig := MetamaskCfg (bs "0x1") (bs "1") (bs "Kortho").

Definition zero_text : bytes := bs "0x0000000000000000000000000000000000000000".
(** Parameters of a request for a block, and for a balance. *)
Definition with_list (l : list json) : object := [(bs "params", JArray l)].
End RpcSample.
#[local] Existing Instances GatewaySample.packed GatewaySample.packed_laws.

Lemma requests_change_nothing_witness :
  ∃ p', HandRequest (T := MapTxn.txn) QueueSample.g 0 GatewaySample.cfg RpcSample.mm (bs "eth_call") RpcSample.empty =
    (Ok (Result (bs "2.0") (JNumber (bs "1")) (RText (bs "0x06fdde03"))), p') ∧
    same_chain RpcSample.empty p' ∧ pq p' = pq RpcSample.empty.
Proof.
  eexists. split; [by_run|].
  edestruct (requests_change_nothing (T := MapTxn.txn) QueueSample.g 0 GatewaySample.cfg RpcSample.mm (bs "eth_call") RpcSample.empty)
    as [Hs Hq]; [by_run|]. split; [exact Hs|]. apply Hq. intros mp jsonrpc id [= <-]. vm_compute. discriminate.
Defined.

Lemma raw_sender_checked_witness :
  ∃ h p' st, SendRawTransaction QueueSample.g 0 GatewaySample.cfg (bs "x") RpcSample.node = (Ok h, p') ∧
    entered QueueSample.g st RpcSample.node p' ∧ Nonce (st_tx st) = 1 ∧ From (st_tx st) = QueueSample.a.
Proof.
  eexists _, _. edestruct (raw_sender_checked (S := ContractSample.jstate) (D := MapWorld.mdb) QueueSample.g 0 GatewaySample.cfg (bs "x") RpcSample.node)
    as (st & t & _ & Hent & Ht & _ & Hn & _ & Hfrom); [constructor|reflexivity|by_run|].
  exists st. split; [by_run|]. split; [exact Hent|]. injection Ht as <-. split; [exact Hn|].
  destruct Hfrom as (a & [= <-] & Hf). exact Hf.
Defined.

Lemma raw_parts_spec_witness :
  raw_parts (bs "0x0102" ++ bs "0x0x0x" ++ bs "0304" ++ bs "0x0x" ++ bs "05") = (bs "0x0102", [Byte.x05], [Byte.x03; Byte.x04]).
Proof.
  exact (proj2 (raw_parts_spec [Byte.x01; Byte.x02] [Byte.x03; Byte.x04] [Byte.x05] ltac:(discriminate))).
Defined.

Lemma wallet_reads_chain_witness :
  ∃ t, dispatch (T := MapTxn.txn) QueueSample.g 0 GatewaySample.cfg RpcSample.mm (bs "2.0") JNull (bs "eth_getBalance")
         (RpcSample.with_list [JString RpcSample.zero_text]) RpcSample.node =
       (Ok (Result (bs "2.0") JNull (RText t)), RpcSample.node) ∧ SetString16 (Check0x t) = Some 50000000.
Proof.
  destruct (wallet_reads_chain (T := MapTxn.txn) QueueSample.g 0 GatewaySample.cfg RpcSample.mm (bs "2.0") JNull RpcSample.node 7)
    as [_ Hb]; [reflexivity|discriminate|].
  destruct (Hb (RpcSample.with_list [JString RpcSample.zero_text]) RpcSample.zero_text []
    (Addr (TypeSecp256k1 :: zero_address)) eq_refl) as [Hbal _]; [vm_compute; reflexivity|].
  exact (Hbal 5 _ ltac:(vm_compute; reflexivity) ltac:(discriminate)).
Defined.

(** The error of a Solidity [require]. *)
Definition solidity_error : bytes := [Byte.x08; Byte.xc3; Byte.x79; Byte.xa0] ++ abi_text (bs "no funds").

Lemma revert_reason_witness :
  answer_call (bs "2.0") JNull CallErr (mret (EncodeToString solidity_error, Some (ErrMsg "execution reverted"))) RpcSample.node =
    (Ok (Failure CallErr (bs "2.0") JNull (bs "no funds") (stringToHex (EncodeToString solidity_error))), RpcSample.node).
Proof.
  refine (proj1 (revert_reason (bs "2.0") JNull CallErr _ RpcSample.node _ solidity_error (ErrMsg "execution reverted") _)
    [Byte.x08; Byte.xc3; Byte.x79; Byte.xa0] (bs "no funds") _ _ _); [reflexivity|reflexivity|reflexivity|vm_compute; reflexivity].
Defined.
