(* ===== verification/Explorer.v ===== *)
(** The server for explorers ([pkg/server/chainserver]): a request is a JSON object with a
    method, and the answer a JSON object with what was read of the chain.

    Listening and the headers are left out; a panic ends the handler without an answer. *)

From S2P Require Import Prelude Misc Badger BgStore Base58 Cbor Address Transaction Block.
From S2P Require Import Ledger World Apply Script Exec Strconv Queue QueueFacts Pool Gateway GatewayFacts.
From S2P Require Import Web Contract Rpc RpcFacts.

(** ** Answers *)

Record ChainTransaction := ChainTx {
  ct_Version : Z; ct_Type : byte; ct_From : bytes; ct_To : bytes; ct_Amount : Z; ct_Nonce : Z; ct_GasLimit : Z;
  ct_GasFeeCap : Z; ct_GasPrice : Z; ct_Input : bytes; ct_Signature : bytes; ct_GasUsed : Z; ct_BlockNum : Z;
}.
Record ChainBlock := ChainBlk {
  cb_Height : Z; cb_PrevHash : bytes; cb_Hash : bytes; cb_Transactions : list ChainTransaction; cb_Root : bytes;
  cb_SnapRoot : bytes; cb_Version : Z; cb_Timestamp : Z; cb_UsedTime : Z; cb_Miner : bytes; cb_Difficulty : option Z;
  cb_GlobalDifficulty : option Z; cb_Nonce : Z; cb_GasLimit : Z; cb_GasUsed : Z;
}.
Record contractData := ContractData { cd_Name : bytes; cd_Symbol : bytes; cd_Decimal : option Z; cd_TotalSupply : option Z }.

(** [Nothing] is an empty body. *)
Inductive shown :=
  | Info (n : Z) | Tx_ (t : ChainTransaction) | TxReceipt (r : RpcReceipt) | Blk (b : ChainBlock)
  | Contract_ (c : contractData) | Balance (b : option Z) | Nothing.

Definition ErrData : Z := -41205.

Definition NAME : bytes := bs "0x06fdde03".
Definition SYMBOL : bytes := bs "0x95d89b41".
Definition DECIMALS : bytes := bs "0x313ce567".
Definition TOTALSUPPLY : bytes := bs "0x18160ddd".
Definition BalanceOfPerfix : bytes := bs "0x70a08231000000000000000000000000".

(** What is written for an error. *)
Definition FormatInt (n : Z) : bytes := if decide (n < 0) then bs "-" ++ FormatUint (- n) else FormatUint n.
Definition error_body (errorCode : Z) (errMessage : bytes) : bytes :=
  bs "{errorcode" ++ [Byte.x22] ++ bs ":" ++ FormatInt errorCode ++ bs "," ++ quoted "errormsg" ++ bs ":" ++
  [Byte.x22] ++ errMessage ++ [Byte.x22] ++ bs "}".

Section Explorer.
Context {D S T : Type} `{!Badger T, !BadgerDB D T, !StateDB S, !StateStore D S, !EvmRuntime S, !EvmView S}.
Context `{!CborHeader, !Crypto, !EthCommon, !EvmData, !TxIndexJson, !Json, !HexCommon, !RpcCommon}.
Variables (g : globals) (now : Z) (cfg : ChainConfig).

Abbreviation M := (stM (chain D S)).

Definition from {A} (f : chain D S → res A) : M A := λ c, (f c, c).
Definition hash32 (b : bytes) : bytes := BytesToHash (D := D) (S := S) b.

Definition explorer_getNonce (addr : bytes) : M Z :=
  a ← st_lift (StringToAddress g addr);
  from (λ c, (getNonce g a (sdb c)).1).
Definition explorer_getBalance (addr : bytes) : M Z :=
  a ← st_lift (StringToAddress g addr);
  from (λ c, (getBalance g a (sdb c)).1).
Definition getMaxHeight : M Z := from (λ c, getMaxBlockHeight (Dbase (db c))).
Definition getTransacionByHash (hash : bytes) : M FinishedTransaction :=
  hs ← st_lift (DecodeString (Check0x hash));
  from (λ c, getTransactionByHash hs (Dbase (db c))).

(** The sender is read as hexadecimal text, and is the receiver as well. *)
Definition receipt_of (tx : FinishedTransaction) : res RpcReceipt :=
  s ← String g (From (ft_tx tx));
  let nobody := HexToAddress s in
  let receipt contract logs bloom status to :=
    Receipt (replicate 32 Byte.x00) (uint64ToHexString (BlockNum tx)) contract (uint64ToHexString (GasUsed tx)) nobody
      (uint64ToHexString (GasUsed tx)) logs bloom status to (hash32 (Hash (ft_tx tx))) [] in
  match DecodeEvmData (Input (ft_tx tx)) with
  | Ok e =>
      Ok (receipt (ContractAddr e) (Logs e) (CreateBloom (Logs e)) (if Status e then SUCCESS else FAILED)
            (if decide (Operation e = bs "create" ∨ Operation e = bs "Create") then zero_address else ContractAddr e))
  | Err _ => Ok (receipt zero_address [] (replicate 256 Byte.x00) SUCCESS nobody)
  | Panic => Panic
  end.
Definition explorer_getTransactionReceipt (hash : bytes) : M RpcReceipt :=
  tx ← getTransacionByHash hash;
  st_lift (receipt_of tx).

(** get the latest block *)
Definition getLatestBlock : M Block :=
  maxH ← getMaxHeight;
  from (λ c, getBlockByHeight maxH (Dbase (db c))).
Definition explorer_getBlockByHash (hash : bytes) : M Block :=
  hs ← st_lift (DecodeString (Check0x hash));
  from (λ c, getBlockByHash hs (Dbase (db c))).
Definition explorer_getBlockByHeight (hit : Z) : M Block := from (λ c, getBlockByHeight hit (Dbase (db c))).

Definition getTokenDemic_10 (symbol : bytes) : M Z := from (λ c, GetTokenDemic symbol c).
Definition getTokenBalance_10 (address : Address) (symbol : bytes) : M Z := from (λ c, GetTokenBalance g address symbol c).

(** What a contract returns for an input. *)
Definition ask_contract (contract input : bytes) : M bytes :=
  '(ret, _, err) ← CallSmartContract g now cfg contract [] input [];
  match err with Some e => st_err e | None => mret ret end.

(** get get Contract Data *)
Definition getContractData (contract : bytes) : M contractData :=
  resN ← ask_contract contract NAME;
  name ← st_lift (ParseCallResultToString resN);
  resBol ← ask_contract contract SYMBOL;
  symbol ← st_lift (ParseCallResultToString resBol);
  if decide (length name = 0 ∧ length symbol = 0)%nat then st_err (ErrMsg "contract address not exist.") else
  resDeci ← ask_contract contract DECIMALS;
  let decimal := ParseCallResultToBig resDeci in
  resTotal ← ask_contract contract TOTALSUPPLY;
  let totalSupply := ParseCallResultToBig resTotal in
  match decimal, totalSupply with
  | None, None => st_err (ErrMsg "contract address not exist.")
  | _, _ => mret (ContractData name symbol decimal totalSupply)
  end.

(** get token-20 balance *)
Definition getBalanceToken_20 (contract addr : bytes) : M (option Z) :=
  resTotal ← ask_contract contract (BalanceOfPerfix ++ Check0x addr);
  mret (ParseCallResultToBig resTotal).

(** convertTransaction *)
Definition convertTransaction (ftx : FinishedTransaction) : res ChainTransaction :=
  let t := ft_tx ftx in
  from ← String g (From t);
  to ← String g (To t);
  Ok (ChainTx (Version t) (Type_ t) from to (Amount t) (Nonce t) (GasLimit t) (GasFeeCap t) (GasPrice t)
        (EncodeToString (Input t)) (EncodeToString (Data (st_sig (ft_st ftx)))) (GasUsed ftx) (BlockNum ftx)).
Fixpoint convertTransactions (l : list FinishedTransaction) : res (list ChainTransaction) :=
  match l with
  | [] => Ok []
  | ftx :: l => t ← convertTransaction ftx; l ← convertTransactions l; Ok (t :: l)
  end.

(** convert block to chainblock *)
Definition convertBlock (b : Block) : res ChainBlock :=
  ctx ← convertTransactions (Transactions b);
  miner ← String g (Miner b);
  Ok (ChainBlk (Height b) (EncodeToString (PrevHash b)) (EncodeToString (BHash b)) ctx (EncodeToString (Block.Root b))
        (EncodeToString (SnapRoot b)) (BVersion b) (Timestamp b) (UsedTime b) miner (Difficulty b) (GlobalDifficulty b)
        (BNonce b) (BGasLimit b) (BGasUsed b)).

(** ** Requests *)

Definition field_of (reqData : object) (k : string) : M bytes := st_lift (getString reqData (bs k)).

Definition answer_block (reqData : object) : M shown :=
  option ← field_of reqData "option";
  b ← (if decide (option = bs "hash") then
         hash ← field_of reqData "hash";
         explorer_getBlockByHash hash
       else if decide (option = bs "height") then
         strH ← field_of reqData "height";
         hi ← st_lift (ParseUint0 strH);
         explorer_getBlockByHeight hi
       else getLatestBlock);
  Blk <$> st_lift (convertBlock b).

(** Another option is answered with 0. *)
Definition answer_token_10 (reqData : object) : M shown :=
  option ← field_of reqData "option";
  symbol ← field_of reqData "symbol";
  if decide (option = bs "decimal") then Info <$> getTokenDemic_10 symbol
  else if decide (option = bs "balance") then
    addr ← field_of reqData "address";
    a ← st_lift (StringToAddress g addr);
    Info <$> getTokenBalance_10 a symbol
  else mret (Info 0).

(** Another option has an empty answer. *)
Definition answer_token_20 (reqData : object) : M shown :=
  option ← field_of reqData "option";
  contract ← field_of reqData "contract";
  if decide (option = bs "data") then Contract_ <$> getContractData contract
  else if decide (option = bs "balance") then
    address ← field_of reqData "address";
    Balance <$> getBalanceToken_20 contract address
  else mret Nothing.

Definition method_of (method : bytes) (reqData : object) : M shown :=
  if decide (method = bs "nonce") then
    address ← field_of reqData "address"; Info <$> explorer_getNonce address
  else if decide (method = bs "balance") then
    address ← field_of reqData "address"; Info <$> explorer_getBalance address
  else if decide (method = bs "height") then Info <$> getMaxHeight
  else if decide (method = bs "transaction") then
    hash ← field_of reqData "hash";
    tx ← getTransacionByHash hash;
    Tx_ <$> st_lift (convertTransaction tx)
  else if decide (method = bs "transactionReceipt") then
    hash ← field_of reqData "hash"; TxReceipt <$> explorer_getTransactionReceipt hash
  else if decide (method = bs "block") then answer_block reqData
  else if decide (method = bs "token_10") then answer_token_10 reqData
  else if decide (method = bs "token_20") then answer_token_20 reqData
  else st_err (ErrMsg "Error unsupport method").

(** server handler: what is shown, or the code of the error *)
Definition ServerHandler (reqBody : bytes) : M (shown + Z) :=
  or_return (
    reqData ← st_lift (Unmarshal reqBody);
    method ← field_of reqData "method";
    method_of method reqData) (inr ErrData) (λ v, mret (inl v)).

End Explorer.

(** ** What a request changes *)

Section Untouched.
Context {D S T : Type} `{!Badger T, !BadgerDB D T, !StateDB S, !StateStore D S, !EvmRuntime S, !EvmView S, !EvmViewLaws S}.
Context `{!CborHeader, !Crypto, !EthCommon, !EvmData, !TxIndexJson, !Json, !HexCommon, !RpcCommon}.
Variables (g : globals) (now : Z) (cfg : ChainConfig).
Implicit Types (c : chain D S).

Definition untouched c c' : Prop := db c' = db c ∧ same_accounts (sdb c') (sdb c).

Lemma untouched_from {A} c0 (f : chain D S → res A) : preserves (untouched c0) (from f).
Proof. by intros c r c' Hc [= <- <-]. Qed.
Lemma untouched_field c0 reqData k : preserves (untouched c0) (field_of reqData k).
Proof. by intros c r c' Hc [= <- <-]. Qed.
Lemma untouched_call c0 to origin input value : preserves (untouched c0) (CallSmartContract (T := T) g now cfg to origin input value).
Proof.
  intros c r c' [Hd Hs] [Hd' Hs']%CallSmartContract_same. split; [congruence|]. by rewrite Hs'.
Qed.
#[local] Hint Resolve untouched_from untouched_field untouched_call : preserves.

(** Whatever the explorer asks for, the database and the accounts stay as they are,
    also when contracts are called, and whether there is an answer or not. *)
Theorem explorer_changes_nothing body c r c' :
  ServerHandler (T := T) g now cfg body c = (r, c') → untouched c c'.
Proof.
  assert (preserves (untouched c) (ServerHandler (T := T) g now cfg body)) as Hp.
  { unfold ServerHandler, method_of, answer_block, answer_token_10, answer_token_20, getContractData, getBalanceToken_20,
      ask_contract, explorer_getNonce, explorer_getBalance, getMaxHeight, getTransacionByHash, explorer_getTransactionReceipt,
      getLatestBlock, explorer_getBlockByHash, explorer_getBlockByHeight, getTokenDemic_10, getTokenBalance_10.
    preserving. }
  apply Hp. split; done.
Qed.
End Untouched.

(** ** Receipts *)

(** go-ethereum reads no address from a text that begins with a digit that is none. *)
Class HexAddressLaws `{!EthCommon} :=
  HexToAddress_prefix s : take 3 s = MainnetPrefix ∨ take 3 s = TestnetPrefix → HexToAddress s = zero_address.

Section Receipts.
Context {D S : Type} `{!StateStore D S, !CborHeader, !Crypto, !EthCommon, !EthCommonLaws, !HexAddressLaws, !EvmData, !RpcCommon}.
Variable g : globals.

Lemma prefix_of_String a s : a ≠ Undef → String g a = Ok s → take 3 s = MainnetPrefix ∨ take 3 s = TestnetPrefix.
Proof.
  intros Hu. unfold String, encode. rewrite decide_False by done. unfold prefixSet.
  destruct (decide (CurrentNetWork g = Mainnet)); [|destruct (decide (CurrentNetWork g = Testnet)); [|done]];
    (destruct (decide (Protocol a = TypeSecp256k1)); [|destruct (decide (Protocol a = TypeED25519)); [|done]]);
    intros [= <-]; auto.
Qed.

(** The two servers disagree on every transaction without contract data: to the explorer
    it succeeded, from the zero address to the zero address; to a wallet it failed, from
    its sender to its receiver. *)
Theorem receipts_disagree (tx : FinishedTransaction) (block : Block) ca cb e :
  is_Some (prefixSet (CurrentNetWork g)) → known (From (ft_tx tx)) →
  NewCommonAddr g (From (ft_tx tx)) = Ok ca → NewCommonAddr g (To (ft_tx tx)) = Ok cb →
  DecodeEvmData (Input (ft_tx tx)) = Err e →
  (∃ r, receipt_of (D := D) (S := S) g tx = Ok r ∧
     er_Status r = SUCCESS ∧ er_From r = zero_address ∧ er_To r = zero_address) ∧
  (∃ r, ktoTxToTxReceipt (D := D) (S := S) g tx block = Ok r ∧
     er_Status r = FAILED ∧ er_From r = ca ∧ er_To r = cb).
Proof.
  intros Hp Hk Ha Hb He. split.
  - destruct (known_roundtrip g (From (ft_tx tx)) Hp Hk) as (s & Hs' & _).
    assert (String g (From (ft_tx tx)) = Ok s) as Hs by (unfold String; by rewrite Hs').
    unfold receipt_of. rewrite Hs. cbn [mbind res_bind]. rewrite He. eexists. split; [done|]. cbn.
    by rewrite (HexToAddress_prefix s) by (eapply prefix_of_String; [by apply known_not_Undef|done]).
  - unfold ktoTxToTxReceipt. rewrite Ha, Hb. cbn [drop_err mbind res_bind]. rewrite He. by eexists.
Qed.
End Receipts.

(** ** Tokens *)

Section Tokens.
Context {D S T : Type} `{!Badger T, !BadgerDB D T, !StateDB S, !EvmRuntime S, !EvmView S}.
Context `{!CborHeader, !EthCommon, !HexCommon, !HexCommonLaws}.
Variables (g : globals) (now : Z) (cfg : ChainConfig).
Implicit Types (c : chain D S) (b : bytes).

(** A contract asked for something returns some bytes. *)
Definition returns (contract input : bytes) b c c' : Prop :=
  ∃ gas, CallSmartContract (T := T) g now cfg contract [] input [] c = (Ok (EncodeToString b, gas, None), c').

Lemma ask_returns contract input b c c' : returns contract input b c c' →
  ask_contract (T := T) g now cfg contract input c = (Ok (EncodeToString b), c').
Proof. intros [gas Hc]. unfold ask_contract. by rewrite (st_bind_eq _ _ _ _ _ Hc). Qed.

(** The array the result is decoded in has a length that fits. *)
Definition decodable b : Prop := Z.of_nat (length (b ++ (Hex2Bytes (EncodeToString b)).2)) < 4294967296.

(** C38: what an explorer shows of a token is what its contract says: the texts as they were
    encoded and the numbers as their words.  A contract whose name declares more bytes
    than there are makes the handler panic. *)
Theorem token_data contract c0 c1 :
  (∀ name symbol d t c2 c3 c4,
     returns contract NAME (abi_text name) c0 c1 → returns contract SYMBOL (abi_text symbol) c1 c2 →
     returns contract DECIMALS d c2 c3 → returns contract TOTALSUPPLY t c3 c4 →
     decodable (abi_text name) → decodable (abi_text symbol) → name ≠ [] ∨ symbol ≠ [] → d ≠ [] → t ≠ [] →
     getContractData (T := T) g now cfg contract c0 =
       (Ok (ContractData name symbol (Some (big_SetBytes d)) (Some (big_SetBytes t))), c4)) ∧
  (∀ b l, returns contract NAME b c0 c1 → decodable b → (64 < length b)%nat →
     DB32func (take 4 (drop 60 b)) = Ok l → Z.of_nat (length (b ++ (Hex2Bytes (EncodeToString b)).2)) < 64 + l →
     getContractData (T := T) g now cfg contract c0 = (Panic, c1)).
Proof.
  split.
  - intros name symbol d t c2 c3 c4 Hn Hs Hd Ht Kn Ks Hne Hd0 Ht0. unfold getContractData.
    rewrite (st_bind_eq _ _ _ _ _ (ask_returns _ _ _ _ _ Hn)). erewrite st_bind_eq by (unfold st_lift; by rewrite abi_text_read).
    rewrite (st_bind_eq _ _ _ _ _ (ask_returns _ _ _ _ _ Hs)). erewrite st_bind_eq by (unfold st_lift; by rewrite abi_text_read).
    rewrite decide_False by (destruct Hne as [Hne|Hne]; [destruct name|destruct symbol]; by intros [? ?]).
    rewrite (st_bind_eq _ _ _ _ _ (ask_returns _ _ _ _ _ Hd)), (st_bind_eq _ _ _ _ _ (ask_returns _ _ _ _ _ Ht)).
    unfold ParseCallResultToBig. by rewrite !SetString16_EncodeToString.
  - intros b l Hb Kb Hl Hd Hmore. unfold getContractData. rewrite (st_bind_eq _ _ _ _ _ (ask_returns _ _ _ _ _ Hb)).
    apply st_bind_panic. unfold st_lift. rewrite (long_result b l) by done. by rewrite decide_False by lia.
Qed.
End Tokens.

(** ** Concrete requests *)

Module ExplorerSample.
Import ContractSample.

(** A token of ten units, with two decimals. *)
Definition token (input : bytes) : bytes :=
  if decide (input = [Byte.x06; Byte.xfd; Byte.xde; Byte.x03]) then abi_text (bs "Kortho")
  else if decide (input = [Byte.x95; Byte.xd8; Byte.x9b; Byte.x41]) then abi_text (bs "KTO")
  else if decide (input = [Byte.x31; Byte.x3c; Byte.xe5; Byte.x67]) then replicate 31 Byte.x00 ++ [Byte.x02]
  else replicate 30 Byte.x00 ++ [Byte.x03; Byte.xe8].

(** A contract whose name is said to have 2^24 bytes. *)
Definition hostile (input : bytes) : bytes := replicate 60 Byte.x00 ++ [Byte.x01; Byte.x00; Byte.x00; Byte.x00; Byte.x4b].

#[global] Instance tokens : EvmRuntime jstate := machine token.
#[global] Instance token_laws : EvmViewLaws jstate := machine_laws token.

#[global] Instance bodies : Json := λ body,
  Ok [(bs "method", JString (bs "token_20")); (bs "option", JString body); (bs "contract", JString contract)].

(** A plain transfer, whose input is no record of a contract. *)
#[global] Instance plain : EvmData := {
  DecodeEvmData _ := err "unexpected end of JSON input";
  EncodeEvmData _ := Ok [];
  DecodeEthData _ := err "empty hex string";
}.
Definition transfer : FinishedTransaction := FTx (QueueSample.mk QueueSample.a 1 60000 5) 4200000 7.
Definition block : Block :=
  MkBlock 7 [] [Byte.x07] [transfer] [] [] 1 0 12 ZeroAddress (Some 5) (Some 5) 0 0 0.

#[global] Program Instance no_address : HexAddressLaws.
Next Obligation.
  intros s Hs. cbn. assert (EthInstance.trim0x s = s ∧ ∃ e, DecodeString s = Err e) as [-> [e ->]]; [|reflexivity].
  destruct s as [|x [|y s]]; [by destruct Hs|by destruct Hs|].
  destruct Hs as [[= -> ->]|[= -> ->]]; (split; [reflexivity|eexists; reflexivity]).
Qed.

(** The explorer does not survive a look at it. *)
Lemma hostile_panics :
  (ServerHandler (EvmRuntime0 := machine hostile) (T := MapTxn.txn) Sample.g 0 (ChainCfg 0 0 0 0) (bs "data") c0).1 = Panic.
Proof. vm_compute. reflexivity. Qed.
(** What is written for an error begins with a name without its first quote. *)
Lemma error_unquoted : take 11 (error_body ErrData (bs "no")) = bs "{errorcode" ++ [Byte.x22].
Proof. reflexivity. Qed.
End ExplorerSample.

Lemma explorer_changes_nothing_witness :
  ∃ c', ServerHandler (T := MapTxn.txn) Sample.g 0 (ChainCfg 0 0 0 0) (bs "data") ContractSample.c0 =
    (Ok (inl (Contract_ (ContractData (bs "Kortho") (bs "KTO") (Some 2) (Some 1000)))), c') ∧
    untouched ContractSample.c0 c'.
Proof.
  eexists. split; [by_run|].
  eapply (explorer_changes_nothing (T := MapTxn.txn) Sample.g 0 (ChainCfg 0 0 0 0) (bs "data") ContractSample.c0). by_run.
Defined.

Lemma receipts_disagree_witness :
  ∃ r r', receipt_of (D := MapWorld.mdb) (S := ContractSample.jstate) Sample.g ExplorerSample.transfer = Ok r ∧
    ktoTxToTxReceipt (D := MapWorld.mdb) (S := ContractSample.jstate) Sample.g ExplorerSample.transfer ExplorerSample.block = Ok r' ∧
    er_Status r = bs "0x1" ∧ er_Status r' = bs "0x0" ∧ er_From r ≠ er_From r'.
Proof.
  edestruct (receipts_disagree (D := MapWorld.mdb) (S := ContractSample.jstate) Sample.g ExplorerSample.transfer ExplorerSample.block)
    as [(r & Hr & Hs & Hf & _) (r' & Hr' & Hs' & Hf' & _)].
  - eexists. vm_compute. reflexivity.
  - left. vm_compute. reflexivity.
  - vm_compute. reflexivity.
  - vm_compute. reflexivity.
  - reflexivity.
  - exists r, r'. split; [exact Hr|]. split; [exact Hr'|]. split; [exact Hs|]. split; [exact Hs'|].
    rewrite Hf, Hf'. discriminate.
Defined.

Lemma token_data_witness :
  ∃ c', getContractData (T := MapTxn.txn) Sample.g 0 (ChainCfg 0 0 0 0) ContractSample.contract ContractSample.c0 =
    (Ok (ContractData (bs "Kortho") (bs "KTO") (Some 2) (Some 1000)), c').
Proof.
  eexists. edestruct (token_data (T := MapTxn.txn) Sample.g 0 (ChainCfg 0 0 0 0) ContractSample.contract ContractSample.c0) as [Hd _].
  refine (Hd (bs "Kortho") (bs "KTO") (replicate 31 Byte.x00 ++ [Byte.x02]) (replicate 30 Byte.x00 ++ [Byte.x03; Byte.xe8]) _ _ _ _ _ _ _ _ _ _ _ _);
    try (eexists; by_run); [vm_compute; reflexivity..|left; discriminate|discriminate|discriminate].
Defined.
