(* ===== verification/Gossip.v ===== *)
(** The gossip between nodes ([pkg/p2p]): the Lamport clock of [lamport.go], the handling of
    messages of [node.go] and [messages.go], and the callbacks of [delegate.go].

    The memberlist package, and the cbor package that encodes the messages, are not in the
    repository: the first is what calls the operations of this file, the second the class
    [GossipCodec].  A call of [HandleFunc] is a goroutine; the state keeps the messages it
    was called with, in order. *)

From S2P Require Import Prelude Transaction.

(** ** The clock *)

(** Witness is called to update our local clock if necessary after witnessing a clock value
    received from another process: the result of the loop when nothing interferes. *)
Definition Witness (v cur : Z) : Z := if decide (v < cur) then cur else v +₆₄ 1.
Definition Increment (cur : Z) : Z := cur +₆₄ 1.

(** ** Messages *)

Definition PayloadMessageType : byte := Byte.x00.
Definition pullPushMessageType : byte := Byte.x01.

Record message := Msg { LTime : Z; MType : byte; GPayload : bytes }.
Record receivedMessage := Received { seen_LTime : Z; IDs : list bytes }.

(** The codec of the two structures, behind the byte of the type.  What is decoded when there
    is an error is any message. *)
Class GossipCodec := {
  cbor_message : message → bytes;
  cbor_clock : Z → bytes;
  decode_message : bytes → message * bool;
  decode_clock : bytes → option Z;
}.

(** ** The node *)

Inductive nodeStatus := nodeAlive | nodeLeave | nodeShutdown.
#[global] Instance nodeStatus_eq_dec : EqDecision nodeStatus.
Proof. solve_decision. Defined.

Record Node := MkNode {
  messageBuffer : list (option receivedMessage); messageClock : Z; broadcasts : list bytes;
  HandleFunc : bool; handed : list message; node_state : nodeStatus;
}.

(** The configuration, as far as [Create] checks it; the functions are there or not. *)
Record Config := MkConfig {
  NodeName : bytes; AdvertiseAddr : bytes; ConfHandleFunc : bool; ConfLogger : bool; MessageBuffer : Z;
}.

(** Create creates a new P2P instance.  [started] is the result of the packages that make the
    name and the member list. *)
Definition Create (conf : Config) (started : res unit) : res Node :=
  if decide (length (NodeName conf) = 0%nat) then err "NnodeName cannot be empty" else
  if decide (length (AdvertiseAddr conf) = 0%nat) then err "invalid advertise address" else
  if decide (ConfHandleFunc conf = false) then err "HandleFunc cannot be empty" else
  if decide (MessageBuffer conf < 0) then Panic else
  if decide (ConfLogger conf = false) then Panic else
  started ;;
  Ok (MkNode (replicate (Z.to_nat (MessageBuffer conf)) None) (Increment 0) [] false [] nodeAlive).

Definition RegisterHandleFunc (n : Node) : Node :=
  MkNode (messageBuffer n) (messageClock n) (broadcasts n) true (handed n) (node_state n).

Section Handlers.
Context `{!Crypto, !GossipCodec}.
Abbreviation M := (stM Node).

Definition message_id (m : message) : bytes := sha256_Sum256 (GPayload m).

Definition encodeMessage (msgType : byte) (data : bytes) : bytes := msgType :: data.

Definition set_clock (t : Z) (n : Node) : Node :=
  MkNode (messageBuffer n) t (broadcasts n) (HandleFunc n) (handed n) (node_state n).
Definition set_slot (i : nat) (r : receivedMessage) (n : Node) : Node :=
  MkNode (<[i := Some r]> (messageBuffer n)) (messageClock n) (broadcasts n) (HandleFunc n) (handed n) (node_state n).
Definition hand (m : message) (n : Node) : Node :=
  MkNode (messageBuffer n) (messageClock n) (broadcasts n) (HandleFunc n)
    (if HandleFunc n then handed n ++ [m] else handed n) (node_state n).
Definition QueueBroadcast (msg : bytes) (n : Node) : Node :=
  MkNode (messageBuffer n) (messageClock n) (broadcasts n ++ [msg]) (HandleFunc n) (handed n) (node_state n).

(** [len(n.messageBuffer)] *)
Definition room (n : Node) : Z := Z.of_nat (length (messageBuffer n)).

(** The part of [handleMessage] before the lock: the clock, and whether the message is too
    old. *)
Definition too_old (m : message) : M bool :=
  st_modify (λ n, set_clock (Witness (LTime m) (messageClock n)) n) ;;
  st_gets (λ n, bool_decide (messageClock n > room n ∧ LTime m < messageClock n - room n)).

(** The part under the lock: whether the message is new, which is then entered; a buffer
    without slots divides by zero. *)
Definition enter (m : message) : M bool := λ n,
  if decide (messageBuffer n = []) then (Panic, n) else
  let idx := Z.to_nat (LTime m mod room n) in
  match mjoin (messageBuffer n !! idx) with
  | Some seen =>
      if decide (seen_LTime seen = LTime m) then
        if decide (message_id m ∈ IDs seen) then (Ok false, n)
        else (Ok true, hand m (set_slot idx (Received (LTime m) (IDs seen ++ [message_id m])) n))
      else (Ok true, hand m (set_slot idx (Received (LTime m) [message_id m]) n))
  | None => (Ok true, hand m (set_slot idx (Received (LTime m) [message_id m]) n))
  end.

Definition handleMessage (m : message) : M bool :=
  old ← too_old m;
  if (old : bool) then mret false else enter m.

(** SendMessage is a method that needs to be called by the client to send messages. *)
Definition SendMessage (msgType : byte) (buf : bytes) : M unit :=
  t ← st_gets messageClock;
  let m := Msg t msgType buf in
  let msgData := encodeMessage msgType (cbor_message m) in
  handleMessage m ;;
  st_modify (QueueBroadcast msgData).

(** *** The callbacks *)

(** The error of the decoding is dropped. *)
Definition NotifyMsg (buf : bytes) : M unit :=
  match buf with
  | [] => mret tt
  | msgType :: data =>
      if decide (msgType = PayloadMessageType) then
        rebroadcast ← handleMessage (decode_message data).1;
        if (rebroadcast : bool) then st_modify (QueueBroadcast buf) else mret tt
      else mret tt
  end.

Definition LocalState (n : Node) : bytes := encodeMessage pullPushMessageType (cbor_clock (messageClock n)).

(** [buf[1:]] panics when nothing was sent. *)
Definition MergeRemoteState (buf : bytes) : M unit :=
  match buf with
  | [] => st_panic
  | _ :: data =>
      match decode_clock data with
      | None => mret tt
      | Some t => if decide (t > 0) then st_modify (λ n, set_clock (Witness (t - 1) (messageClock n)) n) else mret tt
      end
  end.

(** *** Joining and leaving *)

Definition State (n : Node) : nodeStatus := node_state n.
Definition set_status (s : nodeStatus) (n : Node) : Node :=
  MkNode (messageBuffer n) (messageClock n) (broadcasts n) (HandleFunc n) (handed n) s.

(** [joined] and [left] are the answers of the member list. *)
Definition Join (joined : res Z) : M Z := λ n,
  if decide (State n ≠ nodeAlive) then (err "node an't Join after Leave or Shutdown", n) else (joined, n).
Definition Leave (left : res unit) : M unit := λ n,
  if decide (node_state n = nodeLeave) then (err "Leave already in progress", n)
  else if decide (node_state n = nodeShutdown) then (err "Leave called after Shutdown", n)
  else (left, set_status nodeLeave n).

End Handlers.

(** ** The clock under concurrent calls *)

(** A call of [Witness]: before its load, between the load and the compare-and-swap, or
    returned. *)
Inductive caller := Load (v : Z) | Cas (v cur : Z) | Returned (v : Z).
Definition arg (t : caller) : Z := match t with Load v | Cas v _ | Returned v => v end.

(** The counter and the calls in progress on it. *)
Record shared := Shared { counter : Z; callers : list caller }.

(** What one call does at its next atomic step; it may find the counter changed, and then
    starts again. *)
Definition call_step (c : Z) (t : caller) : option (Z * caller) :=
  match t with
  | Load v => Some (c, if decide (v < c) then Returned v else Cas v c)
  | Cas v cur => if decide (c = cur) then Some (v +₆₄ 1, Returned v) else Some (c, Load v)
  | Returned _ => None
  end.

Inductive clock_step : shared → shared → Prop :=
  | step_caller c c' ts i t t' : ts !! i = Some t → call_step c t = Some (c', t') →
      clock_step (Shared c ts) (Shared c' (<[i := t']> ts)).
