(* ===== verification/GossipFacts.v ===== *)
(** What gossip promises: the ring of recent messages is as good as a set of all of them, as
    long as the clock does not wrap; what two threads can do to it; and the clock under
    concurrent calls. *)

From S2P Require Import Prelude Transaction Gossip.
From stdpp Require Import relations.
#[local] Open Scope Z_scope.

Section Facts.
Context `{!Crypto, !GossipCodec}.
Implicit Types (m : message) (n : Node) (r : receivedMessage).

(** ** The ring *)

(** A message is known by its time and the hash of its payload. *)
Definition key m : Z * bytes := (LTime m, message_id m).

(** Every slot holds a time that belongs there and was seen; a message that was handed over
    is in its slot, unless a later one took it. *)
Record orderly n : Prop := {
  ord_room : messageBuffer n ≠ [];
  ord_clock : 0 ≤ messageClock n ≤ MAXUINT64;
  ord_func : HandleFunc n = true;
  ord_slot i r : messageBuffer n !! i = Some (Some r) →
    0 ≤ seen_LTime r < messageClock n ∧ Z.of_nat i = seen_LTime r mod room n;
  ord_ids i r x : messageBuffer n !! i = Some (Some r) → x ∈ IDs r → (seen_LTime r, x) ∈ key <$> handed n;
  ord_handed k : k ∈ key <$> handed n → 0 ≤ k.1 ∧
    ∃ r, messageBuffer n !! Z.to_nat (k.1 mod room n) = Some (Some r) ∧
      (seen_LTime r = k.1 ∧ k.2 ∈ IDs r ∨ k.1 < seen_LTime r);
  ord_nodup : NoDup (key <$> handed n);
}.

(** Two times of one slot are a turn of the ring apart. *)
Lemma turn_apart (a b N : Z) : 0 < N → a mod N = b mod N → a < b → a + N ≤ b.
Proof.
  intros HN Hm Hlt. pose proof (Z.div_mod a N ltac:(lia)). pose proof (Z.div_mod b N ltac:(lia)).
  assert (a / N < b / N) by nia. nia.
Qed.

Lemma room_pos n : messageBuffer n ≠ [] → 0 < room n.
Proof. unfold room. destruct (messageBuffer n); [done|]. simpl. lia. Qed.

Lemma slot_lt n t : 0 < room n → (Z.to_nat (t mod room n) < length (messageBuffer n))%nat.
Proof. intros Hr. unfold room in *. pose proof (Z.mod_pos_bound t _ Hr). lia. Qed.

(** The slot of a message that is not too old never has a later time. *)
Lemma slot_not_later n m r : orderly n → 0 ≤ LTime m →
  ¬ (messageClock n > room n ∧ LTime m < messageClock n - room n) →
  messageBuffer n !! Z.to_nat (LTime m mod room n) = Some (Some r) → seen_LTime r ≤ LTime m.
Proof.
  intros Ho Ht0 Hold Hr. destruct (ord_slot n Ho _ _ Hr) as [Hs Hi]. pose proof (room_pos n (ord_room n Ho)) as Hpos.
  destruct (decide (seen_LTime r ≤ LTime m)) as [|Hlt]; [done|]. exfalso. apply Hold.
  pose proof (Z.mod_pos_bound (LTime m) _ Hpos) as Hb. rewrite Z2Nat.id in Hi by lia.
  pose proof (turn_apart _ _ _ Hpos Hi ltac:(lia)). lia.
Qed.

(** Whether a message was handed over can be read off its slot. *)
Lemma in_slot n m : orderly n → 0 ≤ LTime m →
  ¬ (messageClock n > room n ∧ LTime m < messageClock n - room n) →
  key m ∈ key <$> handed n ↔
  ∃ r, messageBuffer n !! Z.to_nat (LTime m mod room n) = Some (Some r) ∧
    seen_LTime r = LTime m ∧ message_id m ∈ IDs r.
Proof.
  intros Ho Ht0 Hold. split.
  - intros Hk. destruct (ord_handed n Ho _ Hk) as (_ & r & Hr & Hcase). exists r. split; [done|]. cbn in *.
    pose proof (slot_not_later n m r Ho Ht0 Hold Hr). destruct Hcase as [?|?]; [done|lia].
  - intros (r & Hr & Ht & Hid). pose proof (ord_ids n Ho _ _ _ Hr Hid) as Hk. by rewrite Ht in Hk.
Qed.

(** Entering [ids] with the message's own at its slot. *)
Lemma slot_entered n m ids : orderly n → 0 ≤ LTime m < messageClock n →
  ¬ (messageClock n > room n ∧ LTime m < messageClock n - room n) →
  key m ∉ key <$> handed n → message_id m ∈ ids →
  (∀ x, x ∈ ids → x ≠ message_id m → (LTime m, x) ∈ key <$> handed n) →
  (∀ r, messageBuffer n !! Z.to_nat (LTime m mod room n) = Some (Some r) → seen_LTime r = LTime m → ∀ x, x ∈ IDs r → x ∈ ids) →
  orderly (hand m (set_slot (Z.to_nat (LTime m mod room n)) (Received (LTime m) ids) n)).
Proof.
  intros Ho Ht Hold Hnew Hin Hids Hkeep. pose proof (room_pos n (ord_room n Ho)) as Hpos.
  pose proof (slot_lt n (LTime m) Hpos) as Hlt. pose proof (Z.mod_pos_bound (LTime m) _ Hpos) as Hb.
  pose proof Ho as [Hroom Hclock Hfunc Hslot Hidl Hhanded Hnodup].
  assert (room (hand m (set_slot (Z.to_nat (LTime m mod room n)) (Received (LTime m) ids) n)) = room n) as Hr.
  { unfold room. cbn. by rewrite length_insert. }
  constructor; rewrite ?Hr; cbn [hand set_slot messageBuffer messageClock HandleFunc handed]; rewrite ?Hfunc.
  - intros Hn. apply (f_equal length) in Hn. rewrite length_insert in Hn. by destruct (messageBuffer n).
  - done.
  - done.
  - intros i r Hi. apply list_lookup_insert_Some in Hi as [(<- & [= <-] & _)|(Hne & Hi)]; [|by apply Hslot].
    cbn. split; [done|]. by rewrite Z2Nat.id by lia.
  - intros i r x Hi Hx. rewrite fmap_app, elem_of_app.
    apply list_lookup_insert_Some in Hi as [(<- & [= <-] & _)|(Hne & Hi)]; [|left; by eapply Hidl].
    cbn in *. destruct (decide (x = message_id m)) as [->|Hx']; [right; by left|left; by apply Hids].
  - intros k. rewrite fmap_app, elem_of_app. intros [Hk|Hk].
    + destruct (Hhanded k Hk) as (Hk0 & r & Hr' & Hcase). split; [done|].
      destruct (decide (Z.to_nat (k.1 mod room n) = Z.to_nat (LTime m mod room n))) as [Heq|Hne].
      * rewrite Heq in *. eexists. rewrite list_lookup_insert_eq by done. split; [done|]. cbn.
        pose proof (slot_not_later n m r Ho ltac:(lia) Hold Hr') as Hle.
        destruct Hcase as [[Hs Hi]|Hs]; [|right; lia].
        destruct (decide (seen_LTime r = LTime m)) as [He|He]; [|right; lia].
        left. split; [congruence|]. by eapply Hkeep.
      * exists r. by rewrite list_lookup_insert_ne.
    + cbn in Hk. apply list_elem_of_singleton in Hk as ->. cbn. split; [lia|]. eexists.
      rewrite list_lookup_insert_eq by done. split; [done|]. by left.
  - rewrite fmap_app. apply NoDup_app. split_and!; [done| |by apply NoDup_singleton].
    intros k Hk Hk2. cbn in Hk2. apply list_elem_of_singleton in Hk2 as ->. done.
Qed.

Lemma enter_run n m : orderly n → 0 ≤ LTime m < messageClock n →
  ¬ (messageClock n > room n ∧ LTime m < messageClock n - room n) →
  ∃ n', enter m n = (Ok (bool_decide (key m ∉ key <$> handed n)), n') ∧ orderly n' ∧
    room n' = room n ∧ messageClock n' = messageClock n ∧
    handed n' = handed n ++ (if decide (key m ∈ key <$> handed n) then [] else [m]).
Proof.
  intros Ho Ht Hold. pose proof (in_slot n m Ho ltac:(lia) Hold) as Hin.
  unfold enter. rewrite decide_False by apply (ord_room n Ho).
  set (i := Z.to_nat (LTime m mod room n)) in *.
  assert (∀ ids, messageBuffer (hand m (set_slot i (Received (LTime m) ids) n)) =
    <[i := Some (Received (LTime m) ids)]> (messageBuffer n)) as Hbuf by done.
  assert (∀ ids, room (hand m (set_slot i (Received (LTime m) ids) n)) = room n) as Hroom.
  { intros. unfold room. by rewrite Hbuf, length_insert. }
  assert (∀ ids, handed (hand m (set_slot i (Received (LTime m) ids) n)) = handed n ++ [m]) as Hh.
  { intros. cbn. by rewrite (ord_func n Ho). }
  destruct (messageBuffer n !! i) as [[r|]|] eqn:Hi; cbn [mjoin option_join].
  - case_decide as Hs.
    + case_decide as Hid.
      * exists n. assert (key m ∈ key <$> handed n) as Hk by (apply Hin; by exists r).
        rewrite bool_decide_eq_false_2 by auto. rewrite decide_True, app_nil_r by done. done.
      * assert (key m ∉ key <$> handed n) as Hk.
        { intros (r' & [= <-] & _ & ?)%Hin. done. }
        rewrite bool_decide_eq_true_2, (decide_False (P := key m ∈ _)) by done.
        eexists. split; [done|]. split; [|by rewrite Hroom, Hh].
        apply slot_entered; try done; [set_solver| |].
        -- intros x Hx Hne. apply elem_of_app in Hx as [Hx|Hx]; [|set_solver].
           rewrite <- Hs. by eapply ord_ids.
        -- intros r' Hr' _ x Hx. fold i in Hr'. rewrite Hi in Hr'. injection Hr' as <-. set_solver.
    + assert (key m ∉ key <$> handed n) as Hk.
      { intros (r' & [= <-] & ? & _)%Hin. done. }
      rewrite bool_decide_eq_true_2, (decide_False (P := key m ∈ _)) by done.
      eexists. split; [done|]. split; [|by rewrite Hroom, Hh]. apply slot_entered; try done; [set_solver|set_solver|].
      intros r' Hr' Hs'. fold i in Hr'. rewrite Hi in Hr'. by injection Hr' as <-.
  - assert (key m ∉ key <$> handed n) as Hk by (by intros (r' & ? & _)%Hin).
    rewrite bool_decide_eq_true_2, (decide_False (P := key m ∈ _)) by done.
    eexists. split; [done|]. split; [|by rewrite Hroom, Hh]. apply slot_entered; try done; [set_solver|set_solver|].
    intros r' Hr'. fold i in Hr'. by rewrite Hi in Hr'.
  - exfalso. apply lookup_ge_None in Hi. pose proof (slot_lt n (LTime m) (room_pos n (ord_room n Ho))). unfold i in Hi. lia.
Qed.

(** *** The clock *)

Lemma Witness_spec v cur : 0 ≤ v < MAXUINT64 → Witness v cur = Z.max cur (v + 1).
Proof. intros Hv. unfold Witness. case_decide; [lia|]. unfold add64. rewrite u64_small by (unfold is_u64; lia). lia. Qed.

Lemma set_clock_orderly n t : orderly n → messageClock n ≤ t ≤ MAXUINT64 → orderly (set_clock t n).
Proof.
  intros [H1 H2 H3 H4 H5 H6 H7] Ht. constructor; try done.
  - cbn. lia.
  - intros i r Hi. destruct (H4 i r Hi) as [Hs Hm]. split; [cbn; lia|done].
Qed.

(** *** The specification *)

(** A clock, and every message that was handed over. *)
Record spec := Spec { sp_clock : Z; sp_handed : list message }.
Definition view n : spec := Spec (messageClock n) (handed n).

(** A message is new unless it is more than [N] behind the clock or was handed over. *)
Definition spec_handle (N : Z) m (s : spec) : bool * spec :=
  let c := Z.max (sp_clock s) (LTime m + 1) in
  if decide ((c > N ∧ LTime m < c - N) ∨ key m ∈ key <$> sp_handed s) then (false, Spec c (sp_handed s))
  else (true, Spec c (sp_handed s ++ [m])).

Lemma handle_run n m : orderly n → 0 ≤ LTime m < MAXUINT64 →
  ∃ b n', handleMessage m n = (Ok b, n') ∧ orderly n' ∧ room n' = room n ∧
    spec_handle (room n) m (view n) = (b, view n').
Proof.
  intros Ho Ht. unfold handleMessage.
  set (c := Z.max (messageClock n) (LTime m + 1)). set (n1 := set_clock c n).
  assert (orderly n1) as Ho1 by (apply set_clock_orderly; [done|]; pose proof (ord_clock n Ho); lia).
  assert (too_old m n = (Ok (bool_decide (c > room n ∧ LTime m < c - room n)), n1)) as Hold.
  { unfold too_old, mbind, stM_bind, st_modify, st_gets. by rewrite (Witness_spec (LTime m)) by done. }
  rewrite (st_bind_eq _ _ _ _ _ Hold). unfold spec_handle. cbn [sp_clock sp_handed view]. fold c.
  destruct (decide (c > room n ∧ LTime m < c - room n)) as [Hy|Hn].
  - rewrite bool_decide_eq_true_2 by done. rewrite decide_True by (by left). by exists false, n1.
  - rewrite bool_decide_eq_false_2 by done.
    destruct (enter_run n1 m Ho1) as (n' & Hrun & Ho' & Hr' & Hc' & Hh'); [cbn; lia|done|].
    change (handed n1) with (handed n) in *. change (room n1) with (room n) in *. change (messageClock n1) with c in *.
    exists (bool_decide (key m ∉ key <$> handed n)), n'. split; [done|]. split; [done|]. split; [done|].
    unfold view. rewrite Hc', Hh'. destruct (decide (key m ∈ key <$> handed n)) as [Hk|Hk].
    + rewrite decide_True by (by right). rewrite bool_decide_eq_false_2 by auto. by rewrite app_nil_r.
    + rewrite decide_False by tauto. by rewrite bool_decide_eq_true_2.
Qed.

(** *** What a node goes through *)

Inductive event := Send (msgType : byte) (buf : bytes) | Notify (buf : bytes) | Merge (buf : bytes).

Definition run_event (e : event) : stM Node unit :=
  match e with
  | Send ty buf => SendMessage ty buf
  | Notify buf => NotifyMsg buf
  | Merge buf => MergeRemoteState buf
  end.

(** The time an event brings is short of the last one that is a 64-bit number. *)
Definition in_time (e : event) n : Prop :=
  match e with
  | Send _ _ => messageClock n < MAXUINT64
  | Notify (_ :: data) => 0 ≤ LTime (decode_message data).1 < MAXUINT64
  | Merge (_ :: data) => ∀ t, decode_clock data = Some t → is_u64 t
  | _ => True
  end.

Inductive node_step n : Node → Prop :=
  | step_event e n' : in_time e n → run_event e n = (Ok tt, n') → node_step n n'.

Lemma QueueBroadcast_orderly msg n : orderly n → orderly (QueueBroadcast msg n).
Proof. by intros [H1 H2 H3 H4 H5 H6 H7]. Qed.

Lemma step_orderly n n' : node_step n n' → orderly n → orderly n' ∧ room n' = room n.
Proof.
  intros [e n1 Ht Hrun] Ho. destruct e as [ty buf|buf|buf]; cbn [run_event in_time] in *.
  - unfold SendMessage in Hrun.
    destruct (handle_run n (Msg (messageClock n) ty buf) Ho) as (b & n2 & Hh & Ho2 & Hr2 & _).
    { cbn. pose proof (ord_clock n Ho). lia. }
    assert ((t ← st_gets messageClock; let m := Msg t ty buf in let msgData := encodeMessage ty (cbor_message m) in
             handleMessage m ;; st_modify (QueueBroadcast msgData)) n = (Ok tt, n1)) as Hrun' by exact Hrun.
    unfold mbind, stM_bind, st_gets in Hrun'. cbn beta iota zeta in Hrun'. rewrite Hh in Hrun'.
    injection Hrun' as <-. by split; [apply QueueBroadcast_orderly|].
  - destruct buf as [|ty data]; [by injection Hrun as <-|]. cbn [NotifyMsg] in Hrun.
    case_decide; [|by injection Hrun as <-].
    destruct (handle_run n (decode_message data).1 Ho Ht) as (b & n2 & Hh & Ho2 & Hr2 & _).
    rewrite (st_bind_eq _ _ _ _ _ Hh) in Hrun. destruct b; injection Hrun as <-; [|done].
    by split; [apply QueueBroadcast_orderly|].
  - destruct buf as [|ty data]; [done|]. cbn [MergeRemoteState] in Hrun.
    destruct (decode_clock data) as [t|] eqn:E; [|by injection Hrun as <-]. specialize (Ht t eq_refl).
    case_decide; [|by injection Hrun as <-]. injection Hrun as <-. split; [|done].
    rewrite Witness_spec by (unfold is_u64 in *; lia). apply set_clock_orderly; [done|].
    pose proof (ord_clock n Ho). unfold is_u64 in *. lia.
Qed.

Lemma steps_orderly n n' : rtc node_step n n' → orderly n → orderly n' ∧ room n' = room n.
Proof.
  induction 1 as [|n n1 n2 Hs _ IH]; [done|]. intros Ho. destruct (step_orderly _ _ Hs Ho) as [Ho1 Hr1].
  destruct (IH Ho1) as [? ->]. done.
Qed.

Lemma Create_orderly conf started n : Create conf started = Ok n → 0 < MessageBuffer conf →
  orderly (RegisterHandleFunc n) ∧ room (RegisterHandleFunc n) = MessageBuffer conf.
Proof.
  unfold Create. intros HC Hm. repeat (case_decide; [done|]). apply bind_Ok in HC as ([] & _ & [= <-]).
  assert (room (RegisterHandleFunc (MkNode (replicate (Z.to_nat (MessageBuffer conf)) None) (Increment 0) [] false [] nodeAlive))
    = MessageBuffer conf) as Hr by (unfold room; cbn; rewrite length_replicate; lia).
  split; [|done]. constructor; rewrite ?Hr; cbn; try done.
  - intros Hn. apply (f_equal length) in Hn. rewrite length_replicate in Hn. simpl in Hn. lia.
  - intros i r Hi. apply lookup_replicate in Hi as [? _]. done.
  - intros i r x Hi. apply lookup_replicate in Hi as [? _]. done.
  - intros k Hk. by apply not_elem_of_nil in Hk.
  - constructor.
Qed.

(** C33: the ring of the last messages is as good as a set of all of them.  In every node made
    by [Create] that has had its function registered, and whatever it has sent, received and
    merged since, handling a message moves the clock past its time and takes the
    message exactly when it is not more than the size of the ring behind the clock and was
    not taken before; no message is handed over twice.  No time may be the last 64-bit
    number. *)
Theorem ring_refines conf started n0 n m : Create conf started = Ok n0 → 0 < MessageBuffer conf →
  rtc node_step (RegisterHandleFunc n0) n → 0 ≤ LTime m < MAXUINT64 →
  NoDup (key <$> handed n) ∧
  ∃ b n', handleMessage m n = (Ok b, n') ∧ spec_handle (MessageBuffer conf) m (view n) = (b, view n').
Proof.
  intros HC Hm Hsteps Ht. destruct (Create_orderly _ _ _ HC Hm) as [Ho Hr].
  destruct (steps_orderly _ _ Hsteps Ho) as [Ho' Hr']. split; [apply (ord_nodup n Ho')|].
  destruct (handle_run n m Ho' Ht) as (b & n' & Hh & _ & _ & Hs). exists b, n'. by rewrite <- Hr, <- Hr'.
Qed.

(** *** Two threads *)

(** [handleMessage] takes its lock only after it has looked at the clock, so that the calls of
    several threads interleave: the messages that were looked at and not entered yet are
    pending. *)
Inductive thread_step : Node * list message → Node * list message → Prop :=
  | look_new m n n' ms : too_old m n = (Ok false, n') → thread_step (n, ms) (n', m :: ms)
  | look_old m n n' ms : too_old m n = (Ok true, n') → thread_step (n, ms) (n', ms)
  | enters m n n' ms i b : ms !! i = Some m → enter m n = (Ok b, n') → thread_step (n, ms) (n', delete i ms).

Lemma look_run n m : 0 ≤ LTime m < MAXUINT64 →
  messageClock n ≤ room n ∨ messageClock n - room n ≤ LTime m → LTime m + 1 ≤ room n ∨ LTime m + 1 - room n ≤ LTime m →
  too_old m n = (Ok false, set_clock (Z.max (messageClock n) (LTime m + 1)) n).
Proof.
  intros Ht H1 H2. unfold too_old, mbind, stM_bind, st_modify, st_gets. rewrite (Witness_spec (LTime m)) by done.
  rewrite bool_decide_eq_false_2; [done|]. unfold room in *. cbn. lia.
Qed.

Lemma enter_first n m o rest : messageBuffer n = o :: rest → LTime m mod room n = 0 → HandleFunc n = true →
  (∀ r, o = Some r → seen_LTime r ≠ LTime m) →
  enter m n = (Ok true, MkNode (Some (Received (LTime m) [message_id m]) :: rest) (messageClock n) (broadcasts n) true
                          (handed n ++ [m]) (node_state n)).
Proof.
  intros Hb Hm Hf Ho. unfold enter. destruct (decide _) as [E|_]; [by rewrite Hb in E|].
  rewrite Hm. change (Z.to_nat 0) with 0%nat. unfold hand, set_slot. rewrite Hb.
  change (mjoin ((o :: rest) !! 0%nat)) with o. destruct o as [r|]; [|by rewrite Hf].
  destruct (decide (seen_LTime r = LTime m)) as [E|_]; [by apply Ho in E|]. by rewrite Hf.
Qed.

(** Because the clock is looked at before the lock is taken, a message can be handed over
    twice: in every new node, a message whose time is the size of the ring, delivered
    twice while the call for a message of time 0 is between its look at the clock and
    the lock, is handed over both times. *)
Theorem race_redelivers conf started n0 m1 m2 : Create conf started = Ok n0 → 0 < MessageBuffer conf < MAXUINT64 →
  LTime m1 = 0 → LTime m2 = MessageBuffer conf →
  ∃ n, rtc thread_step (RegisterHandleFunc n0, []) (n, []) ∧ handed n = [m2; m1; m2].
Proof.
  intros HC Hm H1 H2. unfold Create in HC. repeat (case_decide; [done|]). apply bind_Ok in HC as ([] & _ & [= <-]).
  set (N := MessageBuffer conf) in *. destruct (Z.to_nat N) as [|k] eqn:Hk; [lia|].
  set (rest := replicate k (@None receivedMessage)). set (mk a c h := MkNode (a :: rest) c [] true h nodeAlive).
  assert (∀ a c h, room (mk a c h) = N) as Hroom.
  { intros. unfold room, mk, rest. cbn [messageBuffer length]. rewrite length_replicate. lia. }
  assert (∀ a c h m, 0 ≤ LTime m ≤ N → c ≤ N + 1 → N ≤ LTime m ∨ c ≤ N ∧ LTime m < N →
    too_old m (mk a c h) = (Ok false, mk a (Z.max c (LTime m + 1)) h)) as Hlook.
  { intros a c h m Ht Hc Hw. apply (look_run (mk a c h)); rewrite ?Hroom; cbn; lia. }
  assert (∀ a c h m, LTime m mod N = 0 → (∀ r, a = Some r → seen_LTime r ≠ LTime m) →
    enter m (mk a c h) = (Ok true, mk (Some (Received (LTime m) [message_id m])) c (h ++ [m]))) as Henter.
  { intros a c h m Hmod Ha. apply (enter_first (mk a c h) m a rest); try done. by rewrite Hroom. }
  assert (LTime m2 mod N = 0) as Hmod2 by (rewrite H2; apply Z_mod_same_full).
  exists (mk (Some (Received (LTime m2) [message_id m2])) (N + 1) [m2; m1; m2]). split; [|done].
  change (RegisterHandleFunc _) with (mk None 1 []).
  eapply rtc_l; [eapply look_new, (Hlook None 1 [] m1); lia|].
  eapply rtc_l; [eapply look_new, (Hlook None _ [] m2); lia|].
  eapply rtc_l; [eapply (enters m2 _ _ _ 0); [done|]; by apply Henter|]. cbn [delete list_delete].
  eapply rtc_l; [eapply (enters m1 _ _ _ 0); [done|]; apply Henter; [by rewrite H1|]; intros r [= <-]; cbn; lia|].
  cbn [delete list_delete].
  eapply rtc_l; [eapply look_new, (Hlook _ _ _ m2); lia|].
  eapply rtc_l; [eapply (enters m2 _ _ _ 0); [done|]; apply Henter; [done|]; intros r [= <-]; cbn; lia|].
  cbn [delete list_delete app]. replace (Z.max _ (LTime m2 + 1)) with (N + 1) by lia. apply rtc_refl.
Qed.

End Facts.

(** ** The clock under concurrent calls *)

(** Where the counter has to get: one past the largest of the arguments, or where it was. *)
Definition target (c0 : Z) (vs : list Z) : Z := foldr (λ v m, Z.max m (v + 1)) c0 vs.

Lemma target_spec c0 vs c : c = target c0 vs ↔
  c0 ≤ c ∧ (∀ v, v ∈ vs → v + 1 ≤ c) ∧ (c = c0 ∨ ∃ v, v ∈ vs ∧ c = v + 1).
Proof.
  revert c. induction vs as [|w vs IH]; intros c; cbn [target foldr].
  - split; [intros ->|]; [|intros (?&_&[?|(v & Hv & _)]); [done|by apply not_elem_of_nil in Hv]].
    split_and!; [done| |by left]. intros v Hv. by apply not_elem_of_nil in Hv.
  - fold (target c0 vs). destruct (proj1 (IH (target c0 vs)) eq_refl) as (H1 & H2 & H3). split.
    + intros ->. split_and!; [lia| |].
      * intros v [->|Hv]%elem_of_cons; [lia|]. specialize (H2 v Hv). lia.
      * destruct (decide (target c0 vs ≤ w + 1)).
        -- right. exists w. split; [by left|lia].
        -- destruct H3 as [Heq|(v & Hv & Hc)]; [left; lia|right; exists v; split; [by right|lia]].
    + intros (Hc & Hvs & Hcase). pose proof (Hvs w ltac:(by left)) as Hw.
      assert (target c0 vs ≤ c). { destruct H3 as [->|(v & Hv & ->)]; [done|]. apply Hvs. by right. }
      destruct Hcase as [->|(v & [->|Hv]%elem_of_cons & ->)]; [lia|lia|]. specialize (H2 v Hv). lia.
Qed.

Lemma target_perm c0 vs vs' : vs ≡ₚ vs' → target c0 vs = target c0 vs'.
Proof. intros Hp. apply target_spec. destruct (proj1 (target_spec c0 vs _) eq_refl) as (?&?&?). by setoid_rewrite <- Hp. Qed.

(** One call after the other. *)
Lemma Witness_fold c0 vs : Forall (λ v, 0 ≤ v < MAXUINT64) vs → foldr Witness c0 vs = target c0 vs.
Proof.
  induction 1 as [|v vs Hv _ IH]; [done|]. cbn [foldr target]. rewrite IH, Witness_spec by done. done.
Qed.

(** The counter is where the calls that returned have put it. *)
Record witnessed (c0 : Z) (s : shared) : Prop := {
  wit_start : c0 ≤ counter s;
  wit_args : Forall (λ t, 0 ≤ arg t < MAXUINT64) (callers s);
  wit_done v : Returned v ∈ callers s → v < counter s;
  wit_cas v cur : Cas v cur ∈ callers s → cur ≤ v;
  wit_from : counter s = c0 ∨ ∃ v, Returned v ∈ callers s ∧ counter s = v + 1;
}.

Lemma elem_of_insert_inv {A} (l : list A) i (x y : A) : y ∈ <[i:=x]> l → y = x ∨ y ∈ l.
Proof.
  intros (j & Hj)%list_elem_of_lookup. apply list_lookup_insert_Some in Hj as [(_ & -> & _)|(_ & Hj)]; [by left|].
  right. apply list_elem_of_lookup. by exists j.
Qed.

(** A caller that returned stays where it is. *)
Lemma returned_stays (l : list caller) i t t' v : l !! i = Some t → (∀ v, t ≠ Returned v) →
  Returned v ∈ l → Returned v ∈ <[i:=t']> l.
Proof.
  intros Hi Ht (j & Hj)%list_elem_of_lookup. apply list_elem_of_lookup. exists j.
  rewrite list_lookup_insert_ne; [done|]. intros ->. rewrite Hi in Hj. injection Hj as ->. by apply (Ht v).
Qed.

Lemma inserted (l : list caller) i t t' : l !! i = Some t → t' ∈ <[i:=t']> l.
Proof. intros Hi. apply list_elem_of_lookup. exists i. apply list_lookup_insert_eq. by apply lookup_lt_Some in Hi. Qed.

Lemma clock_step_witnessed c0 s s' : clock_step s s' → witnessed c0 s → witnessed c0 s' ∧ counter s ≤ counter s'.
Proof.
  intros [c c' ts i t t' Hi Hs] [H1 H2 H3 H4 H5]. cbn [counter callers] in *.
  assert (t ∈ ts) as Ht by (apply list_elem_of_lookup; by exists i).
  pose proof (proj1 (Forall_forall _ _) H2 t Ht) as Harg. pose proof (inserted ts i t t' Hi) as Hin.
  assert (arg t' = arg t) as Ha by (destruct t; simpl in Hs; repeat case_decide; by simplify_eq).
  assert (Forall (λ t, 0 ≤ arg t < MAXUINT64) (<[i:=t']> ts)) as H2' by (apply Forall_insert; [done|by rewrite Ha]).
  assert (∀ v, t ≠ Returned v) as Hnr by (by intros v ->).
  assert (∀ v, Returned v ∈ ts → Returned v ∈ <[i:=t']> ts) as Hstay by (intros; by eapply returned_stays).
  assert (c ≤ c' ∧ (c' = c ∨ ∃ v, t' = Returned v ∧ c' = v + 1) ∧ (∀ v, t' = Returned v → v < c') ∧
          (∀ v cur, t' = Cas v cur → cur ≤ v)) as (Hle & Hfrom & Hret & Hcas).
  { destruct t as [v|v cur|v]; simpl in Hs, Harg; [| |done].
    - case_decide; injection Hs as <- <-; split_and!; try done; try (by left); intros ? ? || intros ?; naive_solver lia.
    - case_decide as Hc; injection Hs as <- <-; [|split_and!; try done; by left].
      subst cur. pose proof (H4 v c Ht). unfold add64. rewrite u64_small by (unfold is_u64; lia).
      split_and!; [lia|right; by exists v|naive_solver lia|done]. }
  split; [|done]. constructor; cbn [counter callers]; [lia|done| | |].
  - intros v Hv. apply elem_of_insert_inv in Hv as [Hv|Hv]; [by apply Hret|]. specialize (H3 v Hv). lia.
  - intros v cur Hv. apply elem_of_insert_inv in Hv as [Hv|Hv]; [by apply Hcas|by apply H4].
  - destruct Hfrom as [->|(v & -> & ->)]; [|by right; exists v].
    destruct H5 as [?|(v & Hv & ?)]; [by left|]. right. exists v. auto.
Qed.

(** *** Progress *)

(** What is left to do of a call, and of all: a compare-and-swap that will fail is the
    farthest from the end, and every one that succeeds may make all the others fail. *)
Definition weight (c : Z) (t : caller) : nat :=
  match t with Returned _ => 0 | Cas _ cur => if decide (c = cur) then 1 else 3 | Load _ => 2 end.
Definition live (t : caller) : nat := match t with Returned _ => 0 | _ => 1 end.
Definition steps_left (s : shared) : nat :=
  sum_list_with live (callers s) * (3 * length (callers s) + 1) + sum_list_with (weight (counter s)) (callers s).

Lemma sum_insert (f : caller → nat) l i t t' : l !! i = Some t →
  (sum_list_with f (<[i:=t']> l) + f t = sum_list_with f l + f t')%nat.
Proof.
  revert i. induction l as [|x l IH]; intros [|i] Hi; [done..| |]; simpl in *.
  - injection Hi as ->. lia.
  - specialize (IH i Hi). lia.
Qed.

Lemma sum_loads (f : caller → nat) k vs : (∀ v, f (Load v) = k) → sum_list_with f (Load <$> vs) = (k * length vs)%nat.
Proof. intros Hf. induction vs as [|v vs IH]; [simpl; lia|]. rewrite fmap_cons. cbn [sum_list_with length]. rewrite Hf, IH. lia. Qed.

Lemma sum_weight_le c l : (sum_list_with (weight c) l ≤ 3 * length l)%nat.
Proof.
  induction l as [|x l IH]; cbn; [lia|]. assert (weight c x ≤ 3)%nat by (destruct x; simpl; repeat case_decide; lia). lia.
Qed.

Lemma clock_step_less s s' : clock_step s s' → (steps_left s' < steps_left s)%nat.
Proof.
  intros [c c' ts i t t' Hi Hs]. unfold steps_left. cbn [counter callers]. rewrite length_insert.
  pose proof (sum_insert live ts i t t' Hi) as Hlive. pose proof (sum_weight_le c' (<[i:=t']> ts)) as Hmax.
  rewrite length_insert in Hmax. pose proof (sum_insert (weight c) ts i t t' Hi) as Hw.
  destruct (decide (live t' = live t)) as [Hl|Hl].
  - assert (c' = c ∧ (weight c t' < weight c t)%nat) as [-> Hlt].
    { destruct t as [v|v cur|v]; simpl in Hs; [| |done]; case_decide; injection Hs as <- <-; simpl in *; try done.
      - rewrite decide_True by done. split; [done|lia].
      - rewrite decide_False by done. split; [done|lia]. }
    rewrite Hl in Hlive. assert (sum_list_with live (<[i:=t']> ts) = sum_list_with live ts) as -> by lia. lia.
  - assert (live t = 1%nat ∧ live t' = 0%nat) as [Ht Ht'] by (destruct t, t'; simpl in *; try done; by simplify_eq).
    rewrite Ht, Ht' in Hlive. assert (sum_list_with live ts = S (sum_list_with live (<[i:=t']> ts))) as -> by lia. lia.
Qed.

Lemma witness_interleaved c0 vs s k : 0 ≤ c0 ≤ MAXUINT64 → Forall (λ v, 0 ≤ v < MAXUINT64) vs →
  nsteps clock_step k (Shared c0 (Load <$> vs)) s →
  (k ≤ length vs * (3 * length vs + 3))%nat ∧ witnessed c0 s ∧ arg <$> callers s = vs.
Proof.
  intros Hc Hvs Hsteps. set (s0 := Shared c0 (Load <$> vs)) in *.
  assert (witnessed c0 s0) as Hw.
  { constructor; cbn; [lia| | | |by left].
    - apply Forall_fmap. by eapply Forall_impl.
    - intros v (w & ? & _)%list_elem_of_fmap. done.
    - intros v cur (w & ? & _)%list_elem_of_fmap. done. }
  assert (arg <$> callers s0 = vs) as Ha by (cbn; rewrite <- list_fmap_compose; apply list_fmap_id).
  assert (steps_left s0 = length vs * (3 * length vs + 3))%nat as Hleft.
  { unfold steps_left, s0. cbn [counter callers]. rewrite length_fmap.
    rewrite (sum_loads live 1), (sum_loads (weight c0) 2) by done. lia. }
  rewrite <- Hleft. clearbody s0. clear Hleft Hvs.
  induction Hsteps as [|k s0 s1 s2 Hs _ IH]; [split_and!; [lia|done..]|].
  destruct (clock_step_witnessed c0 _ _ Hs Hw) as [Hw1 _]. pose proof (clock_step_less _ _ Hs) as Hless.
  destruct IH as (? & ? & ?); [done| |by split_and!; [lia|..]].
  destruct Hs as [c c' ts i t t' Hi Hst]. cbn [callers] in *. rewrite <- Ha, list_fmap_insert.
  apply list_insert_id. rewrite list_lookup_fmap, Hi. simpl. f_equal.
  destruct t; simpl in Hst; repeat case_decide; by simplify_eq.
Qed.

(** C34: any number of threads may call [Witness] on one clock at the same time: however their
    steps interleave, the calls together take at most 3 n (n + 1) steps, a call that
    has returned has left the clock past its argument, and when none can go on, all have
    returned and the clock is what it is after the same calls one after another, in any order. *)
Theorem Witness_concurrent (c0 : Z) (vs : list Z) (s : shared) (k : nat) :
  0 ≤ c0 ≤ MAXUINT64 → Forall (λ v, 0 ≤ v < MAXUINT64) vs →
  nsteps clock_step k (Shared c0 (Load <$> vs)) s →
  (k ≤ 3 * (length vs * (length vs + 1)))%nat ∧
  (∀ v, Returned v ∈ callers s → v < counter s) ∧
  ((∀ s', ¬ clock_step s s') → callers s = Returned <$> vs ∧ ∀ vs', vs' ≡ₚ vs → counter s = foldr Witness c0 vs').
Proof.
  intros Hc Hvs Hsteps. destruct (witness_interleaved _ _ _ _ Hc Hvs Hsteps) as (Hk & Hw & Ha).
  split_and!; [lia|apply (wit_done c0 s Hw)|]. intros Hend.
  assert (∀ t, t ∈ callers s → t = Returned (arg t)) as Hret.
  { intros t (i & Hi)%list_elem_of_lookup. destruct s as [c ts]. cbn in *.
    destruct (call_step c t) as [[c' t']|] eqn:E; [by destruct (Hend _ (step_caller c c' ts i t t' Hi E))|].
    by destruct t; simpl in E; repeat case_decide. }
  assert (callers s = Returned <$> vs) as Hcs.
  { rewrite <- Ha, <- list_fmap_compose. symmetry. apply list_eq_Forall2, Forall2_fmap_l, Forall_Forall2_diag, Forall_forall.
    intros t Ht. symmetry. by apply Hret. }
  split; [done|]. intros vs' Hp. rewrite Witness_fold by (by rewrite Hp). rewrite (target_perm c0 _ _ Hp).
  apply target_spec. destruct Hw as [H1 _ H3 _ H5]. rewrite Hcs in *. split_and!; [done| |].
  - intros v Hv. pose proof (H3 v ltac:(apply list_elem_of_fmap; by exists v)). lia.
  - destruct H5 as [?|(v & (w & [= ->] & Hv)%list_elem_of_fmap & ?)]; [by left|right; by exists w].
Qed.

(** ** Concrete nodes *)

Module GossipSample.
Import CryptoInstance.

(** The time is the first byte of the data. *)
#[local] Instance codec : GossipCodec := {
  cbor_message m := byte.of_Z (LTime m) :: GPayload m;
  cbor_clock t := [byte.of_Z t];
  decode_message d := match d with [] => (Msg 0 Byte.x00 [], false) | c :: p => (Msg (Z.of_N (Byte.to_N c)) Byte.x00 p, true) end;
  decode_clock d := match d with [] => None | c :: _ => Some (Z.of_N (Byte.to_N c)) end;
}.

Definition conf : Config := MkConfig [Byte.x6e] [Byte.x61] true true 2.
Definition n0 : Node := MkNode (replicate 2 None) 1 [] false [] nodeAlive.
Definition early : message := Msg 0 Byte.x00 [Byte.x0a].
Definition later : message := Msg 2 Byte.x00 [Byte.x0b].
Definition told : bytes := [Byte.x00; Byte.x02; Byte.x0b].

Lemma created : Create conf (Ok tt) = Ok n0.
Proof. reflexivity. Qed.

Definition n1 : Node := (NotifyMsg told (RegisterHandleFunc n0)).2.
Lemma n1_reached : rtc node_step (RegisterHandleFunc n0) n1.
Proof.
  apply rtc_once. apply (step_event _ (Notify told)); [vm_compute; split; [discriminate|reflexivity]|].
  vm_compute. reflexivity.
Qed.

(** The last 64-bit time sets the clock to 0: everything is taken again. *)
Lemma clock_wraps : Witness MAXUINT64 5 = 0.
Proof. reflexivity. Qed.
Definition last_time : message := Msg MAXUINT64 Byte.x00 [].
Lemma taken_twice :
  (LTime <$> handed ((handleMessage later ;; handleMessage (Msg 4 Byte.x00 []) ;; handleMessage last_time ;;
    handleMessage later) (RegisterHandleFunc n0)).2) = [2; 4; MAXUINT64; 2].
Proof. vm_compute. reflexivity. Qed.

(** A node that registers nothing is handed nothing, whatever its configuration says. *)
Lemma nothing_handed : handed (handleMessage later n0).2 = [].
Proof. vm_compute. reflexivity. Qed.

(** Two calls at once on a clock at 1: the second loses the race and tries again. *)
Definition ended : shared := Shared 6 [Returned 3; Returned 5].
Lemma raced : nsteps clock_step 6 (Shared 1 [Load 3; Load 5]) ended.
Proof.
  eapply nsteps_l; [by apply (step_caller 1 1 _ 0 (Load 3))|]. eapply nsteps_l; [by apply (step_caller 1 1 _ 1 (Load 5))|].
  eapply nsteps_l; [by apply (step_caller 1 4 _ 0 (Cas 3 1))|]. eapply nsteps_l; [by apply (step_caller 4 4 _ 1 (Cas 5 1))|].
  eapply nsteps_l; [by apply (step_caller 4 4 _ 1 (Load 5))|]. eapply nsteps_l; [by apply (step_caller 4 6 _ 1 (Cas 5 4))|].
  apply nsteps_O.
Qed.

End GossipSample.

#[local] Existing Instance GossipSample.codec.

Lemma ring_refines_witness :
  ∃ b n', handleMessage GossipSample.later GossipSample.n1 = (Ok b, n') ∧
    spec_handle 2 GossipSample.later (view GossipSample.n1) = (b, view n') ∧ b = false.
Proof.
  destruct (ring_refines GossipSample.conf (Ok tt) GossipSample.n0 GossipSample.n1 GossipSample.later
    GossipSample.created ltac:(reflexivity) GossipSample.n1_reached ltac:(split; [discriminate|reflexivity]))
    as (_ & b & n' & H1 & H2).
  exists b, n'. split; [exact H1|]. split; [exact H2|].
  assert ((handleMessage GossipSample.later GossipSample.n1).1 = Ok false) as H3 by (vm_compute; reflexivity).
  rewrite H1 in H3. by injection H3.
Defined.

Lemma race_redelivers_witness :
  ∃ n, rtc thread_step (RegisterHandleFunc GossipSample.n0, []) (n, []) ∧
    handed n = [GossipSample.later; GossipSample.early; GossipSample.later].
Proof.
  exact (race_redelivers GossipSample.conf (Ok tt) GossipSample.n0 GossipSample.early GossipSample.later
    GossipSample.created ltac:(split; reflexivity) eq_refl eq_refl).
Defined.

Lemma Witness_concurrent_witness :
  callers GossipSample.ended = Returned <$> [3; 5] ∧ counter GossipSample.ended = foldr Witness 1 [3; 5].
Proof.
  destruct (Witness_concurrent 1 [3; 5] GossipSample.ended 6) as (_ & _ & Hend).
  - split; [discriminate|]. vm_compute. discriminate.
  - apply (bool_decide_unpack _). vm_compute. exact I.
  - exact GossipSample.raced.
  - destruct Hend as [H1 H2].
    + intros s' Hs. inversion Hs as [c c' ts i t t' Hi Hst]; subst. by destruct i as [|[|i]]; simplify_eq/=.
    + split; [exact H1|by apply H2].
Defined.
