(* ===== verification/Workers.v ===== *)
(** The goroutines of the miner ([pkg/miner/miner.go]) and the channels between them, as a
    transition system: the director ([MultiCalcDifficulty]), a round's collector
    ([closeStopCh]), searchers ([sectionCalcDifficulty]) and listener, and the loop that
    handles blocks ([KtocoinMiner]).  What they do with the blocks is in [Mining].

    A searcher whose nonce comes while its collector is not at its receive just ends, and with
    the last searcher the round can end only by a signal to break.  A searcher that ends
    because it has tried all of its 2^64 / [cpuNum] nonces is left out: a search is taken to
    find a nonce sooner or later.  The node mines ([NoMining] is false, which makes both signal
    channels), and no other goroutine calls [Start] or [Stop]. *)

From S2P Require Import Prelude.
From stdpp Require Import relations.

(** ** The state *)

(** The director: waiting for a signal, making a block, in a round, or ended by an error. *)
Inductive directing := Waiting | Preparing | Searching | Ended.
(** The listener of the round: in its [select], or with the signal to break in hand, which
    it sends to the collector. *)
Inductive listening := Selecting | Breaking.
(** The loop: in its [select], with a block of its own, or with one of another node. *)
Inductive handling := Selects | OwnBlock | OtherBlock.

#[global] Instance directing_eq_dec : EqDecision directing.
Proof. solve_decision. Defined.
#[global] Instance listening_eq_dec : EqDecision listening.
Proof. solve_decision. Defined.
#[global] Instance handling_eq_dec : EqDecision handling.
Proof. solve_decision. Defined.

(** [MiningSig] and [BreakMiningSig] have room for one signal, [c] and [p] for a hundred
    blocks.  [found] counts the searchers between the collector and [c]; [stale] and [stuck]
    the listeners of past rounds that are still selecting, or sending for ever; [rounds] and
    [blocks] the rounds begun and the nonces that ended one.  Of the round, [searchers] are
    still searching, and [receiving] says whether the collector has come to its receive. *)
Record workers := Workers {
  MiningSig : bool; BreakMiningSig : bool; director : directing; listener : listening;
  found : nat; stale : nat; stuck : nat; c : nat; p : nat; loop : handling; rounds : nat; blocks : nat;
  searchers : nat; receiving : bool;
}.

Definition chanCap : nat := 100.

(** [New] starts the goroutines; the first signal comes from a call of [Start]. *)
Definition started : workers := Workers true false Waiting Selecting 0 0 0 0 0 Selects 0 0 0 false.

Definition set_sig (x : bool) (s : workers) : workers :=
  Workers x (BreakMiningSig s) (director s) (listener s) (found s) (stale s) (stuck s) (c s) (p s) (loop s) (rounds s) (blocks s) (searchers s) (receiving s).
Definition set_brk (x : bool) (s : workers) : workers :=
  Workers (MiningSig s) x (director s) (listener s) (found s) (stale s) (stuck s) (c s) (p s) (loop s) (rounds s) (blocks s) (searchers s) (receiving s).
Definition set_director (x : directing) (s : workers) : workers :=
  Workers (MiningSig s) (BreakMiningSig s) x (listener s) (found s) (stale s) (stuck s) (c s) (p s) (loop s) (rounds s) (blocks s) (searchers s) (receiving s).
Definition set_listener (x : listening) (s : workers) : workers :=
  Workers (MiningSig s) (BreakMiningSig s) (director s) x (found s) (stale s) (stuck s) (c s) (p s) (loop s) (rounds s) (blocks s) (searchers s) (receiving s).
Definition set_left (st sk : nat) (s : workers) : workers :=
  Workers (MiningSig s) (BreakMiningSig s) (director s) (listener s) (found s) st sk (c s) (p s) (loop s) (rounds s) (blocks s) (searchers s) (receiving s).
Definition set_found (f c' : nat) (s : workers) : workers :=
  Workers (MiningSig s) (BreakMiningSig s) (director s) (listener s) f (stale s) (stuck s) c' (p s) (loop s) (rounds s) (blocks s) (searchers s) (receiving s).
Definition set_loop (l : handling) (c' p' : nat) (s : workers) : workers :=
  Workers (MiningSig s) (BreakMiningSig s) (director s) (listener s) (found s) (stale s) (stuck s) c' p' l (rounds s) (blocks s) (searchers s) (receiving s).
Definition count (r b : nat) (s : workers) : workers :=
  Workers (MiningSig s) (BreakMiningSig s) (director s) (listener s) (found s) (stale s) (stuck s) (c s) (p s) (loop s) r b (searchers s) (receiving s).
Definition set_round (n : nat) (r : bool) (s : workers) : workers :=
  Workers (MiningSig s) (BreakMiningSig s) (director s) (listener s) (found s) (stale s) (stuck s) (c s) (p s) (loop s) (rounds s) (blocks s) n r.

(** The non-blocking sends of [Start] and [Stop]. *)
Definition Start : workers → workers := set_sig true.
Definition Stop : workers → workers := set_brk true.

(** The round is over: its other searchers see that [stopCh] is closed, or find no receiver for
    their nonce, and end. *)
Definition over (s : workers) : workers := set_round 0 false (set_director Waiting s).

(** A nonce ends the round: its searcher goes on to send the block. *)
Definition hit (st sk : nat) (s : workers) : workers :=
  count (rounds s) (S (blocks s)) (set_left st sk (set_found (S (found s)) (c s) (over s))).

(** ** The steps *)

Section rounds.

(** The number of processors to search with. *)
Context (cpuNum : positive).

(** The director and a round of its goroutines. *)
Inductive mining_step (s : workers) : workers → Prop :=
  (* the director takes a signal, and begins a round unless the pool or the chain fails *)
  | takes_signal : director s = Waiting → MiningSig s = true → mining_step s (set_director Preparing (set_sig false s))
  | begins : director s = Preparing →
      mining_step s (count (S (rounds s)) (blocks s) (set_round (Pos.to_nat cpuNum) false (set_listener Selecting (set_director Searching s))))
  | gives_up : director s = Preparing → mining_step s (set_director Ended s)
  (* the collector comes to its receive *)
  | receives : director s = Searching → receiving s = false → mining_step s (set_round (searchers s) true s)
  (* a nonce is found while no one receives: the searcher takes the [default] and returns *)
  | misses n : director s = Searching → receiving s = false → searchers s = S n → mining_step s (set_round n false s)
  (* the collector takes one signal, of a searcher or of the listener, and the round is over;
     the listener is left behind, selecting or sending *)
  | hit_selecting : director s = Searching → receiving s = true → (0 < searchers s)%nat → listener s = Selecting →
      mining_step s (hit (S (stale s)) (stuck s) s)
  | hit_breaking : director s = Searching → receiving s = true → (0 < searchers s)%nat → listener s = Breaking →
      mining_step s (hit (stale s) (S (stuck s)) s)
  | takes_break : director s = Searching → listener s = Selecting → BreakMiningSig s = true →
      mining_step s (set_listener Breaking (set_brk false s))
  | breaks : director s = Searching → receiving s = true → listener s = Breaking → mining_step s (over s)
  (* a listener left behind sees that its round is over, or takes a signal that is not for it *)
  | leaves st : stale s = S st → mining_step s (set_left st (stuck s) s)
  | takes_late st : stale s = S st → BreakMiningSig s = true → mining_step s (set_left st (S (stuck s)) (set_brk false s))
  (* the searcher sends the block *)
  | sends f : found s = S f → (c s < chanCap)%nat → mining_step s (set_found f (S (c s)) s).

(** The loop over blocks. *)
Inductive loop_step (s : workers) : workers → Prop :=
  (* a block of its own; [GetBasePledge] may fail, and then nothing is started *)
  | takes_own n : loop s = Selects → c s = S n → loop_step s (set_loop OwnBlock n (p s) s)
  | ends_own : loop s = OwnBlock → loop_step s (set_loop Selects (c s) (p s) (Start s))
  | fails_own : loop s = OwnBlock → loop_step s (set_loop Selects (c s) (p s) s)
  (* a block of another node, for which the miner is stopped first *)
  | takes_other n : loop s = Selects → p s = S n → loop_step s (Stop (set_loop OtherBlock (c s) n s))
  | ends_other : loop s = OtherBlock → loop_step s (set_loop Selects (c s) (p s) (Start s))
  | fails_other : loop s = OtherBlock → loop_step s (set_loop Selects (c s) (p s) s).

Definition inner_step (s s' : workers) : Prop := mining_step s s' ∨ loop_step s s'.

(** [AcceptBlockFromP2P]: a block of another node arrives. *)
Inductive AcceptBlockFromP2P (s : workers) : workers → Prop :=
  | arrives : (p s < chanCap)%nat → AcceptBlockFromP2P s (set_loop (loop s) (c s) (S (p s)) s).

Definition step (s s' : workers) : Prop := inner_step s s' ∨ AcceptBlockFromP2P s s'.

(** ** Rounds *)

(** A round that is not over has yielded nothing yet, and a block is handled once. *)
Definition accounted (s : workers) : Prop :=
  (blocks s + (if decide (director s = Searching) then 1 else 0) ≤ rounds s)%nat ∧
  (c s + found s + (if decide (loop s = OwnBlock) then 1 else 0) ≤ blocks s)%nat.

Lemma step_accounted s s' : step s s' → accounted s → accounted s'.
Proof.
  unfold accounted. intros [[Hs|Hs]|Hs] [H1 H2]; destruct Hs; cbn;
    repeat match goal with H : director s = _ |- _ => rewrite H in * | H : loop s = _ |- _ => rewrite H in * end;
    cbn in *; repeat case_decide; try done; lia.
Qed.

(** *** A node on its own *)

(** Something of the miner is still to come: a signal, a round, or a block. *)
Definition going (s : workers) : Prop :=
  MiningSig s = true ∨ director s = Preparing ∨ director s = Searching ∨ (0 < c s + found s)%nat ∨ loop s = OwnBlock.

(** No block of another node, no signal to break, and no failure. *)
Definition alone (s : workers) : Prop :=
  BreakMiningSig s = false ∧ p s = 0%nat ∧ loop s ≠ OtherBlock ∧ (director s = Searching → listener s = Selecting).

(** The steps that are not failures. *)
Definition fine (s s' : workers) : Prop :=
  inner_step s s' ∧ director s' ≠ Ended ∧ (loop s ≠ Selects → loop s' = Selects → MiningSig s' = true).

Ltac sync := repeat match goal with
  | H : director _ = _ |- _ => rewrite H in * | H : loop _ = _ |- _ => rewrite H in *
  | H : listener _ = _ |- _ => rewrite H in * | H : MiningSig _ = true |- _ => rewrite H in * end.

(** No nonce is found before the collector is at its receive. *)
Definition timely (s s' : workers) : Prop :=
  fine s s' ∧ (director s = Searching → director s' = Searching → searchers s' = searchers s).

(** A round without searchers, which nothing but a signal to break can end. *)
Definition lost (s : workers) : Prop := director s = Searching ∧ searchers s = 0%nat.

(** A step takes something away, unless it begins a round. *)
Definition pending_work (s : workers) : nat :=
  (if decide (director s = Searching) then 6 + searchers s + (if receiving s then 0 else 1) else 0) + 4 * found s + 3 * c s +
  (if decide (loop s = OwnBlock) then 2 else 0) + (if MiningSig s then 1 else 0) + stale s.

(** What holds of a node on its own. *)
Definition lonely (s : workers) : Prop := alone s ∧ director s ≠ Ended ∧ going s.

Lemma started_lonely : lonely started.
Proof. split; [by split_and!|]. split; [done|]. by left. Qed.

Lemma fine_lonely s s' : fine s s' → lonely s →
  lonely s' ∧ (rounds s' = S (rounds s) ∨ rounds s' = rounds s ∧ (pending_work s' < pending_work s)%nat).
Proof.
  unfold fine, lonely, alone, going, pending_work. intros ([Hs|Hs] & He & Hok) ((Hb & Hp & Hl & Hd) & Hend & Hg).
  all: destruct Hs; cbn in *; sync; cbn in *; try congruence; try (specialize (Hd eq_refl); congruence).
  all: repeat match goal with H : receiving _ = _ |- _ => rewrite H in * | H : searchers _ = S _ |- _ => rewrite H in * end.
  all: repeat case_decide; try congruence; split_and!; try done; try lia; try (left; lia); try (right; split; lia); auto with lia.
Qed.

(** Whatever is to be done next can be done, and in a round that has searchers it is timely. *)
Lemma lonely_goes_on s : lonely s → (∃ s', timely s s') ∨ lost s.
Proof.
  unfold lonely, alone, going, timely, fine, lost. intros ((Hb & Hp & Hl & Hd) & Hend & Hg).
  destruct (loop s) eqn:El; [| |done].
  2: { left. eexists. split; [split; [right; by apply ends_own|done]|done]. }
  destruct (director s) eqn:Ed; [| | |done].
  2: { left. eexists. split; [split; [left; by apply begins|]|done]. cbn. by rewrite El. }
  2: { destruct (searchers s) as [|n] eqn:En; [by right|]. left. destruct (receiving s) eqn:Er.
    - eexists. split; [split; [left; apply hit_selecting; [done|done|lia|by apply Hd]|]|done]. cbn. by rewrite El.
    - eexists. split; [split; [left; by apply receives|]|done]. cbn. by rewrite Ed, El. }
  left. destruct (MiningSig s) eqn:Es. { eexists. split; [split; [left; by apply takes_signal|]|done]. cbn. by rewrite El. }
  destruct (c s) as [|n] eqn:Ec.
  2: { eexists. split; [split; [right; by eapply takes_own|]|done]. cbn. by rewrite Ed. }
  destruct (found s) as [|f] eqn:Ef; [naive_solver lia|].
  eexists. split; [split; [left; eapply sends; [done|rewrite Ec; unfold chanCap; lia]|]|done]. cbn. by rewrite Ed, El.
Qed.

(** Searchers are lost only by nonces found too early. *)
Lemma timely_searching s s' : timely s s' → (director s = Searching → (0 < searchers s)%nat) →
  director s' = Searching → (0 < searchers s')%nat.
Proof.
  intros ((Hs & _) & Ht) Hn Hd'. destruct (decide (director s = Searching)) as [Hd|Hd].
  { rewrite (Ht Hd Hd'). auto. }
  destruct Hs as [Hs|Hs]; destruct Hs; cbn in *; try done; lia.
Qed.

Lemma lonely_steps k s s' : nsteps fine k s s' → lonely s →
  lonely s' ∧ (rounds s ≤ rounds s')%nat ∧ (rounds s' = rounds s → (k + pending_work s' ≤ pending_work s)%nat).
Proof.
  induction 1 as [s|k s s1 s2 Hs _ IH]; [auto with lia|]. intros Hl. destruct (fine_lonely _ _ Hs Hl) as [Hl1 Hcase].
  destruct (IH Hl1) as (Hl2 & Hr & Hk). split; [done|]. destruct Hcase as [?|[? ?]]; split; intros; lia.
Qed.

Lemma timely_steps k s s' : nsteps timely k s s' → lonely s → (director s = Searching → (0 < searchers s)%nat) →
  lonely s' ∧ ¬ lost s'.
Proof.
  induction 1 as [s|k s s1 s2 Hs _ IH]; intros Hl Hn.
  { split; [done|]. intros [Hd H0]. specialize (Hn Hd). lia. }
  apply IH; [exact (proj1 (fine_lonely _ _ (proj1 Hs) Hl))|by apply (timely_searching s)].
Qed.

(** Every searcher may find a nonce before the collector is at its receive. *)
Lemma all_miss n : rtc fine (Workers false false Searching Selecting 0 0 0 0 0 Selects 1 0 n false)
  (Workers false false Searching Selecting 0 0 0 0 0 Selects 1 0 0 false).
Proof.
  induction n as [|n IH]; [apply rtc_refl|]. eapply rtc_l; [|exact IH].
  split; [left; exact (misses (Workers false false Searching Selecting 0 0 0 0 0 Selects 1 0 (S n) false) n eq_refl eq_refl eq_refl)|done].
Qed.

Lemma lost_round : ∃ s, rtc fine started s ∧ lost s ∧ ∀ s', ¬ inner_step s s'.
Proof.
  exists (Workers false false Searching Selecting 0 0 0 0 0 Selects 1 0 0 true). split_and!.
  - eapply rtc_l; [split; [left; by apply takes_signal|done]|].
    eapply rtc_l; [split; [left; by apply begins|done]|].
    etrans; [apply all_miss|]. eapply rtc_once. split; [left; by apply receives|done].
  - done.
  - intros s' [Hs|Hs]; destruct Hs; cbn in *; congruence || lia.
Qed.

(** C35: a node that hears nothing from others, and where nothing fails, goes on mining, but for
    rounds that lose their searchers: as long as no nonce is found before the round's collector
    is at its receive, there is always a next step, whatever the goroutines did since the
    start; in general there is one unless a round is left without searchers; and before more
    steps are made than there is work pending another round has begun.  A round can be left
    without searchers, with nothing that ends it: each searcher finds a nonce too early and
    returns. *)
Theorem miner_goes_on :
  (∀ k s, nsteps timely k started s → ∃ s', timely s s') ∧
  (∀ k s, nsteps fine k started s →
    ((∃ s', fine s s') ∨ lost s) ∧
    ∀ j s', nsteps fine j s s' → (pending_work s < j)%nat → (rounds s < rounds s')%nat) ∧
  ∃ s, rtc fine started s ∧ lost s ∧ ∀ s', ¬ inner_step s s'.
Proof.
  split_and!; [| |exact lost_round].
  - intros k s Hs. destruct (timely_steps _ _ _ Hs started_lonely) as [Hl Hn]; [done|].
    by destruct (lonely_goes_on s Hl).
  - intros k s Hs. destruct (lonely_steps _ _ _ Hs started_lonely) as (Hl & _ & _). split.
    { destruct (lonely_goes_on s Hl) as [(s' & Hs' & _)|?]; eauto. }
    intros j s' Hj Hlt. destruct (lonely_steps _ _ _ Hj Hl) as (_ & Hr & Hk).
    destruct (decide (rounds s' = rounds s)) as [He|?]; [specialize (Hk He); lia|lia].
Qed.

(** ** A node that hears from others *)

(** Nothing fails, and blocks may arrive. *)
Definition ordinary (s s' : workers) : Prop := fine s s' ∨ AcceptBlockFromP2P s s'.

Ltac go_on r := eapply rtc_l; [left; split; [first [left; eapply r|right; eapply r]; first [reflexivity|unfold chanCap; cbn; lia]|split; [discriminate|first [reflexivity|intros; discriminate|intros Hx; by destruct Hx]]]|]; cbn.
Ltac one_arrives := eapply rtc_l; [right; apply arrives; cbn; unfold chanCap; lia|]; cbn.

(** A block that comes while the signal to begin has not been taken yet: the signal to break
    stays for the round to come, and the [Start] after the block is dropped. *)
Lemma one_stalls : ∃ s, rtc ordinary started s ∧ director s = Waiting ∧ ∀ s', ¬ inner_step s s'.
Proof.
  eexists. split.
  - unfold started. one_arrives. go_on takes_other. go_on ends_other.
    go_on takes_signal. go_on begins. go_on takes_break. go_on receives. go_on breaks. apply rtc_refl.
  - split; [done|]. intros s' [Hs|Hs]; by destruct Hs.
Qed.

(** The miner between two rounds, with listeners that send for ever. *)
Definition between (l : listening) (sk r b : nat) : workers := Workers true false Waiting l 0 0 sk 0 0 Selects r b 0 false.

(** A nonce is found between the listener's two steps: no one takes what it sends. *)
Lemma one_stuck l sk r b : rtc ordinary (between l sk r b) (between Breaking (S sk) (S r) (S b)).
Proof.
  unfold between. go_on takes_signal. go_on begins. one_arrives. go_on takes_other. go_on takes_break.
  go_on receives. go_on hit_breaking. go_on ends_other. go_on sends. go_on takes_own. go_on ends_own. apply rtc_refl.
Qed.

(** C36: blocks of other nodes can stop a miner for good, and leave goroutines behind: without
    any failure, a block that comes before the first round has begun can bring the node to
    a state in which no goroutine has a step left and none waits for anything but another
    block; and any number of listeners can end up sending to a collector that is gone. *)
Theorem network_stalls_mining :
  (∃ s, rtc ordinary started s ∧ director s = Waiting ∧ ∀ s', ¬ inner_step s s') ∧
  ∀ n, ∃ s, rtc ordinary started s ∧ stuck s = n.
Proof.
  split; [exact one_stalls|]. intros n.
  assert (∃ l b, rtc ordinary started (between l n n b)) as (l & b & Hs).
  { induction n as [|n (l & b & IH)]; [exists Selecting, 0%nat; apply rtc_refl|].
    exists Breaking, (S b). etrans; [exact IH|]. apply one_stuck. }
  by exists (between l n n b).
Qed.

(** However the goroutines interleave, a round yields at most one block, and the loop handles
    a block at most once. *)
Lemma one_block_per_round s : rtc step started s → (c s + found s ≤ blocks s ≤ rounds s)%nat.
Proof.
  intros Hs. enough (accounted s) as [H1 H2] by (repeat case_decide; lia).
  assert (accounted started) as H0 by (split; vm_compute; lia). revert H0.
  induction Hs as [s|s s1 s2 Hst _ IH]; [done|]. intros Ha. by apply IH, (step_accounted s).
Qed.

End rounds.

Lemma miner_goes_on_witness : ∃ s', timely 4 started s'.
Proof. exact (proj1 (miner_goes_on 4) 0%nat started (nsteps_O (timely 4) started)). Defined.
