(* ===== verification/Control.v ===== *)
(** Messages from other nodes ([pkg/controller/controller.go]): what a node does with gossip,
    with an announced block, and with a connection.

    The transaction pool is the one of [Pool]; the peer is a [Greeter]; what the block chain and the miner's
    orphans answer during a call is an argument, by the round of the loop, since other
    goroutines change them meanwhile.  JSON is an argument. *)

From S2P Require Import Prelude Misc Badger BgStore Base58 Cbor Address Transaction Block.
From S2P Require Import Ledger World Apply Strconv Queue Pool Peer Sync.

Definition TypeTransaction : byte := Byte.x00.
Definition TypeBlock : byte := Byte.x01.
Definition TypeBlockHead : byte := Byte.x02.
Definition TypeIPs : byte := Byte.x03.

Record BlockHead := MkHead { hd_Height : Z; hd_Hash : bytes; hd_Host : bytes; hd_Port : bytes; hd_GenesisHash : bytes }.

(** The pool, the peer that announced the block, and the channel of blocks for the miner
    ([AcceptBlockFromP2P]). *)
Record Controller (BC P : Type) := Ctl { ct_pool : Pool BC; ct_peer : P; p2pChan : list Block }.
Arguments Ctl {BC P} ct_pool ct_peer p2pChan.
Arguments ct_pool {BC P} c.
Arguments ct_peer {BC P} c.
Arguments p2pChan {BC P} c.

Section Control.
Context {BC P : Type} `{!IBlockchain BC, !SyncChain BC, !Greeter P, !CborHeader, !Crypto, !EthCommon, !EvmData}.
Variables (g : globals) (now : Z) (AdvertiseAddr GenesisHash : bytes).
Variable json_Unmarshal : bytes → res BlockHead.
(** The connection to the host that announced the block. *)
Variable NewInsideClient : res unit.
(** [GetBlockByHash] of the chain and [OrphanBlockIsExist] in a round. *)
Variables (known : nat → bytes → res Block) (orphan : nat → bytes → option Block).

Abbreviation M := (stM (Controller BC P)).
Definition on_pool {A} : stM (Pool BC) A → M A := zoom ct_pool (λ x c, Ctl x (ct_peer c) (p2pChan c)).
Definition on_peer {A} : stM P A → M A := zoom ct_peer (λ x c, Ctl (ct_pool c) x (p2pChan c)).
Definition AcceptBlockFromP2P (b : Block) : M unit :=
  st_modify (λ c, Ctl (ct_pool c) (ct_peer c) (p2pChan c ++ [b])).

(** [client.GetBlockByHash] *)
Definition peer_block (hash : bytes) : stM P Block := data ← rpc_GetBlock hash; st_lift (Deserialize data).

(** ** An announced block *)

(** Back from the announced hash to a block the chain has: the blocks between come from
    the orphans or from the peer, and those of the peer go to the miner.  [None] is a
    walk that has not ended after so many rounds, which the code does not bound. *)
Fixpoint head_loop (fuel i : nat) (hash : bytes) (connected : bool) : M (option unit) :=
  match fuel with
  | O => mret None
  | S fuel =>
      match known i hash with
      | Ok _ => mret (Some tt)
      | Panic => st_panic
      | Err _ =>
          match orphan i hash with
          | Some b => head_loop fuel (S i) (PrevHash b) connected
          | None =>
              (if connected then mret tt else st_lift NewInsideClient) ;;
              b ← on_peer (peer_block hash);
              AcceptBlockFromP2P b ;;
              head_loop fuel (S i) (PrevHash b) true
          end
      end
  end.

(** The sum of the announced height and 100 is a uint64. *)
Definition HandleBlockHeadMessage (fuel : nat) (msg : bytes) : M (option unit) :=
  blockHead ← st_lift (json_Unmarshal msg);
  if decide (hd_Host blockHead = AdvertiseAddr) then mret (Some tt) else
  h ← (λ c, (sc_GetMaxBlockHeight (pbc (ct_pool c)), c));
  if decide (hd_Height blockHead +₆₄ 100 < h) then mret (Some tt) else
  if decide (hd_GenesisHash blockHead ≠ GenesisHash) then mret (Some tt) else
  head_loop fuel 0 (hd_Hash blockHead) false.

(** ** Gossip *)

Definition HandleTransactionMessage (msg : bytes) : M unit :=
  st ← st_lift (DeserializeSignaturedTransaction msg);
  on_pool (Add g now st).

Definition HandleIPsMessage (msg : bytes) : M unit := mret tt.

(** The function that is registered for gossip. *)
Definition RegisterHandleFunc (fuel : nat) (msg : bytes) : M (option unit) :=
  match msg with
  | [] => st_err (ErrMsg "invalid message")
  | t :: data =>
      if decide (t = TypeTransaction) then HandleTransactionMessage data ;; mret (Some tt)
      else if decide (t = TypeBlockHead) then HandleBlockHeadMessage fuel data
      else if decide (t = TypeIPs) then HandleIPsMessage data ;; mret (Some tt)
      else st_err (ErrMsg "unknown msg type")
  end.

End Control.

(** ** Connections *)

Section Conn.
Context `{!CborHeader}.
(** How many bytes the network has ready at a read, by the number of the read. *)
Variable ready : nat → nat.

(** What is still to come, the number of the next read, and the blocks handed to the miner. *)
Record Conn := MkConn { stream : bytes; reads : nat; accepted : list Block }.
Abbreviation N := (stM Conn).

(** [conn.Read] of [n] bytes gives at least one, and as many as are there at most; an error
    at the end. *)
Definition Read (n : nat) : N bytes := λ c,
  if decide (n = 0%nat) then (Ok [], c) else
  match stream c with
  | [] => (err "EOF", c)
  | s => let k := Nat.max 1 (Nat.min n (ready (reads c))) in
         (Ok (take k s), MkConn (drop k s) (S (reads c)) (accepted c))
  end.

(** A buffer after a read into its front. *)
Definition fill_front (r buf : bytes) : bytes := r ++ drop (length r) buf.

(** An empty message panics. *)
Definition handleMessage (msg : bytes) : N unit :=
  match msg with
  | [] => st_panic
  | t :: data =>
      if decide (t = TypeBlock) then
        or_return (st_lift (Deserialize data)) tt (λ b,
        st_modify (λ c, MkConn (stream c) (reads c) (accepted c ++ [b])))
      else mret tt
  end.

(** The buffer of the length is the same in all rounds; after an error of a read the
    connection is closed.  [n] rounds. *)
Fixpoint conn_loop (n : nat) (head : bytes) : N unit :=
  match n with
  | O => mret tt
  | S n =>
      or_return (Read 4) tt (λ r,
      let head := fill_front r head in
      l ← st_lift (D32func head);
      let msg := replicate (Z.to_nat l) Byte.x00 in
      or_return (Read (Z.to_nat l)) tt (λ r,
      handleMessage (fill_front r msg) ;;
      conn_loop n head))
  end.

(** Every round reads a byte of the length at least, so that the rounds are enough. *)
Definition handleConn : N unit := λ c, conn_loop (S (length (stream c))) (replicate 4 Byte.x00) c.

End Conn.
