(* ===== verification/ControlFacts.v ===== *)
(** What announcing a block leads to, and which messages are read from a connection. *)

From S2P Require Import Prelude Misc Badger BgStore Base58 Cbor Address Transaction Block.
From S2P Require Import Ledger World Apply Strconv Queue Pool PoolFacts Peer Sync Control.

Section Head.
Context {BC P : Type} `{!IBlockchain BC, !SyncChain BC, !Greeter P, !CborHeader, !Crypto, !EthCommon, !EvmData}.
Variables (AdvertiseAddr GenesisHash : bytes) (json_Unmarshal : bytes → res BlockHead) (NewInsideClient : res unit).
Variables (known : nat → bytes → res Block) (orphan : nat → bytes → option Block).
Implicit Types (c : Controller BC P).

(** A peer that answers a question for a block always in the same way. *)
Definition answers (ask : bytes → res Block) : Prop := ∀ hash p, peer_block hash p = (ask hash, p).

(** The last [n] blocks up to a hash, the newest first, and the hash before them. *)
Fixpoint back (ask : bytes → res Block) (n : nat) (hash : bytes) : option (list Block * bytes) :=
  match n with
  | O => Some ([], hash)
  | S n =>
      match ask hash with
      | Ok b => '(bs, h) ← back ask n (PrevHash b); Some (b :: bs, h)
      | _ => None
      end
  end.

(** Neither the chain nor the orphans have the block in that round. *)
Definition missing (i : nat) (hash : bytes) : Prop := (∃ e, known i hash = Err e) ∧ orphan i hash = None.

Definition with_chan (l : list Block) c : Controller BC P := Ctl (ct_pool c) (ct_peer c) l.

(** A round that asks the peer. *)
Lemma head_loop_asks ask fuel i hash (connected : bool) b c : answers ask → missing i hash → ask hash = Ok b →
  (connected = false → NewInsideClient = Ok tt) →
  head_loop NewInsideClient known orphan (S fuel) i hash connected c =
  head_loop NewInsideClient known orphan fuel (S i) (PrevHash b) true (with_chan (p2pChan c ++ [b]) c).
Proof.
  intros Hans [[e He] Ho] Hb Hc. cbn [head_loop]. rewrite He, Ho.
  assert (∀ k : unit → stM (Controller BC P) (option unit),
    ((if connected then mret tt else st_lift NewInsideClient) ≫= k) c = k tt c) as Hconn.
  { intros k. destruct connected; [done|]. by rewrite Hc. }
  rewrite Hconn. unfold on_peer. erewrite st_bind_eq.
  2: { unfold zoom. rewrite Hans, Hb. reflexivity. }
  by destruct c.
Qed.

Lemma head_loop_delivers ask fuel : answers ask → ∀ n i hash bs stop connected c,
  back ask n hash = Some (bs, stop) → (connected = false → NewInsideClient = Ok tt) →
  (∀ j h, (j < n)%nat → (hash :: (PrevHash <$> bs)) !! j = Some h → missing (i + j) h) →
  is_Ok (known (i + n) stop) → (n < fuel)%nat →
  head_loop NewInsideClient known orphan fuel i hash connected c = (Ok (Some tt), with_chan (p2pChan c ++ bs) c).
Proof.
  intros Hans. induction fuel as [|fuel IH]; intros n i hash bs stop connected c Hb Hc Hmiss Hstop Hn; [lia|].
  destruct n as [|n]; cbn [back] in Hb.
  - injection Hb as <- <-. rewrite Nat.add_0_r in Hstop. destruct Hstop as [b Hb]. cbn [head_loop]. rewrite Hb.
    rewrite app_nil_r. by destruct c.
  - destruct (ask hash) as [b|e|] eqn:Hask; [|done..].
    apply bind_Some in Hb as ([bs' h'] & Hb & [= <- <-]).
    erewrite head_loop_asks; [|done| |done|done].
    2: { specialize (Hmiss 0%nat hash ltac:(lia) eq_refl). by rewrite Nat.add_0_r in Hmiss. }
    rewrite (IH n (S i) (PrevHash b) bs' h' true); try done; [| | |lia].
    + by destruct c; cbn; rewrite <- app_assoc.
    + intros j h Hj Hl. replace (S i + j)%nat with (i + S j)%nat by lia. apply Hmiss; [lia|exact Hl].
    + by replace (S i + n)%nat with (i + S n)%nat by lia.
Qed.

(** The announcement is not this node's own, not of another network, and not of a block more
    than 100 below the tip; the sum is a uint64. *)
Definition worth_asking (h : Z) (head : BlockHead) : Prop :=
  hd_Host head ≠ AdvertiseAddr ∧ h ≤ hd_Height head +₆₄ 100 ∧ hd_GenesisHash head = GenesisHash.

Lemma HandleBlockHead_run fuel msg head h c :
  json_Unmarshal msg = Ok head → sc_GetMaxBlockHeight (pbc (ct_pool c)) = Ok h →
  (worth_asking h head →
    HandleBlockHeadMessage AdvertiseAddr GenesisHash json_Unmarshal NewInsideClient known orphan fuel msg c =
      head_loop NewInsideClient known orphan fuel 0 (hd_Hash head) false c) ∧
  (¬ worth_asking h head →
    HandleBlockHeadMessage AdvertiseAddr GenesisHash json_Unmarshal NewInsideClient known orphan fuel msg c =
      (Ok (Some tt), c)).
Proof.
  intros Hj Hh. unfold HandleBlockHeadMessage, worth_asking. rewrite Hj.
  erewrite st_bind_eq by reflexivity. case_decide as Ha1; [by split; [tauto|]|].
  erewrite st_bind_eq by (cbn; by rewrite Hh). case_decide as Ha2; [split; [lia|done]|].
  case_decide as Ha3; [by split; [tauto|]|]. split; [done|]. intros Hn. destruct Hn. split_and!; [done|lia|done].
Qed.

(** C37: an announced block brings what is missing: when the announcement is of this network,
    not the node's own and not too low, and walking back from the announced hash by
    the peer's answers meets a block the chain has after [n] blocks that neither the chain nor
    the orphans had, exactly these [n] blocks go to the miner, the announced one first and
    each followed by its parent.  Other announcements do nothing.  The blocks are taken as
    the peer gives them: their hashes are not compared with the ones asked for. *)
Theorem announced_delivered ask fuel msg head h n bs stop c :
  answers ask → NewInsideClient = Ok tt →
  json_Unmarshal msg = Ok head → sc_GetMaxBlockHeight (pbc (ct_pool c)) = Ok h →
  back ask n (hd_Hash head) = Some (bs, stop) →
  (∀ i k, (i < n)%nat → (hd_Hash head :: (PrevHash <$> bs)) !! i = Some k → missing i k) →
  is_Ok (known n stop) → (n < fuel)%nat →
  HandleBlockHeadMessage AdvertiseAddr GenesisHash json_Unmarshal NewInsideClient known orphan fuel msg c =
    (Ok (Some tt), with_chan (p2pChan c ++ (if decide (worth_asking h head) then bs else [])) c).
Proof.
  intros Hans Hc Hj Hh Hb Hm Hk Hn. destruct (HandleBlockHead_run fuel msg head h c Hj Hh) as [Ha1 Ha2].
  case_decide as Hw.
  - rewrite (Ha1 Hw). by eapply head_loop_delivers.
  - rewrite (Ha2 Hw). rewrite app_nil_r. by destruct c.
Qed.

(** Nothing bounds the walk: a peer that always has one more block the node does not know
    makes it go on for ever, and every round puts another block on the miner's channel. *)
Theorem announced_endless ask fuel i hash connected c :
  answers ask → (connected = false → NewInsideClient = Ok tt) →
  (∀ h, is_Ok (ask h)) → (∀ j h, missing j h) →
  ∃ bs, length bs = fuel ∧
    head_loop NewInsideClient known orphan fuel i hash connected c = (Ok None, with_chan (p2pChan c ++ bs) c).
Proof.
  intros Hans Hc Hask Hmiss. revert i hash connected c Hc.
  induction fuel as [|fuel IH]; intros i hash connected c Hc.
  { exists []. rewrite app_nil_r. by destruct c. }
  destruct (Hask hash) as [b Hb]. erewrite head_loop_asks by done.
  destruct (IH (S i) (PrevHash b) true (with_chan (p2pChan c ++ [b]) c)) as (bs & Hl & Hr); [done|].
  exists (b :: bs). split; [simpl; lia|]. rewrite Hr. destruct c. cbn. by rewrite <- app_assoc.
Qed.

End Head.

(** ** Connections *)

Section Conn.
Context `{!CborHeader}.
Variable ready : nat → nat.

(** A message behind its length. *)
Definition frame (m : bytes) : bytes := E32func (Z.of_nat (length m)) ++ m.

Lemma length_frame m : length (frame m) = (4 + length m)%nat.
Proof. unfold frame. by rewrite length_app, length_E32func. Qed.

(** The blocks in messages. *)
Definition block_of (m : bytes) : option Block :=
  match m with
  | t :: data => if decide (t = TypeBlock) then match Deserialize data with Ok b => Some b | _ => None end else None
  | [] => None
  end.

(** A message that can be framed and read. *)
Definition sound (m : bytes) : Prop :=
  m ≠ [] ∧ Z.of_nat (length m) < 2 ^ 32 ∧ ∀ t data, m = t :: data → Deserialize data ≠ Panic.

Lemma Read_whole x s i acc : x ≠ [] → (length x ≤ ready i)%nat →
  Read ready (length x) (MkConn (x ++ s) i acc) = (Ok x, MkConn s (S i) acc).
Proof.
  intros Hx Hr. unfold Read. rewrite decide_False by (by destruct x). cbn [stream reads accepted].
  destruct (x ++ s) as [|y l] eqn:E; [by destruct x|]. rewrite <- E.
  assert (length x ≠ 0%nat) by (by destruct x). replace (Nat.max 1 (Nat.min (length x) (ready i))) with (length x) by lia.
  by rewrite take_app_length, drop_app_length.
Qed.

Lemma handle_sound m s i acc : sound m →
  handleMessage m (MkConn s i acc) = (Ok tt, MkConn s i (acc ++ omap block_of [m])).
Proof.
  intros (Hm & _ & Hp). destruct m as [|t data]; [done|]. specialize (Hp t data eq_refl). cbn [handleMessage omap list_omap block_of].
  case_decide; cbn; [|by rewrite app_nil_r]. unfold or_return, st_lift.
  destruct (Deserialize data); [done|by rewrite app_nil_r|done].
Qed.

Lemma fill_front_all r buf : length r = length buf → fill_front r buf = r.
Proof. intros Hl. unfold fill_front. by rewrite Hl, drop_all, app_nil_r. Qed.

Lemma conn_loop_frames ms : Forall sound ms → ∀ n head i acc, length head = 4%nat → (length ms < n)%nat →
  (∀ j, (length (concat (frame <$> ms)) ≤ ready j)%nat) →
  ∃ i', conn_loop ready n head (MkConn (concat (frame <$> ms)) i acc) = (Ok tt, MkConn [] i' (acc ++ omap block_of ms)).
Proof.
  induction 1 as [|m ms Hm _ IH]; intros n head i acc Hhead Hn Hr; (destruct n as [|n]; [simpl in Hn; lia|]).
  { exists i. cbn. unfold or_return, Read. cbn. by rewrite app_nil_r. }
  rewrite fmap_cons in *. cbn [concat] in *. cbn [conn_loop].
  pose proof Hm as (Hne & Hlt & _).
  assert (length (E32func (Z.of_nat (length m))) = 4%nat) as Hl4 by apply length_E32func.
  assert (∀ j, (4 ≤ ready j ∧ length m ≤ ready j ∧ length (concat (frame <$> ms)) ≤ ready j)%nat) as Hr'.
  { intros j. specialize (Hr j). rewrite length_app, length_frame in Hr. lia. }
  unfold or_return at 1. unfold frame at 1. rewrite <- app_assoc.
  assert (∀ x, Read ready 4 x = Read ready (length (E32func (Z.of_nat (length m)))) x) as -> by (intros; by rewrite Hl4).
  rewrite Read_whole; [|by intros E; rewrite E in Hl4|rewrite Hl4; apply Hr'].
  rewrite fill_front_all by congruence. rewrite (D32_E32 (Z.of_nat (length m))) by (unfold is_u32; lia).
  erewrite st_bind_eq by reflexivity. rewrite Nat2Z.id. unfold or_return.
  rewrite Read_whole by (done || apply Hr'). rewrite fill_front_all by (by rewrite length_replicate).
  erewrite st_bind_eq by (by apply handle_sound).
  destruct (IH n (E32func (Z.of_nat (length m))) (S (S i)) (acc ++ omap block_of [m])) as [i' Hi']; [done|simpl in Hn; lia|apply Hr'|].
  exists i'. rewrite Hi'. do 2 f_equal. rewrite <- app_assoc. f_equal. cbn. by destruct (block_of m).
Qed.

(** A connection reads back what was framed, when every read gives all it asks for: of
    messages that each begin with their length, the blocks reach the miner, all of them and in
    order, and the connection ends with the stream. *)
Theorem conn_roundtrip (ms : list bytes) (i : nat) (acc : list Block) :
  Forall sound ms → (∀ j, (length (concat (frame <$> ms)) ≤ ready j)%nat) →
  ∃ i', handleConn ready (MkConn (concat (frame <$> ms)) i acc) = (Ok tt, MkConn [] i' (acc ++ omap block_of ms)).
Proof.
  intros Hms Hr. apply conn_loop_frames; [done|done| |done]. cbn [stream].
  clear Hr. induction Hms as [|m ms [Hm _] _ IH]; [simpl; lia|]. rewrite fmap_cons. cbn [concat length].
  rewrite length_app, length_frame. lia.
Qed.

End Conn.

(** ** Concrete announcements and connections *)

Module ControlSample.
Import CryptoInstance PoolSample.

(** The node's chain is a height; its peer knows one block, and gives it whatever is asked. *)
#[local] Instance chain : SyncChain sample := {
  sc_GetMaxBlockHeight _ := Ok 5; sc_GetBlockByHeight _ _ := Err NotExist; sc_GetBlockByHash _ _ := Err NotExist;
  sc_AddBlock _ := mret tt; sc_AddBlocks _ := mret tt; sc_DeleteBlock _ := mret tt; sc_AddUncleBlock _ := mret tt;
  sc_ReorganizeChain _ _ := mret tt;
}.
Definition wire : bytes := match Serialize sample_block with Ok d => d | _ => [] end.
#[local] Instance peer : Greeter unit := {
  rpc_SyncBlockchain _ _ := st_err NotExist; rpc_GetBlockchain _ _ := st_err NotExist;
  rpc_GetBlock _ := mret wire; rpc_GetBlockTip := st_err NotExist; rpc_GetBlockHashsByHeight _ := st_err NotExist;
  rpc_FindbranchPoint _ _ := st_err NotExist; rpc_SendBlock _ _ := st_err NotExist; rpc_GetTransactions := st_err NotExist;
  rpc_VerifyVersion := st_err NotExist; rpc_GetIPAddress := st_err NotExist;
}.

Definition ask (hash : bytes) : res Block := Ok sample_block.
Lemma reads_back : Deserialize wire = Ok sample_block.
Proof. vm_compute. reflexivity. Qed.
Lemma asks : answers (P := unit) ask.
Proof. intros hash p. unfold peer_block. erewrite st_bind_eq by reflexivity. unfold st_lift. by rewrite reads_back. Qed.

(** The chain has the parent of the block, or nothing. *)
Definition known (i : nat) (hash : bytes) : res Block :=
  if decide (hash = PrevHash sample_block) then Ok sample_block else Err NotExist.
Definition head : BlockHead := MkHead 60350423 (BHash sample_block) [] [] [].
Definition c : Controller sample unit := Ctl (pool rich []) tt [].

(** One length and its message, read in two parts: what is left of the message is taken for
    a length of 0, and the empty message panics. *)
Definition eight : bytes := replicate 8 Byte.x00.
Lemma torn_panics :
  (handleConn (λ _, 4%nat) (MkConn (frame eight) 0 [])).1 = Panic ∧
  (handleConn (λ _, 12%nat) (MkConn (frame eight) 0 [])).1 = Ok tt.
Proof. vm_compute. split; reflexivity. Qed.

Definition messages : list bytes := [eight; TypeBlock :: wire].
Lemma messages_sound : Forall sound messages.
Proof.
  apply Forall_cons_2; [|apply Forall_singleton]; (split; [discriminate|split; [vm_compute; reflexivity|]]); intros t data [= <- <-].
  - vm_compute. discriminate.
  - rewrite reads_back. discriminate.
Qed.

End ControlSample.

#[local] Existing Instances ControlSample.chain ControlSample.peer.

Lemma announced_delivered_witness :
  HandleBlockHeadMessage [Byte.x61] [] (λ _, Ok ControlSample.head) (Ok tt) ControlSample.known (λ _ _, None) 2 []
    ControlSample.c = (Ok (Some tt), with_chan [sample_block] ControlSample.c).
Proof.
  pose proof (announced_delivered [Byte.x61] [] (λ _, Ok ControlSample.head) (Ok tt) ControlSample.known (λ _ _, None)
    ControlSample.ask 2 [] ControlSample.head 5 1 [sample_block] (PrevHash sample_block) ControlSample.c
    ControlSample.asks eq_refl eq_refl eq_refl eq_refl) as H.
  rewrite H; [| |eexists; vm_compute; reflexivity|repeat constructor].
  - rewrite decide_True; [reflexivity|]. split; [discriminate|]. split; [vm_compute; discriminate|reflexivity].
  - intros i k Hi Hk. destruct i as [|i]; [|lia]. injection Hk as <-. split; [|reflexivity].
    eexists. vm_compute. reflexivity.
Defined.

Lemma announced_endless_witness :
  ∃ bs, length bs = 7%nat ∧
    head_loop (P := unit) (Ok tt) (λ _ _, Err NotExist) (λ _ _, None) 7 0 [] false ControlSample.c =
      (Ok None, with_chan bs ControlSample.c).
Proof.
  destruct (announced_endless (Ok tt) (λ _ _, Err NotExist) (λ _ _, None) ControlSample.ask 7 0 [] false ControlSample.c
    ControlSample.asks) as (bs & Hl & Hr).
  - reflexivity.
  - intros h. eexists. reflexivity.
  - intros j h. split; [eexists; reflexivity|reflexivity].
  - exists bs. split; [exact Hl|exact Hr].
Defined.

Lemma conn_roundtrip_witness :
  ∃ i', handleConn (λ _, 2000%nat) (MkConn (concat (frame <$> ControlSample.messages)) 0 []) =
    (Ok tt, MkConn [] i' [sample_block]).
Proof.
  destruct (conn_roundtrip (λ _, 2000%nat) ControlSample.messages 0 [] ControlSample.messages_sound) as [i' Hi'].
  - intros j. apply Nat.leb_le. vm_compute. reflexivity.
  - exists i'. rewrite Hi'. cbn [omap list_omap ControlSample.messages block_of].
    rewrite ControlSample.reads_back. vm_compute. reflexivity.
Defined.
